(** * BiaPy post-processing: a shallow embedding of
      [data/post_processing/post_processing.py] and the properties of its
      threshold calibration, watershed, ensembling, circularity filtering,
      Voronoi filling and point thinning routines.

    Conventions.
    - Python integers are [Z]; loop counters and positions that can never be
      negative are [nat].
    - Probabilities, thresholds and shape descriptors whose rounding plays
      no part are exact rationals [Q].  Where the code rounds, the rounding
      is modelled: the coordinates of detected points and the predictions
      that are averaged are binary64 numbers ([float]), and the [float32]
      array of circularities holds rationals rounded to binary32.
    - NumPy arrays are a shape together with an indexing function (module
      [NdArray]) or, where only voxel-wise operations are used, the flat list
      of their voxels.
    - Calls into SciPy / scikit-image / the network are section variables;
      what is assumed of them is stated as section hypotheses. *)

From Stdlib Require Import ZArith QArith Qabs Qround List Bool Lia.
From Stdlib Require Import FunctionalExtensionality Floats.
From stdpp Require Import base tactics option list strings gmap.
Import ListNotations.

Local Open Scope Z_scope.

(** ** Python helpers *)

(** [sys.maxsize] on a 64-bit CPython. *)
Definition maxsize : Z := 2 ^ 63 - 1.

(** [l[i]] with Python's negative indexing; [None] is [IndexError]. *)
Definition py_index {A} (l : list A) (i : Z) : option A :=
  let n := Z.of_nat (length l) in
  if (0 <=? i) && (i <? n) then l !! Z.to_nat i
  else if (- n <=? i) && (i <? 0) then l !! Z.to_nat (n + i)
  else None.

(** [int(x / 2)] for an integer [x]: true division, then truncation. *)
Definition int_half (x : Z) : Z := Z.quot x 2.

(** ** Python exceptions as results *)

Inductive py_error :=
| UnboundLocalError | KeyError | ValueError | IndexError | ZeroDivisionError.

Inductive result (A : Type) :=
| Ok (a : A)
| Raise (e : py_error).
Arguments Ok {A} _.
Arguments Raise {A} _.

#[global] Instance result_ret : MRet result := fun A x => Ok x.
#[global] Instance result_bind : MBind result := fun A B f m =>
  match m with
  | Ok a => f a
  | Raise e => Raise e
  end.

#[global] Instance result_fmap : FMap result := fun A B f m =>
  match m with
  | Ok a => Ok (f a)
  | Raise e => Raise e
  end.

(** An absent value raises [e]. *)
Definition or_raise {A} (e : py_error) (o : option A) : result A :=
  match o with
  | Some a => Ok a
  | None => Raise e
  end.

(** [for x in l: s = body(s, x)] with exceptions. *)
Fixpoint for_each {S X} (body : S -> X -> result S) (l : list X) (s : S)
  : result S :=
  match l with
  | [] => Ok s
  | x :: l' => s' ← body s x; for_each body l' s'
  end.

(** [l.index(x)] on a list of integers; [None] is [ValueError]. *)
Fixpoint list_index (x : Z) (l : list Z) : option nat :=
  match l with
  | [] => None
  | y :: l' => if y =? x then Some 0%nat else S <$> list_index x l'
  end.

(** [a / b] on floats: division by zero raises. *)
Definition py_div (a b : Q) : result Q :=
  if Qeq_bool b 0 then Raise ZeroDivisionError else Ok (a / b)%Q.

(** [math.pi], the double nearest to pi. *)
Definition math_pi : Q := 884279719003555 # 281474976710656.

(** [l] with position [i] replaced ([l[i] = x], [i] in range). *)
Definition list_set {A} (i : nat) (x : A) (l : list A) : list A := <[i := x]> l.

(** Sorted distinct values of a list of integers ([np.unique]). *)
Fixpoint insert_unique (x : Z) (l : list Z) : list Z :=
  match l with
  | [] => [x]
  | y :: l' => if x <? y then x :: l
               else if x =? y then l else y :: insert_unique x l'
  end.

Definition np_unique (l : list Z) : list Z :=
  fold_right insert_unique [] l.


(** ** Binary floating-point rounding of exact values *)

Module Rounding.

(** A floating-point datum without the sign of zero: a finite value, an
    infinity or a NaN. *)
Inductive fnum := Finite (q : Q) | Infinite (negative : bool) | NaN.

(** [2 ^ e] for any integer [e]. *)
Definition pow2 (e : Z) : Q :=
  if 0 <=? e then inject_Z (2 ^ e) else 1 # Z.to_pos (2 ^ (- e)).

(** The largest [e] with [2 ^ e <= n / d], for positive [n] and [d]. *)
Definition exponent (n d : Z) : Z :=
  if d <=? n then Z.log2 (n / d) else - Z.log2_up ((d + n - 1) / n).

(** The integer nearest to [num / den] for a positive [den], the even one
    of two that are equally near. *)
Definition nearest_even (num den : Z) : Z :=
  let q := num / den in
  let r := num mod den in
  if 2 * r <? den then q
  else if den <? 2 * r then q + 1
  else if Z.even q then q else q + 1.

(** [x] rounded to the nearest number of the IEEE 754 binary format with
    [prec] significant digits and exponents below [emax], ties to even:
    the spacing of the numbers around [x] is [2 ^ q], with the subnormal
    spacing [2 ^ (3 - emax - prec)] as the smallest, and a result of
    [2 ^ emax] or more is an infinity.  The result is in lowest terms. *)
Definition round_to (prec emax : Z) (x : Q) : fnum :=
  let x := Qred x in
  let n := Z.abs (Qnum x) in
  let d := Zpos (Qden x) in
  if n =? 0 then Finite 0
  else
    let e := exponent n d in
    let q := Z.max (e + 1 - prec) (3 - emax - prec) in
    let m := nearest_even (n * 2 ^ Z.max 0 (- q)) (d * 2 ^ Z.max 0 q) in
    let y := (inject_Z m * pow2 q)%Q in
    if Qle_bool (pow2 emax) y then Infinite (Qnum x <? 0)
    else Finite (Qred (if Qnum x <? 0 then - y else y)).

(** binary64 ([float], [np.float64]) and binary32 ([np.float32]). *)
Definition float64 : Q -> fnum := round_to 53 1024.
Definition float32 : Q -> fnum := round_to 24 128.

(** [np.float32(x)] of a float64 [x]. *)
Definition cast32 (x : fnum) : fnum :=
  match x with
  | Finite q => float32 q
  | _ => x
  end.

(** The float64 sum of [a] and a finite [c]. *)
Definition add64 (a : fnum) (c : Q) : fnum :=
  match a with
  | Finite q => float64 (q + c)
  | _ => a
  end.

(** The float64 product of the integer [n] and [a]. *)
Definition mul64 (n : Z) (a : fnum) : fnum :=
  match a with
  | Finite q => float64 (inject_Z n * q)
  | Infinite s => if n =? 0 then NaN else Infinite (xorb s (n <? 0))
  | NaN => NaN
  end.

(** The float32 quotient of a float32 [a] by the integer [n], not zero. *)
Definition quot32 (a : fnum) (n : Z) : fnum :=
  match a with
  | Finite q => float32 (q / inject_Z n)
  | Infinite s => Infinite (xorb s (n <? 0))
  | NaN => NaN
  end.

(** [a > b]. *)
Definition fnum_gt (a b : fnum) : bool :=
  match a, b with
  | NaN, _ | _, NaN => false
  | Finite x, Finite y => negb (Qle_bool x y)
  | Finite _, Infinite s => s
  | Infinite s, Finite _ => negb s
  | Infinite s, Infinite t => negb s && t
  end.


(** The value of a datum of the standard library's formats. *)
Definition of_spec_float (x : spec_float) : fnum :=
  match x with
  | S754_zero _ => Finite 0
  | S754_infinity s => Infinite s
  | S754_nan => NaN
  | S754_finite s m e =>
      Finite (Qred ((if s then -1 else 1) * inject_Z (Zpos m) * pow2 e))
  end.

Definition of_float (x : float) : fnum := of_spec_float (Prim2SF x).

Definition fnum_eqb (a b : fnum) : bool :=
  match a, b with
  | Finite x, Finite y => (Qnum x =? Qnum y) && (Qden x =? Qden y)%positive
  | Infinite s, Infinite t => Bool.eqb s t
  | NaN, NaN => true
  | _, _ => false
  end.

(** [round_to] against the processor's binary64 operations on two finite
    operands, and against the library's rounding to binary32 of a finite
    binary64 number. *)
Definition agrees64 (x y : float) : bool :=
  match of_float x, of_float y with
  | Finite a, Finite b =>
      fnum_eqb (float64 (a + b)) (of_float (x + y))
      && fnum_eqb (float64 (a * b)) (of_float (x * y))
      && (Qeq_bool b 0 || fnum_eqb (float64 (a / b)) (of_float (x / y)))
  | _, _ => false
  end.

Definition agrees32 (x : float) : bool :=
  match Prim2SF x with
  | S754_finite s m e =>
      fnum_eqb (cast32 (of_float x))
               (of_spec_float
                  (binary_normalize 24 128 (if s then Zneg m else Zpos m) e
                                    false))
  | _ => false
  end.

Definition operands64 : list (float * float) :=
  [(1, 3); (1, 10); (2, 3); (7, 10); (-3, 7); (0x1p-1022, 3);
   (0x1p-1074, 2); (0x1p-1074, 4); (0x3p-1074, 2); (0x1p-1060, 0x1.8p0);
   (0x1.fffffffffffffp1023, 0x1p-1);
   (0x1.fffffffffffffp1023, 0x1.fffffffffffffp-1); (0x1p1000, 0x1p-100);
   (0x1.23456789abcdep5, 0x1.fedcba9876543p-7); (0x1p-1000, 0x1p200);
   (0x1.0000000000001p0, 0x1.0000000000001p0); (0x1p52, 0x1.8p0);
   (0x1p53, 1); (5, -0x1p-1070); (0x1.5p-1030, 0x1.3p7);
   (0x1.ffffffffffffep-1023, 0x1p1); (0x1.999999999999ap-4, 3);
   (0x1p-1074, 0x1p-1074); (0x1.8p-1074, 1)]%float.

Definition operands32 : list float :=
  [1; 0x1.6666666666666p-1; 0x1.000001p0; 0x1.000001000001p0;
   0x1.000003p0; 0x1.ffffffp127; 0x1.fffffefffffffp127; 0x1.fffffep127;
   0x1p128; 0x1p-149; 0x1p-150; 0x1.8p-150; 0x1.0000000000001p-150;
   0x1p-151; 0x1.8p-149; 0x1.4p-149; 0x1p-126; 0x1.fffffffp-127;
   0x1.fffffep-127; 16777217; 16777219; 16777216; -0x1.000001p0;
   -0x1.000003p0; 0x1.666668p-1; 0x1.666667p-1; 0x1.666669p-1;
   0x1.6666667e14e59p-1]%float.

End Rounding.
(** ** NumPy arrays *)

Module NdArray.

(** An array is its shape and its indexing function on multi-indices (one
    position per axis).  Only the values at in-range indices are meaningful. *)
Record ndarray (A : Type) := mk_nd { shape : list nat; get : list nat -> A }.
Arguments mk_nd {A} _ _.
Arguments shape {A} _.
Arguments get {A} _ _.

Definition in_range (idx sh : list nat) : Prop := Forall2 lt idx sh.

Definition ndim {A} (a : ndarray A) : nat := length (shape a).

(** All multi-indices of a shape in C (row-major) order, as [np.ndindex]. *)
Fixpoint indices (sh : list nat) : list (list nat) :=
  match sh with
  | [] => [[]]
  | n :: r => flat_map (fun i => map (cons i) (indices r)) (seq 0 n)
  end.

(** [a.ravel()]. *)
Definition ravel {A} (a : ndarray A) : list A :=
  map (get a) (indices (shape a)).

(** Build an array from its shape and C-ordered values (for examples). *)
Fixpoint ravel_index (sh idx : list nat) : nat :=
  match sh, idx with
  | n :: sh', i :: idx' =>
      (i * fold_right Nat.mul 1 sh' + ravel_index sh' idx')%nat
  | _, _ => 0%nat
  end.

Definition of_list {A} (d : A) (sh : list nat) (l : list A) : ndarray A :=
  mk_nd sh (fun idx => nth (ravel_index sh idx) l d).

(** Two arrays agree: same shape, [R]-related values at every index. *)
Definition nd_rel {A B} (R : A -> B -> Prop) (a : ndarray A) (b : ndarray B)
  : Prop :=
  shape a = shape b /\
  forall idx, in_range idx (shape a) -> R (get a idx) (get b idx).

(** Element-wise operations (operands of equal shape). *)
Definition nd_map {A B} (f : A -> B) (a : ndarray A) : ndarray B :=
  mk_nd (shape a) (fun idx => f (get a idx)).

Definition nd_zip {A B C} (f : A -> B -> C) (a : ndarray A) (b : ndarray B)
  : ndarray C :=
  mk_nd (shape a) (fun idx => f (get a idx) (get b idx)).

(** [a[..., c]]. *)
Definition take_last {A} (c : nat) (a : ndarray A) : ndarray A :=
  mk_nd (removelast (shape a)) (fun idx => get a (idx ++ [c])).

(** [a[..., -1]]. *)
Definition take_last_neg1 {A} (a : ndarray A) : ndarray A :=
  take_last (List.last (shape a) 0 - 1)%nat a.

(** [a[i]]. *)
Definition sub0 {A} (i : nat) (a : ndarray A) : ndarray A :=
  mk_nd (tl (shape a)) (fun idx => get a (i :: idx)).

(** [np.expand_dims(a, -1)] and [np.expand_dims(a, 0)]. *)
Definition expand_last {A} (a : ndarray A) : ndarray A :=
  mk_nd (shape a ++ [1%nat]) (fun idx => get a (removelast idx)).

Definition expand_first {A} (a : ndarray A) : ndarray A :=
  mk_nd (1%nat :: shape a) (fun idx => get a (tl idx)).

(** [np.flip(a, axis)]; [a[:, ::-1]] is [flip 1 a]. *)
Definition flip {A} (axis : nat) (a : ndarray A) : ndarray A :=
  mk_nd (shape a)
        (fun idx => get a (alter (fun i => nth axis (shape a) 0 - 1 - i)%nat
                                 axis idx)).

(** [np.transpose] with the first two axes exchanged. *)
Definition swap01 {A} (l : list A) : list A :=
  match l with
  | x :: y :: r => y :: x :: r
  | _ => l
  end.

Definition transpose01 {A} (a : ndarray A) : ndarray A :=
  mk_nd (swap01 (shape a)) (fun idx => get a (swap01 idx)).

(** [np.rot90(m, k, axes=(0, 1))], as NumPy defines it from [flip] and
    [transpose]. *)
Definition rot90 {A} (k : Z) (m : ndarray A) : ndarray A :=
  match k mod 4 with
  | 0 => m
  | 1 => transpose01 (flip 1 m)
  | 2 => flip 1 (flip 0 m)
  | _ => flip 1 (transpose01 m)
  end.

(** Source position of ['reflect'] padding: position [k] (negative in the
    padded part) of an axis of length [n] reads the array at the position
    obtained by mirroring at both edges without repeating them. *)
Definition reflect_index (n : nat) (k : Z) : nat :=
  if (n <=? 1)%nat then 0%nat
  else let period := 2 * (Z.of_nat n - 1) in
       let m := k mod period in
       if m <? Z.of_nat n then Z.to_nat m else Z.to_nat (period - m).

(** [np.pad(a, ..., 'reflect')] with [p] positions before axis [axis] and
    nothing elsewhere.  An empty axis cannot be extended ([ValueError]). *)
Definition pad_reflect_before {A} (axis p : nat) (a : ndarray A)
  : option (ndarray A) :=
  let n := nth axis (shape a) 0%nat in
  if (0 <? p)%nat && (n =? 0)%nat then None
  else Some (mk_nd (alter (fun n => n + p)%nat axis (shape a))
               (fun idx =>
                  get a (alter (fun i => reflect_index n
                                           (Z.of_nat i - Z.of_nat p))
                               axis idx))).

(** [a[:, ..., p:, ...]]: drop the first [p] positions of axis [axis]. *)
Definition drop_axis {A} (axis p : nat) (a : ndarray A) : ndarray A :=
  mk_nd (alter (fun n => n - p)%nat axis (shape a))
        (fun idx => get a (alter (fun i => i + p)%nat axis idx)).

(** [a[lo:hi]] for [0 <= lo], [0 <= hi]. *)
Definition slice0 {A} (lo hi : nat) (a : ndarray A) : ndarray A :=
  mk_nd (match shape a with
         | n :: r => (Nat.min hi n - lo)%nat :: r
         | [] => []
         end)
        (fun idx => match idx with
                    | i :: r => get a ((lo + i)%nat :: r)
                    | [] => get a []
                    end).

Definition shape_eqb (s1 s2 : list nat) : bool :=
  bool_decide (s1 = s2).

(** [np.array([a0, a1, ...])] of equally shaped arrays. *)
Definition stack {A} (d : ndarray A) (l : list (ndarray A))
  : option (ndarray A) :=
  match l with
  | [] => Some (mk_nd [0%nat] (get d))
  | a :: _ =>
      if forallb (fun b => shape_eqb (shape b) (shape a)) l
      then Some (mk_nd (length l :: shape a)
                   (fun idx => match idx with
                               | i :: r => get (nth i l d) r
                               | [] => get d []
                               end))
      else None
  end.

(** Indexing function of a concatenation along axis 0. *)
Fixpoint concat0_get {A} (d : ndarray A) (l : list (ndarray A)) (i : nat)
    (r : list nat) : A :=
  match l with
  | [] => get d (i :: r)
  | a :: l' =>
      let n := hd 0%nat (shape a) in
      if (i <? n)%nat then get a (i :: r) else concat0_get d l' (i - n)%nat r
  end.

(** [np.concatenate(l)]: axis 0; the other dimensions must agree and the
    list must not be empty ([ValueError] otherwise). *)
Definition concat0 {A} (d : ndarray A) (l : list (ndarray A))
  : option (ndarray A) :=
  match l with
  | [] => None
  | a :: _ =>
      if forallb (fun b => shape_eqb (tl (shape b)) (tl (shape a))
                           && negb (shape_eqb (shape b) [])) l
      then Some (mk_nd (list_sum (map (fun b => hd 0%nat (shape b)) l)
                          :: tl (shape a))
                   (fun idx => match idx with
                               | i :: r => concat0_get d l i r
                               | [] => get d []
                               end))
      else None
  end.

(** Indexing function of a concatenation along the last axis. *)
Fixpoint concat_last_get {A} (d : ndarray A) (l : list (ndarray A))
    (pre : list nat) (c : nat) : A :=
  match l with
  | [] => get d (pre ++ [c])
  | a :: l' =>
      let n := List.last (shape a) 0%nat in
      if (c <? n)%nat then get a (pre ++ [c])
      else concat_last_get d l' pre (c - n)%nat
  end.

(** [np.concatenate(l, -1)]. *)
Definition concat_last {A} (d : ndarray A) (l : list (ndarray A))
  : option (ndarray A) :=
  match l with
  | [] => None
  | a :: _ =>
      if forallb (fun b => shape_eqb (removelast (shape b))
                                     (removelast (shape a))
                           && negb (shape_eqb (shape b) [])) l
      then Some (mk_nd (removelast (shape a)
                          ++ [list_sum (map (fun b => List.last (shape b) 0%nat) l)])
                   (fun idx => concat_last_get d l (removelast idx)
                                               (List.last idx 0%nat)))
      else None
  end.

(** [out[i] = x] for every [i], on [out = np.zeros((n,) + sh)]: the result
    when every [x] has exactly the shape [sh]; [None] stands for the shape
    mismatch error (broadcasting of other shapes is not modelled). *)
Definition fill_rows {A} (d : ndarray A) (n : nat) (sh : list nat)
    (row : nat -> ndarray A) : option (ndarray A) :=
  if forallb (fun i => shape_eqb (shape (row i)) sh) (seq 0 n)
  then Some (mk_nd (n :: sh)
               (fun idx => match idx with
                           | i :: r => get (row i) r
                           | [] => get d []
                           end))
  else None.

(** A count as a float64. *)
Definition float_of_nat (n : nat) : float :=
  PrimFloat.of_uint63 (Uint63.of_Z (Z.of_nat n)).

(** The values of [l] added to 0 one after the other. *)
Definition sequential_sum (l : list float) : float :=
  fold_left (fun s x => s + x)%float l 0%float.

(** NumPy's pairwise sum of at least 8 and at most 128 values: eight
    running sums take the values of the blocks of eight, are added in
    pairs, and the values after the last full block are added to the
    result one after the other. *)
Fixpoint add_blocks (fuel : nat) (r l : list float)
  : list float * list float :=
  match fuel with
  | O => (r, l)
  | S fuel' =>
      if (8 <=? length l)%nat
      then add_blocks fuel' (zip_with PrimFloat.add r (take 8 l)) (drop 8 l)
      else (r, l)
  end.

Definition unrolled_sum (l : list float) : float :=
  let '(r, rest) := add_blocks (length l) (take 8 l) (drop 8 l) in
  let r i := nth i r 0%float in
  fold_left (fun s x => s + x)%float rest
            (((r 0%nat + r 1%nat) + (r 2%nat + r 3%nat))
             + ((r 4%nat + r 5%nat) + (r 6%nat + r 7%nat)))%float.

(** NumPy's pairwise sum: fewer than 8 values are added one after the
    other, more than 128 are split in two. *)
Fixpoint pairwise_sum (fuel : nat) (l : list float) : float :=
  let n := length l in
  if (n <? 8)%nat then sequential_sum l
  else if (n <=? 128)%nat then unrolled_sum l
  else match fuel with
       | O => 0%float
       | S fuel' =>
           let n2 := (n / 2 - (n / 2) mod 8)%nat in
           (pairwise_sum fuel' (take n2 l)
            + pairwise_sum fuel' (drop n2 l))%float
       end.

(** [np.add.reduce] along the first axis of a C-contiguous float64 array,
    at one position of the rows; [l] holds the values of the position, row
    after row.  Rows of several values are added to a row of zeros one
    after the other.  Where a row is a single value the first axis is the
    contiguous one, and the pairwise sum of the values is added to the
    zero. *)
Definition add_reduce (single : bool) (l : list float) : float :=
  if single then (0 + pairwise_sum (length l) l)%float
  else sequential_sum l.

(** The mean of the values [l] of one position: the sum divided by the
    count. *)
Definition np_mean (single : bool) (l : list float) : float :=
  (add_reduce single l / float_of_nat (length l))%float.

(** [np.mean(a, axis=0)] of a C-contiguous float64 array. *)
Definition mean0 (a : ndarray float) : ndarray float :=
  let n := hd 0%nat (shape a) in
  let single := (fold_right Nat.mul 1%nat (tl (shape a)) =? 1)%nat in
  mk_nd (tl (shape a))
        (fun idx => np_mean single (map (fun i => get a (i :: idx))
                                        (seq 0 n))).

(** Position of the first maximum of [f 0 .. f (n-1)], as [np.argmax]: a
    later value takes over when it is not at most the one held, and the
    first NaN is held to the end. *)
Fixpoint argmax_upto (n : nat) (f : nat -> float) : nat :=
  match n with
  | O => 0%nat
  | S n' => let b := argmax_upto n' f in
            if PrimFloat.is_nan (f b) || (f n' <=? f b)%float then b else n'
  end.

(** [np.argmax(a, -1)], its positions as float64. *)
Definition argmax_last (a : ndarray float) : ndarray float :=
  mk_nd (removelast (shape a))
        (fun idx => float_of_nat
           (argmax_upto (List.last (shape a) 0%nat)
                        (fun c => get a (idx ++ [c])))).

(** [np.max(a)]; an empty array has no maximum ([ValueError]). *)
Definition nd_max (a : ndarray Z) : option Z :=
  match ravel a with
  | [] => None
  | x :: r => Some (fold_left Z.max r x)
  end.

(** The constant array of a given shape ([np.zeros] / [np.ones]). *)
Definition full {A} (sh : list nat) (v : A) : ndarray A :=
  mk_nd sh (fun _ => v).

(** [a[..., c]] with the bounds check of the last axis ([IndexError]). *)
Definition channel {A} (c : nat) (a : ndarray A) : option (ndarray A) :=
  if (c <? List.last (shape a) 0)%nat then Some (take_last c a) else None.

(** [a[i] = x] on axis 0. *)
Definition set_sub0 {A} (i : nat) (x a : ndarray A) : ndarray A :=
  mk_nd (shape a)
        (fun idx => match idx with
                    | j :: r => if (j =? i)%nat then get x r else get a idx
                    | [] => get a []
                    end).

(** Index of the array before [squeeze] for an index after it. *)
Fixpoint unsqueeze_index (sh idx : list nat) : list nat :=
  match sh with
  | [] => []
  | n :: sh' =>
      if (n =? 1)%nat then 0%nat :: unsqueeze_index sh' idx
      else match idx with
           | i :: idx' => i :: unsqueeze_index sh' idx'
           | [] => 0%nat :: unsqueeze_index sh' []
           end
  end.

(** [a.squeeze()]: every axis of length one is removed. *)
Definition squeeze {A} (a : ndarray A) : ndarray A :=
  mk_nd (List.filter (fun n => negb (n =? 1)%nat) (shape a))
        (fun idx => get a (unsqueeze_index (shape a) idx)).

(** Number of occurrences of a value in a list of integers
    ([np.bincount], [np.unique(..., return_counts=True)]). *)
Fixpoint count_Z (v : Z) (l : list Z) : nat :=
  match l with
  | [] => 0
  | x :: r => ((if Z.eqb x v then 1 else 0) + count_Z v r)%nat
  end.

(** [skimage.morphology.remove_small_objects] on an integer label array:
    every label that covers fewer than [min_size] elements is set to 0. *)
Definition remove_small_objects (ar : ndarray Z) (min_size : Z) : ndarray Z :=
  let flat := ravel ar in
  nd_map (fun v => if Z.of_nat (count_Z v flat) <? min_size then 0 else v) ar.

(** Batch [i] of [total] for a batch size [b] and [n] rows:
    [total[i*b : min((i+1)*b, n)]]. *)
Definition chunk {A} (total : ndarray A) (n b i : nat) : ndarray A :=
  slice0 (i * b) (Nat.min ((i + 1) * b) n) total.

End NdArray.

(** ** Threshold calibration: the count-matching sweeps of
       [calculate_optimal_mw_thresholds] *)

Module Calibration.

(** A candidate grid as the sweeps see it: every candidate threshold
    [ths[k]] with [obj_count], the number of unique values of the labelled
    (and, for TH2, cleaned) seed mask measured at that threshold. *)
Definition grid := list (Q * Z).

(** The fixed candidate list [ths]: ten log-spaced values followed by
    [np.round(np.arange(0.1, 1.0, 0.05), 3)]. *)
Definition ths : list Q :=
  [1 # 1000000; 5 # 1000000; 1 # 100000; 5 # 100000; 1 # 10000; 5 # 10000;
   1 # 1000; 5 # 1000; 1 # 100; 5 # 100;
   10 # 100; 15 # 100; 20 # 100; 25 # 100; 30 # 100; 35 # 100; 40 # 100;
   45 # 100; 50 # 100; 55 # 100; 60 # 100; 65 # 100; 70 # 100; 75 # 100;
   80 # 100; 85 # 100; 90 # 100; 95 # 100]%Q.

(** The first candidates of [ths] paired with the object counts observed at
    them (a shorter grid behaves like the distance grid [ths_dis]). *)
Definition observed (counts : list Z) : grid := zip ths counts.

(** [abs(obj_count - len(labels))] for every candidate. *)
Definition diffs (n_labels : Z) (g : grid) : list Z :=
  map (fun tc => Z.abs (snd tc - n_labels)) g.

(** *** TH2 *)

Record th2_vars := mk_th2 {
  th2_k : nat;                 (* loop counter [k] *)
  th2_min : Q;
  th2_last : Z;
  th2_repeat_count : Z;
  th2_op_pos : Z;
  th2_obj_min_diff : Z;
  l_th2 : list Z
}.

Definition th2_init : th2_vars :=
  mk_th2 0 0%Q 0 0 (-1) maxsize [].

(** One iteration of [for k in range(len(ths))] of the TH2 search. *)
Definition th2_step (n_labels : Z) (s : th2_vars) (tc : Q * Z) : th2_vars :=
  let obj_count := snd tc in
  let d := Z.abs (obj_count - n_labels) in
  let improved := d <? th2_obj_min_diff s in
  let min_diff := if improved then d else th2_obj_min_diff s in
  let tmin := if improved then fst tc else th2_min s in
  let op_pos := if improved then Z.of_nat (th2_k s) else th2_op_pos s in
  let rep := if improved then 0 else th2_repeat_count s in
  let rep := if min_diff =? th2_last s then rep + 1 else rep in
  mk_th2 (S (th2_k s)) tmin d rep op_pos min_diff (l_th2 s ++ [obj_count]).

Definition th2_sweep (n_labels : Z) (g : grid) : th2_vars :=
  fold_left (th2_step n_labels) g th2_init.

(** [th2_opt_pos], after the clamp to the last grid index. *)
Definition th2_opt_pos (len_ths : Z) (s : th2_vars) : Z :=
  let p := if th2_repeat_count s <? 10
           then th2_op_pos s + int_half (th2_repeat_count s)
           else th2_op_pos s + 2 in
  if p >=? len_ths then len_ths - 1 else p.

(** The value appended to [l_th2_opt]: [ths[th2_opt_pos]]. *)
Definition th2_opt (n_labels : Z) (g : grid) : option Q :=
  py_index (map fst g)
           (th2_opt_pos (Z.of_nat (length g)) (th2_sweep n_labels g)).

(** The chosen TH2 index for a grid. *)
Definition th2_choice (n_labels : Z) (g : grid) : Z :=
  th2_opt_pos (Z.of_nat (length g)) (th2_sweep n_labels g).

(** *** TH1 and TH4 *)

Record th1_vars := mk_th1 {
  th1_k : nat;                 (* loop counter [k] *)
  th1_min : Q;
  th1_last : Z;
  th1_repeat_count : Z;
  th1_op_pos : Z;
  th1_obj_min_diff : Z;
  l_th1 : list Z;
  in_row : bool
}.

(** [in_row] is set to [False] before the TH1 loop only; the TH4 loop starts
    with whatever value the TH1 loop left, hence the parameter. *)
Definition th1_init (in_row0 : bool) : th1_vars :=
  mk_th1 0 0%Q 0 0 (-1) maxsize [] in_row0.

(** The acceptance test
    [diff <= min_diff and repeat_count < 4 and diff != last]. *)
Definition th1_accepts (s : th1_vars) (diff : Z) : bool :=
  (diff <=? th1_obj_min_diff s) && (th1_repeat_count s <? 4)
  && negb (diff =? th1_last s).

(** One iteration of the TH1 (and TH4) search. *)
Definition th1_step (n_labels : Z) (s : th1_vars) (tc : Q * Z) : th1_vars :=
  let obj_count := snd tc in
  let diff := Z.abs (obj_count - n_labels) in
  let k := th1_k s in
  let acc := th1_accepts s diff in
  let min_diff := if acc then diff else th1_obj_min_diff s in
  let tmin := if acc then fst tc else th1_min s in
  let op_pos := if acc then Z.of_nat k else th1_op_pos s in
  let rep := if acc then 0 else th1_repeat_count s in
  let row := if acc then true else in_row s in
  let again := (diff =? th1_last s) && (diff =? min_diff) && row in
  let rep' := if again then rep + 1 else rep in
  let row' := if again then row
              else if negb (Z.of_nat k =? op_pos) then false else row in
  mk_th1 (S k) tmin diff rep' op_pos min_diff (l_th1 s ++ [obj_count]) row'.

Definition th1_sweep (in_row0 : bool) (n_labels : Z) (g : grid) : th1_vars :=
  fold_left (th1_step n_labels) g (th1_init in_row0).

(** [th1_opt_pos] / [th4_opt_pos], after the clamp. *)
Definition th1_opt_pos (len_ths : Z) (s : th1_vars) : Z :=
  let p := th1_op_pos s + th1_repeat_count s in
  if p >=? len_ths then len_ths - 1 else p.

Definition th1_choice (in_row0 : bool) (n_labels : Z) (g : grid) : Z :=
  th1_opt_pos (Z.of_nat (length g)) (th1_sweep in_row0 n_labels g).

Definition th1_opt (in_row0 : bool) (n_labels : Z) (g : grid) : option Q :=
  py_index (map fst g) (th1_choice in_row0 n_labels g).

(** A new best was accepted at iteration [k]: the state after [k+1]
    iterations has [op_pos = k]. *)
Definition th1_accepted_at (in_row0 : bool) (n_labels : Z) (g : grid)
    (k : nat) : Prop :=
  (k < length g)%nat /\
  th1_op_pos (th1_sweep in_row0 n_labels (take (S k) g)) = Z.of_nat k.

(** Invariant of the TH1 / TH4 loop after the candidates [p]. *)
Definition th1_inv (n : Z) (p : grid) (s : th1_vars) : Prop :=
  let d := diffs n p in
  th1_k s = length p /\ th1_last s = List.last d 0 /\
  ((th1_op_pos s = -1 /\ th1_repeat_count s = 0 /\
    th1_obj_min_diff s = maxsize /\ (p <> [] -> in_row s = false))
   \/ (exists i r : nat,
        th1_op_pos s = Z.of_nat i /\ th1_repeat_count s = Z.of_nat r /\
        (i + r < length p)%nat /\
        (forall j, (i <= j <= i + r)%nat ->
                   d !! j = Some (th1_obj_min_diff s)) /\
        (in_row s = true -> (i + r + 1 = length p)%nat) /\
        (in_row s = false ->
         exists y, d !! (i + r + 1)%nat = Some y /\ y <> th1_obj_min_diff s))).

End Calibration.


(** *** The TH2 rule as the specification words it: the first minimiser of
        the count difference, advanced by half the length of the run of tied
        candidates that starts at it (with the same caps as the code). *)
Module CalibrationSpec.
Import Calibration.

Fixpoint list_min (d : list Z) : Z :=
  match d with
  | [] => maxsize
  | x :: r => Z.min x (list_min r)
  end.

Fixpoint index_of (m : Z) (d : list Z) : nat :=
  match d with
  | [] => 0
  | x :: r => if x =? m then 0%nat else S (index_of m r)
  end.

Definition first_argmin (d : list Z) : nat := index_of (list_min d) d.

(** Length of the maximal run of [m] at the head of [d]. *)
Fixpoint run_length (m : Z) (d : list Z) : nat :=
  match d with
  | [] => 0
  | x :: r => if x =? m then S (run_length m r) else 0%nat
  end.

Definition tie_run_length (d : list Z) : nat :=
  run_length (list_min d) (drop (first_argmin d) d).

Definition th2_spec_choice (n_labels : Z) (g : grid) : Z :=
  let d := diffs n_labels g in
  let run := Z.of_nat (tie_run_length d) in
  let p := Z.of_nat (first_argmin d)
           + (if run <? 10 then int_half run else 2) in
  if p >=? Z.of_nat (length g) then Z.of_nat (length g) - 1 else p.

(** Number of candidates of [d] whose difference is [m]. *)
Fixpoint count_ties (m : Z) (d : list Z) : nat :=
  match d with
  | [] => 0
  | x :: r => (if x =? m then 1 else 0) + count_ties m r
  end.

(** The TH1/TH4 acceptance rule read literally: the difference strictly
    improves on the best one so far ... *)
Definition strictly_improves_on_best (in_row0 : bool) (n_labels : Z)
    (g : grid) (k : nat) : Prop :=
  forall d, diffs n_labels g !! k = Some d ->
    d < th1_obj_min_diff (th1_sweep in_row0 n_labels (take k g)).

(** ... or, read against the preceding candidate, strictly improves on the
    difference measured just before. *)
Definition strictly_improves_on_previous (n_labels : Z) (g : grid)
    (k : nat) : Prop :=
  forall j d d', k = S j -> diffs n_labels g !! j = Some d' ->
    diffs n_labels g !! k = Some d -> d < d'.

End CalibrationSpec.

(** ** Test-time augmentation: [ensemble8_2d_predictions] and
       [ensemble16_3d_predictions] *)

Module Ensemble.
Import NdArray.

(** Filler value outside the range of an array. *)
Definition nd0 : ndarray float := mk_nd [] (fun _ => 0%float).

(** What [pred_func] returns: an array, or a list of arrays whose last
    element is the prediction. *)
Inductive pred_output :=
| PArray (a : ndarray float)
| PList (l : list (ndarray float)).

(** [int(math.ceil(n / batch_size_value))]; division by zero raises. *)
Definition n_batches (n : nat) (batch_size_value : Z) : option Z :=
  if batch_size_value =? 0 then None
  else Some ((Z.of_nat n + batch_size_value - 1) / batch_size_value).

(** The prediction loop shared by both functions; [fix_ndim] is the
    rank adjustment the 3D function applies to every batch result. *)
Definition predict_batches (fix_ndim : ndarray float -> ndarray float)
    (pred_func : ndarray float -> pred_output) (batch_size_value n_classes : Z)
    (total : ndarray float) : option (ndarray float) :=
  let n := hd 0%nat (shape total) in
  l ← n_batches n batch_size_value;
  decoded ← mapM (fun i : nat =>
      let top := if (Z.of_nat i + 1) * batch_size_value <? Z.of_nat n
                 then (Z.of_nat i + 1) * batch_size_value else Z.of_nat n in
      let batch := slice0 (Z.to_nat (Z.of_nat i * batch_size_value))
                          (Z.to_nat top) total in
      r_aux ← match pred_func batch with
              | PArray a => Some a
              | PList rs => last rs
              end;
      let r_aux := if n_classes >? 1
                   then expand_last (argmax_last r_aux) else r_aux in
      Some (fix_ndim r_aux)) (seq 0 (Z.to_nat l));
  concat0 nd0 decoded.

(** *** 2D *)

(** The eight combinations of an image, in the order they are appended. *)
Definition augment8 (img : ndarray float) : list (ndarray float) :=
  let img_aux := flip 1 img in
  [img; rot90 1 img; rot90 2 img; rot90 3 img;
   flip 1 img; rot90 1 img_aux; rot90 2 img_aux; rot90 3 img_aux].

(** [pad_to_square] and the squared image of one channel. *)
Definition pad_to_square_2d (_img : ndarray float) : Z :=
  Z.of_nat (nth 0 (shape _img) 0%nat) - Z.of_nat (nth 1 (shape _img) 0%nat).

Definition square_2d (_img : ndarray float) : option (ndarray float) :=
  let pad_to_square := pad_to_square_2d _img in
  if pad_to_square <? 0
  then pad_reflect_before 0 (Z.abs_nat pad_to_square) _img
  else pad_reflect_before 1 (Z.to_nat pad_to_square) _img.

(** The body of the first loop for one channel: [aug_img]. *)
Definition channel_variants_2d (o_img : ndarray float) (channel : nat)
  : option (ndarray float) :=
  let _img := expand_last (take_last channel o_img) in
  img ← square_2d _img;
  stack nd0 (augment8 img).

(** Undo the eight combinations on one decoded channel. *)
Definition undo8 (decoded_aug_img : ndarray float) : option (ndarray float) :=
  if (hd 0%nat (shape decoded_aug_img) <? 8)%nat then None
  else
    let d i := sub0 i decoded_aug_img in
    stack nd0
      [d 0%nat; rot90 3 (d 1%nat); rot90 2 (d 2%nat); rot90 1 (d 3%nat);
       flip 1 (d 4%nat); flip 1 (rot90 3 (d 5%nat));
       flip 1 (rot90 2 (d 6%nat)); flip 1 (rot90 1 (d 7%nat))].

(** The eight de-transformations applied to one image. *)
Definition undo8_list (y : ndarray float) : list (ndarray float) :=
  [y; rot90 3 y; rot90 2 y; rot90 1 y;
   flip 1 y; flip 1 (rot90 3 y); flip 1 (rot90 2 y); flip 1 (rot90 1 y)].

Definition ensemble8_2d_predictions (o_img : ndarray float)
    (pred_func : ndarray float -> pred_output)
    (batch_size_value n_classes : Z) : option (ndarray float) :=
  let channels := List.last (shape o_img) 0%nat in
  (* Prepare all the image transformations per channel *)
  total_img ← mapM (channel_variants_2d o_img) (seq 0 channels);
  (* the squared image and pad of the last channel stay bound *)
  let _img := expand_last (take_last (channels - 1) o_img) in
  let pad_to_square := pad_to_square_2d _img in
  img ← (if (channels =? 0)%nat then None else square_2d _img);
  (* Merge channels *)
  total_img ← concat_last nd0 total_img;
  (* Make the prediction *)
  _decoded_aug_img ←
    predict_batches id pred_func batch_size_value n_classes total_img;
  (* Undo the combinations of the img *)
  arr ← mapM (fun c => expand_last <$> undo8 (take_last c _decoded_aug_img))
             (seq 0 (List.last (shape _decoded_aug_img) 0%nat));
  out_img ← concat_last nd0 arr;
  let n := hd 0%nat (shape out_img) in
  let out_shape :=
    if negb (pad_to_square =? 0) then
      if pad_to_square <? 0
      then [Z.to_nat (Z.of_nat (nth 0 (shape img) 0%nat) + pad_to_square);
            nth 1 (shape img) 0%nat; List.last (shape out_img) 0%nat]
      else [nth 0 (shape img) 0%nat;
            Z.to_nat (Z.of_nat (nth 1 (shape img) 0%nat) - pad_to_square);
            List.last (shape out_img) 0%nat]
    else tl (shape out_img) in
  (* Undo the padding *)
  out ← fill_rows nd0 n out_shape (fun i =>
           if pad_to_square <? 0
           then drop_axis 0 (Z.abs_nat pad_to_square) (sub0 i out_img)
           else drop_axis 1 (Z.abs_nat pad_to_square) (sub0 i out_img));
  Some (mean0 out).

(** *** 3D *)

Section Ensemble16.

(** [rotate angle v] is
    [scipy.ndimage.rotate(v, mode='reflect', axes=(2, 1), angle=angle,
    reshape=False)]. *)
Variable rotate : Z -> ndarray float -> ndarray float.

(** The sixteen combinations of a volume, in the order they are appended. *)
Definition augment16 (volume : ndarray float) : list (ndarray float) :=
  let with_rotations v := [v; rotate 90 v; rotate 180 v; rotate 270 v] in
  with_rotations volume ++ with_rotations (flip 0 volume)
  ++ with_rotations (flip 1 volume) ++ with_rotations (flip 2 volume).

Definition pad_to_square_3d (_vol : ndarray float) : Z :=
  Z.of_nat (nth 2 (shape _vol) 0%nat) - Z.of_nat (nth 1 (shape _vol) 0%nat).

Definition square_3d (_vol : ndarray float) : option (ndarray float) :=
  let pad_to_square := pad_to_square_3d _vol in
  if pad_to_square <? 0
  then pad_reflect_before 2 (Z.abs_nat pad_to_square) _vol
  else pad_reflect_before 1 (Z.to_nat pad_to_square) _vol.

Definition channel_variants_3d (vol : ndarray float) (channel : nat)
  : option (ndarray float) :=
  let _vol := take_last channel vol in
  volume ← square_3d _vol;
  expand_last <$> stack nd0 (augment16 volume).

(** Undo the sixteen combinations on one decoded channel. *)
Definition undo16 (decoded_aug_vols : ndarray float) : option (ndarray float) :=
  if (hd 0%nat (shape decoded_aug_vols) <? 16)%nat then None
  else
    let d i := sub0 i decoded_aug_vols in
    let undo_rotations (post : ndarray float -> ndarray float) (i : nat) :=
      [post (d i); post (rotate (-90) (d (i + 1)%nat));
       post (rotate (-180) (d (i + 2)%nat));
       post (rotate (-270) (d (i + 3)%nat))] in
    stack nd0
      (undo_rotations id 0%nat ++ undo_rotations (flip 0) 4%nat
       ++ undo_rotations (flip 1) 8%nat ++ undo_rotations (flip 2) 12%nat).

(** The sixteen de-transformations applied to the volumes [d]. *)
Definition undo16_list (d : nat -> ndarray float) : list (ndarray float) :=
  let undo_rotations (post : ndarray float -> ndarray float) (i : nat) :=
    [post (d i); post (rotate (-90) (d (i + 1)%nat));
     post (rotate (-180) (d (i + 2)%nat));
     post (rotate (-270) (d (i + 3)%nat))] in
  undo_rotations id 0%nat ++ undo_rotations (flip 0) 4%nat
  ++ undo_rotations (flip 1) 8%nat ++ undo_rotations (flip 2) 12%nat.

Definition ensemble16_3d_predictions (vol : ndarray float)
    (pred_func : ndarray float -> pred_output)
    (batch_size_value n_classes : Z) : option (ndarray float) :=
  let channels := List.last (shape vol) 0%nat in
  total_vol ← mapM (channel_variants_3d vol) (seq 0 channels);
  let _vol := take_last (channels - 1) vol in
  let pad_to_square := pad_to_square_3d _vol in
  volume ← (if (channels =? 0)%nat then None else square_3d _vol);
  (* Merge channels *)
  total_vol ← concat_last nd0 total_vol;
  _decoded_aug_vols ←
    predict_batches (fun r_aux => if (ndim r_aux =? 4)%nat
                                  then expand_first r_aux else r_aux)
                    pred_func batch_size_value n_classes total_vol;
  let volume := expand_last volume in
  arr ← mapM (fun c => expand_last <$> undo16 (take_last c _decoded_aug_vols))
             (seq 0 (List.last (shape _decoded_aug_vols) 0%nat));
  out_vols ← concat_last nd0 arr;
  let n := hd 0%nat (shape out_vols) in
  (* Create the output data *)
  let out_shape :=
    if negb (pad_to_square =? 0) then
      if pad_to_square <? 0
      then [nth 0 (shape volume) 0%nat; nth 1 (shape volume) 0%nat;
            Z.to_nat (Z.of_nat (nth 2 (shape volume) 0%nat) + pad_to_square);
            List.last (shape out_vols) 0%nat]
      else [nth 0 (shape volume) 0%nat;
            Z.to_nat (Z.of_nat (nth 1 (shape volume) 0%nat) - pad_to_square);
            nth 2 (shape volume) 0%nat; List.last (shape out_vols) 0%nat]
    else tl (shape out_vols) in
  (* Undo the padding *)
  out ← fill_rows nd0 n out_shape (fun i =>
           if pad_to_square <? 0
           then drop_axis 2 (Z.abs_nat pad_to_square) (sub0 i out_vols)
           else drop_axis 1 (Z.abs_nat pad_to_square) (sub0 i out_vols));
  Some (mean0 out).

End Ensemble16.

(** The sixteen volumes that come back when the sixteen combinations of
    [volume] are undone as they are. *)
Definition round_trips16 (rotate : Z -> ndarray float -> ndarray float)
    (volume : ndarray float) : list (ndarray float) :=
  undo16_list rotate (fun t => nth t (augment16 rotate volume) nd0).

(** A stand-in for the rotation on small examples, which the rotation by
    the opposite angle does not undo: every value is halved. *)
Definition halving (angle : Z) (v : ndarray float) : ndarray float :=
  nd_map (fun x => x / 2)%float v.

(** A 2x3 one-channel image and a 2x2x3 one-channel volume. *)
Definition example_image : ndarray float :=
  of_list 0%float [2; 3; 1]%nat [1; 2; 3; 4; 5; 6]%float.

Definition example_volume : ndarray float :=
  of_list 0%float [2; 2; 3; 1]%nat
          [1; 2; 3; 4; 5; 6; 7; 8; 9; 10; 11; 12]%float.

(** A 1x2 one-channel image of the float64 number 0.1. *)
Definition example_tenths : ndarray float :=
  of_list 0%float [1; 2; 1]%nat
          [0x1.999999999999ap-4; 0x1.999999999999ap-4]%float.

End Ensemble.
(** ** Marker-controlled watershed: [watershed_by_channels] *)

Module Watershed.
Import NdArray.

(** The values of [channels] the function accepts (its opening [assert]). *)
Inductive channel_mode := BC | BCM | BCD | BCDv2 | Dv2 | BDv2 | BP.

Inductive dtype := uint8 | uint16 | uint32.

Definition dtype_bits (d : dtype) : Z :=
  match d with uint8 => 8 | uint16 => 16 | uint32 => 32 end.

(** Largest value a dtype represents. *)
Definition dtype_max (d : dtype) : Z := 2 ^ dtype_bits d - 1.

(** [x.astype(d)] on one integer value: the value modulo [2^bits]. *)
Definition astype (d : dtype) (v : Z) : Z := v mod 2 ^ dtype_bits d.

(** "Choose appropiate dtype". *)
Definition choose_dtype (max_value : Z) : dtype :=
  if max_value <? 255 then uint8
  else if max_value <? 65535 then uint16
  else uint32.

(** The narrowest of the three dtypes that represents [max_value]. *)
Definition smallest_dtype (max_value : Z) : dtype :=
  if max_value <=? dtype_max uint8 then uint8
  else if max_value <=? dtype_max uint16 then uint16
  else uint32.

Section WatershedByChannels.

(** SciPy and scikit-image functions.  [binary_dilation_disk r x] is
    [binary_dilation(x, disk(radius=r))] on one slice, [binary_dilation_2 x]
    is [binary_dilation(x, iterations=2)]; [label] is
    [skimage.measure.label(x, connectivity=1)] (a boolean input is given as
    0/1); [centroids] are the region centroids of [regionprops_table];
    [watershed image markers mask] is [skimage.segmentation.watershed]. *)
Variable binary_dilation_disk : Z -> ndarray bool -> ndarray bool.
Variable binary_erosion_disk : Z -> ndarray bool -> ndarray bool.
Variable binary_dilation_2 : ndarray bool -> ndarray bool.
Variable distance_transform_edt : ndarray bool -> ndarray Q.
Variable label : ndarray Z -> ndarray Z.
Variable centroids : ndarray Z -> list (list Q).
Variable watershed :
  ndarray Q -> ndarray Z -> option (ndarray bool) -> ndarray Z.

Definition gt_th (a : ndarray Q) (th : Q) : ndarray bool :=
  nd_map (fun x => negb (Qle_bool x th)) a.

Definition lt_th (a : ndarray Q) (th : Q) : ndarray bool :=
  nd_map (fun x => negb (Qle_bool th x)) a.

Definition nd_and := nd_zip andb.
Definition nd_or := nd_zip orb.
Definition to_int (a : ndarray bool) : ndarray Z := nd_map Z.b2z a.
Definition nonzero (a : ndarray Z) : ndarray bool :=
  nd_map (fun v => negb (v =? 0)) a.

(** [morph_funcs]: operations other than "dilate" and "erode" are skipped. *)
Definition morph_funcs (seed_morph_sequence : list string)
  : list (Z -> ndarray bool -> ndarray bool) :=
  flat_map (fun operation =>
              if String.eqb operation "dilate" then [binary_dilation_disk]
              else if String.eqb operation "erode" then [binary_erosion_disk]
              else []) seed_morph_sequence.

(** The seed operations of one slice, in order, each with its own radius
    ([seed_morph_radius[k]], an [IndexError] when missing). *)
Fixpoint apply_morphs (fs : list (Z -> ndarray bool -> ndarray bool))
    (k : nat) (seed_morph_radius : list Z) (slice : ndarray Z)
  : option (ndarray Z) :=
  match fs with
  | [] => Some slice
  | f :: fs' =>
      r ← seed_morph_radius !! k;
      apply_morphs fs' (S k) seed_morph_radius (to_int (f r (nonzero slice)))
  end.

(** The nested helper [erode_seed_and_foreground] with its two nonlocal
    variables passed in and out.  Without a foreground mask (the v2 modes)
    the foreground steps fail: on a volume the mask cannot be indexed, on an
    image the mask becomes a zero-dimensional object array that [watershed]
    rejects. *)
Definition erode_seed_and_foreground (seed_morph_sequence : list string)
    (seed_morph_radius : list Z) (erode_and_dilate_foreground : bool)
    (fore_erosion_radius fore_dilation_radius : Z)
    (seed_map : ndarray Z) (foreground : option (ndarray bool))
  : option (ndarray Z * option (ndarray bool)) :=
  let fs := morph_funcs seed_morph_sequence in
  let image3d := (ndim seed_map =? 3)%nat in
  let seed_map := if image3d then seed_map else expand_first seed_map in
  foreground ← match foreground with
               | Some fg => Some (Some (if image3d then fg else expand_first fg))
               | None => if image3d then Some None else None
               end;
  '(seed_map, foreground) ←
    foldl (fun acc i =>
             '(seed_map, foreground) ← acc;
             seed_i ← (if negb (length seed_morph_sequence =? 0)%nat
                       then apply_morphs fs 0 seed_morph_radius (sub0 i seed_map)
                       else Some (sub0 i seed_map));
             let seed_map := set_sub0 i seed_i seed_map in
             if erode_and_dilate_foreground then
               fg ← foreground;
               let fg_i := binary_dilation_disk fore_erosion_radius (sub0 i fg) in
               let fg := set_sub0 i fg_i fg in
               let fg_i := binary_erosion_disk fore_dilation_radius (sub0 i fg) in
               Some (seed_map, Some (set_sub0 i fg_i fg))
             else Some (seed_map, foreground))
          (Some (seed_map, foreground))
          (seq 0 (hd 0%nat (shape seed_map)));
  if image3d then Some (seed_map, foreground)
  else Some (squeeze seed_map, squeeze <$> foreground).

(** The arguments that select the seed and foreground construction. *)
Record ws_options := mk_ws_options {
  channels : channel_mode;
  ths : gmap string Q;
  remove_before : bool;
  thres_small_before : Z;
  remove_after : bool;
  thres_small_after : Z;
  seed_morph_sequence : list string;
  seed_morph_radius : list Z;
  erode_and_dilate_foreground : bool;
  fore_erosion_radius : Z;
  fore_dilation_radius : Z
}.

Definition erode (o : ws_options) :=
  erode_seed_and_foreground (seed_morph_sequence o) (seed_morph_radius o)
    (erode_and_dilate_foreground o) (fore_erosion_radius o)
    (fore_dilation_radius o).

Definition erode_if (c : bool) (o : ws_options) (seed_map : ndarray Z)
    (foreground : option (ndarray bool))
  : option (ndarray Z * option (ndarray bool)) :=
  if c then erode o seed_map foreground else Some (seed_map, foreground).

Definition some_morph (o : ws_options) : bool :=
  negb (length (seed_morph_sequence o) =? 0)%nat.

(** The branch on [channels]: [(semantic, seed_map, foreground)]. *)
Definition seeds_and_foreground (data : ndarray Q) (o : ws_options)
  : option (ndarray Q * ndarray Z * option (ndarray bool)) :=
  let th name := ths o !! name in
  match channels o with
  | BC | BCM =>
      d0 ← channel 0 data; th1 ← th "TH1"; d1 ← channel 1 data;
      th2 ← th "TH2";
      let seed_map := nd_and (gt_th d0 th1) (lt_th d1 th2) in
      th3 ← th "TH3";
      let foreground := gt_th d0 th3 in
      '(seed_map, foreground) ←
        erode_if (some_morph o || erode_and_dilate_foreground o) o
                 (to_int seed_map) (Some foreground);
      fg ← foreground;
      Some (distance_transform_edt fg, label seed_map, foreground)
  | BP =>
      d1 ← channel 1 data; thp ← th "TH_POINTS";
      let seed_map := gt_th d1 thp in
      d0 ← channel 0 data; th3 ← th "TH3";
      let foreground := gt_th d0 th3 in
      '(seed_map, foreground) ←
        erode_if (some_morph o || erode_and_dilate_foreground o) o
                 (to_int seed_map) (Some foreground);
      fg ← foreground;
      Some (distance_transform_edt fg, label seed_map, foreground)
  | BCD =>
      semantic ← channel 0 data; th1 ← th "TH1"; d1 ← channel 1 data;
      th2 ← th "TH2"; d2 ← channel 2 data; th4 ← th "TH4";
      let seed_map :=
        nd_and (nd_and (gt_th semantic th1) (lt_th d1 th2)) (gt_th d2 th4) in
      th3 ← th "TH3"; th5 ← th "TH5";
      let foreground := nd_and (gt_th semantic th3) (gt_th d2 th5) in
      '(seed_map, foreground) ←
        erode_if (some_morph o || erode_and_dilate_foreground o) o
                 (to_int seed_map) (Some foreground);
      Some (semantic, label seed_map, foreground)
  | BCDv2 =>
      let semantic := take_last_neg1 data in
      d0 ← channel 0 data; th1 ← th "TH1"; d1 ← channel 1 data;
      th2 ← th "TH2"; th4 ← th "TH4";
      let seed_map :=
        nd_and (nd_and (gt_th d0 th1) (lt_th d1 th2)) (lt_th d1 th4) in
      let background_seed :=
        binary_dilation_2 (nd_or (gt_th d0 th1) (gt_th d1 th2)) in
      let seed_map := label (to_int seed_map) in
      let num := default 0 (nd_max seed_map) in
      (* background_seed = 1 - background_seed, then 1 becomes num+1 *)
      let background_seed :=
        nd_map (fun b : bool => if b then 0 else num + 1) background_seed in
      let seed_map := nd_zip Z.add seed_map background_seed in
      '(seed_map, foreground) ← erode_if (some_morph o) o seed_map None;
      Some (semantic, seed_map, foreground)
  | BDv2 =>
      let semantic := take_last_neg1 data in
      d0 ← channel 0 data; th1 ← th "TH1"; d1 ← channel 1 data;
      th4 ← th "TH4";
      let seed_map := nd_and (gt_th d0 th1) (lt_th d1 th4) in
      let background_seed := binary_dilation_2 (lt_th d1 th4) in
      let seed_map := label (to_int seed_map) in
      let background_seed := label (to_int background_seed) in
      (* [background_seed[label_center]] indexes with a list of floats: an
         IndexError as soon as one seed region exists *)
      match centroids seed_map with
      | _ :: _ => None
      | [] =>
          let seed_map := label (nd_zip Z.add seed_map background_seed) in
          '(seed_map, foreground) ← erode_if (some_morph o) o seed_map None;
          Some (semantic, seed_map, foreground)
      end
  | Dv2 =>
      let semantic := take_last_neg1 data in
      d0 ← channel 0 data; th4 ← th "TH4";
      let seed_map := label (to_int (lt_th d0 th4)) in
      '(seed_map, foreground) ← erode_if (some_morph o) o seed_map None;
      Some (semantic, seed_map, foreground)
  end.

(** The segmentation before the dtype is chosen. *)
Definition grow (o : ws_options) (semantic : ndarray Q) (seed_map : ndarray Z)
    (foreground : option (ndarray bool)) : ndarray Z :=
  let seed_map := if remove_before o
                  then remove_small_objects seed_map (thres_small_before o)
                  else seed_map in
  let segm := watershed (nd_map Qopp semantic) seed_map foreground in
  if remove_after o then remove_small_objects segm (thres_small_after o)
  else segm.

(** [watershed_by_channels]: the returned array with its dtype. *)
Definition watershed_by_channels (data : ndarray Q) (o : ws_options)
  : option (dtype * ndarray Z) :=
  '(semantic, seed_map, foreground) ← seeds_and_foreground data o;
  let segm := grow o semantic seed_map foreground in
  (* Choose appropiate dtype *)
  max_value ← nd_max segm;
  let d := choose_dtype max_value in
  Some (d, nd_map (astype d) segm).

End WatershedByChannels.

(** A stand-in for [skimage.segmentation.watershed] that labels the marked
    voxels inside the mask and nothing else: no flooding, but the same
    treatment of the mask. *)
Definition masked_markers (image : ndarray Q) (markers : ndarray Z)
    (mask : option (ndarray bool)) : ndarray Z :=
  match mask with
  | Some m => nd_zip (fun v (b : bool) => if b then v else 0) markers m
  | None => markers
  end.

(** Stand-ins for the other library functions (identity morphology, every
    foreground voxel its own distance 1, markers kept as labels). *)
Definition no_morph (r : Z) (x : ndarray bool) : ndarray bool := x.
Definition unit_edt (x : ndarray bool) : ndarray Q :=
  nd_map (fun b : bool => if b then 1%Q else 0%Q) x.

(** Two probability channels on four voxels, thresholds at one half. *)
Definition example_data : ndarray Q :=
  of_list 0%Q [4; 2]%nat
    [9 # 10; 1 # 10;  8 # 10; 2 # 10;  1 # 10; 1 # 10;  7 # 10; 9 # 10]%Q.

Definition example_options : ws_options :=
  mk_ws_options BC
    (<["TH1" := (1 # 2)%Q]> (<["TH2" := (1 # 2)%Q]> (<["TH3" := (1 # 2)%Q]> ∅)))
    false 10 false 128 [] [] false 5 5.

End Watershed.

(** ** Circularity filtering:
       [remove_instance_by_circularity_central_slice] *)

Module Circularity.
Import NdArray Rounding.

(** One row of [regionprops_table(img[i], properties=('label', 'area',
    'perimeter', 'bbox'))], and one row of the ('label', 'bbox') table of
    the whole image; [bbox] holds the columns [bbox-0], [bbox-1], ... *)
Record slice_prop := mk_slice_prop {
  sp_label : Z; sp_area : Q; sp_perimeter : Q; sp_bbox : list Z
}.

Record bbox_prop := mk_bbox_prop { bp_label : Z; bp_bbox : list Z }.

(** [props['bbox-n'][k]]; a missing column is a [KeyError]. *)
Definition bbox_col (bbox : list Z) (n : nat) : result Z :=
  or_raise KeyError (bbox !! n).

(** The circularity of one region on one slice:
    [4 * math.pi * area / (perimeter * perimeter)] when the perimeter is
    not zero, else 0.  The quotient is the exact one of its float64
    operands; rounding starts where it is added to the [float32] array. *)
Definition region_circularity (area perimeter : Q) : result Q :=
  if negb (Qeq_bool perimeter 0)
  then py_div (4 * math_pi * area) (perimeter * perimeter)
  else Ok 0%Q.

(** The arrays the main loop updates; [circularities] is a [float32] array
    and [circularities_count] a [uint8] array. *)
Record circ_state := mk_circ_state {
  circularities : list fnum;
  circularities_count : list Z;
  coords_list : list (list Z);
  diameters : list Z
}.

(** [max] of the bounding-box extents of a 3D region. *)
Definition diam3 (bbox : list Z) : result Z :=
  b0 ← bbox_col bbox 0; b1 ← bbox_col bbox 1; b2 ← bbox_col bbox 2;
  b3 ← bbox_col bbox 3; b4 ← bbox_col bbox 4; b5 ← bbox_col bbox 5;
  Ok (Z.max (Z.max (b3 - b0) (b4 - b1)) (b5 - b2)).

Definition diam2 (bbox : list Z) : result Z :=
  b0 ← bbox_col bbox 0; b1 ← bbox_col bbox 1; b2 ← bbox_col bbox 2;
  b3 ← bbox_col bbox 3;
  Ok (Z.max (b2 - b0) (b3 - b1)).

(** Body of [for k, l in enumerate(props['label'])] on slice [i]. *)
Definition measure_region (image3d diam_calc : bool)
    (label_list_coords : list Z) (i : nat) (st : circ_state)
    (p : slice_prop) : result circ_state :=
  if image3d then
    j ← or_raise ValueError (list_index (sp_label p) label_list_coords);
    coord_j ← or_raise IndexError (coords_list st !! j);
    let multiple_slices := (1 <? length coord_j)%nat in
    let coord := if multiple_slices then take 1 coord_j else coord_j in
    diam ← (if negb diam_calc then Some <$> diam3 (sp_bbox p) else Ok None);
    c0 ← or_raise IndexError (head coord);
    st ← (if c0 =? Z.of_nat i then
             circularity ← region_circularity (sp_area p) (sp_perimeter p);
             sum_j ← or_raise IndexError (circularities st !! j);
             count_j ← or_raise IndexError (circularities_count st !! j);
             Ok (mk_circ_state
                   (* the float64 sum, stored as float32 *)
                   (list_set j (cast32 (add64 sum_j circularity))
                             (circularities st))
                   (list_set j ((count_j + 1) mod 256)
                             (circularities_count st))
                   (if multiple_slices
                    then list_set j (drop 1 coord_j ++ take 1 coord_j)
                                  (coords_list st)
                    else coords_list st)
                   (diameters st))
           else Ok st);
    match diam with
    | Some d => Ok (mk_circ_state (circularities st) (circularities_count st)
                      (coords_list st)
                      (list_set j (d mod 2 ^ 32) (diameters st)))
    | None => Ok st
    end
  else
    (* coord = [0] *)
    diam ← (if negb diam_calc then Some <$> diam2 (sp_bbox p) else Ok None);
    if (0 =? i)%nat
    then (* [circularities[j]]: [j] was never assigned *)
         Raise UnboundLocalError
    else match diam with
         | Some _ => Raise UnboundLocalError
         | None => Ok st
         end.

Section RemoveByCircularity.

Variable regionprops_slice : ndarray Z -> list slice_prop.
Variable regionprops_bbox : ndarray Z -> list bbox_prop.
(** Whether NumPy promotes as NEP 50 says (NumPy 2): a Python float that
    meets a [float32] is then taken as a [float32]; before, both were taken
    as [float64]. *)
Variable nep50 : bool.

(** The slices of the main loop: the image itself when it is a volume, the
    image as a one-slice volume otherwise. *)
Definition as_volume (image3d : bool) (img : ndarray Z) : ndarray Z :=
  if image3d then img else expand_first img.

Definition main_loop (image3d diam_calc : bool) (label_list_coords : list Z)
    (img : ndarray Z) (st : circ_state) : result circ_state :=
  for_each (fun st i =>
              for_each (measure_region image3d diam_calc label_list_coords i)
                       (regionprops_slice (sub0 i img)) st)
           (seq 0 (hd 0%nat (shape img))) st.

(** [areas] is a [uint32] array: the float64 volume is truncated toward
    zero on assignment and the integer wraps; an infinity, a NaN or a
    volume outside the 64-bit integers is stored as 0, as the conversion
    of x86-64 does. *)
Definition to_uint32 (x : fnum) : Z :=
  match x with
  | Finite q =>
      let t := Qnum q ÷ Zpos (Qden q) in
      if (- 2 ^ 63 <=? t) && (t <? 2 ^ 63) then t mod 2 ^ 32 else 0
  | _ => 0
  end.

(** [resolution[0]+resolution[1]+resolution[2]] (or the first two), in
    float64. *)
Definition sum_resolution (image3d : bool) (resolution : list Q)
  : result fnum :=
  r0 ← or_raise IndexError (resolution !! 0%nat);
  r1 ← or_raise IndexError (resolution !! 1%nat);
  if image3d then r2 ← or_raise IndexError (resolution !! 2%nat);
                  Ok (add64 (float64 (r0 + r1)) r2)
  else Ok (float64 (r0 + r1)).

(** [img[c[0], c[1], c[2]]] / [img[c[0], c[1]]]. *)
Definition at_coords (image3d : bool) (img : ndarray Z) (c : list Z)
  : result Z :=
  c0 ← or_raise IndexError (c !! 0%nat);
  c1 ← or_raise IndexError (c !! 1%nat);
  idx ← (if image3d then c2 ← or_raise IndexError (c !! 2%nat);
                         Ok [c0; c1; c2]
         else Ok [c0; c1]);
  (* negative positions count from the end *)
  let pos := zip_with (fun (i : Z) (n : nat) =>
                         if i <? 0 then i + Z.of_nat n else i)
                      idx (shape img) in
  if forallb (fun '(i, n) => (0 <=? i) && (i <? Z.of_nat n))
             (zip pos (shape img))
  then Ok (get img (map Z.to_nat pos))
  else Raise IndexError.

(** Initialisation when [coords_list] is given. *)
Definition init_with_coords (image3d : bool) (img : ndarray Z)
    (resolution : list Q) (label_list_unique npixels : list Z)
    (coords : list (list Z))
  : result (list Z * list Z * circ_state) :=
  let total_labels := length coords in
  label_list_coords ← for_each (fun acc c => v ← at_coords image3d img c;
                                             Ok (acc ++ [v])) coords [];
  areas ← for_each (fun areas '(label, pixels) =>
             label_index ← or_raise ValueError
                                    (list_index label label_list_coords);
             res ← sum_resolution image3d resolution;
             Ok (list_set label_index
                          (to_uint32 (mul64 pixels res)) areas))
           (zip label_list_unique npixels) (replicate total_labels 0);
  Ok (label_list_coords, areas,
      mk_circ_state (replicate total_labels (Finite 0)) (replicate total_labels 0)
                    coords (replicate total_labels 0)).

(** Initialisation when [coords_list] is [None]: the central slice of every
    instance and its two neighbours. *)
Definition init_central_slices (image3d : bool) (img : ndarray Z)
    (resolution : list Q) (label_list_unique npixels : list Z)
  : result (list Z * list Z * circ_state) :=
  let total_labels := length label_list_unique in
  '(areas, coords, diams) ←
    for_each (fun '(areas, coords, diams) p =>
       label_index ← or_raise ValueError
                              (list_index (bp_label p) label_list_unique);
       pixels ← or_raise IndexError (npixels !! label_index);
       if image3d then
         z_coord_start ← bbox_col (bp_bbox p) 0;
         z_coord_finish ← bbox_col (bp_bbox p) 3;
         let central_slice := (z_coord_start + z_coord_finish) / 2 in
         res ← sum_resolution image3d resolution;
         diam ← diam3 (bp_bbox p);
         let slices :=
           (if z_coord_start <=? central_slice - 1
            then [central_slice - 1] else [])
           ++ [central_slice]
           ++ (if central_slice + 1 <=? z_coord_finish
               then [central_slice + 1] else []) in
         Ok (list_set label_index (to_uint32 (mul64 pixels res)) areas,
             list_set label_index slices coords,
             list_set label_index (diam mod 2 ^ 32) diams)
       else
         res ← sum_resolution image3d resolution;
         diam ← diam2 (bp_bbox p);
         (* [z_coord_start] is only assigned for volumes *)
         Raise UnboundLocalError)
      (regionprops_bbox img)
      (replicate total_labels 0, replicate total_labels [],
       replicate total_labels 0);
  Ok (label_list_unique, areas,
      mk_circ_state (replicate total_labels (Finite 0)) (replicate total_labels 0)
                    coords diams).

(** [a / n] for a [float32] [a] and a count [n], in float32; a zero count
    is a division by zero. *)
Definition div_count (a : fnum) (n : Z) : result fnum :=
  if n =? 0 then Raise ZeroDivisionError else Ok (quot32 a n).

(** Circularity of instance [i] once all slices are seen: the accumulated
    sum over the measured slices divided by their number, 0 when none. *)
Definition mean_circularity (st : circ_state) (i : nat) : result fnum :=
  sum_i ← or_raise IndexError (circularities st !! i);
  count_i ← or_raise IndexError (circularities_count st !! i);
  if negb (count_i =? 0) then div_count sum_i count_i else Ok (Finite 0).

(** [circularities[i] > circularity_th] for the [float32] on the left and
    the Python float on the right, whose value [circularity_th] is. *)
Definition passes (c : fnum) (circularity_th : Q) : bool :=
  fnum_gt c (if nep50 then float32 circularity_th else Finite circularity_th).

(** [img[img == l] = 0]. *)
Definition remove_label (l : Z) (img : ndarray Z) : ndarray Z :=
  nd_map (fun v => if v =? l then 0 else v) img.

Record circ_output := mk_circ_output {
  out_img : ndarray Z;
  out_labels : list Z;
  out_npixels : list Z;
  out_areas : list Z;
  out_circularities : list fnum;
  out_diameters : list Z;
  out_comment : list string
}.

(** The last loop: "Remove those instances that do not pass the
    threshold". *)
Definition filter_loop (circularity_th : Q) (label_list_coords : list Z)
    (st : circ_state) (img : ndarray Z)
  : result (ndarray Z * list fnum * list string) :=
  for_each (fun '(img, circs, comment) i =>
              c ← mean_circularity st i;
              if passes c circularity_th
              then Ok (img, circs ++ [c], comment ++ ["Correct"])
              else l ← or_raise IndexError (label_list_coords !! i);
                   Ok (remove_label l img, circs ++ [c],
                       comment ++ ["Strange"]))
           (seq 0 (length (circularities st))) (img, [], []).

Definition remove_instance_by_circularity_central_slice (img : ndarray Z)
    (resolution : list Q) (coords_list : option (list (list Z)))
    (circularity_th : Q) : result circ_output :=
  let image3d := (ndim img =? 3)%nat in
  let flat := ravel img in
  (* np.unique(img, return_counts=True) without its first entry *)
  let label_list_unique := tl (np_unique flat) in
  let npixels := map (fun l => Z.of_nat (count_Z l flat)) label_list_unique in
  '(label_list_coords, areas, st) ←
    match coords_list with
    | Some coords =>
        init_with_coords image3d img resolution label_list_unique npixels coords
    | None =>
        init_central_slices image3d img resolution label_list_unique npixels
    end;
  let diam_calc := match coords_list with Some _ => false | None => true end in
  let vol := as_volume image3d img in
  st ← main_loop image3d diam_calc label_list_coords vol st;
  '(vol, circs, comment) ← filter_loop circularity_th label_list_coords st vol;
  Ok (mk_circ_output (if image3d then vol else sub0 0 vol)
        label_list_coords npixels areas circs (diameters st) comment).

End RemoveByCircularity.

(** A region with the area and perimeter of a perfect circle of radius [r]. *)
Definition circle_prop (l : Z) (r : Q) : slice_prop :=
  mk_slice_prop l (math_pi * r * r)%Q (2 * math_pi * r)%Q [0; 0; 1; 1].

(** A 4x1x1 volume: a background voxel, then label 1 on three slices
    (bounding box [1, 4) in z), measured as a circle of radius 5 on every
    slice where it appears. *)
Definition example_stack : ndarray Z := of_list 0 [4; 1; 1]%nat [0; 1; 1; 1].
Definition example_slice_props (s : ndarray Z) : list slice_prop :=
  if get s [0; 0]%nat =? 0 then [] else [circle_prop 1 5].
Definition example_bbox_props (_ : ndarray Z) : list bbox_prop :=
  [mk_bbox_prop 1 [1; 0; 0; 4; 1; 1]].

(** The same volume measured as one-pixel regions, whose perimeter is 0. *)
Definition example_dot_props (s : ndarray Z) : list slice_prop :=
  if get s [0; 0]%nat =? 0 then []
  else [mk_slice_prop 1 1%Q 0%Q [0; 0; 1; 1]].

(** A computation that does not end in [ZeroDivisionError]. *)
Definition zsafe {A} (r : result A) : Prop := r <> Raise ZeroDivisionError.




(** The Python float [0.7], the default threshold. *)
Definition default_th : Q := 3152519739159347 # 4503599627370496.

(** A region of circularity [0x1.6666667e14e59p-1], a little above 0.7,
    on each slice of the example volume where label 1 appears. *)
Definition example_oval_props (s : ndarray Z) : list slice_prop :=
  if get s [0; 0]%nat =? 0 then []
  else [mk_slice_prop 1
          ((6305039503150681 # 9007199254740992) * math_pi)%Q
          (2 * math_pi)%Q [0; 0; 1; 1]].


End Circularity.

(** ** Threshold calibration: the loop over the samples of
       [calculate_optimal_mw_thresholds] *)

Module CalibrationSamples.
Import NdArray Calibration.

(** [assert mode in ['BC', 'BCD']]. *)
Inductive mode := BC | BCD.

(** The lists the function fills sample by sample.  The TH4 and TH5 lists
    exist in mode BCD only and stay empty otherwise. *)
Record mw_lists := mk_mw_lists {
  g_l_th1 : list (list Z); l_th1_min : list Q; l_th1_opt : list Q;
  g_l_th2 : list (list Z); l_th2_min : list Q; l_th2_opt : list Q;
  ideal_number_obj : list Z;
  g_l_th3 : list (list Q); l_th3_max : list Q;
  g_l_th4 : list (list Z); l_th4_min : list Q; l_th4_opt : list Q;
  g_l_th5 : list (list Q); l_th5_max : list Q
}.

Definition mw_lists_init : mw_lists :=
  mk_mw_lists [] [] [] [] [] [] [] [] [] [] [] [] [] [].

(** [len(np.unique(p))]. *)
Definition n_unique (p : ndarray Z) : Z :=
  Z.of_nat (length (np_unique (ravel p))).

(** [np.max] of a float array. *)
Definition nd_qmax (a : ndarray Q) : option Q :=
  match ravel a with
  | [] => None
  | x :: r => Some (fold_left (fun m y => if Qle_bool y m then m else y) r x)
  end.

(** The TH3 and TH5 searches: the candidate with the first strictly largest
    Jaccard index, and the list of all indices. *)
Definition jaccard_step (jac_at : Q -> Q) (st : Q * Q * list Q) (th : Q)
  : Q * Q * list Q :=
  let '(best, max_jac, l) := st in
  let jac := jac_at th in
  if negb (Qle_bool jac max_jac) then (th, jac, l ++ [jac])
  else (best, max_jac, l ++ [jac]).

Definition jaccard_search (candidates : list Q) (jac_at : Q -> Q)
  : Q * list Q :=
  let '(best, _, l) :=
    fold_left (jaccard_step jac_at) candidates ((-1)%Q, (-1)%Q, []) in
  (best, l).

Section Samples.

(** [predict img] is [model.predict(img, verbose=0)],
    [apply_binary_mask pred] is [apply_binary_mask(pred, bin_mask_path)],
    [label p] is [skimage.measure.label(p, connectivity=1)]; the first two
    may raise. *)
Variable predict : ndarray Q -> result (ndarray Q).
Variable apply_binary_mask : ndarray Q -> result (ndarray Q).
Variable jaccard_index_numpy : ndarray Z -> ndarray Z -> Q.
Variable label : ndarray Z -> ndarray Z.

(** Arguments of the function and the distance candidates computed before
    the loop; [with_bin_mask] is [bin_mask_path is not None]. *)
Variable mode_ : mode.
Variable thres_small : Z.
Variable with_bin_mask : bool.
Variable ths_dis : list Q.

(** The branch taken for a sample with more than one label: the five
    searches and their appends. *)
Definition search_thresholds (img : ndarray Q) (mask : ndarray Z)
    (n_labels : Z) (s : mw_lists) : result mw_lists :=
  (* Prediction *)
  m ← or_raise ValueError (nd_qmax img);
  let img := if negb (Qle_bool m 30) then nd_map (fun x => x / 255)%Q img
             else img in
  pred ← predict img;
  pred ← (if with_bin_mask then apply_binary_mask pred else Ok pred);
  pred0 ← or_raise IndexError (channel 0 pred);
  let truth := Watershed.to_int (Watershed.nonzero mask) in
  (* TH3 *)
  let '(th3_best, l_th3) :=
    jaccard_search ths (fun th =>
      jaccard_index_numpy truth
        (expand_last (Watershed.to_int (Watershed.gt_th pred0 th)))) in
  (* TH5 *)
  th5 ← match mode_ with
        | BCD =>
            pred2 ← or_raise IndexError (channel 2 pred);
            Ok (Some (jaccard_search ths_dis (fun th =>
              jaccard_index_numpy truth
                (expand_last (Watershed.to_int (Watershed.gt_th pred2 th))))))
        | BC => Ok None
        end;
  (* TH2 *)
  let objs_to_divide := Watershed.gt_th pred0 th3_best in
  pred1 ← or_raise IndexError (channel 1 pred);
  let th2 := th2_sweep n_labels
    (map (fun th =>
       let p := Watershed.to_int
                  (Watershed.nd_and objs_to_divide (Watershed.lt_th pred1 th)) in
       let p := label (squeeze p) in
       let p := if negb (n_unique p =? 1)
                then remove_small_objects p thres_small else p in
       (th, n_unique p)) ths) in
  th2_opt ← or_raise IndexError
    (py_index ths (th2_opt_pos (Z.of_nat (length ths)) th2));
  (* TH1 *)
  let th1 := th1_sweep false n_labels
    (map (fun th =>
       let p := Watershed.to_int
                  (Watershed.nd_and (Watershed.gt_th pred0 th)
                                    (Watershed.lt_th pred1 (th2_min th2))) in
       (th, n_unique (label (squeeze p)))) ths) in
  th1_opt ← or_raise IndexError
    (py_index ths (th1_opt_pos (Z.of_nat (length ths)) th1));
  (* TH4 *)
  th4 ← match mode_ with
        | BCD =>
            pred2 ← or_raise IndexError (channel 2 pred);
            let th4 := th1_sweep (in_row th1) n_labels
              (map (fun th =>
                 let p := Watershed.to_int
                            (Watershed.nd_and (Watershed.gt_th pred2 th)
                               (Watershed.lt_th pred1 (th2_min th2))) in
                 (th, n_unique (label (squeeze p)))) ths_dis) in
            th4_opt ← or_raise IndexError
              (py_index ths_dis (th1_opt_pos (Z.of_nat (length ths_dis)) th4));
            Ok (Some (th4, th4_opt))
        | BC => Ok None
        end;
  Ok (mk_mw_lists
        (g_l_th1 s ++ [l_th1 th1]) (l_th1_min s ++ [th1_min th1])
        (l_th1_opt s ++ [th1_opt])
        (g_l_th2 s ++ [l_th2 th2]) (l_th2_min s ++ [th2_min th2])
        (l_th2_opt s ++ [th2_opt])
        (ideal_number_obj s)
        (g_l_th3 s ++ [l_th3]) (l_th3_max s ++ [th3_best])
        (g_l_th4 s ++ from_option (fun r => [l_th1 r.1]) [] th4)
        (l_th4_min s ++ from_option (fun r => [th1_min r.1]) [] th4)
        (l_th4_opt s ++ from_option (fun r => [r.2]) [] th4)
        (g_l_th5 s ++ from_option (fun r => [r.2]) [] th5)
        (l_th5_max s ++ from_option (fun r => [r.1]) [] th5)).

(** [ideal_number_obj.append(n)]. *)
Definition store_number_obj (n : Z) (s : mw_lists) : mw_lists :=
  mk_mw_lists (g_l_th1 s) (l_th1_min s) (l_th1_opt s)
              (g_l_th2 s) (l_th2_min s) (l_th2_opt s)
              (ideal_number_obj s ++ [n])
              (g_l_th3 s) (l_th3_max s)
              (g_l_th4 s) (l_th4_min s) (l_th4_opt s)
              (g_l_th5 s) (l_th5_max s).

(** The body of [for k in range(_img.shape[0])] for one patch and its
    ground-truth mask. *)
Definition sample_step (s : mw_lists) (sample : ndarray Q * ndarray Z)
  : result mw_lists :=
  let '(img, mask) := sample in
  (* Mask adjust *)
  let labels := np_unique (ravel mask) in
  let mask := if negb (length labels =? 1)%nat
              then remove_small_objects mask thres_small else mask in
  s ← (if (length labels =? 1)%nat
       then Ok s   (* "Skip this sample as it is just background" *)
       else search_thresholds img mask (Z.of_nat (length labels)) s);
  (* Store the number of nucleus *)
  Ok (store_number_obj (Z.of_nat (length labels)) s).

(** All the patches, in order. *)
Definition sample_loop (samples : list (ndarray Q * ndarray Z))
  : result mw_lists :=
  for_each sample_step samples mw_lists_init.

End Samples.

(** A background-only patch and one with a single object. *)
Definition background_patch : ndarray Q * ndarray Z :=
  (full [2; 2; 1]%nat 7%Q, full [2; 2; 1]%nat 0).

Definition object_patch : ndarray Q * ndarray Z :=
  (full [2; 2; 1]%nat 7%Q, of_list 0 [2; 2; 1]%nat [0; 1; 1; 0]).

(** A model that fails on every input. *)
Definition failing_model (_ : ndarray Q) : result (ndarray Q) :=
  Raise ValueError.

(** A model that answers three constant channels. *)
Definition constant_model (img : ndarray Q) : result (ndarray Q) :=
  Ok (full (removelast (shape img) ++ [3%nat]) (1 # 2)%Q).

End CalibrationSamples.

(** ** Threshold calibration: the statistics over the samples that end
       [calculate_optimal_mw_thresholds] *)

Module CalibrationAggregate.
Import NdArray Calibration CalibrationSamples.

(** A patch whose mask has more than one label, that is, one on which the
    searches run. *)
Definition has_objects (sample : ndarray Q * ndarray Z) : bool :=
  negb (length (np_unique (ravel sample.2)) =? 1)%nat.

Definition qsum_list (l : list Q) : Q := fold_right Qplus 0%Q l.

(** [statistics.mean]: the exact mean; an empty list raises
    [StatisticsError], which is a [ValueError]. *)
Definition statistics_mean (data : list Q) : result Q :=
  if (length data =? 0)%nat then Raise ValueError
  else Ok (qsum_list data / inject_Z (Z.of_nat (length data)))%Q.

(** [min] of a list; an empty list raises [ValueError]. *)
Definition py_min (l : list Q) : result Q :=
  match l with
  | [] => Raise ValueError
  | x :: r => Ok (fold_left (fun m y => if Qle_bool m y then m else y) r x)
  end.

Section Aggregate.

(** The square root used by [statistics.stdev], and the outcome of the
    calls of [create_th_plot] (charts written to [chart_dir]). *)
Variable sqrt : Q -> Q.
Variable create_th_plots : mw_lists -> Q -> result unit.

(** [statistics.stdev]: the square root of the sample variance; fewer than
    two values raise [StatisticsError]. *)
Definition statistics_stdev (data : list Q) : result Q :=
  if (length data <? 2)%nat then Raise ValueError
  else
    let n := inject_Z (Z.of_nat (length data)) in
    let m := (qsum_list data / n)%Q in
    Ok (sqrt (qsum_list (map (fun x => (x - m) * (x - m))%Q data)
              / (n - 1))%Q).

(** Mean and standard deviation of one list, in the order the code computes
    them. *)
Definition mean_and_std (data : list Q) : result (Q * Q) :=
  m ← statistics_mean data; sd ← statistics_stdev data; Ok (m, sd).

(** [l[0]] with a standard deviation of 0. *)
Definition first_and_zero (data : list Q) : result (Q * Q) :=
  x ← or_raise IndexError (data !! 0%nat); Ok (x, 0%Q).

(** Everything after the loop over the files: the returned tuple.  (The
    values that are only printed are computed all the same.) *)
Definition aggregate (mode_ : mode) (use_minimum : bool) (s : mw_lists)
  : result (list Q) :=
  ideal_objects ← statistics_mean (map inject_Z (ideal_number_obj s));
  _ ← create_th_plots s ideal_objects;
  let summary := if (1 <? length (ideal_number_obj s))%nat
                 then mean_and_std else first_and_zero in
  global_th1 ← summary (l_th1_min s);
  global_th1_opt ← summary (l_th1_opt s);
  global_th2 ← summary (l_th2_min s);
  global_th2_opt ← summary (l_th2_opt s);
  global_th3 ← summary (l_th3_max s);
  match mode_ with
  | BCD =>
      global_th4 ← summary (l_th4_min s);
      global_th4_opt ← summary (l_th4_opt s);
      global_th5 ← summary (l_th5_max s);
      if negb use_minimum
      then Ok [global_th1_opt.1; global_th2_opt.1; global_th3.1;
               global_th4_opt.1; global_th5.1]
      else
        min1 ← py_min (l_th1_min s);
        min4 ← py_min (l_th4_min s);
        Ok [min1; global_th2_opt.1; global_th3.1; min4; global_th5.1]
  | BC =>
      if negb use_minimum
      then Ok [global_th1_opt.1; global_th2_opt.1; global_th3.1]
      else
        min1 ← py_min (l_th1_min s);
        Ok [min1; global_th2_opt.1; global_th3.1]
  end.

(** The function on the patches of all files, in order. *)
Definition calculate_optimal_mw_thresholds
    (predict apply_binary_mask : ndarray Q -> result (ndarray Q))
    (jaccard_index_numpy : ndarray Z -> ndarray Z -> Q)
    (label : ndarray Z -> ndarray Z)
    (mode_ : mode) (thres_small : Z) (with_bin_mask : bool)
    (ths_dis : list Q) (use_minimum : bool)
    (samples : list (ndarray Q * ndarray Z)) : result (list Q) :=
  s ← sample_loop predict apply_binary_mask jaccard_index_numpy label mode_
                  thres_small with_bin_mask ths_dis samples;
  aggregate mode_ use_minimum s.

End Aggregate.

End CalibrationAggregate.

(** ** Thinning of detected points: [remove_close_points] *)

Module ClosePoints.

(** Coordinates, the resolution and the radius are binary64 numbers, and
    the arithmetic on them is the rounded one. *)

(** One pass of the "Resolution adjust" loop on a row: columns 0 and 1 are
    scaled, column 2 only when [ndim == 3]; a missing column or resolution
    entry is an [IndexError]. *)
Definition scale_column (resolution : list float) (c : nat) (p : list float)
  : result (list float) :=
  x ← or_raise IndexError (p !! c);
  r ← or_raise IndexError (resolution !! c);
  Ok (list_set c (x * r)%float p).

Definition scale_point (ndim : Z) (resolution p : list float)
  : result (list float) :=
  p ← scale_column resolution 0 p;
  p ← scale_column resolution 1 p;
  if ndim =? 3 then scale_column resolution 2 p else Ok p.

(** Squared Euclidean distance of two rows of exact coordinates. *)
Definition dist2 (p q : list Q) : Q :=
  fold_right Qplus 0%Q (zip_with (fun a b => (a - b) * (a - b))%Q p q).

(** [neighbors[i].add(j)], creating the set when [i] is new. *)
Definition add_neighbor (i j : nat) (neighbors : gmap nat (gset nat))
  : gmap nat (gset nat) :=
  match neighbors !! i with
  | None => <[i := {[j]}]> neighbors
  | Some s => <[i := s ∪ {[j]}]> neighbors
  end.

Definition build_neighbors (pairs : list (nat * nat)) : gmap nat (gset nat) :=
  foldl (fun neighbors '(i, j) => add_neighbor j i (add_neighbor i j neighbors))
        ∅ pairs.

(** [neighbors.get(node, set())]. *)
Definition neighbors_get (neighbors : gmap nat (gset nat)) (node : nat)
  : gset nat := default ∅ (neighbors !! node).

(** The greedy pass: state [(keep, discard)]. *)
Definition keep_step (neighbors : gmap nat (gset nat))
    (st : list nat * gset nat) (node : nat) : list nat * gset nat :=
  let '(keep, discard) := st in
  if decide (node ∈ discard) then st
  else (keep ++ [node], discard ∪ neighbors_get neighbors node).

Definition keep_loop (neighbors : gmap nat (gset nat)) (positions : list nat)
  : list nat * gset nat :=
  foldl (keep_step neighbors) ([], ∅) positions.

(** What the function returns. *)
Inductive close_output (C : Type) :=
| Points (new_point_list : list (list float))
| PointsAndClasses (new_point_list : list (list float))
                   (new_class_list : list C).
Arguments Points {C} _.
Arguments PointsAndClasses {C} _ _.

(** The rows of either form of result. *)
Definition output_points {C} (r : close_output C) : list (list float) :=
  match r with
  | Points l => l
  | PointsAndClasses l _ => l
  end.

(** Invariant of the greedy pass: no kept node is listed twice, the
    neighbours of every kept node are discarded, and no kept node is a
    neighbour of another. *)
Definition independent (neighbors : gmap nat (gset nat))
    (keep : list nat) (discard : gset nat) : Prop :=
  NoDup keep /\
  (forall k j, k ∈ keep -> j ∈ neighbors_get neighbors k -> j ∈ discard) /\
  (forall k k', k ∈ keep -> k' ∈ keep -> k <> k' ->
                k' ∈ neighbors_get neighbors k -> False).

(** What [points] is.  Of a two-dimensional float64 array [points.copy()]
    is a new array: the loop scales the copy and the rows of [points] stay
    as they were.  Of a Python list of distinct lists of floats it is a new
    list of the same row objects: the loop scales the caller's rows in
    place.  (An integer array, whose products are truncated on assignment,
    is neither.) *)
Inductive container := FloatArray | RowList.

Section RemoveClosePoints.

(** [query_pairs radius rows] is [cKDTree(rows).query_pairs(radius)]: a set
    of index pairs, here in its iteration order. *)
Variable query_pairs : float -> list (list float) -> list (nat * nat).

(** The function returns its result; the second component is what the
    rows of the caller's [points] are after the call. *)
Definition remove_close_points {C} (kind : container)
    (points : list (list float)) (radius : float) (resolution : list float)
    (classes : option (list C)) (ndim : Z)
  : result (close_output C * list (list float)) :=
  (* point_list = points.copy(), then Resolution adjust *)
  point_list ← mapM (scale_point ndim resolution) points;
  let points := match kind with
                | FloatArray => points
                | RowList => point_list
                end in
  let mynumbers := point_list in
  if (length mynumbers =? 0)%nat then Ok (Points [], points)
  else
    let pairs := query_pairs radius mynumbers in
    let neighbors := build_neighbors pairs in
    let positions := seq 0 (length point_list) in
    let keep := (keep_loop neighbors positions).1 in
    (* points to keep *)
    new_point_list ← mapM (fun i => or_raise IndexError (points !! i)) keep;
    match classes with
    | Some classes =>
        new_class_list ← mapM (fun i => or_raise IndexError (classes !! i)) keep;
        Ok (PointsAndClasses new_point_list new_class_list, points)
    | None => Ok (Points new_point_list, points)
    end.

End RemoveClosePoints.

(** Row [s] is row [p] in the units of [resolution]: the columns 0 and 1,
    and the column 2 when [ndim] is 3, are the rounded products with the
    entries of [resolution], the other columns are those of [p]. *)
Definition scaled_by (ndim : Z) (resolution p s : list float) : Prop :=
  length s = length p /\
  forall c x, p !! c = Some x ->
    if (c <? (if (ndim =? 3)%Z then 3 else 2))%nat
    then exists r, resolution !! c = Some r /\ s !! c = Some (x * r)%float
    else s !! c = Some x.

(** The squared distance of two rows as [cKDTree] computes it for rows of
    fewer than four columns: the squares are added to 0 one column after
    the other. *)
Definition float_dist2 (p q : list float) : float :=
  fold_left (fun s d => s + d)%float
            (zip_with (fun a b => (a - b) * (a - b))%float p q) 0%float.

(** The test of [query_pairs] on two rows: the squared distance is at most
    the squared radius, both as computed. *)
Definition within (radius : float) (p q : list float) : bool :=
  (float_dist2 p q <=? radius * radius)%float.

(** What [query_pairs] reports on a handful of rows of fewer than four
    columns, which are one leaf of the tree: the pairs [i < j] that pass
    the test, in lexicographic order. *)
Definition all_pairs (radius : float) (rows : list (list float))
  : list (nat * nat) :=
  let n := length rows in
  i ← seq 0 n;
  j ← seq 0 n;
  if (i <? j)%nat && within radius (rows !!! i) (rows !!! j)
  then [(i, j)] else [].

(** The real number a finite binary64 number stands for (0 for the
    others). *)
Definition float_value (x : float) : Q :=
  match Prim2SF x with
  | S754_finite s m e =>
      ((if s then -1 else 1) * inject_Z (Zpos m) * Qpower 2 e)%Q
  | _ => 0%Q
  end.

(** The exact squared distance of two rows after the exact scaling by
    [resolution]. *)
Definition exact_scaled (resolution p : list float) : list Q :=
  zip_with Qmult (float_value <$> p) (float_value <$> resolution).

Definition exact_dist2 (resolution p q : list float) : Q :=
  dist2 (exact_scaled resolution p) (exact_scaled resolution q).

Definition example_points : list (list float) :=
  [[0; 0; 0]; [1; 0; 0]; [10; 0; 0]; [0; 3; 0]]%float.

(** Two rows whose distance in the units of the resolution [1/2] is below
    the radius [0x1.6666666666666p-1] (0.7), but not as computed. *)
Definition example_close_rows : list (list float) :=
  [[0; 0; 0];
   [0x1.2826d7efa8293p+0; 0x1.93b4d5aaae51ep-1; 0]]%float.

End ClosePoints.
(** ** Filling the unlabelled foreground: [voronoi_on_mask] *)

Module Voronoi.
Import NdArray.

(** [a[pos] = v] for one multi-index. *)
Definition set_at {A} (pos : list nat) (v : A) (a : ndarray A) : ndarray A :=
  mk_nd (shape a) (fun idx => if decide (idx = pos) then v else get a idx).

(** A voxel position as a query point. *)
Definition coords (pos : list nat) : list Q :=
  map (fun c => inject_Z (Z.of_nat c)) pos.

(** The positions at which [a] has the value [l]. *)
Definition group (a : ndarray Z) (l : Z) : list (list nat) :=
  List.filter (fun idx => get a idx =? l) (indices (shape a)).

(** The mean position of a group, one entry per axis. *)
Definition mean_position (n_axes : nat) (g : list (list nat)) : list Q :=
  map (fun axis =>
         (fold_right Qplus 0 (map (fun idx => nth axis (coords idx) 0) g)
          / inject_Z (Z.of_nat (length g)))%Q)
      (seq 0 n_axes).

(** [labels, mean = npi.group_by(a, axis=None).mean(idx, axis=1)] followed
    by [points = mean.transpose((1,0))]: the sorted distinct values of [a]
    and, in the same order, one row per value with the mean position of its
    voxels. *)
Definition group_by_mean (a : ndarray Z) : list Z * list (list Q) :=
  let labels := np_unique (ravel a) in
  (labels, map (fun l => mean_position (ndim a) (group a l)) labels).

(** [(_data[i] > 0) != voronoi_mask]. *)
Definition not_labelled (data_i : ndarray Z) (voronoi_mask : ndarray bool)
  : ndarray bool :=
  nd_zip xorb (nd_map (fun v => 0 <? v) data_i) voronoi_mask.

(** [np.argwhere(a > 0)]: the positions of the true entries in C order. *)
Definition argwhere (a : ndarray bool) : list (list nat) :=
  List.filter (get a) (indices (shape a)).

Section VoronoiOnMask.

(** [label x] is [skimage.measure.label(x)], [binary_dilation_2] and
    [binary_erosion_2] are the SciPy operations with [iterations=2], and
    [query points pos] is [KDTree(points).query(pos)[1]]. *)
Variable label : ndarray Z -> ndarray Z.
Variable binary_dilation_2 binary_erosion_2 : ndarray bool -> ndarray bool.
Variable query : list (list Q) -> list Q -> nat.

(** "Create voxel mask". *)
Definition cleaned_mask (th : Q) (thres_small : Z) (mask_i0 : ndarray Q)
  : ndarray bool :=
  let voronoi_mask := Watershed.to_int (Watershed.gt_th mask_i0 th) in
  let voronoi_mask := label voronoi_mask in
  let voronoi_mask :=
    nd_map (fun v => 0 <? v) (remove_small_objects voronoi_mask thres_small) in
  (* Remove small objects *)
  let voronoi_mask := binary_dilation_2 voronoi_mask in
  binary_erosion_2 voronoi_mask.

(** The body of the loop for one image [_data[i]] and its mask channel
    [mask[i,...,0]].  An empty image has no centroid to build the tree
    from, and operands of unequal shape are not compared: both are reported
    as [ValueError]. *)
Definition voronoi_image (th : Q) (thres_small : Z) (data_i : ndarray Z)
    (mask_i0 : ndarray Q) : result (ndarray Z) :=
  (* Obtain centroids of labels *)
  let '(labels, points) := group_by_mean data_i in
  if (length points =? 0)%nat then Raise ValueError
  else
    let voronoi_mask := cleaned_mask th thres_small mask_i0 in
    if negb (shape_eqb (shape data_i) (shape voronoi_mask))
    then Raise ValueError
    else
      (* XOR to determine the particular voxels to apply Voronoi *)
      let not_labelled_points := not_labelled data_i voronoi_mask in
      let pos_not_labelled_points := argwhere not_labelled_points in
      Ok (fold_left
            (fun _data_i pos =>
               set_at pos (Z.of_nat (query points (coords pos))) _data_i)
            pos_not_labelled_points data_i).

Definition voronoi_on_mask (data : ndarray Z) (mask : ndarray Q)
    (filenames : option (list string)) (th : Q) (thres_small : Z)
  : result (ndarray Z) :=
  let len_data := hd 0%nat (shape data) in
  if negb (ndim data =? 4)%nat then Raise ValueError
  else if negb (ndim mask =? 5)%nat then Raise ValueError
  else if (List.last (shape mask) 0 <? 2)%nat then Raise ValueError
  else if match filenames with
          | Some fs => negb (length fs =? len_data)%nat
          | None => false
          end then Raise ValueError
  else
    for_each
      (fun _data i =>
         if negb (i <? hd 0%nat (shape mask))%nat then Raise IndexError
         else
           image ← voronoi_image th thres_small (sub0 i _data)
                                 (take_last 0 (sub0 i mask));
           Ok (set_sub0 i image _data))
      (seq 0 len_data) data.

End VoronoiOnMask.

(** What is assumed of [KDTree.query]: the index of a row of the tree that
    is nearest to the query point. *)
Definition query_spec (query : list (list Q) -> list Q -> nat) : Prop :=
  forall points pos, points <> [] ->
    (query points pos < length points)%nat /\
    forall k c, points !! k = Some c ->
      (ClosePoints.dist2 (points !!! query points pos) pos
       <= ClosePoints.dist2 c pos)%Q.

(** The first nearest row. *)
Fixpoint nearest_from (pos : list Q) (best : nat) (best_d : Q) (k : nat)
    (points : list (list Q)) : nat :=
  match points with
  | [] => best
  | c :: r =>
      if negb (Qle_bool best_d (ClosePoints.dist2 c pos))
      then nearest_from pos k (ClosePoints.dist2 c pos) (S k) r
      else nearest_from pos best best_d (S k) r
  end.

Definition nearest_index (points : list (list Q)) (pos : list Q) : nat :=
  match points with
  | [] => 0%nat
  | c :: r => nearest_from pos 0 (ClosePoints.dist2 c pos) 1 r
  end.

(** One image of one row of eight voxels whose first two carry the label 5,
    and a mask whose first channel covers the first three voxels. *)
Definition example_row : ndarray Z :=
  of_list 0 [1; 1; 1; 8]%nat [5; 5; 0; 0; 0; 0; 0; 0].

Definition example_row_mask : ndarray Q :=
  of_list 0%Q [1; 1; 1; 8; 2]%nat
    [1; 0; 1; 0; 1; 0; 0; 0; 0; 0; 0; 0; 0; 0; 0; 0]%Q.

End Voronoi.


(** ** Thinning of detected points: the kept positions *)

Module ClosePointsKept.
Import ClosePoints.

(** The list [keep] that [remove_close_points] builds for the scaled rows
    [scaled] (empty when there is no row, where the function returns before
    the tree is built). *)
Definition kept_indices
    (query_pairs : float -> list (list float) -> list (nat * nat))
    (radius : float) (scaled : list (list float)) : list nat :=
  if (length scaled =? 0)%nat then []
  else (keep_loop (build_neighbors (query_pairs radius scaled))
                  (seq 0 (length scaled))).1.

(** Classes for the four example points. *)
Definition example_classes : list Z := [7; 8; 9; 10].

End ClosePointsKept.
(** ** Watershed: the thresholds a mode reads *)

Module WatershedKeys.
Import Watershed.

(** The keys of [ths] that the branch of each mode reads. *)
Definition required_ths (mode : channel_mode) : list string :=
  match mode with
  | BC | BCM => ["TH1"; "TH2"; "TH3"]
  | BP => ["TH_POINTS"; "TH3"]
  | BCD => ["TH1"; "TH2"; "TH3"; "TH4"; "TH5"]
  | BCDv2 => ["TH1"; "TH2"; "TH4"]
  | BDv2 => ["TH1"; "TH4"]
  | Dv2 => ["TH4"]
  end.

End WatershedKeys.

(** ** [apply_binary_mask] *)

Module BinaryMask.
Import NdArray.

(** [mask > 0] as the factor 1 or 0 a boolean array contributes to a
    product. *)
Definition mask_factor (mask : ndarray Z) (pos : list nat) : Q :=
  if 0 <? get mask pos then 1%Q else 0%Q.

(** The assignment [X[sel] = X[sel] * (mask > 0)] for a selection [sel] of
    positions of [X], where [pos idx] is the position of the mask that
    meets [idx]. *)
Definition assign_masked (sel : list nat -> bool)
    (pos : list nat -> list nat) (mask : ndarray Z) (X : ndarray Q)
  : ndarray Q :=
  mk_nd (shape X)
        (fun idx => if sel idx then (get X idx * mask_factor mask (pos idx))%Q
                    else get X idx).

(** [X[..., c] = X[..., c] * (mask > 0)].  The mask has no axis of length
    one (it was squeezed), so the product has the shape of the left-hand
    side only if the two shapes are equal; otherwise the assignment raises
    [ValueError]. *)
Definition mask_channel (mask : ndarray Z) (X : ndarray Q) (c : nat)
  : result (ndarray Q) :=
  if shape_eqb (removelast (shape X)) (shape mask)
  then Ok (assign_masked (fun idx => (List.last idx 0 =? c)%nat)
                         (fun idx => removelast idx) mask X)
  else Raise ValueError.

(** [X[k, ..., c] = X[k, ..., c] * (mask > 0)]. *)
Definition mask_channel_of (mask : ndarray Z) (k : nat) (X : ndarray Q)
    (c : nat) : result (ndarray Q) :=
  if shape_eqb (removelast (tl (shape X))) (shape mask)
  then Ok (assign_masked
             (fun idx => (hd 0 idx =? k)%nat && (List.last idx 0 =? c)%nat)
             (fun idx => removelast (tl idx)) mask X)
  else Raise ValueError.

(** What is done with one mask file, [m] being the image read from it. *)
Definition apply_mask_file (X : ndarray Q) (m : ndarray Z)
  : result (ndarray Q) :=
  let mask := squeeze m in
  if negb (ndim X =? ndim mask + 1)%nat && negb (ndim X =? ndim mask + 2)%nat
  then Raise ValueError
  else if (ndim mask =? ndim X - 1)%nat then
    for_each (mask_channel mask) (seq 0 (List.last (shape X) 0%nat)) X
  else (* mask.ndim == 2 and X.ndim == 4 *)
    for_each (fun X k =>
                for_each (mask_channel_of mask k)
                         (seq 0 (List.last (shape X) 0%nat)) X)
             (seq 0 (hd 0%nat (shape X))) X.

(** [apply_binary_mask(X, bin_mask_dir)], [masks] being the images of the
    files of [bin_mask_dir] in sorted order.  The branch for a single file
    and the loop over several files perform the same steps.  The function
    changes [X] in place and returns it. *)
Definition apply_binary_mask (X : ndarray Q) (masks : list (ndarray Z))
  : result (ndarray Q) :=
  if negb (ndim X =? 4)%nat && negb (ndim X =? 3)%nat then Raise ValueError
  else for_each apply_mask_file masks X.

(** The position of the mask that meets the position [idx] of [X]. *)
Definition mask_position (X : ndarray Q) (m : ndarray Z) (idx : list nat)
  : list nat :=
  if (ndim (squeeze m) =? ndim X - 1)%nat then removelast idx
  else removelast (tl idx).

(** [idx] is inside every mask. *)
Definition inside_all (X : ndarray Q) (masks : list (ndarray Z))
    (idx : list nat) : bool :=
  forallb (fun m => 0 <? get (squeeze m) (mask_position X m idx)) masks.

(** A 2x2 image with two channels and two masks for it. *)
Definition example_X : ndarray Q :=
  of_list 0%Q [2; 2; 2]%nat [1; 2; 3; 4; 5; 6; 7; 8]%Q.

Definition example_masks : list (ndarray Z) :=
  [of_list 0 [2; 2]%nat [1; 1; 0; 1]; of_list 0 [1; 2; 2]%nat [0; 2; 1; 1]].

End BinaryMask.


(** ** [boundary_refinement_watershed] and [boundary_refinement_watershed2] *)

Module BoundaryRefinement.
Import NdArray Watershed.

(** The exceptions of these two functions: [NameError] besides those of
    [py_error]. *)
Inductive refine_error := NameError | Py (e : py_error).

Inductive outcome (A : Type) :=
| Returns (a : A)
| Raises (e : refine_error).
Arguments Returns {A} _.
Arguments Raises {A} _.

#[global] Instance outcome_ret : MRet outcome := fun A x => Returns x.
#[global] Instance outcome_bind : MBind outcome := fun A B f m =>
  match m with
  | Returns a => f a
  | Raises e => Raises e
  end.
#[global] Instance outcome_fmap : FMap outcome := fun A B f m =>
  match m with
  | Returns a => Returns (f a)
  | Raises e => Raises e
  end.

(** [for i in l: s = body(s, i)]. *)
Fixpoint for_range {S} (body : S -> nat -> outcome S) (l : list nat) (s : S)
  : outcome S :=
  match l with
  | [] => Returns s
  | i :: l' => s' ← body s i; for_range body l' s'
  end.

(** [a[i, ..., 0]]: the index and the ellipsis need two axes, [i] a row of
    the first and [0] an element of the last. *)
Definition item_first_last {A} (i : nat) (a : ndarray A)
  : outcome (ndarray A) :=
  if (ndim a <? 2)%nat then Raises (Py IndexError)
  else if negb (i <? hd 0 (shape a))%nat then Raises (Py IndexError)
  else if (List.last (shape a) 0 =? 0)%nat then Raises (Py IndexError)
  else Returns (mk_nd (removelast (tl (shape a)))
                      (fun idx => get a (i :: idx ++ [0%nat]))).

(** NumPy broadcasting of a value of shape [src] in an assignment to a
    place of shape [dst]: the shapes are aligned at their last axis, an
    axis of [src] has the length of the one of [dst] or the length one,
    and the axes [src] has more are of length one.  The two functions
    work on the reversed shapes. *)
Fixpoint broadcastable_rev (src dst : list nat) : bool :=
  match src, dst with
  | [], _ => true
  | s :: src', [] => (s =? 1)%nat && broadcastable_rev src' []
  | s :: src', d :: dst' =>
      ((s =? d)%nat || (s =? 1)%nat) && broadcastable_rev src' dst'
  end.

Definition broadcastable (src dst : list nat) : bool :=
  broadcastable_rev (rev src) (rev dst).

Fixpoint broadcast_index_rev (src idx : list nat) : list nat :=
  match src, idx with
  | [], _ => []
  | s :: src', [] => 0%nat :: broadcast_index_rev src' []
  | s :: src', i :: idx' =>
      (if (s =? 1)%nat then 0%nat else i) :: broadcast_index_rev src' idx'
  end.

(** The index of the value that lands at [idx]. *)
Definition broadcast_index (src idx : list nat) : list nat :=
  rev (broadcast_index_rev (rev src) (rev idx)).

(** [a[i] = x]: [IndexError] without a row [i], [ValueError] for a value
    that cannot be broadcast to the row. *)
Definition set_row {A} (i : nat) (x a : ndarray A) : outcome (ndarray A) :=
  match shape a with
  | [] => Raises (Py IndexError)
  | n :: sh =>
      if negb (i <? n)%nat then Raises (Py IndexError)
      else if negb (broadcastable (shape x) sh) then Raises (Py ValueError)
      else Returns
             (mk_nd (shape a)
                (fun idx => match idx with
                            | j :: r =>
                                if (j =? i)%nat
                                then get x (broadcast_index (shape x) r)
                                else get a idx
                            | [] => get a []
                            end))
  end.

(** [a[mask] = v] for a boolean array [mask], whose axes must be the first
    axes of [a] ([IndexError] otherwise). *)
Definition set_where {A} (mask : ndarray bool) (v : A) (a : ndarray A)
  : outcome (ndarray A) :=
  if bool_decide (shape mask = take (ndim mask) (shape a))
  then Returns (mk_nd (shape a)
                  (fun idx => if get mask (take (ndim mask) idx) then v
                              else get a idx))
  else Raises (Py IndexError).

(** [X.shape[0]]. *)
Definition shape0 {A} (X : ndarray A) : outcome nat :=
  match shape X with
  | [] => Raises (Py IndexError)
  | n :: _ => Returns n
  end.

(** *** With OpenCV *)

Section OpenCV.

(** [np.uint8(v)] of a float. *)
Variable float_to_uint8 : Q -> Z.
(** [cv2.cvtColor(_, cv2.COLOR_GRAY2RGB)]. *)
Variable cvtColor : ndarray Q -> ndarray Q.
(** [cv2.dilate(_, kernel, iterations=3)] and [cv2.erode] with the 3x3
    kernel of ones. *)
Variable cv_dilate cv_erode : ndarray Q -> ndarray Q.
(** [cv2.subtract]. *)
Variable cv_subtract : ndarray Z -> ndarray Z -> ndarray Z.
(** The label image of [cv2.connectedComponents]. *)
Variable connectedComponents : ndarray Z -> ndarray Z.
(** [cv2.watershed(image, markers)]. *)
Variable cv_watershed : ndarray Z -> ndarray Z -> ndarray Z.

(** The markers of one prediction.  Without [erode] the sure foreground is
    computed from the name [a], which is bound nowhere. *)
Definition markers_of (erode : bool) (pred : ndarray Q)
  : outcome (ndarray Z) :=
  (* sure background area *)
  let sure_bg := nd_map float_to_uint8 (cv_dilate pred) in
  (* Finding sure foreground area *)
  sure_fg ← (if erode then Returns (cv_erode pred) else Raises NameError);
  let sure_fg := nd_map float_to_uint8 sure_fg in
  (* Finding unknown region *)
  let unknown_reg := cv_subtract sure_bg sure_fg in
  (* Marker labelling *)
  let markers := connectedComponents sure_fg in
  (* Add one to all labels so that sure background is not 0, but 1 *)
  let markers := nd_map (fun v => v + 1) markers in
  (* Now, mark the region of unknown with zero *)
  set_where (nd_map (fun v => v =? 1) unknown_reg) 0 markers.

(** The watershed labels of image [i]. *)
Definition watershed_markers (erode : bool) (X Y_pred : ndarray Q) (i : nat)
  : outcome (ndarray Z) :=
  let im := cvtColor (nd_map (fun v => v * 255)%Q (sub0 i X)) in
  pred ← item_first_last i Y_pred;
  markers ← markers_of erode pred;
  Returns (cv_watershed (nd_map float_to_uint8 im) markers).

Definition refine_step (erode : bool) (X Y_pred : ndarray Q)
    (watershed_predictions : ndarray Q) (i : nat) : outcome (ndarray Q) :=
  markers ← watershed_markers erode X Y_pred i;
  set_row i (nd_map inject_Z markers) watershed_predictions.

(** The three assignments that end the function, on one value. *)
Definition relabel (v : Q) : Q :=
  let v := if Qeq_bool v 1 then 0%Q else v in
  let v := if negb (Qle_bool v 1) then 1%Q else v in
  if Qeq_bool v (-1) then 0%Q else v.

(** [boundary_refinement_watershed(X, Y_pred, erode)] with
    [save_marks_dir=None]. *)
Definition boundary_refinement_watershed (X Y_pred : ndarray Q)
    (erode : bool) : outcome (ndarray Q) :=
  let watershed_predictions := full (take 3 (shape Y_pred)) 0%Q in
  n ← shape0 X;
  watershed_predictions ←
    for_range (refine_step erode X Y_pred) (seq 0 n) watershed_predictions;
  (* Label all artifacts into 1 and the background with 0 *)
  Returns (expand_last (nd_map relabel watershed_predictions)).

End OpenCV.

(** *** With scikit-image *)

Section Skimage.

(** [.astype(np.uint8)] of a float. *)
Variable float_to_uint8 : Q -> Z.
(** [rank.gradient(image, disk(r))]. *)
Variable rank_gradient : ndarray Z -> nat -> ndarray Z.
(** [ndi.label(_)[0]]. *)
Variable ndi_label : ndarray bool -> ndarray Z.
(** [skimage.segmentation.watershed(gradient, markers)]. *)
Variable sk_watershed : ndarray Z -> ndarray Z -> ndarray Z.

(** The watershed labels of image [i]. *)
Definition watershed_labels (X Y_pred : ndarray Q) (i : nat)
  : outcome (ndarray Z) :=
  im ← item_first_last i X;
  let im := nd_map (fun v => float_to_uint8 (v * 255)%Q) im in
  pred ← item_first_last i Y_pred;
  let pred := nd_map (fun v => float_to_uint8 (v * 255)%Q) pred in
  (* find continuous region *)
  let markers := nd_map (fun g => g <? 10) (rank_gradient pred 12) in
  let markers := ndi_label markers in
  (* local gradient (disk(2) is used to keep edges thin) *)
  let gradient := rank_gradient im 2 in
  (* process the watershed *)
  Returns (sk_watershed gradient markers).

(** [watershed_predictions[i] = labels] into an array of [uint8]. *)
Definition refine_step2 (X Y_pred : ndarray Q)
    (watershed_predictions : ndarray Z) (i : nat) : outcome (ndarray Z) :=
  labels ← watershed_labels X Y_pred i;
  set_row i (nd_map (astype uint8) labels) watershed_predictions.

(** The two assignments that end the function, on one value. *)
Definition relabel2 (v : Z) : Z :=
  let v := if v =? 1 then 0 else v in
  if 1 <? v then 1 else v.

(** [boundary_refinement_watershed2(X, Y_pred)] with
    [save_marks_dir=None]. *)
Definition boundary_refinement_watershed2 (X Y_pred : ndarray Q)
  : outcome (ndarray Z) :=
  let watershed_predictions := full (take 3 (shape Y_pred)) 0 in
  n ← shape0 X;
  watershed_predictions ←
    for_range (refine_step2 X Y_pred) (seq 0 n) watershed_predictions;
  (* Label all artifacts into 1 and the background with 0 *)
  Returns (expand_last (nd_map relabel2 watershed_predictions)).

End Skimage.

(** Stand-ins for the library on small examples: a conversion that
    truncates, filters that change nothing, a labelling that gives one
    label to the whole foreground and a watershed that returns its
    markers (in OpenCV's range of labels for [clamped_markers]). *)
Definition truncate_uint8 (v : Q) : Z := (Qnum v ÷ Zpos (Qden v)) mod 256.

Definition same_image (a : ndarray Q) : ndarray Q := a.

Definition difference (a b : ndarray Z) : ndarray Z := nd_zip Z.sub a b.

Definition one_component (a : ndarray Z) : ndarray Z :=
  nd_map (fun v => if v =? 0 then 0 else 1) a.

Definition markers_only (image markers : ndarray Z) : ndarray Z := markers.

Definition clamped_markers (image markers : ndarray Z) : ndarray Z :=
  nd_map (Z.max (-1)) markers.

Definition same_gradient (a : ndarray Z) (r : nat) : ndarray Z := a.

Definition label_as (l : Z) (a : ndarray bool) : ndarray Z :=
  nd_map (fun b : bool => if b then l else 0) a.

(** One 1x2 image and a prediction for it. *)
Definition example_input : ndarray Q :=
  of_list 0%Q [1; 1; 2; 1]%nat [0; 1]%Q.

Definition example_prediction : ndarray Q :=
  of_list 0%Q [1; 1; 2; 1]%nat [0; 1]%Q.

End BoundaryRefinement.

(** ** [repare_large_blobs]: the search of touching instances *)

Module LargeBlobs.
Import NdArray.

(** [range(-neighbors, neighbors + 1)]. *)
Definition offsets (neighbors : Z) : list Z :=
  map (fun k : nat => - neighbors + Z.of_nat k)
      (seq 0 (Z.to_nat (2 * neighbors + 1))).

(** [min(max(c + i, 0), n - 1)] for a coordinate [c] of an axis of length
    [n]. *)
Definition clamp_to (c : nat) (i : Z) (n : nat) : nat :=
  Z.to_nat (Z.min (Z.max (Z.of_nat c + i) 0) (Z.of_nat n - 1)).

(** The positions looked at around [coord], in the order of the nested
    loops: three axes, and two. *)
Definition window3 (sh : list nat) (neighbors : Z) (coord : list nat)
  : list (list nat) :=
  flat_map (fun i =>
    flat_map (fun j =>
      map (fun k =>
             [clamp_to (nth 0 coord 0%nat) i (nth 0 sh 0%nat);
              clamp_to (nth 1 coord 0%nat) j (nth 1 sh 0%nat);
              clamp_to (nth 2 coord 0%nat) k (nth 2 sh 0%nat)])
          (offsets neighbors))
      (offsets neighbors))
    (offsets neighbors).

Definition window2 (sh : list nat) (neighbors : Z) (coord : list nat)
  : list (list nat) :=
  flat_map (fun i =>
    map (fun j =>
           [clamp_to (nth 0 coord 0%nat) i (nth 0 sh 0%nat);
            clamp_to (nth 1 coord 0%nat) j (nth 1 sh 0%nat)])
        (offsets neighbors))
    (offsets neighbors).

(** The test and the [append] of the innermost loop. *)
Definition visit (img : ndarray Z) (label : Z) (neigbors : list Z)
    (pos : list nat) : list Z :=
  let v := get img pos in
  if negb (existsb (Z.eqb v) neigbors) && negb (v =? label) && negb (v =? 0)
  then neigbors ++ [v] else neigbors.

(** [np.where((img == label) > 0)], as the list of the positions. *)
Definition label_points (img : ndarray Z) (label : Z) : list (list nat) :=
  List.filter (fun p => get img p =? label) (indices (shape img)).

(** [find_neigbors(img, label, neighbors)] on an image of three axes or of
    two, the images [repare_large_blobs] is written for; [None] stands for
    an image of another rank, which is not modelled. *)
Definition find_neigbors (img : ndarray Z) (label : Z) (neighbors : Z)
  : option (list Z) :=
  let window :=
    if (ndim img =? 3)%nat then Some (window3 (shape img) neighbors)
    else if (ndim img =? 2)%nat then Some (window2 (shape img) neighbors)
    else None in
  window ← window;
  Some (fold_left (fun neigbors coord =>
                     fold_left (visit img label) (window coord) neigbors)
                  (label_points img label) []).

(** Two positions at most [neighbors] apart on every axis. *)
Definition near (neighbors : Z) (p q : list nat) : Prop :=
  Forall2 (fun a b : nat => Z.abs (Z.of_nat a - Z.of_nat b) <= neighbors) p q.

(** The list kept by the loops: without repetition, and holding the
    values met that are neither 0 nor the label. *)
Definition neighbour_list (img : ndarray Z) (label : Z)
    (seen : list (list nat)) (l : list Z) : Prop :=
  NoDup l /\
  forall v, In v l <->
    v <> 0 /\ v <> label /\ exists q, In q seen /\ get img q = v.

(** A 3x3 image: the instance 1 touches the instances 2 and 3, the
    instance 4 is two pixels away. *)
Definition example_instances : ndarray Z :=
  of_list 0 [3; 3]%nat [1; 2; 4;
                        3; 0; 0;
                        0; 0; 0].

End LargeBlobs.

(** ** Filling from the cell perimeters: [voronoi_on_mask_2] *)

Module Voronoi2.
Import NdArray Watershed Voronoi.

(** [np.reshape(a, sh)]: the values of [a] in C order under the shape
    [sh]; [ValueError] when the sizes differ. *)
Definition reshape {A} (d : A) (sh : list nat) (a : ndarray A)
  : result (ndarray A) :=
  if (fold_right Nat.mul 1 sh =? length (ravel a))%nat
  then Ok (of_list d sh (ravel a)) else Raise ValueError.

Section VoronoiOnMask2.

(** [threshold_otsu], [morphology.closing(_, morphology.ball(radius=5))]
    and [morphology.binary_erosion(_, morphology.ball(radius=2))]. *)
Variable threshold_otsu : ndarray Q -> Q.
Variable closing_5 : ndarray bool -> ndarray bool.
Variable binary_erosion_2 : ndarray Z -> ndarray bool.

(** "Extract mask from prediction". *)
Definition prediction_mask (mask : ndarray Q) : ndarray Q :=
  if (List.last (shape mask) 0 =? 3)%nat then take_last 2 mask
  else nd_zip Qplus (take_last 0 mask) (take_last 1 mask).

(** [closedBinaryMask] for the mask of the first image: "Binarize" and
    "Close to fill holes". *)
Definition closed_binary_mask (th : Q) (mask : ndarray Q) : ndarray Z :=
  let mask := sub0 0 (prediction_mask mask) in
  let thresh := if Qeq_bool th 0 then threshold_otsu mask else th in
  let binaryMask := gt_th mask thresh in
  to_int (closing_5 binaryMask).

(** [voronoiCyst] before the loop. *)
Definition masked_labels (th : Q) (data : ndarray Z) (mask : ndarray Q)
  : ndarray Z :=
  nd_zip Z.mul (sub0 0 data) (closed_binary_mask th mask).

Definition binary_labels (th : Q) (data : ndarray Z) (mask : ndarray Q)
  : ndarray Z :=
  nd_map (fun v => astype uint8 (Z.b2z (0 <? v) * 1))
         (masked_labels th data mask).

(** [cellPerimeter == 1] for the difference of the [uint8] array and its
    erosion. *)
Definition is_perimeter (th : Q) (data : ndarray Z) (mask : ndarray Q)
  : ndarray bool :=
  let binaryVoronoiCyst := binary_labels th data mask in
  let erodedVoronoiCyst := binary_erosion_2 binaryVoronoiCyst in
  nd_zip (fun b (e : bool) => astype uint8 (b - Z.b2z e) =? 1)
         binaryVoronoiCyst erodedVoronoiCyst.

(** "Define ids to fill where there is mask but no labels". *)
Definition ids_to_fill (th : Q) (data : ndarray Z) (mask : ndarray Q)
  : list (list nat) :=
  argwhere (nd_zip andb
              (nd_map (fun v => v =? 1) (closed_binary_mask th mask))
              (nd_map (fun v => v =? 0) (sub0 0 data))).

Definition ids_perim (th : Q) (data : ndarray Z) (mask : ndarray Q)
  : list (list nat) :=
  argwhere (is_perimeter th data mask).

(** The body of the loop "Generating voronoi" for one position: the label
    of the first perimeter voxel at the least distance.  [np.min] of no
    distance raises [ValueError].  (The squared distances are compared;
    [labelPerId], which is filled too, is used nowhere.) *)
Definition fill_step (idsPerim : list (list nat)) (labelsPerimIds : list Z)
    (voronoiCyst : ndarray Z) (pos : list nat) : result (ndarray Z) :=
  if (length idsPerim =? 0)%nat then Raise ValueError
  else
    let idSeedMin := nearest_index (map coords idsPerim) (coords pos) in
    label ← or_raise IndexError (labelsPerimIds !! idSeedMin);
    Ok (set_at pos label voronoiCyst).

(** [voronoi_on_mask_2(data, mask, save_dir, filenames, th)] for a list of
    file names (the name of the saved image is built from [filenames[0]]).
    Operands of unequal shape are not combined, which is reported as
    [ValueError]. *)
Definition voronoi_on_mask_2 (data : ndarray Z) (mask : ndarray Q)
    (filenames : list string) (th : Q) : result (ndarray Z) :=
  if negb (ndim data =? 4)%nat then Raise ValueError
  else if negb (ndim mask =? 5)%nat then Raise ValueError
  else if (List.last (shape mask) 0 <? 2)%nat then Raise ValueError
  else if negb (length filenames =? hd 0 (shape data))%nat
  then Raise ValueError
  else
    let mask_shape := shape (prediction_mask mask) in
    if (hd 0 mask_shape =? 0)%nat then Raise IndexError
    else if (hd 0 (shape data) =? 0)%nat then Raise IndexError
    else if negb (shape_eqb (shape (sub0 0 data))
                            (shape (closed_binary_mask th mask)))
    then Raise ValueError
    else
      let voronoiCyst := masked_labels th data mask in
      (* Cell Perimeter *)
      if negb (shape_eqb (shape (binary_labels th data mask))
                         (shape (binary_erosion_2
                                   (binary_labels th data mask))))
      then Raise ValueError
      else
        let idsToFill := ids_to_fill th data mask in
        let idsPerim := ids_perim th data mask in
        let labelsPerimIds := map (get voronoiCyst) idsPerim in
        (* Generating voronoi *)
        voronoiCyst ← for_each (fill_step idsPerim labelsPerimIds)
                               (tl idsToFill) voronoiCyst;
        reshape 0 (1%nat :: tl mask_shape) voronoiCyst.

End VoronoiOnMask2.

(** Stand-ins that change nothing, for small examples. *)
Definition no_closing (x : ndarray bool) : ndarray bool := x.

(** An erosion that removes nothing but the voxels listed. *)
Definition erode_away (removed : list (list nat)) (x : ndarray Z)
  : ndarray bool :=
  mk_nd (shape x)
        (fun idx => (0 <? get x idx) && negb (bool_decide (idx ∈ removed))).

(** One image of one row of six voxels: the labels 5 and 7 at its ends,
    and a mask (third channel) over the whole row. *)
Definition example_cells : ndarray Z :=
  of_list 0 [1; 1; 1; 6]%nat [5; 0; 0; 0; 0; 7].

Definition example_cells_mask : ndarray Q :=
  of_list 0%Q [1; 1; 1; 6; 3]%nat
    [0; 0; 1;  0; 0; 1;  0; 0; 1;  0; 0; 1;  0; 0; 1;  0; 0; 1]%Q.

End Voronoi2.

(** * Properties *)

(** ** Threshold calibration sweeps *)

Module CalibrationProofs.
Import Calibration CalibrationSpec.

Lemma diffs_app n g1 g2 : diffs n (g1 ++ g2) = diffs n g1 ++ diffs n g2.
Proof. apply map_app. Qed.

Lemma diffs_length n g : length (diffs n g) = length g.
Proof. apply length_map. Qed.

(** *** TH2 *)

(** While every difference stays above [m], so does the running minimum. *)
Lemma th2_above n m g : forall s,
  Forall (fun x => m < x) (diffs n g) ->
  m < th2_obj_min_diff s ->
  let s' := fold_left (th2_step n) g s in
  m < th2_obj_min_diff s' /\ th2_k s' = (th2_k s + length g)%nat /\
  (g <> [] -> m < th2_last s') /\ (g = [] -> s' = s).
Proof.
  induction g as [|a g IH]; intros s Hall Hs; simpl.
  - repeat split; try lia; try done.
  - inversion Hall as [|x l Ha Hg]; subst.
    set (s1 := th2_step n s a).
    assert (H1 : m < th2_obj_min_diff s1).
    { unfold s1, th2_step; simpl.
      destruct (Z.ltb_spec (Z.abs (a.2 - n)) (th2_obj_min_diff s)); lia. }
    destruct (IH s1 Hg H1) as (Hm & Hk & Hl & He).
    repeat split; try done.
    + rewrite Hk. unfold s1; simpl. lia.
    + intros _. destruct g as [|b g].
      * rewrite (He eq_refl). unfold s1; simpl. exact Ha.
      * apply Hl. done.
Qed.

Lemma removelast_cons2 {A} (x y : A) l :
  removelast (x :: y :: l) = x :: removelast (y :: l).
Proof. reflexivity. Qed.

(** Once the minimum [m] is reached, later candidates never replace it and
    the counter grows by one for every iteration whose predecessor's
    difference was [m]. *)
Lemma th2_tail n m g : forall s,
  Forall (fun x => m <= x) (diffs n g) ->
  th2_obj_min_diff s = m ->
  let s' := fold_left (th2_step n) g s in
  th2_obj_min_diff s' = m /\ th2_op_pos s' = th2_op_pos s /\
  th2_min s' = th2_min s /\
  th2_k s' = (th2_k s + length g)%nat /\
  th2_repeat_count s' =
    th2_repeat_count s
    + Z.of_nat (count_ties m (removelast (th2_last s :: diffs n g))).
Proof.
  induction g as [|a g IH]; intros s Hall Hs; simpl.
  - repeat split; try lia; done.
  - inversion Hall as [|x l Ha Hg]; subst.
    set (s1 := th2_step n s a).
    assert (Hlt : (Z.abs (a.2 - n) <? th2_obj_min_diff s) = false)
      by (apply Z.ltb_ge; lia).
    assert (H1 : th2_obj_min_diff s1 = th2_obj_min_diff s)
      by (unfold s1, th2_step; simpl; by rewrite Hlt).
    destruct (IH s1 Hg H1) as (Hm & Hop & Hmin & Hk & Hrep).
    fold (diffs n g) in *.
    repeat split.
    + rewrite Hm. done.
    + rewrite Hop. unfold s1, th2_step; simpl. by rewrite Hlt.
    + rewrite Hmin. unfold s1, th2_step; simpl. by rewrite Hlt.
    + rewrite Hk. unfold s1; simpl. lia.
    + rewrite Hrep.
      replace (th2_last s1) with (Z.abs (a.2 - n)) by reflexivity.
      change (removelast (th2_last s :: Z.abs (a.2 - n) :: diffs n g))
        with (th2_last s :: removelast (Z.abs (a.2 - n) :: diffs n g)).
      cbn [count_ties].
      unfold s1, th2_step; simpl. rewrite Hlt.
      rewrite (Z.eqb_sym (th2_last s)).
      destruct (th2_obj_min_diff s =? th2_last s); lia.
Qed.

(** The TH2 sweep on a grid whose differences are [dpre ++ m :: drest], with
    [m] the minimum and its first occurrence after [dpre]. *)
Lemma th2_sweep_first_min n g dpre m drest :
  diffs n g = dpre ++ m :: drest ->
  Forall (fun x => m < x) dpre ->
  Forall (fun x => m <= x) drest ->
  m < maxsize ->
  (dpre = [] -> m <> 0) ->
  let s := th2_sweep n g in
  th2_op_pos s = Z.of_nat (length dpre) /\
  th2_obj_min_diff s = m /\
  map fst g !! length dpre = Some (th2_min s) /\
  th2_repeat_count s =
    Z.of_nat (count_ties m (removelast (m :: drest))).
Proof.
  intros Hd Hpre Hrest Hmax H0.
  unfold diffs in Hd.
  apply map_eq_app in Hd as (gpre & g2 & -> & Hgpre & Hg2).
  destruct g2 as [|c grest]; [discriminate|].
  simpl in Hg2. injection Hg2 as Hc Hgrest.
  fold (diffs n gpre) in Hgpre. fold (diffs n grest) in Hgrest.
  subst dpre drest.
  unfold th2_sweep. rewrite fold_left_app. simpl.
  destruct (th2_above n m gpre th2_init Hpre) as (Ha & Hk & Hl & He);
    [simpl; lia|].
  set (sa := fold_left (th2_step n) gpre th2_init) in *.
  set (sb := th2_step n sa c).
  assert (Himp : (Z.abs (c.2 - n) <? th2_obj_min_diff sa) = true)
    by (apply Z.ltb_lt; lia).
  assert (Hlast : (m =? th2_last sa) = false).
  { apply Z.eqb_neq. destruct gpre as [|b gpre].
    - rewrite (He eq_refl). simpl. apply H0. reflexivity.
    - specialize (Hl ltac:(done)). lia. }
  assert (Hb : th2_obj_min_diff sb = m)
    by (unfold sb, th2_step; simpl; rewrite Himp; done).
  destruct (th2_tail n m grest sb Hrest Hb) as (Hm & Hop & Hmin & _ & Hrep).
  rewrite diffs_length.
  repeat split.
  - rewrite Hop. unfold sb, th2_step; simpl. rewrite Himp, Hk. simpl. lia.
  - exact Hm.
  - rewrite Hmin. unfold sb, th2_step; simpl. rewrite Himp.
    rewrite map_app. rewrite lookup_app_r by (rewrite length_map; lia).
    rewrite length_map, Nat.sub_diag. reflexivity.
  - rewrite Hrep. unfold sb at 1 2, th2_step; simpl. rewrite Himp.
    rewrite Hc, Hlast. reflexivity.
Qed.

Lemma count_ties_app m l1 l2 :
  count_ties m (l1 ++ l2) = (count_ties m l1 + count_ties m l2)%nat.
Proof. induction l1 as [|x l1 IH]; simpl; [done|]. rewrite IH. lia. Qed.

Lemma count_ties_replicate m k : count_ties m (replicate k m) = k.
Proof. induction k; simpl; [done|]. rewrite Z.eqb_refl, IHk. done. Qed.

Lemma count_ties_above m l : Forall (fun x => m < x) l -> count_ties m l = 0%nat.
Proof.
  induction 1 as [|x l Hx _ IH]; simpl; [done|].
  rewrite IH. destruct (Z.eqb_spec x m); lia.
Qed.

Lemma Forall_removelast {A} (P : A -> Prop) l :
  Forall P l -> Forall P (removelast l).
Proof.
  induction 1 as [|x l Hx Hl IH]; simpl; [constructor|].
  destruct l; [constructor|]. constructor; done.
Qed.

(** A contiguous run of [S L] ties that stops before the last candidate is
    counted in full. *)
Lemma count_ties_run m L dpost :
  dpost <> [] -> Forall (fun x => m < x) dpost ->
  count_ties m (removelast (m :: replicate L m ++ dpost)) = S L.
Proof.
  intros Hne Hpost.
  change (m :: replicate L m ++ dpost) with (replicate (S L) m ++ dpost).
  rewrite removelast_app by done.
  rewrite count_ties_app, count_ties_replicate.
  rewrite count_ties_above by (by apply Forall_removelast). lia.
Qed.

Lemma int_half_bounds x : 0 <= x -> 0 <= int_half x /\ 2 * int_half x <= x
                                    /\ x < 2 * int_half x + 2.
Proof.
  intros Hx. unfold int_half. rewrite Z.quot_div_nonneg by lia.
  pose proof (Z.div_mod x 2 ltac:(lia)).
  pose proof (Z.mod_pos_bound x 2 ltac:(lia)). lia.
Qed.

(** *** TH1 / TH4 *)

Lemma last_lookup (d : list Z) x :
  d !! (length d - 1)%nat = Some x -> d <> [] -> List.last d 0 = x.
Proof.
  intros H Hne. destruct (exists_last Hne) as (l & y & ->).
  rewrite last_last. rewrite length_app in H. simpl in H.
  rewrite lookup_app_r in H by lia.
  replace (length l + 1 - 1 - length l)%nat with 0%nat in H by lia.
  simpl in H. congruence.
Qed.

Lemma th1_sweep_snoc b n p c :
  th1_sweep b n (p ++ [c]) = th1_step n (th1_sweep b n p) c.
Proof. unfold th1_sweep. rewrite fold_left_app. reflexivity. Qed.

Lemma th1_inv_init b n : th1_inv n [] (th1_init b).
Proof.
  unfold th1_inv; simpl. repeat split. left. repeat split. done.
Qed.

Lemma th1_inv_step n p s c :
  th1_inv n p s -> th1_inv n (p ++ [c]) (th1_step n s c).
Proof.
  intros (Hk & Hlast & Hcase).
  set (diff := Z.abs (c.2 - n)).
  assert (Hd : diffs n (p ++ [c]) = diffs n p ++ [diff])
    by (rewrite diffs_app; reflexivity).
  unfold th1_inv. rewrite Hd. rewrite last_last, length_app. simpl length.
  split; [unfold th1_step; simpl; lia|].
  split; [reflexivity|].
  assert (Hnew : (diffs n p ++ [diff]) !! length p = Some diff).
  { rewrite lookup_app_r by (rewrite diffs_length; lia).
    rewrite diffs_length, Nat.sub_diag. reflexivity. }
  assert (Hold : forall j y, diffs n p !! j = Some y ->
                             (diffs n p ++ [diff]) !! j = Some y).
  { intros j y Hj. rewrite lookup_app_l; [done|].
    apply lookup_lt_Some in Hj. done. }
  unfold th1_step. fold diff.
  destruct (th1_accepts s diff) eqn:Hacc.
  - (* a new best is accepted at index [length p] *)
    assert (Hne : (diff =? th1_last s) = false).
    { unfold th1_accepts in Hacc.
      apply andb_true_iff in Hacc as [_ Hacc].
      by apply negb_true_iff in Hacc. }
    simpl. rewrite Hne. simpl. rewrite Hk, Z.eqb_refl. simpl.
    right. exists (length p), 0%nat.
    repeat split; try lia.
    intros j Hj. replace j with (length p) by lia. exact Hnew.
  - simpl.
    destruct Hcase as [(Hop & Hrep & Hmin & Hrow) | (i & r & Hop & Hrep & Hlt & Hrun & Hin & Hout)].
    + (* nothing accepted so far *)
      left.
      assert (Hagain : ((diff =? th1_last s) && (diff =? th1_obj_min_diff s)
                        && in_row s) = false).
      { destruct p as [|c0 p].
        - simpl in Hlast. rewrite Hlast, Hmin.
          destruct (Z.eqb_spec diff 0) as [->|]; [reflexivity|reflexivity].
        - rewrite (Hrow ltac:(done)). apply andb_false_r. }
      rewrite Hagain.
      rewrite Hop, Hk.
      replace (Z.of_nat (length p) =? -1) with false
        by (symmetry; apply Z.eqb_neq; lia).
      simpl. repeat split; try done.
    + right. exists i.
      assert (Hkop : (Z.of_nat (th1_k s) =? th1_op_pos s) = false)
        by (apply Z.eqb_neq; lia).
      rewrite Hkop. simpl negb. cbv iota.
      destruct ((diff =? th1_last s) && (diff =? th1_obj_min_diff s)
                && in_row s) eqn:Hagain.
      * (* the run of the best difference continues *)
        apply andb_true_iff in Hagain as [Hagain Hr].
        apply andb_true_iff in Hagain as [_ Hdm].
        apply Z.eqb_eq in Hdm.
        specialize (Hin Hr).
        exists (S r). repeat split; try lia.
        -- intros j Hj. destruct (decide (j = length p)) as [->|Hjn].
           ++ rewrite Hnew. congruence.
           ++ apply Hold, Hrun. lia.
        -- rewrite Hr. discriminate.
      * exists r. repeat split; try lia.
        -- intros j Hj. apply Hold, Hrun. done.
        -- intros _. destruct (in_row s) eqn:Hr.
           ++ specialize (Hin eq_refl).
              exists diff. replace (i + r + 1)%nat with (length p) by lia.
              split; [exact Hnew|].
              assert (Hl : th1_last s = th1_obj_min_diff s).
              { rewrite Hlast. apply last_lookup.
                - rewrite diffs_length. apply Hrun. lia.
                - intros E. apply (f_equal length) in E.
                  rewrite diffs_length in E. simpl in E. lia. }
              rewrite andb_true_r, Hl in Hagain.
              rewrite andb_diag in Hagain.
              by apply Z.eqb_neq in Hagain.
           ++ destruct (Hout eq_refl) as (y & Hy & Hyn).
              exists y. split; [by apply Hold|done].
Qed.

Lemma th1_inv_sweep b n g : th1_inv n g (th1_sweep b n g).
Proof.
  induction g as [|c p IH] using rev_ind.
  - apply th1_inv_init.
  - rewrite th1_sweep_snoc. by apply th1_inv_step.
Qed.

Lemma th1_op_pos_lt b n g :
  th1_op_pos (th1_sweep b n g) < Z.of_nat (length g).
Proof.
  destruct (th1_inv_sweep b n g) as (_ & _ & [(H & _)|(i & r & H & _ & Hlt & _)]);
    rewrite H; lia.
Qed.

(** The best position never moves backwards. *)
Lemma th1_op_pos_mono n g : forall s,
  th1_op_pos s < Z.of_nat (th1_k s) ->
  th1_op_pos s <= th1_op_pos (fold_left (th1_step n) g s).
Proof.
  induction g as [|c g IH]; intros s Hs; simpl; [lia|].
  etransitivity; [|apply IH].
  - unfold th1_step; simpl. destruct (th1_accepts _ _); lia.
  - unfold th1_step; simpl. destruct (th1_accepts _ _); lia.
Qed.

Lemma th1_k_sweep b n g : th1_k (th1_sweep b n g) = length g.
Proof. by destruct (th1_inv_sweep b n g) as (H & _). Qed.


Lemma diffs_take n k g : diffs n (take k g) = take k (diffs n g).
Proof. unfold diffs. by rewrite firstn_map. Qed.

Lemma diffs_lookup n g k dk :
  diffs n g !! k = Some dk ->
  exists c, g !! k = Some c /\ dk = Z.abs (c.2 - n).
Proof.
  revert k. induction g as [|c g IH]; intros [|k] H; simpl in *; try done.
  - injection H as <-. by exists c.
  - by apply IH.
Qed.

(** At an accepting iteration the three conjuncts of the test hold. *)
Lemma th1_accepted_test b n g k :
  th1_accepted_at b n g k ->
  exists c, g !! k = Some c /\
    th1_accepts (th1_sweep b n (take k g)) (Z.abs (c.2 - n)) = true.
Proof.
  intros [Hk Hop].
  destruct (lookup_lt_is_Some_2 g k Hk) as [c Hc].
  exists c. split; [done|].
  rewrite (take_S_r g k c Hc), th1_sweep_snoc in Hop.
  pose proof (th1_op_pos_lt b n (take k g)) as Hlt.
  rewrite length_take in Hlt.
  unfold th1_step in Hop; simpl in Hop.
  destruct (th1_accepts _ _); [done|]. lia.
Qed.

(** C1 (as amended). In the TH2 sweep of [calculate_optimal_mw_thresholds]
    the tracked candidate is the first one that minimises
    [abs(obj_count - len(labels))] (position [length dpre], difference [m]).
    The chosen position is that position advanced by half of the tie counter
    below 10 and by 2 from 10 on, clamped to the last grid index, where the
    counter is the number of candidates from the minimiser up to, but not
    including, the last grid candidate whose difference equals the minimum,
    adjacent to the minimiser or not (the first candidate's difference being
    nonzero).  When the tied candidates form one contiguous run of [S L]
    candidates that stops before the last grid index the counter is the run
    length, the chosen index lies inside the run and, for a run of at least
    two, after its first element.  For object counts [5,4,3,3,3,6] and true
    count 3 the chosen index is 3, the middle of the run of 3's. *)
Theorem th2_choice_advances_by_half_the_tie_count n g dpre m drest :
  diffs n g = dpre ++ m :: drest ->
  Forall (fun x => m < x) dpre ->
  Forall (fun x => m <= x) drest ->
  m < maxsize ->
  (dpre = [] -> m <> 0) ->
  let s := th2_sweep n g in
  let first := Z.of_nat (length dpre) in
  let ties := Z.of_nat (count_ties m (removelast (m :: drest))) in
  let len := Z.of_nat (length g) in
  th2_op_pos s = first /\
  th2_obj_min_diff s = m /\
  map fst g !! length dpre = Some (th2_min s) /\
  th2_repeat_count s = ties /\
  th2_choice n g =
    (let p := first + (if ties <? 10 then int_half ties else 2) in
     if p >=? len then len - 1 else p) /\
  (forall L dpost,
      drest = replicate L m ++ dpost -> dpost <> [] ->
      Forall (fun x => m < x) dpost ->
      ties = Z.of_nat (S L) /\
      th2_choice n g =
        first + (if Z.of_nat (S L) <? 10 then int_half (Z.of_nat (S L)) else 2) /\
      first <= th2_choice n g <= first + Z.of_nat L /\
      ((1 <= L)%nat -> first < th2_choice n g)) /\
  (forall t0 t1 t2 t3 t4 t5 : Q,
      th2_choice 3 [(t0, 5); (t1, 4); (t2, 3); (t3, 3); (t4, 3); (t5, 6)] = 3).
Proof.
  intros Hd Hpre Hrest Hmax H0 s first ties len.
  destruct (th2_sweep_first_min n g dpre m drest Hd Hpre Hrest Hmax H0)
    as (Hop & Hmin & Hth & Hrep).
  fold s in Hop, Hmin, Hth, Hrep. fold ties in Hrep. fold first in Hop.
  assert (Hchoice : th2_choice n g =
    (let p := first + (if ties <? 10 then int_half ties else 2) in
     if p >=? len then len - 1 else p)).
  { unfold th2_choice, th2_opt_pos. fold s len. rewrite Hrep, Hop.
    destruct (ties <? 10); reflexivity. }
  do 5 (split; [done|]). split.
  - intros L dpost -> Hne Hpost.
    assert (Ht : ties = Z.of_nat (S L))
      by (unfold ties; by rewrite count_ties_run).
    assert (Hlen : len = first + 1 + Z.of_nat L + Z.of_nat (length dpost)).
    { unfold len, first. rewrite <- (diffs_length n g), Hd.
      rewrite length_app. simpl. rewrite length_app, length_replicate. lia. }
    assert (Hpos : (0 < length dpost)%nat)
      by (destruct dpost; [done|simpl; lia]).
    pose proof (int_half_bounds (Z.of_nat (S L)) ltac:(lia)) as Hh.
    rewrite Hchoice, Ht. cbv zeta.
    destruct (Z.ltb_spec (Z.of_nat (S L)) 10) as [Hs|Hs].
    + destruct (Z.geb_spec (first + int_half (Z.of_nat (S L))) len);
        repeat split; lia.
    + destruct (Z.geb_spec (first + 2) len); repeat split; lia.
  - intros. reflexivity.
Qed.

(** The spec scenario is an instance: differences [2,1,0,0,0,3]. *)
Lemma th2_choice_advances_by_half_the_tie_count_witness :
  let g := observed [5; 4; 3; 3; 3; 6] in
  diffs 3 g = [2; 1] ++ 0 :: [0; 0; 3] /\
  Forall (fun x => 0 < x) [2; 1] /\
  Forall (fun x => 0 <= x) [0; 0; 3] /\
  0 < maxsize /\
  ([2; 1] = [] -> 0 <> 0) /\
  th2_op_pos (th2_sweep 3 g) = 2 /\
  th2_repeat_count (th2_sweep 3 g) = 3 /\
  th2_choice 3 g = 3.
Proof.
  intros g.
  assert (H1 : diffs 3 g = [2; 1] ++ 0 :: [0; 0; 3]) by reflexivity.
  assert (H2 : Forall (fun x => 0 < x) [2; 1]) by (repeat constructor).
  assert (H3 : Forall (fun x => 0 <= x) [0; 0; 3])
    by (repeat constructor; discriminate).
  assert (H4 : 0 < maxsize) by reflexivity.
  assert (H5 : [2; 1] = [] -> 0 <> 0) by discriminate.
  pose proof (th2_choice_advances_by_half_the_tie_count 3 g [2; 1] 0 [0; 0; 3]
                H1 H2 H3 H4 H5) as (Hop & _ & _ & Hrep & Hch & _).
  repeat split; try assumption.
Defined.

(** C1 as stated fails: with object counts [9,3,9,3,9] and true count 3 the
    minimiser (index 1) starts a tie run of length one, so half the run
    length advances by nothing; the sweep nevertheless counts the later,
    non-adjacent tie and chooses index 2, whose difference (6) is not
    minimal. *)
Lemma th2_choice_counts_ties_outside_the_run :
  let g := observed [9; 3; 9; 3; 9] in
  first_argmin (diffs 3 g) = 1%nat /\
  tie_run_length (diffs 3 g) = 1%nat /\
  th2_spec_choice 3 g = 1 /\
  th2_choice 3 g = 2 /\
  diffs 3 g !! 2%nat = Some 6 /\
  th2_choice 3 g <> th2_spec_choice 3 g.
Proof. cbv zeta. repeat split. discriminate. Qed.

(** C2 (as amended). In the TH1 and TH4 sweeps a new best candidate is
    accepted at iteration [k] only when its count difference does not exceed
    the best difference so far (it may equal it), differs from the
    difference of the preceding candidate, and the repeat counter is below 4.
    The final chosen position is the best position plus the repeat counter,
    which is the last index of the maximal run of candidates, starting at
    the best position, whose difference equals the best one; it is always a
    grid index, so the clamp never fires.  ([b] is the value of [in_row] on
    entry: [False] for TH1, TH1's final value for TH4.) *)
Theorem th1_acceptance_and_final_position b n g k :
  th1_accepted_at b n g k ->
  let d := diffs n g in
  let before := th1_sweep b n (take k g) in
  let s := th1_sweep b n g in
  (exists dk, d !! k = Some dk /\
     dk <= th1_obj_min_diff before /\
     th1_repeat_count before < 4 /\
     dk <> th1_last before /\
     (forall i : nat, th1_op_pos before = Z.of_nat i ->
                      exists di, d !! i = Some di /\ dk <= di) /\
     (forall j dj, k = S j -> d !! j = Some dj -> dk <> dj)) /\
  (exists i r : nat,
     th1_op_pos s = Z.of_nat i /\ th1_repeat_count s = Z.of_nat r /\
     th1_choice b n g = Z.of_nat (i + r) /\
     (k <= i)%nat /\ (i + r < length g)%nat /\
     (forall j, (i <= j <= i + r)%nat -> d !! j = d !! i) /\
     (forall y, d !! (i + r + 1)%nat = Some y -> d !! i <> Some y)).
Proof.
  intros Hacc d before s.
  destruct (th1_accepted_test b n g k Hacc) as (c & Hc & Ht).
  fold before in Ht.
  destruct Hacc as [Hk Hop].
  set (dk := Z.abs (c.2 - n)) in *.
  assert (Hdk : d !! k = Some dk).
  { unfold d, diffs. rewrite list_lookup_fmap_Some. by exists c. }
  unfold th1_accepts in Ht.
  apply andb_true_iff in Ht as [Ht Hne]. apply andb_true_iff in Ht as [Hle Hrep].
  apply Z.leb_le in Hle. apply Z.ltb_lt in Hrep.
  apply negb_true_iff, Z.eqb_neq in Hne.
  destruct (th1_inv_sweep b n (take k g)) as (_ & Hlast & Hcase).
  fold before in Hlast, Hcase. rewrite diffs_take in Hlast, Hcase.
  fold d in Hlast, Hcase. rewrite length_take in Hcase.
  split.
  - exists dk. repeat split; try done.
    + intros i Hi.
      destruct Hcase as [(Hm1 & _)|(i' & r & Hi' & _ & Hlt & Hrun & _)]; [lia|].
      assert (i' = i) as -> by lia.
      exists (th1_obj_min_diff before). split; [|done].
      specialize (Hrun i ltac:(lia)).
      apply lookup_take_Some in Hrun. tauto.
    + intros j dj -> Hj Heq. apply Hne. rewrite Hlast.
      symmetry. apply last_lookup.
      * assert (Hlen : length d = length g) by apply diffs_length.
        rewrite length_take, Hlen.
        replace (S j `min` length g - 1)%nat with j by lia.
        rewrite lookup_take_lt by lia. congruence.
      * assert (Hlen : length d = length g) by apply diffs_length.
        intros E. apply (f_equal length) in E.
        rewrite length_take, Hlen in E. change (length (@nil Z)) with 0%nat in E. lia.
  - destruct (th1_inv_sweep b n g) as (Hks & _ & Hfin).
    fold s d in Hfin, Hks.
    assert (Hmono : Z.of_nat k <= th1_op_pos s).
    { unfold s. rewrite <- (take_drop (S k) g) at 1.
      unfold th1_sweep. rewrite fold_left_app.
      fold (th1_sweep b n (take (S k) g)). rewrite <- Hop.
      apply th1_op_pos_mono. rewrite Hop, th1_k_sweep, length_take. lia. }
    destruct Hfin as [(Hm1 & _)|(i & r & Hi & Hr & Hlt & Hrun & Hin & Hout)]; [lia|].
    exists i, r. repeat split; try done; try lia.
    + unfold th1_choice, th1_opt_pos. fold s. rewrite Hi, Hr.
      destruct (Z.geb_spec (Z.of_nat i + Z.of_nat r) (Z.of_nat (length g))); lia.
    + intros j Hj. rewrite (Hrun j Hj). symmetry. apply Hrun. lia.
    + intros y Hy Hiy. rewrite (Hrun i ltac:(lia)) in Hiy.
      destruct (in_row s) eqn:Hrow.
      * specialize (Hin eq_refl). apply lookup_lt_Some in Hy.
        unfold d in Hy. rewrite diffs_length in Hy. lia.
      * destruct (Hout eq_refl) as (y' & Hy' & Hne'). congruence.
Qed.

(** Counts [6,4,4,4,9] with true count 3: index 1 is accepted and the final
    position is 3, the end of the run of 4's. *)
Lemma th1_acceptance_and_final_position_witness :
  let g := observed [6; 4; 4; 4; 9] in
  th1_accepted_at false 3 g 1 /\
  th1_choice false 3 g = 3 /\
  exists i r : nat,
    th1_op_pos (th1_sweep false 3 g) = Z.of_nat i /\
    th1_repeat_count (th1_sweep false 3 g) = Z.of_nat r /\
    th1_choice false 3 g = Z.of_nat (i + r).
Proof.
  intros g.
  assert (H : th1_accepted_at false 3 g 1)
    by (split; [simpl; lia | reflexivity]).
  split; [exact H|]. split; [reflexivity|].
  destruct (th1_acceptance_and_final_position false 3 g 1 H)
    as (_ & i & r & Hi & Hr & Hc & _).
  exists i, r. repeat split; assumption.
Defined.

(** C2 as stated fails under either reading of "strictly improves".  With
    counts [5,8,5] and true count 3 the third candidate is accepted as the
    new best although its difference (2) only equals the best so far; with
    counts [3,8] the second candidate is accepted although its difference
    (5) is worse than the one just before it (0). *)
Lemma th1_accepts_without_strict_improvement :
  (let g := observed [5; 8; 5] in
   th1_accepted_at false 3 g 2 /\
   ~ strictly_improves_on_best false 3 g 2) /\
  (let g := observed [3; 8] in
   th1_accepted_at false 3 g 1 /\
   ~ strictly_improves_on_previous 3 g 1).
Proof.
  split; cbv zeta.
  - split.
    + split; [simpl; lia | reflexivity].
    + intros H. specialize (H 2 eq_refl). vm_compute in H. discriminate.
  - split.
    + split; [simpl; lia | reflexivity].
    + intros H. specialize (H 0%nat 5 0 eq_refl eq_refl eq_refl). lia.
Qed.

End CalibrationProofs.

(** ** Arrays *)

Module NdArrayFacts.
Import NdArray.

Lemma shape_eqb_refl s : shape_eqb s s = true.
Proof. unfold shape_eqb. by apply bool_decide_eq_true_2. Qed.

Lemma mapM_seq_Some {B} (f : nat -> option B) (h : nat -> B) k n :
  (forall i, (k <= i < k + n)%nat -> f i = Some (h i)) ->
  mapM f (seq k n) = Some (map h (seq k n)).
Proof.
  revert k; induction n as [|n IH]; intros k H; simpl; [done|].
  rewrite H by lia. simpl. rewrite IH by (intros; apply H; lia). done.
Qed.

Lemma nth_map_seq {B} (h : nat -> B) d k n c :
  (c < n)%nat -> nth c (map h (seq k n)) d = h (k + c)%nat.
Proof.
  revert k c; induction n as [|n IH]; intros k c Hc; [lia|].
  destruct c as [|c]; simpl.
  - f_equal; lia.
  - rewrite IH by lia. f_equal; lia.
Qed.

Lemma forallb_map_seq {B} (p : B -> bool) (h : nat -> B) k n :
  (forall i, (k <= i < k + n)%nat -> p (h i) = true) ->
  forallb p (map h (seq k n)) = true.
Proof.
  intros H. apply forallb_forall. intros x Hx.
  apply in_map_iff in Hx as (i & <- & Hi). apply in_seq in Hi. by apply H.
Qed.

(** *** Multi-indices *)

Lemma in_indices sh : forall idx, In idx (indices sh) <-> in_range idx sh.
Proof.
  unfold in_range. induction sh as [|n sh IH]; intros idx; simpl.
  - split.
    + intros [<-|[]]. constructor.
    + intros H. inversion H. by left.
  - rewrite in_flat_map. split.
    + intros (i & Hi & Hidx). apply in_map_iff in Hidx as (r & <- & Hr).
      apply in_seq in Hi. constructor; [lia|]. by apply IH.
    + intros H. inversion H as [|i m r sh' Hi Hr]; subst.
      exists i. split; [apply in_seq; lia|].
      apply in_map. by apply IH.
Qed.

(** *** Stacking *)

Lemma stack_Some {A} (d : ndarray A) l sh :
  l <> [] -> Forall (fun a => shape a = sh) l ->
  exists r, stack d l = Some r /\ shape r = length l :: sh /\
            forall i idx, get r (i :: idx) = get (nth i l d) idx.
Proof.
  intros Hne Hall. destruct l as [|a l]; [done|].
  unfold stack.
  assert (Ha : shape a = sh) by (by inversion Hall).
  assert (Hf : forallb (fun b => shape_eqb (shape b) (shape a)) (a :: l) = true).
  { apply forallb_forall. intros b Hb.
    rewrite Forall_forall in Hall.
    rewrite (Hall b) by (by apply list_elem_of_In). rewrite Ha.
    apply shape_eqb_refl. }
  rewrite Hf. eexists. split; [reflexivity|]. simpl. rewrite Ha. done.
Qed.

(** *** Concatenation of single-entry arrays along the last axis *)

Lemma concat_last_get_units {A} (d : ndarray A) l pre : forall c,
  Forall (fun a => List.last (shape a) 0%nat = 1%nat) l ->
  (c < length l)%nat ->
  concat_last_get d l pre c = get (nth c l d) (pre ++ [0%nat]).
Proof.
  induction l as [|a l IH]; intros c Hall Hc; simpl in *; [lia|].
  inversion Hall as [|? ? Ha Hl]; subst. rewrite Ha.
  destruct c as [|c]; simpl; [done|].
  rewrite Nat.sub_0_r. apply IH; [done|lia].
Qed.

Lemma list_sum_units {B} (f : B -> nat) l :
  Forall (fun a => f a = 1%nat) l -> list_sum (map f l) = length l.
Proof. induction 1 as [|a l Ha _ IH]; simpl; [done|]. rewrite Ha, IH. done. Qed.

Lemma concat_last_Some {A} (d : ndarray A) a l pre_sh :
  Forall (fun b => shape b = pre_sh ++ [1%nat]) (a :: l) ->
  concat_last d (a :: l) =
    Some (mk_nd (pre_sh ++ [S (length l)])
            (fun idx => concat_last_get d (a :: l) (removelast idx)
                                        (List.last idx 0%nat))).
Proof.
  intros Hall. unfold concat_last.
  assert (Ha : shape a = pre_sh ++ [1%nat]) by (by inversion Hall).
  assert (Hf : forallb (fun b => shape_eqb (removelast (shape b))
                                           (removelast (shape a))
                                 && negb (shape_eqb (shape b) []))
                       (a :: l) = true).
  { apply forallb_forall. intros b Hb.
    rewrite Forall_forall in Hall.
    rewrite (Hall b) by (by apply list_elem_of_In). rewrite Ha.
    rewrite shape_eqb_refl. simpl.
    unfold shape_eqb. rewrite bool_decide_eq_false_2; [done|].
    destruct pre_sh; done. }
  rewrite Hf. rewrite Ha, removelast_last.
  rewrite list_sum_units.
  - reflexivity.
  - eapply Forall_impl; [exact Hall|]. intros b Hb. simpl in Hb.
    rewrite Hb. apply last_last.
Qed.

Lemma concat_last_units {A} (d : ndarray A) (h : nat -> ndarray A) C pre_sh :
  (1 <= C)%nat ->
  (forall c, (c < C)%nat -> shape (h c) = pre_sh ++ [1%nat]) ->
  exists r, concat_last d (map h (seq 0 C)) = Some r /\
            shape r = pre_sh ++ [C] /\
            forall pre c, (c < C)%nat ->
                          get r (pre ++ [c]) = get (h c) (pre ++ [0%nat]).
Proof.
  intros HC Hsh.
  assert (Hall : Forall (fun a => shape a = pre_sh ++ [1%nat])
                        (map h (seq 0 C))).
  { apply Forall_forall. intros a Ha. apply list_elem_of_In in Ha.
    apply in_map_iff in Ha as (c & <- & Hc). apply in_seq in Hc.
    apply Hsh. lia. }
  assert (Hunits : Forall (fun a => List.last (shape a) 0%nat = 1%nat)
                          (map h (seq 0 C))).
  { eapply Forall_impl; [exact Hall|]. intros b Hb. simpl in Hb.
    rewrite Hb. apply last_last. }
  destruct C as [|C]; [lia|].
  change (map h (seq 0 (S C))) with (h 0%nat :: map h (seq 1 C)) in *.
  rewrite (concat_last_Some d _ _ pre_sh Hall).
  eexists. split; [reflexivity|]. simpl shape.
  rewrite length_map, length_seq. split; [done|].
  intros pre c Hc. cbn [get].
  rewrite removelast_last, last_last.
  rewrite concat_last_get_units;
    [|done|simpl; rewrite length_map, length_seq; lia].
  change (h 0%nat :: map h (seq 1 C)) with (map h (seq 0 (S C))).
  rewrite nth_map_seq by done. done.
Qed.

(** *** Batching and re-joining along axis 0 *)

Section Chunks.
Context {A : Type} (d total : ndarray A) (n b : nat) (rest : list nat).
Hypothesis Hshape : shape total = n :: rest.
Hypothesis Hb : (1 <= b)%nat.

Lemma chunk_size i :
  hd 0%nat (shape (chunk total n b i)) = (Nat.min ((i + 1) * b) n - i * b)%nat.
Proof. unfold chunk, slice0. simpl. rewrite Hshape. simpl. lia. Qed.

Lemma concat0_get_chunks m : forall k j r,
  (k * b + j < Nat.min ((k + m) * b) n)%nat ->
  concat0_get d (map (chunk total n b) (seq k m)) j r = get total ((k * b + j)%nat :: r).
Proof.
  induction m as [|m IH]; intros k j r Hj.
  - exfalso. replace (k + 0)%nat with k in Hj by lia. lia.
  - cbn [map seq concat0_get]. rewrite chunk_size.
    destruct (Nat.ltb_spec j (Nat.min ((k + 1) * b) n - k * b)) as [Hlt|Hge].
    + reflexivity.
    + rewrite IH by nia. f_equal. f_equal. nia.
Qed.

Lemma list_sum_chunks m : forall k,
  list_sum (map (fun a => hd 0%nat (shape a)) (map (chunk total n b) (seq k m)))
  = (Nat.min ((k + m) * b) n - Nat.min (k * b) n)%nat.
Proof.
  induction m as [|m IH]; intros k; cbn [map seq list_sum fold_right].
  - replace (k + 0)%nat with k by lia. lia.
  - change (fold_right Nat.add 0%nat ?l) with (list_sum l).
    rewrite chunk_size, IH. nia.
Qed.
End Chunks.

(** *** Mean over axis 0 *)

Lemma map_seq_ext {A} (f g : nat -> A) n : forall k,
  (forall t, (k <= t < k + n)%nat -> f t = g t) ->
  map f (seq k n) = map g (seq k n).
Proof.
  induction n as [|n IH]; intros k H; [done|].
  cbn [seq map]. rewrite (H k) by lia. f_equal. apply IH.
  intros t Ht. apply H. lia.
Qed.

Lemma map_seq_const {A} (f : nat -> A) (x : A) n : forall k,
  (forall t, (k <= t < k + n)%nat -> f t = x) ->
  map f (seq k n) = replicate n x.
Proof.
  induction n as [|n IH]; intros k H; [done|].
  cbn [seq map replicate]. rewrite (H k) by lia. f_equal. apply IH.
  intros t Ht. apply H. lia.
Qed.

(** The mean at a position is the mean of the values of the rows there. *)
Lemma mean0_rows (a : ndarray float) n rest idx (row : nat -> float) :
  shape a = n :: rest ->
  (forall t, (t < n)%nat -> get a (t :: idx) = row t) ->
  get (mean0 a) idx
  = np_mean (fold_right Nat.mul 1%nat rest =? 1)%nat (map row (seq 0 n)).
Proof.
  intros Hsh H. unfold mean0. cbn [get]. rewrite Hsh. cbn [hd tl].
  f_equal. apply map_seq_ext. intros t Ht. apply H. lia.
Qed.

Lemma mean0_const (a : ndarray float) n rest idx (x : float) :
  shape a = n :: rest ->
  (forall t, (t < n)%nat -> get a (t :: idx) = x) ->
  get (mean0 a) idx
  = np_mean (fold_right Nat.mul 1%nat rest =? 1)%nat (replicate n x).
Proof.
  intros Hsh H. rewrite (mean0_rows a n rest idx (fun _ => x)) by done.
  f_equal. by apply map_seq_const.
Qed.

(** *** Reflection padding leaves the original part in place *)

Lemma reflect_index_id n k :
  (k < n)%nat -> reflect_index n (Z.of_nat k) = k.
Proof.
  intros Hk. unfold reflect_index.
  destruct (Nat.leb_spec n 1) as [H1|H1]; [lia|].
  cbv zeta.
  rewrite Z.mod_small by lia.
  destruct (Z.ltb_spec (Z.of_nat k) (Z.of_nat n)); lia.
Qed.

End NdArrayFacts.

(** ** Test-time augmentation *)

Module EnsembleProofs.
Import NdArray NdArrayFacts Ensemble.

Lemma concat0_Some {A} (d : ndarray A) a l rest :
  Forall (fun b => tl (shape b) = rest /\ shape b <> []) (a :: l) ->
  concat0 d (a :: l) =
    Some (mk_nd (list_sum (map (fun b => hd 0%nat (shape b)) (a :: l)) :: rest)
            (fun idx => match idx with
                        | i :: r => concat0_get d (a :: l) i r
                        | [] => get d []
                        end)).
Proof.
  intros Hall. unfold concat0.
  assert (Ha : tl (shape a) = rest) by (inversion Hall; tauto).
  assert (Hf : forallb (fun b => shape_eqb (tl (shape b)) (tl (shape a))
                                 && negb (shape_eqb (shape b) []))
                       (a :: l) = true).
  { apply forallb_forall. intros b Hb.
    rewrite Forall_forall in Hall.
    destruct (Hall b) as [Hb1 Hb2]; [by apply list_elem_of_In|].
    rewrite Hb1, Ha, shape_eqb_refl. simpl.
    unfold shape_eqb. by rewrite bool_decide_eq_false_2. }
  rewrite Hf, Ha. reflexivity.
Qed.

(** With a [pred_func] that returns its batch unchanged (and one class) the
    prediction loop rebuilds the array it was given, whatever the batch
    size. *)
Lemma predict_batches_id fix_ndim bs (total : ndarray float) n rest :
  shape total = n :: rest -> 1 <= bs -> (1 <= n)%nat ->
  (forall lo hi, fix_ndim (slice0 lo hi total) = slice0 lo hi total) ->
  exists dec, predict_batches fix_ndim PArray bs 1 total = Some dec /\
              shape dec = n :: rest /\
              forall i idx, (i < n)%nat ->
                            get dec (i :: idx) = get total (i :: idx).
Proof.
  intros Hsh Hbs Hn Hfix. unfold predict_batches. rewrite Hsh.
  cbn [hd]. unfold n_batches.
  rewrite (proj2 (Z.eqb_neq bs 0)) by lia. cbn [mbind option_bind].
  set (b := Z.to_nat bs).
  set (L := Z.to_nat ((Z.of_nat n + bs - 1) / bs)).
  assert (HL : (n <= L * b /\ (L - 1) * b < n /\ 1 <= L)%nat).
  { pose proof (Z.div_mod (Z.of_nat n + bs - 1) bs ltac:(lia)) as Hdm.
    pose proof (Z.mod_pos_bound (Z.of_nat n + bs - 1) bs ltac:(lia)) as Hm.
    assert (H0 : 1 <= (Z.of_nat n + bs - 1) / bs).
    { apply Z.div_le_lower_bound; lia. }
    unfold L, b. nia. }
  rewrite (mapM_seq_Some _ (chunk total n b)).
  2:{ intros i Hi. cbn [mbind option_bind].
      change (1 >? 1) with false. cbv iota.
      rewrite Hfix. unfold chunk. do 2 f_equal.
      - unfold b. nia.
      - unfold b.
        destruct (Z.ltb_spec ((Z.of_nat i + 1) * bs) (Z.of_nat n)); nia. }
  cbn [mbind option_bind].
  destruct L as [|L']; [lia|].
  change (map (chunk total n b) (seq 0 (S L')))
    with (chunk total n b 0 :: map (chunk total n b) (seq 1 L')).
  rewrite (concat0_Some _ _ _ rest).
  2:{ change (chunk total n b 0 :: map (chunk total n b) (seq 1 L'))
        with (map (chunk total n b) (seq 0 (S L'))).
      apply Forall_forall. intros a Ha. apply list_elem_of_In in Ha.
      apply in_map_iff in Ha as (i & <- & _).
      unfold chunk, slice0. simpl. rewrite Hsh. done. }
  change (chunk total n b 0 :: map (chunk total n b) (seq 1 L'))
    with (map (chunk total n b) (seq 0 (S L'))).
  eexists. split; [reflexivity|]. cbn [shape get].
  assert (Hb1 : (1 <= b)%nat) by (unfold b; lia).
  rewrite (list_sum_chunks total n b rest Hsh Hb1).
  split.
  - f_equal. nia.
  - intros i idx Hi.
    rewrite (concat0_get_chunks _ total n b rest Hsh Hb1 (S L') 0 i idx)
      by nia.
    done.
Qed.

(** *** 2D: every de-transformed variant is the squared image again *)

Ltac same_position :=
  match goal with
  | |- ?g ?a = ?g ?b =>
      replace a with b; [reflexivity | repeat f_equal; lia]
  end.

Lemma rot90_1 {A} (m : ndarray A) : rot90 1 m = transpose01 (flip 1 m).
Proof. reflexivity. Qed.
Lemma rot90_2 {A} (m : ndarray A) : rot90 2 m = flip 1 (flip 0 m).
Proof. reflexivity. Qed.
Lemma rot90_3 {A} (m : ndarray A) : rot90 3 m = flip 1 (transpose01 m).
Proof. reflexivity. Qed.

Create Rewrite HintDb rot.
#[local] Hint Rewrite @rot90_1 @rot90_2 @rot90_3 : rot.

Lemma undo8_augment8 S (img y : ndarray float) t :
  shape img = [S; S; 1%nat] -> shape y = [S; S] -> (t < 8)%nat ->
  (forall i j, (i < S)%nat -> (j < S)%nat ->
     get y [i; j] = get (nth t (augment8 img) nd0) [i; j; 0%nat]) ->
  shape (nth t (undo8_list y) nd0) = [S; S] /\
  forall i j, (i < S)%nat -> (j < S)%nat ->
     get (nth t (undo8_list y) nd0) [i; j] = get img [i; j; 0%nat].
Proof.
  intros Hsi Hsh Ht Hy. destruct y as [shy gy]. simpl in Hsh. subst shy.
  destruct img as [shi gi]. simpl in Hsi. subst shi.
  unfold augment8 in Hy. unfold undo8_list.
  autorewrite with rot in *.
  do 8 (destruct t as [|t]; [split; [reflexivity|]; intros i j Hi Hj;
        cbn -[Nat.sub]; (eapply eq_trans; [apply Hy; lia|]);
        cbn -[Nat.sub]; same_position|]).
  lia.
Qed.

Lemma augment8_shapes S (img : ndarray float) :
  shape img = [S; S; 1%nat] ->
  Forall (fun a => shape a = [S; S; 1%nat]) (augment8 img).
Proof.
  intros Hs. destruct img as [sh gi]. simpl in Hs. subst sh.
  unfold augment8. autorewrite with rot. repeat constructor.
Qed.

(** Squaring keeps the image in the lower right corner of the padded one. *)
Lemma square_2d_spec H W (x : ndarray float) :
  shape x = [H; W; 1%nat] -> (1 <= H)%nat -> (1 <= W)%nat ->
  exists img, square_2d x = Some img /\
    shape img = [Nat.max H W; Nat.max H W; 1%nat] /\
    forall i j, (i < H)%nat -> (j < W)%nat ->
      get img [(W - H + i)%nat; (H - W + j)%nat; 0%nat] = get x [i; j; 0%nat].
Proof.
  intros Hs HH HW. destruct x as [sh gx]. simpl in Hs. subst sh.
  unfold square_2d, pad_to_square_2d. cbn [shape nth].
  assert (EH : (H =? 0)%nat = false) by (apply Nat.eqb_neq; lia).
  assert (EW : (W =? 0)%nat = false) by (apply Nat.eqb_neq; lia).
  destruct (Z.ltb_spec (Z.of_nat H - Z.of_nat W) 0) as [Hlt|Hge];
    unfold pad_reflect_before; cbn [shape nth get];
    rewrite ?EH, ?EW, andb_false_r;
    (eexists; split; [reflexivity|]; cbn [shape get alter list_alter]; split;
     [repeat f_equal; lia|]).
  - intros i j Hi Hj. f_equal. f_equal; [|repeat f_equal; lia].
    replace (Z.of_nat (W - H + i) - Z.of_nat (Z.abs_nat (Z.of_nat H - Z.of_nat W)))
      with (Z.of_nat i) by lia.
    by apply reflect_index_id.
  - intros i j Hi Hj. f_equal. f_equal; [lia|]. f_equal.
    replace (Z.of_nat (H - W + j) - Z.of_nat (Z.to_nat (Z.of_nat H - Z.of_nat W)))
      with (Z.of_nat j) by lia.
    by apply reflect_index_id.
Qed.

Lemma fill_rows_Some {A} (d : ndarray A) n sh row :
  (forall i, (i < n)%nat -> shape (row i) = sh) ->
  fill_rows d n sh row =
    Some (mk_nd (n :: sh)
            (fun idx => match idx with
                        | i :: r => get (row i) r
                        | [] => get d []
                        end)).
Proof.
  intros H. unfold fill_rows.
  assert (Hf : forallb (fun i => shape_eqb (shape (row i)) sh) (seq 0 n) = true).
  { apply forallb_forall. intros i Hi. apply in_seq in Hi.
    rewrite H by lia. apply shape_eqb_refl. }
  by rewrite Hf.
Qed.

(** The variants of one channel, stacked. *)
Lemma channel_variants_2d_spec H W C (o_img : ndarray float) c :
  shape o_img = [H; W; C] -> (1 <= H)%nat -> (1 <= W)%nat ->
  exists img v,
    square_2d (expand_last (take_last c o_img)) = Some img /\
    channel_variants_2d o_img c = Some v /\
    shape img = [Nat.max H W; Nat.max H W; 1%nat] /\
    (forall i j, (i < H)%nat -> (j < W)%nat ->
       get img [(W - H + i)%nat; (H - W + j)%nat; 0%nat] = get o_img [i; j; c]) /\
    shape v = [8%nat; Nat.max H W; Nat.max H W; 1%nat] /\
    (forall t idx, get v (t :: idx) = get (nth t (augment8 img) nd0) idx).
Proof.
  intros Hs HH HW.
  destruct (square_2d_spec H W (expand_last (take_last c o_img)))
    as (img & Hsq & Hsi & Hgi); [|done|done|].
  { cbn [shape expand_last take_last]. rewrite Hs. reflexivity. }
  destruct (stack_Some nd0 (augment8 img) [Nat.max H W; Nat.max H W; 1%nat])
    as (v & Hv & Hsv & Hgv); [done|by apply augment8_shapes|].
  exists img, v. unfold channel_variants_2d. rewrite Hsq.
  cbn [mbind option_bind]. repeat split; done.
Qed.

(** Undoing the variants of one decoded channel gives eight copies of that
    channel's squared image. *)
Lemma undo8_channel S C (dec img : ndarray float) c :
  shape dec = [8%nat; S; S; C] -> shape img = [S; S; 1%nat] ->
  (forall t i j, (t < 8)%nat -> (i < S)%nat -> (j < S)%nat ->
     get dec [t; i; j; c] = get (nth t (augment8 img) nd0) [i; j; 0%nat]) ->
  exists u, undo8 (take_last c dec) = Some u /\ shape u = [8%nat; S; S] /\
    forall t i j, (t < 8)%nat -> (i < S)%nat -> (j < S)%nat ->
      get u [t; i; j] = get img [i; j; 0%nat].
Proof.
  intros Hsd Hsi Hdec.
  set (d := fun t => sub0 t (take_last c dec)).
  assert (Hund : forall t, (t < 8)%nat ->
            shape (nth t (undo8_list (d t)) nd0) = [S; S] /\
            forall i j, (i < S)%nat -> (j < S)%nat ->
              get (nth t (undo8_list (d t)) nd0) [i; j] = get img [i; j; 0%nat]).
  { intros t Ht. apply undo8_augment8; try done.
    - unfold d. cbn [shape sub0 take_last]. rewrite Hsd. reflexivity.
    - intros i j Hi Hj. unfold d. cbn [get sub0 take_last app].
      by apply Hdec. }
  unfold undo8. cbn [shape take_last]. rewrite Hsd. cbn [removelast hd].
  change (8 <? 8)%nat with false. cbv iota. fold d.
  destruct (stack_Some nd0
     [d 0%nat; rot90 3 (d 1%nat); rot90 2 (d 2%nat); rot90 1 (d 3%nat);
      flip 1 (d 4%nat); flip 1 (rot90 3 (d 5%nat));
      flip 1 (rot90 2 (d 6%nat)); flip 1 (rot90 1 (d 7%nat))] [S; S])
    as (u & Hu & Hsu & Hgu); [done| |].
  { repeat constructor.
    - exact (proj1 (Hund 0%nat ltac:(lia))).
    - exact (proj1 (Hund 1%nat ltac:(lia))).
    - exact (proj1 (Hund 2%nat ltac:(lia))).
    - exact (proj1 (Hund 3%nat ltac:(lia))).
    - exact (proj1 (Hund 4%nat ltac:(lia))).
    - exact (proj1 (Hund 5%nat ltac:(lia))).
    - exact (proj1 (Hund 6%nat ltac:(lia))).
    - exact (proj1 (Hund 7%nat ltac:(lia))). }
  exists u. split; [exact Hu|]. split; [exact Hsu|].
  intros t i j Ht Hi Hj. rewrite Hgu.
  destruct t as [|t]; [exact (proj2 (Hund 0%nat ltac:(lia)) i j Hi Hj)|].
  destruct t as [|t]; [exact (proj2 (Hund 1%nat ltac:(lia)) i j Hi Hj)|].
  destruct t as [|t]; [exact (proj2 (Hund 2%nat ltac:(lia)) i j Hi Hj)|].
  destruct t as [|t]; [exact (proj2 (Hund 3%nat ltac:(lia)) i j Hi Hj)|].
  destruct t as [|t]; [exact (proj2 (Hund 4%nat ltac:(lia)) i j Hi Hj)|].
  destruct t as [|t]; [exact (proj2 (Hund 5%nat ltac:(lia)) i j Hi Hj)|].
  destruct t as [|t]; [exact (proj2 (Hund 6%nat ltac:(lia)) i j Hi Hj)|].
  destruct t as [|t]; [exact (proj2 (Hund 7%nat ltac:(lia)) i j Hi Hj)|].
  lia.
Qed.

Lemma in_range_3 idx a b c :
  in_range idx [a; b; c] ->
  exists i j k, idx = [i; j; k] /\ (i < a)%nat /\ (j < b)%nat /\ (k < c)%nat.
Proof.
  intros H. unfold in_range in H.
  inversion H as [|i ? idx1 ? Hi H1]; subst.
  inversion H1 as [|j ? idx2 ? Hj H2]; subst.
  inversion H2 as [|k ? idx3 ? Hk H3]; subst.
  inversion H3; subst. by exists i, j, k.
Qed.

Lemma ensemble8_2d_mean (o_img : ndarray float) H W C bs :
  shape o_img = [H; W; C] ->
  (1 <= H)%nat -> (1 <= W)%nat -> (1 <= C)%nat -> 1 <= bs ->
  exists out, ensemble8_2d_predictions o_img PArray bs 1 = Some out /\
    shape out = shape o_img /\
    forall idx, in_range idx (shape o_img) ->
      get out idx
      = np_mean (fold_right Nat.mul 1%nat (shape o_img) =? 1)%nat
                (replicate 8 (get o_img idx)).
Proof.
  intros Hs HH HW HC Hbs.
  set (S := Nat.max H W).
  (* the squared image and the stacked variants of every channel *)
  set (I := fun c => default nd0
                       (square_2d (expand_last (take_last c o_img)))).
  set (V := fun c => default nd0 (channel_variants_2d o_img c)).
  assert (HA : forall c,
    square_2d (expand_last (take_last c o_img)) = Some (I c) /\
    channel_variants_2d o_img c = Some (V c) /\
    shape (I c) = [S; S; 1%nat] /\
    (forall i j, (i < H)%nat -> (j < W)%nat ->
       get (I c) [(W - H + i)%nat; (H - W + j)%nat; 0%nat]
       = get o_img [i; j; c]) /\
    shape (V c) = [8%nat; S; S; 1%nat] /\
    (forall t idx, get (V c) (t :: idx) = get (nth t (augment8 (I c)) nd0) idx)).
  { intros c.
    destruct (channel_variants_2d_spec H W C o_img c Hs HH HW)
      as (img & v & Hsq & Hv & Hrest).
    unfold I, V. rewrite Hsq, Hv. cbn [default]. tauto. }
  unfold ensemble8_2d_predictions.
  rewrite Hs. cbn [List.last].
  rewrite (mapM_seq_Some _ V) by (intros c _; apply HA).
  cbn [mbind option_bind].
  rewrite (proj2 (Nat.eqb_neq C 0)) by lia.
  rewrite (proj1 (HA (C - 1)%nat)). cbn [mbind option_bind].
  (* merged channels *)
  destruct (concat_last_units nd0 V C [8%nat; S; S] HC)
    as (total & Htot & Hst & Hgt); [intros c _; apply HA|].
  rewrite Htot. cbn [mbind option_bind].
  (* prediction *)
  destruct (predict_batches_id id bs total 8 [S; S; C] Hst Hbs ltac:(lia))
    as (dec & Hdec & Hsd & Hgd); [done|].
  rewrite Hdec. cbn [mbind option_bind].
  rewrite Hsd. cbn [List.last].
  (* undo, channel by channel *)
  assert (Hdv : forall c t i j, (c < C)%nat -> (t < 8)%nat ->
            get dec [t; i; j; c]
            = get (nth t (augment8 (I c)) nd0) [i; j; 0%nat]).
  { intros c t i j Hc Ht. rewrite Hgd by done.
    change [t; i; j; c] with ([t; i; j] ++ [c]). rewrite Hgt by done.
    cbn [app]. apply HA. }
  set (U := fun c => default nd0 (undo8 (take_last c dec))).
  assert (HU : forall c, (c < C)%nat ->
            undo8 (take_last c dec) = Some (U c) /\
            shape (U c) = [8%nat; S; S] /\
            forall t i j, (t < 8)%nat -> (i < S)%nat -> (j < S)%nat ->
              get (U c) [t; i; j] = get (I c) [i; j; 0%nat]).
  { intros c Hc.
    destruct (undo8_channel S C dec (I c) c Hsd) as (u & Hu & Hrest).
    - apply HA.
    - intros t i j Ht Hi Hj. rewrite Hdv by done. reflexivity.
    - unfold U. rewrite Hu. cbn [default]. tauto. }
  rewrite (mapM_seq_Some _ (fun c => expand_last (U c))).
  2:{ intros c Hc. rewrite (proj1 (HU c ltac:(lia))). reflexivity. }
  cbn [mbind option_bind].
  destruct (concat_last_units nd0 (fun c => expand_last (U c)) C [8%nat; S; S] HC)
    as (out_img & Hout & Hso & Hgo).
  { intros c Hc. cbn [shape expand_last].
    rewrite (proj1 (proj2 (HU c Hc))). reflexivity. }
  rewrite Hout. cbn [mbind option_bind].
  assert (Hval : forall t i j c, (t < 8)%nat -> (i < S)%nat -> (j < S)%nat ->
            (c < C)%nat ->
            get out_img [t; i; j; c] = get (I c) [i; j; 0%nat]).
  { intros t i j c Ht Hi Hj Hc.
    change [t; i; j; c] with ([t; i; j] ++ [c]). rewrite Hgo by done.
    cbn [get expand_last app removelast]. by apply HU. }
  (* output shape and padding removal *)
  rewrite Hso. cbn [hd tl List.last app].
  unfold pad_to_square_2d. cbn [shape expand_last take_last].
  rewrite Hs. cbn [removelast app nth].
  rewrite (proj1 (proj2 (proj2 (HA (C - 1)%nat)))). cbn [nth].
  match goal with
  | |- context [fill_rows nd0 8 ?sh _] => replace sh with [H; W; C]
  end.
  2:{ unfold S.
      destruct (Z.eqb_spec (Z.of_nat H - Z.of_nat W) 0);
        destruct (Z.ltb_spec (Z.of_nat H - Z.of_nat W) 0);
        cbn [negb]; repeat f_equal; lia. }
  rewrite (fill_rows_Some nd0 8 [H; W; C]).
  - eexists. split; [reflexivity|]. split.
    + cbn [shape mean0 tl]. by rewrite ?Hs.
    + rewrite ?Hs. intros idx Hidx.
      apply in_range_3 in Hidx as (i & j & c & -> & Hi & Hj & Hc).
      eapply (mean0_const _ 8 [H; W; C]); [reflexivity|].
      intros t Ht. cbn [get].
      destruct (Z.ltb_spec (Z.of_nat H - Z.of_nat W) 0) as [Hlt|Hge];
        cbn [get drop_axis sub0 alter list_alter].
      * rewrite Hval by (unfold S; lia).
        replace (i + Z.abs_nat (Z.of_nat H - Z.of_nat W))%nat
          with (W - H + i)%nat by lia.
        replace j with (H - W + j)%nat at 1 by lia.
        rewrite (proj1 (proj2 (proj2 (proj2 (HA c))))) by done. reflexivity.
      * rewrite Hval by (unfold S; lia).
        replace (j + Z.abs_nat (Z.of_nat H - Z.of_nat W))%nat
          with (H - W + j)%nat by lia.
        replace i with (W - H + i)%nat at 1 by lia.
        rewrite (proj1 (proj2 (proj2 (proj2 (HA c))))) by done. reflexivity.
  - intros t Ht.
    destruct (Z.ltb_spec (Z.of_nat H - Z.of_nat W) 0) as [Hlt|Hge];
      cbn [shape drop_axis sub0]; rewrite Hso; cbn [tl app alter list_alter];
      unfold S; repeat f_equal; lia.
Qed.

(** *** 3D *)

Notation "a ≃ b" := (nd_rel eq a b) (at level 70).

Lemma nd_rel_refl (a : ndarray float) : a ≃ a.
Proof. split; [done|]. intros; reflexivity. Qed.

Lemma in_range_flip idx sh axis :
  in_range idx sh ->
  in_range (alter (fun i => nth axis sh 0 - 1 - i)%nat axis idx) sh.
Proof.
  unfold in_range. intros H.
  apply Forall2_same_length_lookup. split.
  - rewrite length_alter. by eapply Forall2_length.
  - intros k x n Hx Hn.
    destruct (decide (k = axis)) as [->|Hne].
    + rewrite list_lookup_alter_eq in Hx.
      destruct (idx !! axis) as [i|] eqn:Ei; [|done].
      simpl in Hx. injection Hx as <-.
      pose proof (Forall2_lookup_lr _ _ _ _ _ _ H Ei Hn) as Hlt.
      rewrite (nth_lookup_Some _ _ _ _ Hn). lia.
    + rewrite list_lookup_alter_ne in Hx by done.
      exact (Forall2_lookup_lr _ _ _ _ _ _ H Hx Hn).
Qed.

Lemma flip_proper axis (x y : ndarray float) :
  x ≃ y -> flip axis x ≃ flip axis y.
Proof.
  intros [Hs H]. split; [done|]. cbn [shape flip get]. intros idx Hi.
  rewrite <- Hs. apply H. by apply in_range_flip.
Qed.

Section Ensemble16Proofs.

Variable rotate : Z -> ndarray float -> ndarray float.

(** What is assumed of [scipy.ndimage.rotate] with [reshape=False] in the
    plane of axes 1 and 2, on volumes whose planes are square: the shape is
    kept, and the result depends on the values of the volume only.  That a
    rotation by the opposite angle gives the volume back is not assumed:
    the interpolation does not do so. *)
Hypothesis rotate_shape :
  forall a v z s, shape v = [z; s; s] -> shape (rotate a v) = [z; s; s].
Hypothesis rotate_proper :
  forall a x y z s, shape x = [z; s; s] -> x ≃ y -> rotate a x ≃ rotate a y.

Lemma augment16_shapes z s (volume : ndarray float) :
  shape volume = [z; s; s] ->
  Forall (fun a => shape a = [z; s; s]) (augment16 rotate volume).
Proof.
  intros Hs. unfold augment16. cbn [app].
  repeat constructor; try (apply rotate_shape); exact Hs.
Qed.

(** The de-transformations see the values of the volumes only. *)
Lemma undo16_list_proper z s (d d' : nat -> ndarray float) t :
  (t < 16)%nat ->
  (forall t, (t < 16)%nat -> shape (d t) = [z; s; s] /\ d t ≃ d' t) ->
  shape (nth t (undo16_list rotate d) nd0) = [z; s; s] /\
  nth t (undo16_list rotate d) nd0 ≃ nth t (undo16_list rotate d') nd0.
Proof.
  intros Ht Hd. unfold undo16_list. cbn [app Nat.add].
  do 16 (destruct t as [|t];
    [cbn [nth]; unfold id; split;
     [cbn [shape flip];
      first [ solve [apply Hd; lia]
            | apply rotate_shape; solve [apply Hd; lia] ]
     |repeat first [ solve [apply Hd; lia]
                   | apply flip_proper
                   | eapply rotate_proper; [solve [apply Hd; lia]|] ]]|]).
  lia.
Qed.

(** Squaring keeps the volume at the far end of the padded axis. *)
Lemma square_3d_spec Z0 H W (x : ndarray float) :
  shape x = [Z0; H; W] -> (1 <= H)%nat -> (1 <= W)%nat ->
  exists volume, square_3d x = Some volume /\
    shape volume = [Z0; Nat.max H W; Nat.max H W] /\
    forall k i j, (i < H)%nat -> (j < W)%nat ->
      get volume [k; (W - H + i)%nat; (H - W + j)%nat] = get x [k; i; j].
Proof.
  intros Hs HH HW. destruct x as [sh gx]. simpl in Hs. subst sh.
  unfold square_3d, pad_to_square_3d. cbn [shape nth].
  assert (EH : (H =? 0)%nat = false) by (apply Nat.eqb_neq; lia).
  assert (EW : (W =? 0)%nat = false) by (apply Nat.eqb_neq; lia).
  destruct (Z.ltb_spec (Z.of_nat W - Z.of_nat H) 0) as [Hlt|Hge];
    unfold pad_reflect_before; cbn [shape nth get];
    rewrite ?EH, ?EW, andb_false_r;
    (eexists; split; [reflexivity|]; cbn [shape get alter list_alter]; split;
     [repeat f_equal; lia|]).
  - intros k i j Hi Hj. f_equal. f_equal. f_equal; [lia|]. f_equal.
    replace (Z.of_nat (H - W + j) - Z.of_nat (Z.abs_nat (Z.of_nat W - Z.of_nat H)))
      with (Z.of_nat j) by lia.
    by apply reflect_index_id.
  - intros k i j Hi Hj. f_equal. f_equal. f_equal; [|repeat f_equal; lia].
    replace (Z.of_nat (W - H + i) - Z.of_nat (Z.to_nat (Z.of_nat W - Z.of_nat H)))
      with (Z.of_nat i) by lia.
    by apply reflect_index_id.
Qed.

Lemma channel_variants_3d_spec Z0 H W C (vol : ndarray float) c :
  shape vol = [Z0; H; W; C] -> (1 <= H)%nat -> (1 <= W)%nat ->
  exists volume v,
    square_3d (take_last c vol) = Some volume /\
    channel_variants_3d rotate vol c = Some v /\
    shape volume = [Z0; Nat.max H W; Nat.max H W] /\
    (forall k i j, (i < H)%nat -> (j < W)%nat ->
       get volume [k; (W - H + i)%nat; (H - W + j)%nat] = get vol [k; i; j; c]) /\
    shape v = [16%nat; Z0; Nat.max H W; Nat.max H W; 1%nat] /\
    (forall t idx, get v (t :: idx ++ [0%nat])
                   = get (nth t (augment16 rotate volume) nd0) idx).
Proof.
  intros Hs HH HW.
  destruct (square_3d_spec Z0 H W (take_last c vol))
    as (volume & Hsq & Hsv & Hgv); [|done|done|].
  { cbn [shape take_last]. rewrite Hs. reflexivity. }
  destruct (stack_Some nd0 (augment16 rotate volume)
              [Z0; Nat.max H W; Nat.max H W])
    as (v & Hv & Hshv & Hgetv); [done|by apply augment16_shapes|].
  exists volume, (expand_last v). unfold channel_variants_3d. rewrite Hsq.
  cbn [mbind option_bind]. rewrite Hv. cbn [fmap option_fmap option_map].
  repeat split; try done.
  - cbn [shape expand_last]. rewrite Hshv. reflexivity.
  - intros t idx. cbn [get expand_last].
    change (t :: idx ++ [0%nat]) with ((t :: idx) ++ [0%nat]).
    rewrite removelast_last. apply Hgetv.
Qed.

Lemma Forall_of_nth {A} (P : A -> Prop) (l : list A) d :
  (forall t, (t < length l)%nat -> P (nth t l d)) -> Forall P l.
Proof.
  intros H. apply Forall_forall. intros x Hx.
  apply list_elem_of_In, (In_nth _ _ d) in Hx as (t & Ht & <-). by apply H.
Qed.

Lemma in_range_3_intro i j k a b c :
  (i < a)%nat -> (j < b)%nat -> (k < c)%nat -> in_range [i; j; k] [a; b; c].
Proof. intros. repeat constructor; done. Qed.

Lemma undo16_channel Z0 S C (dec volume : ndarray float) c :
  shape dec = [16%nat; Z0; S; S; C] -> shape volume = [Z0; S; S] ->
  (forall t idx, (t < 16)%nat ->
     get dec (t :: idx ++ [c])
     = get (nth t (augment16 rotate volume) nd0) idx) ->
  exists u, undo16 rotate (take_last c dec) = Some u /\
    shape u = [16%nat; Z0; S; S] /\
    forall t k i j, (t < 16)%nat -> (k < Z0)%nat -> (i < S)%nat -> (j < S)%nat ->
      get u [t; k; i; j]
      = get (nth t (round_trips16 rotate volume) nd0) [k; i; j].
Proof.
  intros Hsd Hsv Hdec.
  set (d := fun t => sub0 t (take_last c dec)).
  pose proof (augment16_shapes Z0 S volume Hsv) as Hshapes.
  assert (Hd : forall t, (t < 16)%nat ->
                 shape (d t) = [Z0; S; S] /\
                 d t ≃ nth t (augment16 rotate volume) nd0).
  { intros t Ht.
    assert (Hsh : shape (d t) = [Z0; S; S]).
    { unfold d. cbn [shape sub0 take_last]. rewrite Hsd. reflexivity. }
    split; [exact Hsh|]. split.
    - rewrite Hsh. symmetry.
      rewrite Forall_forall in Hshapes. apply Hshapes.
      apply list_elem_of_In, nth_In. exact Ht.
    - intros idx _. unfold d. cbn [get sub0 take_last].
      change ((t :: idx) ++ [c]) with (t :: idx ++ [c]).
      rewrite Hdec by done. reflexivity. }
  assert (Hund : forall t, (t < 16)%nat ->
            shape (nth t (undo16_list rotate d) nd0) = [Z0; S; S] /\
            nth t (undo16_list rotate d) nd0
            ≃ nth t (round_trips16 rotate volume) nd0).
  { intros t Ht. unfold round_trips16. by apply undo16_list_proper. }
  unfold undo16. cbn [shape take_last]. rewrite Hsd. cbn [removelast hd].
  change (16 <? 16)%nat with false. cbv iota.
  fold d. fold (undo16_list rotate d).
  destruct (stack_Some nd0 (undo16_list rotate d) [Z0; S; S])
    as (u & Hu & Hsu & Hgu); [done| |].
  { apply (Forall_of_nth _ _ nd0). intros t Ht. by apply Hund. }
  exists u. split; [exact Hu|]. split; [exact Hsu|].
  intros t k i j Ht Hk Hi Hj. rewrite Hgu.
  destruct (Hund t Ht) as [Hsh [_ Hval]]. apply Hval.
  rewrite Hsh. by apply in_range_3_intro.
Qed.

Lemma in_range_4 idx a b c e :
  in_range idx [a; b; c; e] ->
  exists i j k l, idx = [i; j; k; l] /\
                  (i < a)%nat /\ (j < b)%nat /\ (k < c)%nat /\ (l < e)%nat.
Proof.
  intros H. unfold in_range in H.
  inversion H as [|i ? idx1 ? Hi H1]; subst.
  inversion H1 as [|j ? idx2 ? Hj H2]; subst.
  inversion H2 as [|k ? idx3 ? Hk H3]; subst.
  inversion H3 as [|l ? idx4 ? Hl H4]; subst.
  inversion H4; subst. by exists i, j, k, l.
Qed.

Lemma ensemble16_3d_mean (vol : ndarray float) Z0 H W C bs :
  shape vol = [Z0; H; W; C] ->
  (1 <= H)%nat -> (1 <= W)%nat -> (1 <= C)%nat -> 1 <= bs ->
  exists out, ensemble16_3d_predictions rotate vol PArray bs 1 = Some out /\
    shape out = shape vol /\
    forall k i j c, (k < Z0)%nat -> (i < H)%nat -> (j < W)%nat ->
                    (c < C)%nat ->
      exists volume,
        square_3d (take_last c vol) = Some volume /\
        get volume [k; (W - H + i)%nat; (H - W + j)%nat]
        = get vol [k; i; j; c] /\
        get out [k; i; j; c]
        = np_mean (fold_right Nat.mul 1%nat (shape vol) =? 1)%nat
            (map (fun t => get (nth t (round_trips16 rotate volume) nd0)
                               [k; (W - H + i)%nat; (H - W + j)%nat])
                 (seq 0 16)).
Proof.
  intros Hs HH HW HC Hbs.
  set (S := Nat.max H W).
  set (I := fun c => default nd0 (square_3d (take_last c vol))).
  set (V := fun c => default nd0 (channel_variants_3d rotate vol c)).
  assert (HA : forall c,
    square_3d (take_last c vol) = Some (I c) /\
    channel_variants_3d rotate vol c = Some (V c) /\
    shape (I c) = [Z0; S; S] /\
    (forall k i j, (i < H)%nat -> (j < W)%nat ->
       get (I c) [k; (W - H + i)%nat; (H - W + j)%nat] = get vol [k; i; j; c]) /\
    shape (V c) = [16%nat; Z0; S; S; 1%nat] /\
    (forall t idx, get (V c) (t :: idx ++ [0%nat])
                   = get (nth t (augment16 rotate (I c)) nd0) idx)).
  { intros c.
    destruct (channel_variants_3d_spec Z0 H W C vol c Hs HH HW)
      as (volume & v & Hsq & Hv & Hrest).
    unfold I, V. rewrite Hsq, Hv. cbn [default]. tauto. }
  unfold ensemble16_3d_predictions.
  rewrite Hs. cbn [List.last].
  rewrite (mapM_seq_Some _ V) by (intros c _; apply HA).
  cbn [mbind option_bind].
  rewrite (proj2 (Nat.eqb_neq C 0)) by lia.
  rewrite (proj1 (HA (C - 1)%nat)). cbn [mbind option_bind].
  destruct (concat_last_units nd0 V C [16%nat; Z0; S; S] HC)
    as (total & Htot & Hst & Hgt); [intros c _; apply HA|].
  rewrite Htot. cbn [mbind option_bind].
  destruct (predict_batches_id
              (fun r_aux => if (ndim r_aux =? 4)%nat
                            then expand_first r_aux else r_aux)
              bs total 16 [Z0; S; S; C] Hst Hbs ltac:(lia))
    as (dec & Hdec & Hsd & Hgd).
  { intros lo hi. unfold ndim, slice0. cbn [shape]. rewrite Hst. reflexivity. }
  rewrite Hdec. cbn [mbind option_bind].
  rewrite Hsd. cbn [List.last].
  assert (Hdv : forall c t idx, (c < C)%nat -> (t < 16)%nat ->
            get dec (t :: idx ++ [c])
            = get (nth t (augment16 rotate (I c)) nd0) idx).
  { intros c t idx Hc Ht. rewrite Hgd by done.
    change (t :: idx ++ [c]) with ((t :: idx) ++ [c]). rewrite Hgt by done.
    cbn [app]. apply HA. }
  set (U := fun c => default nd0 (undo16 rotate (take_last c dec))).
  assert (HU : forall c, (c < C)%nat ->
            undo16 rotate (take_last c dec) = Some (U c) /\
            shape (U c) = [16%nat; Z0; S; S] /\
            forall t k i j, (t < 16)%nat -> (k < Z0)%nat ->
              (i < S)%nat -> (j < S)%nat ->
              get (U c) [t; k; i; j]
              = get (nth t (round_trips16 rotate (I c)) nd0) [k; i; j]).
  { intros c Hc.
    destruct (undo16_channel Z0 S C dec (I c) c Hsd) as (u & Hu & Hrest).
    - apply HA.
    - intros t idx Ht. by apply Hdv.
    - unfold U. rewrite Hu. cbn [default]. tauto. }
  rewrite (mapM_seq_Some _ (fun c => expand_last (U c))).
  2:{ intros c Hc. rewrite (proj1 (HU c ltac:(lia))). reflexivity. }
  cbn [mbind option_bind].
  destruct (concat_last_units nd0 (fun c => expand_last (U c)) C
              [16%nat; Z0; S; S] HC)
    as (out_vols & Hout & Hso & Hgo).
  { intros c Hc. cbn [shape expand_last].
    rewrite (proj1 (proj2 (HU c Hc))). reflexivity. }
  rewrite Hout. cbn [mbind option_bind].
  assert (Hval : forall t k i j c, (t < 16)%nat -> (k < Z0)%nat ->
            (i < S)%nat -> (j < S)%nat -> (c < C)%nat ->
            get out_vols [t; k; i; j; c]
            = get (nth t (round_trips16 rotate (I c)) nd0) [k; i; j]).
  { intros t k i j c Ht Hk Hi Hj Hc.
    change [t; k; i; j; c] with ([t; k; i; j] ++ [c]). rewrite Hgo by done.
    cbn [get expand_last app removelast]. by apply HU. }
  rewrite Hso. cbn [hd tl List.last app].
  unfold pad_to_square_3d. cbn [shape expand_last take_last].
  rewrite Hs. cbn [removelast app nth].
  rewrite (proj1 (proj2 (proj2 (HA (C - 1)%nat)))). cbn [nth app].
  match goal with
  | |- context [fill_rows nd0 16 ?sh _] => replace sh with [Z0; H; W; C]
  end.
  2:{ unfold S.
      destruct (Z.eqb_spec (Z.of_nat W - Z.of_nat H) 0);
        destruct (Z.ltb_spec (Z.of_nat W - Z.of_nat H) 0);
        cbn [negb]; repeat f_equal; lia. }
  rewrite (fill_rows_Some nd0 16 [Z0; H; W; C]).
  - eexists. split; [reflexivity|]. split.
    + cbn [shape mean0 tl]. by rewrite ?Hs.
    + rewrite ?Hs. intros k i j c Hk Hi Hj Hc.
      exists (I c). split; [apply HA|].
      split; [by apply (proj1 (proj2 (proj2 (proj2 (HA c)))))|].
      eapply (mean0_rows _ 16 [Z0; H; W; C]); [reflexivity|].
      intros t Ht. cbn [get].
      destruct (Z.ltb_spec (Z.of_nat W - Z.of_nat H) 0) as [Hlt|Hge];
        cbn [get drop_axis sub0 alter list_alter].
      * rewrite Hval by (unfold S; lia).
        replace (j + Z.abs_nat (Z.of_nat W - Z.of_nat H))%nat
          with (H - W + j)%nat by lia.
        replace i with (W - H + i)%nat at 1 by lia.
        reflexivity.
      * rewrite Hval by (unfold S; lia).
        replace (i + Z.abs_nat (Z.of_nat W - Z.of_nat H))%nat
          with (W - H + i)%nat by lia.
        replace j with (H - W + j)%nat at 1 by lia.
        reflexivity.
  - intros t Ht.
    destruct (Z.ltb_spec (Z.of_nat W - Z.of_nat H) 0) as [Hlt|Hge];
      cbn [shape drop_axis sub0]; rewrite Hso; cbn [tl app alter list_alter];
      unfold S; repeat f_equal; lia.
Qed.

End Ensemble16Proofs.

(** The stand-in [halving] keeps the shape and sees the values only. *)
Lemma halving_shape a (v : ndarray float) z s :
  shape v = [z; s; s] -> shape (halving a v) = [z; s; s].
Proof. done. Qed.

Lemma halving_proper a (x y : ndarray float) z s :
  shape x = [z; s; s] -> x ≃ y -> halving a x ≃ halving a y.
Proof.
  intros _ [Hs H]. split; [done|]. cbn [shape halving nd_map get].
  intros idx Hi. by rewrite H.
Qed.

(** C4 (as amended).  With a [pred_func] that returns its batch unchanged
    and [n_classes = 1], for images that are square or not, of even or odd
    sizes, and any batch size: [ensemble8_2d_predictions] returns an array
    of the shape of the input whose every value is the float64 mean of
    eight copies of the input value, as [np.mean] computes it (the flips
    and quarter turns are undone exactly, the padding is removed); and
    [ensemble16_3d_predictions] returns an array of the shape of the input
    whose value at a position is the float64 mean of the values, at the
    place of that position in the padded volume of the channel, of the
    sixteen volumes that come back when the transformations of the padded
    volume are undone.  Of [scipy.ndimage.rotate] only that it keeps the
    shape is assumed. *)
Theorem ensemble_round_trip_averages_copies
    (rotate : Z -> ndarray float -> ndarray float)
    (o_img vol : ndarray float) (H W C Z3 H3 W3 C3 : nat)
    (batch_size_value : Z) :
  (forall a v z s, shape v = [z; s; s] -> shape (rotate a v) = [z; s; s]) ->
  (forall a x y z s, shape x = [z; s; s] -> x ≃ y ->
                     rotate a x ≃ rotate a y) ->
  shape o_img = [H; W; C] -> (1 <= H)%nat -> (1 <= W)%nat -> (1 <= C)%nat ->
  shape vol = [Z3; H3; W3; C3] ->
  (1 <= H3)%nat -> (1 <= W3)%nat -> (1 <= C3)%nat ->
  1 <= batch_size_value ->
  (exists out,
     ensemble8_2d_predictions o_img PArray batch_size_value 1 = Some out /\
     shape out = shape o_img /\
     forall idx, in_range idx (shape o_img) ->
       get out idx
       = np_mean (fold_right Nat.mul 1%nat (shape o_img) =? 1)%nat
                 (replicate 8 (get o_img idx))) /\
  (exists out,
     ensemble16_3d_predictions rotate vol PArray batch_size_value 1
       = Some out /\
     shape out = shape vol /\
     forall k i j c, (k < Z3)%nat -> (i < H3)%nat -> (j < W3)%nat ->
                     (c < C3)%nat ->
       exists volume,
         square_3d (take_last c vol) = Some volume /\
         get volume [k; (W3 - H3 + i)%nat; (H3 - W3 + j)%nat]
         = get vol [k; i; j; c] /\
         get out [k; i; j; c]
         = np_mean (fold_right Nat.mul 1%nat (shape vol) =? 1)%nat
             (map (fun t => get (nth t (round_trips16 rotate volume) nd0)
                                [k; (W3 - H3 + i)%nat; (H3 - W3 + j)%nat])
                  (seq 0 16))).
Proof.
  intros R1 R2 Hs HH HW HC Hs3 HH3 HW3 HC3 Hbs. split.
  - by eapply ensemble8_2d_mean.
  - by eapply ensemble16_3d_mean.
Qed.

(** An instance: the 2x3 image and the 2x2x3 volume, [halving] for
    [rotate], batches of three. *)
Lemma ensemble_round_trip_averages_copies_witness :
  shape example_image = [2; 3; 1]%nat /\
  shape example_volume = [2; 2; 3; 1]%nat /\
  (exists out,
     ensemble8_2d_predictions example_image PArray 3 1 = Some out /\
     shape out = shape example_image /\
     forall idx, in_range idx (shape example_image) ->
       get out idx
       = np_mean (fold_right Nat.mul 1%nat (shape example_image) =? 1)%nat
                 (replicate 8 (get example_image idx))) /\
  (exists out,
     ensemble16_3d_predictions halving example_volume PArray 3 1
       = Some out /\
     shape out = shape example_volume /\
     forall k i j c, (k < 2)%nat -> (i < 2)%nat -> (j < 3)%nat ->
                     (c < 1)%nat ->
       exists volume,
         square_3d (take_last c example_volume) = Some volume /\
         get volume [k; (3 - 2 + i)%nat; (2 - 3 + j)%nat]
         = get example_volume [k; i; j; c] /\
         get out [k; i; j; c]
         = np_mean (fold_right Nat.mul 1%nat (shape example_volume) =? 1)%nat
             (map (fun t => get (nth t (round_trips16 halving volume) nd0)
                                [k; (3 - 2 + i)%nat; (2 - 3 + j)%nat])
                  (seq 0 16))).
Proof.
  split; [reflexivity|]. split; [reflexivity|].
  apply (ensemble_round_trip_averages_copies halving
           example_image example_volume 2 3 1 2 2 3 1 3).
  - apply halving_shape.
  - apply halving_proper.
  - reflexivity.
  - lia.
  - lia.
  - lia.
  - reflexivity.
  - lia.
  - lia.
  - lia.
  - lia.
Defined.

(** On the example image, whose values are small integers, the eight-fold
    sums are exact and the image comes back. *)
Example small_integers_come_back :
  ravel <$> ensemble8_2d_predictions example_image PArray 3 1
  = Some (ravel example_image).
Proof. vm_compute. reflexivity. Qed.

(** C4 as stated fails: the 1x2 image of the number 0.1
    ([0x1.999999999999ap-4]) comes back as the number below it,
    0.09999999999999999 ([0x1.9999999999999p-4]), because the sum of
    eight times 0.1 is rounded. *)
Lemma tenths_do_not_come_back :
  exists out,
    ensemble8_2d_predictions example_tenths PArray 1 1 = Some out /\
    ravel example_tenths
    = [0x1.999999999999ap-4; 0x1.999999999999ap-4]%float /\
    ravel out = [0x1.9999999999999p-4; 0x1.9999999999999p-4]%float /\
    (0x1.9999999999999p-4 <? 0x1.999999999999ap-4)%float = true.
Proof.
  destruct (ensemble8_2d_predictions example_tenths PArray 1 1)
    as [out|] eqn:E; [|vm_compute in E; discriminate].
  exists out. split; [reflexivity|]. split; [reflexivity|].
  split; [|reflexivity].
  assert (H : ravel <$> ensemble8_2d_predictions example_tenths PArray 1 1
              = Some [0x1.9999999999999p-4; 0x1.9999999999999p-4]%float)
    by (vm_compute; reflexivity).
  rewrite E in H. cbn in H. by injection H.
Qed.

End EnsembleProofs.
(** ** Rounding *)

Module RoundingFacts.
Import Rounding.

(** [round_to] agrees with the processor's binary64 addition,
    multiplication and division, and with the library's rounding to
    binary32, on operands that reach the ties, the subnormal numbers and
    the overflow. *)
Example round_to_agrees_with_binary64 :
  forallb (fun '(x, y) => agrees64 x y && agrees64 y x) operands64 = true.
Proof. vm_compute. reflexivity. Qed.

Example round_to_agrees_with_binary32 :
  forallb agrees32 operands32 = true.
Proof. vm_compute. reflexivity. Qed.











End RoundingFacts.

(** ** Circularity filtering *)

Module CircularityProofs.
Import NdArray Rounding RoundingFacts Circularity.

(** *** No division by zero *)

Lemma zsafe_Ok {A} (a : A) : zsafe (Ok a).
Proof. discriminate. Qed.

Lemma zsafe_Raise {A} e : e <> ZeroDivisionError -> zsafe (@Raise A e).
Proof. intros H E. injection E as E. done. Qed.

Lemma zsafe_or_raise {A} e (o : option A) :
  e <> ZeroDivisionError -> zsafe (or_raise e o).
Proof. intros H. destruct o; [apply zsafe_Ok|by apply zsafe_Raise]. Qed.

Lemma zsafe_bind {A B} (m : result A) (f : A -> result B) :
  zsafe m -> (forall a, zsafe (f a)) -> zsafe (m ≫= f).
Proof.
  intros Hm Hf. destruct m as [a|e]; [apply Hf|].
  intros E. apply Hm. cbn in E. injection E as ->. done.
Qed.

Lemma zsafe_fmap {A B} (m : result A) (f : A -> B) :
  zsafe m -> zsafe (f <$> m).
Proof.
  intros Hm. destruct m as [a|e]; [apply zsafe_Ok|].
  intros E. apply Hm. cbn in E. injection E as ->. done.
Qed.

Lemma zsafe_for_each {S X} (body : S -> X -> result S) l : forall s,
  (forall s x, zsafe (body s x)) -> zsafe (for_each body l s).
Proof.
  induction l as [|x l IH]; intros s H; simpl; [apply zsafe_Ok|].
  apply zsafe_bind; [apply H|]. intros s'. by apply IH.
Qed.

Lemma zsafe_if {A} (b : bool) (x y : result A) :
  zsafe x -> zsafe y -> zsafe (if b then x else y).
Proof. by destruct b. Qed.

Lemma Qeq_bool_mult_nonzero (p : Q) :
  Qeq_bool p 0 = false -> Qeq_bool (p * p) 0 = false.
Proof.
  intros H. apply Qeq_bool_neq in H.
  destruct (Qeq_bool (p * p) 0) eqn:E; [|done].
  apply Qeq_bool_eq in E. apply Qmult_integral in E. tauto.
Qed.

(** The guard on the perimeter makes the division total. *)
Lemma region_circularity_value area perimeter :
  region_circularity area perimeter =
    Ok (if Qeq_bool perimeter 0 then 0
        else 4 * math_pi * area / (perimeter * perimeter))%Q.
Proof.
  unfold region_circularity, py_div.
  destruct (Qeq_bool perimeter 0) eqn:E; simpl; [done|].
  by rewrite Qeq_bool_mult_nonzero.
Qed.

Lemma zsafe_region_circularity area perimeter :
  zsafe (region_circularity area perimeter).
Proof. rewrite region_circularity_value. apply zsafe_Ok. Qed.

Lemma mean_circularity_value st i sum_i count_i :
  circularities st !! i = Some sum_i ->
  circularities_count st !! i = Some count_i ->
  mean_circularity st i =
    Ok (if count_i =? 0 then Finite 0 else quot32 sum_i count_i).
Proof.
  intros H1 H2. unfold mean_circularity. rewrite H1, H2.
  cbn [or_raise mbind result_bind].
  destruct (Z.eqb_spec count_i 0) as [->|Hne]; cbn [negb]; [done|].
  unfold div_count. by rewrite (proj2 (Z.eqb_neq count_i 0)).
Qed.

Lemma zsafe_mean_circularity st i : zsafe (mean_circularity st i).
Proof.
  destruct (circularities st !! i) as [s|] eqn:E1.
  - destruct (circularities_count st !! i) as [c|] eqn:E2.
    + rewrite (mean_circularity_value st i s c E1 E2). apply zsafe_Ok.
    + unfold mean_circularity. rewrite E1, E2. by apply zsafe_Raise.
  - unfold mean_circularity. rewrite E1. by apply zsafe_Raise.
Qed.

Create HintDb zsafe discriminated.
#[local] Hint Resolve zsafe_Ok zsafe_region_circularity
  zsafe_mean_circularity : zsafe.

(** Decompose a computation along its binds, loops and branches. *)
Ltac zsafe_step :=
  match goal with
  | |- zsafe (Ok _) => apply zsafe_Ok
  | |- zsafe (Raise _) => apply zsafe_Raise; discriminate
  | |- zsafe (or_raise _ _) => apply zsafe_or_raise; discriminate
  | |- zsafe (_ ≫= _) => apply zsafe_bind; [|intros ?]
  | |- zsafe (_ <$> _) => apply zsafe_fmap
  | |- zsafe (for_each _ _ _) => apply zsafe_for_each; intros ? ?
  | |- zsafe (if ?b then _ else _) => destruct b
  | |- zsafe (match ?x with _ => _ end) => destruct x
  | |- zsafe (let '(_, _) := ?x in _) => destruct x
  | |- zsafe ((match ?x with _ => _ end) _) => destruct x
  | |- _ => solve [auto with zsafe]
  end.

Ltac zsafe := repeat (cbv beta zeta; zsafe_step).

Lemma zsafe_bbox_col b n : zsafe (bbox_col b n).
Proof. unfold bbox_col. zsafe. Qed.
#[local] Hint Resolve zsafe_bbox_col : zsafe.

Lemma zsafe_diam3 b : zsafe (diam3 b).
Proof. unfold diam3. zsafe. Qed.

Lemma zsafe_diam2 b : zsafe (diam2 b).
Proof. unfold diam2. zsafe. Qed.
#[local] Hint Resolve zsafe_diam3 zsafe_diam2 : zsafe.

Lemma zsafe_measure_region image3d diam_calc labels i st p :
  zsafe (measure_region image3d diam_calc labels i st p).
Proof. unfold measure_region. zsafe. Qed.
#[local] Hint Resolve zsafe_measure_region : zsafe.

Lemma zsafe_sum_resolution image3d resolution :
  zsafe (sum_resolution image3d resolution).
Proof. unfold sum_resolution. zsafe. Qed.

Lemma zsafe_at_coords image3d img c : zsafe (at_coords image3d img c).
Proof. unfold at_coords. zsafe. Qed.
#[local] Hint Resolve zsafe_sum_resolution zsafe_at_coords : zsafe.

Section Safe.
Variable regionprops_slice : ndarray Z -> list slice_prop.
Variable regionprops_bbox : ndarray Z -> list bbox_prop.

Lemma zsafe_remove_instance nep50 img resolution coords circularity_th :
  zsafe (remove_instance_by_circularity_central_slice
           regionprops_slice regionprops_bbox nep50 img resolution coords
           circularity_th).
Proof.
  unfold remove_instance_by_circularity_central_slice, main_loop, filter_loop,
    init_with_coords, init_central_slices.
  zsafe.
Qed.
End Safe.

(** *** Loop invariants *)

Lemma bind_Ok {A B} (m : result A) (f : A -> result B) b :
  m ≫= f = Ok b -> exists a, m = Ok a /\ f a = Ok b.
Proof. destruct m as [a|e]; [by exists a|discriminate]. Qed.


Lemma for_each_inv {S X} (P : S -> Prop) (body : S -> X -> result S) l :
  forall s s',
    (forall s x s', In x l -> P s -> body s x = Ok s' -> P s') ->
    P s -> for_each body l s = Ok s' -> P s'.
Proof.
  induction l as [|x l IH]; intros s s' Hbody Hs Hrun; simpl in Hrun.
  - by injection Hrun as <-.
  - apply bind_Ok in Hrun as (s1 & H1 & Hrun).
    apply (IH s1 s'); [|by eapply Hbody; [left|exact Hs|]|done].
    intros s0 y s0' Hy. apply Hbody. by right.
Qed.




(** *** Instances that are circles on every measured slice *)





Section Filter.
Variable regionprops_slice : ndarray Z -> list slice_prop.
Variable regionprops_bbox : ndarray Z -> list bbox_prop.





End Filter.





Lemma result_fmap_Ok {A B} (f : A -> B) (m : result A) a b :
  m = Ok a -> f <$> m = Ok b -> f a = b.
Proof. intros -> H. cbn in H. by injection H. Qed.



(** The rounding of the stored value decides as well: a region of
    circularity [0x1.6666667e14e59p-1], above 0.7, that is measured on the
    three slices of the example has a stored circularity below 0.7, and
    the instance is removed at the threshold 0.7. *)
Example oval_above_the_threshold_is_rejected :
  exists out c,
    remove_instance_by_circularity_central_slice
      example_oval_props example_bbox_props false example_stack
      [1; 1; 1]%Q None default_th = Ok out /\
    region_circularity
      ((6305039503150681 # 9007199254740992) * math_pi)%Q (2 * math_pi)%Q
    = Ok c /\
    (c == 6305039503150681 # 9007199254740992)%Q /\ (default_th < c)%Q /\
    out_circularities out = [Finite (11744051 # 16777216)] /\
    (11744051 # 16777216 < default_th)%Q /\
    out_comment out = ["Strange"] /\
    ravel (out_img out) = [0; 0; 0; 0].
Proof.
  destruct (remove_instance_by_circularity_central_slice
              example_oval_props example_bbox_props false example_stack
              [1; 1; 1]%Q None default_th) as [out|e] eqn:E;
    [|vm_compute in E; discriminate].
  exists out. eexists. split; [reflexivity|].
  split; [rewrite region_circularity_value; reflexivity|].
  split; [vm_compute; reflexivity|].
  split; [vm_compute; reflexivity|].
  split; [eapply result_fmap_Ok; [exact E|]; vm_compute; reflexivity|].
  split; [vm_compute; reflexivity|].
  split; [eapply result_fmap_Ok; [exact E|]; vm_compute; reflexivity|].
  eapply (result_fmap_Ok (fun o => ravel (out_img o))); [exact E|].
  vm_compute. reflexivity.
Qed.

(** C9.  The circularity of a region whose perimeter is zero is 0, the
    quotient [4 pi area / perimeter^2] is only formed for a nonzero
    perimeter, and no input makes
    [remove_instance_by_circularity_central_slice] end in a division by
    zero. *)
Theorem circularity_never_divides_by_zero
    (regionprops_slice : ndarray Z -> list slice_prop)
    (regionprops_bbox : ndarray Z -> list bbox_prop) (nep50 : bool)
    (img : ndarray Z) (resolution : list Q) (coords : option (list (list Z)))
    (circularity_th area perimeter : Q) :
  region_circularity area perimeter =
    Ok (if Qeq_bool perimeter 0 then 0
        else 4 * math_pi * area / (perimeter * perimeter))%Q /\
  region_circularity area 0 = Ok 0%Q /\
  remove_instance_by_circularity_central_slice
    regionprops_slice regionprops_bbox nep50 img resolution coords
    circularity_th
  <> Raise ZeroDivisionError.
Proof.
  split; [apply region_circularity_value|]. split; [reflexivity|].
  apply zsafe_remove_instance.
Qed.

(** Zero-perimeter regions in the whole function: the example volume
    measured as one-pixel regions gets circularity 0. *)
Example zero_perimeter_instance :
  exists out c,
    remove_instance_by_circularity_central_slice
      example_dot_props example_bbox_props false example_stack
      [1; 1; 1]%Q None (7 # 10) = Ok out /\
    out_circularities out = [c] /\ c = Finite 0 /\
    out_comment out = ["Strange"].
Proof.
  destruct (remove_instance_by_circularity_central_slice
              example_dot_props example_bbox_props false example_stack
              [1; 1; 1]%Q None (7 # 10)) as [out|e] eqn:E;
    [|vm_compute in E; discriminate].
  exists out. eexists. split; [reflexivity|].
  split; [eapply result_fmap_Ok; [exact E|]; vm_compute; reflexivity|].
  split; [vm_compute; reflexivity|].
  eapply result_fmap_Ok; [exact E|]. vm_compute. reflexivity.
Qed.

(** A negative volume is truncated toward zero before it wraps. *)
Example negative_volume_wraps :
  to_uint32 (Finite (- 3 # 2)) = 4294967295 /\
  to_uint32 (Finite (7 # 2)) = 3.
Proof. split; reflexivity. Qed.

End CircularityProofs.

(** ** Watershed *)

Module WatershedProofs.
Import NdArray Watershed.

Lemma astype_0 d : astype d 0 = 0.
Proof. unfold astype. apply Z.mod_0_l. destruct d; done. Qed.

Lemma remove_small_objects_0 (a : ndarray Z) t idx :
  get a idx = 0 -> get (remove_small_objects a t) idx = 0.
Proof.
  intros H. unfold remove_small_objects. cbn [get nd_map]. rewrite H.
  by destruct (_ <? _).
Qed.

Section Mask.

Variable binary_dilation_disk : Z -> ndarray bool -> ndarray bool.
Variable binary_erosion_disk : Z -> ndarray bool -> ndarray bool.
Variable binary_dilation_2 : ndarray bool -> ndarray bool.
Variable distance_transform_edt : ndarray bool -> ndarray Q.
Variable label : ndarray Z -> ndarray Z.
Variable centroids : ndarray Z -> list (list Q).
Variable watershed :
  ndarray Q -> ndarray Z -> option (ndarray bool) -> ndarray Z.

(** What is assumed of [skimage.segmentation.watershed]: "only points at
    which mask == True will be labeled". *)
Hypothesis watershed_mask :
  forall image markers mask idx,
    in_range idx (shape mask) -> get mask idx = false ->
    get (watershed image markers (Some mask)) idx = 0.

Lemma grow_outside_mask o semantic seed_map fg idx :
  in_range idx (shape fg) -> get fg idx = false ->
  get (grow watershed o semantic seed_map (Some fg)) idx = 0.
Proof.
  intros Hin Hfg. unfold grow.
  destruct (remove_after o).
  - apply remove_small_objects_0. by apply watershed_mask.
  - by apply watershed_mask.
Qed.

(** Without a mask on entry, [erode_seed_and_foreground] returns none. *)
Lemma erode_without_mask o seed_map seed_map' fg' :
  erode binary_dilation_disk binary_erosion_disk o seed_map None
    = Some (seed_map', fg') ->
  fg' = None.
Proof.
  unfold erode, erode_seed_and_foreground.
  destruct (ndim seed_map =? 3)%nat; [|done].
  cbn [mbind option_bind].
  set (body := fun (acc : option (ndarray Z * option (ndarray bool))) (i : nat) => _).
  assert (Hinv : forall l acc,
            (forall s f, acc = Some (s, f) -> f = None) ->
            forall s f, foldl body acc l = Some (s, f) -> f = None).
  { induction l as [|i l IH]; intros acc Hacc s f; simpl; [apply Hacc|].
    apply IH. intros s1 f1 H1. unfold body in H1.
    destruct acc as [[s0 f0]|]; [|done]. cbn in H1.
    pose proof (Hacc s0 f0 eq_refl) as ->.
    destruct (if negb _ then _ else _) as [seed_i|]; [|done]. cbn in H1.
    destruct (erode_and_dilate_foreground o); [done|].
    by injection H1 as _ <-. }
  intros H.
  destruct (foldl body _ _) as [[s f]|] eqn:E; [|done].
  cbn in H. injection H as _ <-.
  eapply Hinv; [|exact E]. by intros s0 f0 [= _ <-].
Qed.

(** With a mask on entry it returns one. *)
Lemma erode_with_mask o seed_map fg seed_map' fg' :
  erode binary_dilation_disk binary_erosion_disk o seed_map (Some fg)
    = Some (seed_map', fg') ->
  is_Some fg'.
Proof.
  unfold erode, erode_seed_and_foreground.
  cbn [mbind option_bind].
  set (body := fun (acc : option (ndarray Z * option (ndarray bool))) (i : nat) => _).
  assert (Hinv : forall l acc,
            (forall s f, acc = Some (s, f) -> is_Some f) ->
            forall s f, foldl body acc l = Some (s, f) -> is_Some f).
  { induction l as [|i l IH]; intros acc Hacc s f; simpl; [apply Hacc|].
    apply IH. intros s1 f1 H1. unfold body in H1.
    destruct acc as [[s0 f0]|]; [|done]. cbn in H1.
    destruct (Hacc s0 f0 eq_refl) as [fg0 ->].
    destruct (if negb _ then _ else _) as [seed_i|]; [|done]. cbn in H1.
    destruct (erode_and_dilate_foreground o); injection H1 as _ <-; by eexists. }
  intros H.
  destruct (foldl body _ _) as [[s f]|] eqn:E; [|done].
  assert (Hf : is_Some f).
  { eapply Hinv; [|exact E]. intros s0 f0 [= _ <-]. by eexists. }
  destruct Hf as [f1 ->].
  cbn in H. destruct (ndim seed_map =? 3)%nat; injection H as _ <-; by eexists.
Qed.

(** The modes that build a foreground mask are exactly BC, BCM, BCD and BP;
    the v2 modes pass [mask=None]. *)
Lemma foreground_mask_modes data o semantic seed_map foreground :
  seeds_and_foreground binary_dilation_disk binary_erosion_disk
    binary_dilation_2 distance_transform_edt label centroids data o
    = Some (semantic, seed_map, foreground) ->
  match channels o with
  | BC | BCM | BCD | BP => is_Some foreground
  | BCDv2 | Dv2 | BDv2 => foreground = None
  end.
Proof.
  unfold seeds_and_foreground. intros H.
  destruct (channels o);
    repeat match type of H with
      | (?m ≫= _) = Some _ =>
          let E := fresh "E" in
          destruct m as [?|] eqn:E; cbn [mbind option_bind] in H; [|done]
      | (let '(_, _) := ?p in _) = Some _ => destruct p
      | match ?x with _ => _ end = Some _ => destruct x eqn:?; [|done..]
      end;
    try (injection H as <- <- <-);
    try (by eexists).
  all: try match goal with
    | E : erode_if _ _ _ _ _ None = Some (_, ?f) |- ?f = None =>
        unfold erode_if in E;
        destruct (some_morph o);
        [by eapply erode_without_mask|by injection E]
    end.
  all: try done.
  unfold erode_if in *.
  destruct (_ || _); [by eapply erode_with_mask|].
  injection E7 as _ <-. by eexists.
Qed.

End Mask.

(** C3.  In [watershed_by_channels] the watershed is run with
    [mask=foreground]; whenever a foreground mask exists (modes BC, BCM, BCD
    and BP) every voxel at which that mask is false has label 0 in the
    returned segmentation: small-object removal and the dtype conversion
    keep a 0.  (The v2 modes pass no mask at all.) *)
Theorem watershed_labels_nothing_outside_the_mask
    (binary_dilation_disk binary_erosion_disk : Z -> ndarray bool -> ndarray bool)
    (binary_dilation_2 : ndarray bool -> ndarray bool)
    (distance_transform_edt : ndarray bool -> ndarray Q)
    (label : ndarray Z -> ndarray Z)
    (centroids : ndarray Z -> list (list Q))
    (watershed : ndarray Q -> ndarray Z -> option (ndarray bool) -> ndarray Z)
    (data : ndarray Q) (o : ws_options)
    (semantic : ndarray Q) (seed_map : ndarray Z) (foreground : ndarray bool)
    (d : dtype) (segm : ndarray Z) (idx : list nat) :
  (forall image markers mask idx,
      in_range idx (shape mask) -> get mask idx = false ->
      get (watershed image markers (Some mask)) idx = 0) ->
  seeds_and_foreground binary_dilation_disk binary_erosion_disk
    binary_dilation_2 distance_transform_edt label centroids data o
    = Some (semantic, seed_map, Some foreground) ->
  watershed_by_channels binary_dilation_disk binary_erosion_disk
    binary_dilation_2 distance_transform_edt label centroids watershed data o
    = Some (d, segm) ->
  in_range idx (shape foreground) -> get foreground idx = false ->
  get segm idx = 0.
Proof.
  intros Hws Hseeds Hrun Hin Hfg.
  unfold watershed_by_channels in Hrun. rewrite Hseeds in Hrun.
  cbn [mbind option_bind] in Hrun.
  destruct (nd_max _) as [max_value|]; [|done].
  cbn [mbind option_bind] in Hrun. injection Hrun as <- <-.
  cbn [get nd_map].
  rewrite (grow_outside_mask watershed Hws) by done.
  apply astype_0.
Qed.

Lemma option_fmap_Some {A B} (f : A -> B) (m : option A) a b :
  m = Some a -> f <$> m = Some b -> f a = b.
Proof. intros -> H. cbn in H. by injection H. Qed.

(** The four-voxel example in mode BC: the third voxel is outside the
    foreground and stays 0. *)
Lemma watershed_labels_nothing_outside_the_mask_witness :
  exists semantic seed_map foreground d segm,
    seeds_and_foreground no_morph no_morph id unit_edt id (fun _ => [])
      example_data example_options
      = Some (semantic, seed_map, Some foreground) /\
    watershed_by_channels no_morph no_morph id unit_edt id (fun _ => [])
      masked_markers example_data example_options = Some (d, segm) /\
    in_range [2%nat] (shape foreground) /\
    get foreground [2%nat] = false /\
    get segm [2%nat] = 0.
Proof.
  destruct (seeds_and_foreground no_morph no_morph id unit_edt id
              (fun _ => []) example_data example_options)
    as [[[semantic seed_map] [foreground|]]|] eqn:E1;
    [|vm_compute in E1; discriminate..].
  destruct (watershed_by_channels no_morph no_morph id unit_edt id
              (fun _ => []) masked_markers example_data example_options)
    as [[d segm]|] eqn:E2; [|vm_compute in E2; discriminate].
  exists semantic, seed_map, foreground, d, segm.
  assert (Hsh : shape foreground = [4%nat]).
  { apply (option_fmap_Some
             (fun r : ndarray Q * ndarray Z * option (ndarray bool) =>
                shape (default (full [] true) r.2)) _ _ _ E1).
    vm_compute. reflexivity. }
  assert (Hfg : get foreground [2%nat] = false).
  { apply (option_fmap_Some
             (fun r : ndarray Q * ndarray Z * option (ndarray bool) =>
                get (default (full [] true) r.2) [2%nat]) _ _ _ E1).
    vm_compute. reflexivity. }
  assert (Hin : in_range [2%nat] (shape foreground)).
  { rewrite Hsh. repeat constructor. }
  split; [reflexivity|]. split; [reflexivity|].
  split; [exact Hin|]. split; [exact Hfg|].
  eapply (watershed_labels_nothing_outside_the_mask
            no_morph no_morph id unit_edt id (fun _ => []) masked_markers);
    [|exact E1|exact E2|exact Hin|exact Hfg].
  intros image markers mask idx _ Hm. cbn. by rewrite Hm.
Defined.

(** C5 (the code departs from the claim).  At a maximum label of 255 the
    chosen dtype is [uint16] although [uint8] represents 255, and at 65535
    it is [uint32] although [uint16] represents 65535: the comparisons are
    strict. *)
Theorem dtype_choice_at_the_type_maxima :
  choose_dtype 255 = uint16 /\ smallest_dtype 255 = uint8 /\
  255 <= dtype_max uint8 /\
  choose_dtype 65535 = uint32 /\ smallest_dtype 65535 = uint16 /\
  65535 <= dtype_max uint16.
Proof. repeat split; discriminate. Qed.

(** Everywhere else the chosen dtype is the narrowest one, and it always
    represents the maximum (up to the range of [uint32]). *)
Lemma choose_dtype_elsewhere max_value :
  max_value <> 255 -> max_value <> 65535 ->
  choose_dtype max_value = smallest_dtype max_value.
Proof.
  intros H1 H2. unfold choose_dtype, smallest_dtype.
  change (dtype_max uint8) with 255. change (dtype_max uint16) with 65535.
  destruct (Z.ltb_spec max_value 255), (Z.leb_spec max_value 255),
    (Z.ltb_spec max_value 65535), (Z.leb_spec max_value 65535);
    first [reflexivity | lia].
Qed.

Lemma choose_dtype_represents max_value :
  0 <= max_value <= dtype_max uint32 ->
  0 <= max_value <= dtype_max (choose_dtype max_value).
Proof.
  change (dtype_max uint32) with 4294967295. intros H.
  unfold choose_dtype.
  destruct (Z.ltb_spec max_value 255);
    [change (dtype_max uint8) with 255; lia|].
  destruct (Z.ltb_spec max_value 65535);
    [change (dtype_max uint16) with 65535
    |change (dtype_max uint32) with 4294967295]; lia.
Qed.

(** The whole function at such an input: whatever the data, when the grown
    segmentation has maximum label 255 the result is a [uint16] array. *)
Lemma watershed_dtype_at_255
    (binary_dilation_disk binary_erosion_disk : Z -> ndarray bool -> ndarray bool)
    (binary_dilation_2 : ndarray bool -> ndarray bool)
    (distance_transform_edt : ndarray bool -> ndarray Q)
    (label : ndarray Z -> ndarray Z)
    (centroids : ndarray Z -> list (list Q))
    (watershed : ndarray Q -> ndarray Z -> option (ndarray bool) -> ndarray Z)
    (data : ndarray Q) (o : ws_options) semantic seed_map foreground :
  seeds_and_foreground binary_dilation_disk binary_erosion_disk
    binary_dilation_2 distance_transform_edt label centroids data o
    = Some (semantic, seed_map, foreground) ->
  nd_max (grow watershed o semantic seed_map foreground) = Some 255 ->
  exists segm,
    watershed_by_channels binary_dilation_disk binary_erosion_disk
      binary_dilation_2 distance_transform_edt label centroids watershed
      data o = Some (uint16, segm).
Proof.
  intros Hseeds Hmax. unfold watershed_by_channels.
  rewrite Hseeds. cbn [mbind option_bind]. rewrite Hmax.
  cbn [mbind option_bind]. by eexists.
Qed.

End WatershedProofs.

(** ** Thinning of detected points *)

Module ClosePointsProofs.
Import ClosePoints ClosePointsKept.

#[local] Set Warnings "-clear-no-such-hyp".


Lemma mapM_Ok {A B} (f : A -> result B) l l' :
  mapM f l = Ok l' -> Forall2 (fun x y => f x = Ok y) l l'.
Proof.
  revert l'; induction l as [|x l IH]; intros l' H; cbn in H.
  - injection H as <-. constructor.
  - destruct (f x) as [y|e] eqn:E; cbn in H; [|done].
    destruct (mapM f l) as [ys|e] eqn:E'; cbn in H; [|done].
    injection H as <-. constructor; auto.
Qed.

Lemma mapM_Ok_intro {A B} (f : A -> result B) l :
  Forall (fun x => exists y, f x = Ok y) l -> exists l', mapM f l = Ok l'.
Proof.
  induction 1 as [|x l [y Hy] _ [l' IH]]; cbn.
  - by eexists.
  - rewrite Hy. cbn. rewrite IH. cbn. by eexists.
Qed.

Lemma mapM_Ok_of_Forall2 {A B} (f : A -> result B) l l' :
  Forall2 (fun x y => f x = Ok y) l l' -> mapM f l = Ok l'.
Proof.
  induction 1 as [|x y l l' Hx _ IH]; [done|].
  cbn. rewrite Hx. cbn. rewrite IH. done.
Qed.

(** *** The neighbour dictionary *)

Lemma neighbors_get_add i j nb i' j' :
  j' ∈ neighbors_get (add_neighbor i j nb) i'
  <-> j' ∈ neighbors_get nb i' \/ (i' = i /\ j' = j).
Proof.
  unfold neighbors_get, add_neighbor.
  destruct (nb !! i) eqn:E; destruct (decide (i' = i)) as [->|];
    simplify_map_eq; set_solver.
Qed.

Lemma neighbors_get_foldl pairs : forall nb i j,
  j ∈ neighbors_get
        (foldl (fun neighbors '(i, j) =>
                  add_neighbor j i (add_neighbor i j neighbors)) nb pairs) i
  <-> j ∈ neighbors_get nb i \/ (i, j) ∈ pairs \/ (j, i) ∈ pairs.
Proof.
  induction pairs as [|[a b] pairs IH]; intros nb i j; simpl.
  - set_solver.
  - rewrite IH, !neighbors_get_add, !elem_of_cons. naive_solver.
Qed.

Lemma neighbors_get_build pairs i j :
  j ∈ neighbors_get (build_neighbors pairs) i
  <-> (i, j) ∈ pairs \/ (j, i) ∈ pairs.
Proof.
  unfold build_neighbors. rewrite neighbors_get_foldl.
  unfold neighbors_get at 1. rewrite lookup_empty. set_solver.
Qed.

(** *** The greedy pass *)

Section Greedy.
Variable neighbors : gmap nat (gset nat).
Hypothesis neighbors_sym : forall i j,
  j ∈ neighbors_get neighbors i -> i ∈ neighbors_get neighbors j.

Lemma keep_step_inv keep discard node :
  independent neighbors keep discard -> node ∉ keep ->
  independent neighbors (keep_step neighbors (keep, discard) node).1
                        (keep_step neighbors (keep, discard) node).2 /\
  forall k, k ∈ (keep_step neighbors (keep, discard) node).1 ->
            k ∈ keep \/ k = node.
Proof.
  intros (Hnd & Hdis & Hind) Hnode. unfold keep_step.
  destruct (decide (node ∈ discard)) as [Hd|Hd]; simpl.
  - split; [done|]. auto.
  - split; [|intros k; rewrite elem_of_app, list_elem_of_singleton; auto].
    split; [|split].
    + apply NoDup_app. split; [done|]. split; [|apply NoDup_singleton].
      intros x Hx Hx'. apply list_elem_of_singleton in Hx'. by subst.
    + intros k j. rewrite elem_of_app, list_elem_of_singleton.
      intros [Hk| ->] Hj; [|set_solver].
      apply elem_of_union_l. by eapply Hdis.
    + intros k k'. rewrite !elem_of_app, !list_elem_of_singleton.
      intros [Hk| ->] [Hk'| ->] Hne Hn.
      * by apply (Hind k k').
      * apply Hd. by eapply Hdis.
      * apply Hd. apply neighbors_sym in Hn. by eapply Hdis.
      * done.
Qed.

Lemma keep_foldl_inv l : forall keep discard,
  independent neighbors keep discard -> NoDup l ->
  (forall x, x ∈ l -> x ∉ keep) ->
  independent neighbors (foldl (keep_step neighbors) (keep, discard) l).1
                        (foldl (keep_step neighbors) (keep, discard) l).2 /\
  forall k, k ∈ (foldl (keep_step neighbors) (keep, discard) l).1 ->
            k ∈ keep \/ k ∈ l.
Proof.
  induction l as [|node l IH]; intros keep discard Hinv Hnd Hfresh.
  - simpl. auto.
  - apply NoDup_cons in Hnd as [Hnode Hnd].
    destruct (keep_step_inv keep discard node Hinv) as [Hinv' Hsub].
    { apply Hfresh. left. }
    cbn [foldl].
    destruct (keep_step neighbors (keep, discard) node) as [keep' discard']
      eqn:E.
    simpl in Hinv', Hsub.
    destruct (IH keep' discard' Hinv' Hnd) as [Hfin Hsub'].
    { intros x Hx Hx'. destruct (Hsub x Hx') as [Hk| ->]; [|done].
      eapply Hfresh; [|exact Hk]. by right. }
    split; [done|].
    intros k Hk. destruct (Hsub' k Hk) as [Hk'|Hk'].
    + destruct (Hsub k Hk') as [?| ->]; [by left|right; left].
    + right. by right.
Qed.

Lemma keep_loop_inv n :
  independent neighbors (keep_loop neighbors (seq 0 n)).1
                        (keep_loop neighbors (seq 0 n)).2 /\
  forall k, k ∈ (keep_loop neighbors (seq 0 n)).1 -> (k < n)%nat.
Proof.
  destruct (keep_foldl_inv (seq 0 n) [] ∅) as [Hinv Hsub].
  - split; [constructor|]. split; intros; set_solver.
  - apply NoDup_seq.
  - intros x _. set_solver.
  - split; [exact Hinv|]. intros k Hk.
    destruct (Hsub k Hk) as [Hk'|Hk']; [set_solver|].
    apply elem_of_seq in Hk'. lia.
Qed.

End Greedy.

Lemma build_neighbors_sym pairs i j :
  j ∈ neighbors_get (build_neighbors pairs) i ->
  i ∈ neighbors_get (build_neighbors pairs) j.
Proof. rewrite !neighbors_get_build. tauto. Qed.

(** No two kept positions form a pair of the list the dictionary was built
    from, whatever that list is. *)
Lemma kept_indices_independent query_pairs radius scaled :
  let keep := kept_indices query_pairs radius scaled in
  NoDup keep /\
  (forall i, i ∈ keep -> (i < length scaled)%nat) /\
  forall i j, i ∈ keep -> j ∈ keep -> i <> j ->
    (i, j) ∉ query_pairs radius scaled.
Proof.
  unfold kept_indices. destruct (length scaled =? 0)%nat.
  { split; [constructor|].
    split; [intros i Hi|intros i j Hi]; by apply elem_of_nil in Hi. }
  destruct (keep_loop_inv (build_neighbors (query_pairs radius scaled))
              (fun i j => build_neighbors_sym _ i j)
              (length scaled)) as [(Hnd & _ & Hind) Hlt].
  split; [done|]. split; [done|]. intros i j Hi Hj Hij Hin.
  apply (Hind i j Hi Hj Hij). apply neighbors_get_build. by left.
Qed.

(** *** The scaling *)

Lemma scale_column_inv resolution c p p' :
  scale_column resolution c p = Ok p' ->
  exists x r, p !! c = Some x /\ resolution !! c = Some r /\
              p' = <[c := (x * r)%float]> p.
Proof.
  unfold scale_column. intros H.
  destruct (p !! c) as [x|]; [|done].
  destruct (resolution !! c) as [r|]; [|done].
  cbn in H. exists x, r. unfold list_set in H. by injection H as <-.
Qed.

Lemma scale_point_scaled_by ndim resolution p s :
  scale_point ndim resolution p = Ok s -> scaled_by ndim resolution p s.
Proof.
  unfold scale_point, scaled_by. intros H.
  destruct (scale_column resolution 0 p) as [p0|] eqn:E0; [|done].
  cbn [mbind result_bind] in H.
  destruct (scale_column resolution 1 p0) as [p1|] eqn:E1; [|done].
  cbn [mbind result_bind] in H.
  apply scale_column_inv in E0 as (x0 & r0 & Hx0 & Hr0 & ->).
  apply scale_column_inv in E1 as (x1 & r1 & Hx1 & Hr1 & ->).
  rewrite list_lookup_insert_ne in Hx1 by done.
  destruct (ndim =? 3).
  - apply scale_column_inv in H as (x2 & r2 & Hx2 & Hr2 & ->).
    rewrite !list_lookup_insert_ne in Hx2 by done.
    split; [by rewrite !length_insert|].
    intros c x Hc.
    destruct c as [|[|[|c]]]; cbv beta iota delta [Nat.ltb Nat.leb].
    + exists r0. split; [done|].
      rewrite !list_lookup_insert_ne by done.
      rewrite list_lookup_insert_eq by (by eapply lookup_lt_Some).
      congruence.
    + exists r1. split; [done|].
      rewrite list_lookup_insert_ne by done.
      rewrite list_lookup_insert_eq
        by (rewrite length_insert; by eapply lookup_lt_Some).
      congruence.
    + exists r2. split; [done|].
      rewrite list_lookup_insert_eq
        by (rewrite !length_insert; by eapply lookup_lt_Some).
      congruence.
    + by rewrite !list_lookup_insert_ne by done.
  - injection H as <-.
    split; [by rewrite !length_insert|].
    intros c x Hc.
    destruct c as [|[|c]]; cbv beta iota delta [Nat.ltb Nat.leb].
    + exists r0. split; [done|].
      rewrite list_lookup_insert_ne by done.
      rewrite list_lookup_insert_eq by (by eapply lookup_lt_Some).
      congruence.
    + exists r1. split; [done|].
      rewrite list_lookup_insert_eq
        by (rewrite length_insert; by eapply lookup_lt_Some).
      congruence.
    + by rewrite !list_lookup_insert_ne by done.
Qed.

Lemma scale_points_scaled_by ndim resolution points scaled :
  mapM (scale_point ndim resolution) points = Ok scaled ->
  Forall2 (scaled_by ndim resolution) points scaled.
Proof.
  intros H. apply mapM_Ok in H. eapply Forall2_impl; [exact H|].
  intros p s. apply scale_point_scaled_by.
Qed.

(** *** The run split at its intermediate values *)

Section Runs.
Variable query_pairs : float -> list (list float) -> list (nat * nat).
Context {C : Type}.
Variable kind : container.
Variable points : list (list float).
Variable radius : float.
Variable resolution : list float.
Variable ndim : Z.

Lemma run_Ok (classes : option (list C)) r rows :
  remove_close_points query_pairs kind points radius resolution classes ndim
    = Ok (r, rows) ->
  exists scaled,
    mapM (scale_point ndim resolution) points = Ok scaled /\
    length scaled = length points /\
    rows = match kind with FloatArray => points | RowList => scaled end /\
    Forall2 (fun i p => rows !! i = Some p)
            (kept_indices query_pairs radius scaled) (output_points r) /\
    match classes with
    | None => r = Points (output_points r)
    | Some cl =>
        points <> [] ->
        exists cls, r = PointsAndClasses (output_points r) cls /\
                    Forall2 (fun i c => cl !! i = Some c)
                            (kept_indices query_pairs radius scaled) cls
    end.
Proof.
  unfold remove_close_points. intros Hrun.
  destruct (mapM (scale_point ndim resolution) points) as [scaled|e]
    eqn:Escale; [|done].
  cbn [mbind result_bind] in Hrun.
  exists scaled. split; [done|].
  assert (Hlen : length scaled = length points).
  { apply mapM_Ok in Escale. symmetry. by eapply Forall2_length. }
  split; [done|].
  set (rows' := match kind with FloatArray => points | RowList => scaled end)
    in *.
  unfold kept_indices.
  destruct (Nat.eqb_spec (length scaled) 0) as [H0|H0].
  { injection Hrun as <- <-. cbn.
    split; [done|]. split; [constructor|]. destruct classes; [|done].
    intros Hne. destruct points; [done|simpl in *; lia]. }
  set (keep := (keep_loop _ _).1) in *.
  destruct (mapM (fun i => or_raise IndexError (rows' !! i)) keep)
    as [new_point_list|e] eqn:Ekeep; [|done].
  cbn [mbind result_bind] in Hrun.
  assert (Hrows : Forall2 (fun i p => rows' !! i = Some p) keep
                          new_point_list).
  { apply mapM_Ok in Ekeep. eapply Forall2_impl; [exact Ekeep|].
    intros i p Hi. cbn in Hi. destruct (rows' !! i); [|done].
    by injection Hi as ->. }
  destruct classes as [cl|].
  - destruct (mapM (fun i => or_raise IndexError (cl !! i)) keep)
      as [new_class_list|e] eqn:Ecl; [|done].
    cbn [mbind result_bind] in Hrun. injection Hrun as <- <-. cbn.
    split; [done|]. split; [done|]. intros _. exists new_class_list.
    split; [done|].
    apply mapM_Ok in Ecl. eapply Forall2_impl; [exact Ecl|].
    intros i c Hi. cbn in Hi. destruct (cl !! i); [|done].
    by injection Hi as ->.
  - injection Hrun as <- <-. done.
Qed.

End Runs.

(** C10.  Any two rows at different places of the list returned by
    [remove_close_points] are rows of two different input points that
    [query_pairs], asked with [radius] on the rows scaled by [resolution]
    (with the rounded products), did not report as a pair: the greedy pass
    never keeps a node that a kept node has discarded.  Nothing is assumed
    of [query_pairs]. *)
Theorem kept_points_are_no_reported_pair
    (query_pairs : float -> list (list float) -> list (nat * nat)) {C}
    (kind : container) (points : list (list float)) (radius : float)
    (resolution : list float) (classes : option (list C)) (ndim : Z)
    (r : close_output C) (rows : list (list float))
    (a b : nat) (p q : list float) :
  remove_close_points query_pairs kind points radius resolution classes ndim
    = Ok (r, rows) ->
  a <> b ->
  output_points r !! a = Some p -> output_points r !! b = Some q ->
  exists scaled i j,
    Forall2 (scaled_by ndim resolution) points scaled /\
    rows = match kind with FloatArray => points | RowList => scaled end /\
    i <> j /\ rows !! i = Some p /\ rows !! j = Some q /\
    ((i, j) ∉ query_pairs radius scaled) /\
    ((j, i) ∉ query_pairs radius scaled).
Proof.
  intros Hrun Hab Ha Hb.
  destruct (run_Ok query_pairs kind points radius resolution ndim classes
              r rows Hrun) as (scaled & Hscale & Hlen & Hrows & Hkeep & _).
  destruct (Forall2_lookup_r _ _ _ _ _ Hkeep Ha) as (i & Hi & Hpi).
  destruct (Forall2_lookup_r _ _ _ _ _ Hkeep Hb) as (j & Hj & Hpj).
  destruct (kept_indices_independent query_pairs radius scaled)
    as (Hnd & _ & Hind).
  assert (Hij : i <> j).
  { intros ->. apply Hab. by eapply NoDup_lookup. }
  exists scaled, i, j.
  split; [by apply scale_points_scaled_by|].
  do 4 (split; [done|]).
  split; apply Hind; try done; by eapply list_elem_of_lookup_2.
Qed.

(** The four example points with the first column in units of 4: the
    second point, one step from the first, is then 4 away from it and
    stays. *)
Lemma kept_points_are_no_reported_pair_witness :
  remove_close_points (C := unit) all_pairs FloatArray example_points 2
    [4; 1; 1]%float None 3
  = Ok (Points example_points, example_points) /\
  exists scaled i j,
    Forall2 (scaled_by 3 [4; 1; 1]%float) example_points scaled /\
    example_points = example_points /\
    i <> j /\
    example_points !! i = Some [0; 0; 0]%float /\
    example_points !! j = Some [1; 0; 0]%float /\
    ((i, j) ∉ all_pairs 2 scaled) /\ ((j, i) ∉ all_pairs 2 scaled).
Proof.
  assert (Hrun : remove_close_points (C := unit) all_pairs FloatArray
                   example_points 2 [4; 1; 1]%float None 3
                 = Ok (Points example_points, example_points))
    by (vm_compute; reflexivity).
  split; [exact Hrun|].
  apply (kept_points_are_no_reported_pair all_pairs FloatArray
           example_points 2 [4; 1; 1]%float None 3 _ _ 0%nat 1%nat _ _ Hrun);
    [lia|reflexivity..].
Defined.

(** The distance itself is not bounded: the two rows of
    [example_close_rows] are both returned for the radius
    [0x1.6666666666666p-1], although their distance in the units of the
    resolution is below that radius.  The squares of the two coordinate
    differences, each rounded, add up to a number above the rounded square
    of the radius. *)
Lemma rows_within_the_radius_are_both_kept :
  remove_close_points (C := unit) all_pairs FloatArray example_close_rows
    0x1.6666666666666p-1 [0.5; 0.5; 0.5]%float None 3
  = Ok (Points example_close_rows, example_close_rows) /\
  (exact_dist2 [0.5; 0.5; 0.5]%float
     (example_close_rows !!! 0%nat) (example_close_rows !!! 1%nat)
   < float_value 0x1.6666666666666p-1 * float_value 0x1.6666666666666p-1)%Q.
Proof.
  split; vm_compute; reflexivity.
Qed.

(** Rows with at least three columns and a resolution with three entries
    raise nothing: a list of rows is returned, each of them an input row at
    an index below the number of rows. *)
Lemma scale_column_Ok resolution c p :
  (c < length p)%nat -> (c < length resolution)%nat ->
  exists p', scale_column resolution c p = Ok p' /\ length p' = length p.
Proof.
  intros Hp Hr. unfold scale_column.
  destruct (lookup_lt_is_Some_2 p c Hp) as [x ->].
  destruct (lookup_lt_is_Some_2 resolution c Hr) as [y ->].
  cbn. eexists. split; [reflexivity|]. unfold list_set.
  apply length_insert.
Qed.

Lemma scale_point_Ok ndim resolution p :
  (3 <= length p)%nat -> (3 <= length resolution)%nat ->
  exists p', scale_point ndim resolution p = Ok p'.
Proof.
  intros Hp Hr. unfold scale_point.
  destruct (scale_column_Ok resolution 0 p) as (p0 & -> & H0); [lia..|].
  cbn [mbind result_bind].
  destruct (scale_column_Ok resolution 1 p0) as (p1 & -> & H1); [lia..|].
  cbn [mbind result_bind].
  destruct (ndim =? 3); [|by eexists].
  destruct (scale_column_Ok resolution 2 p1) as (p2 & -> & H2); [lia..|].
  by eexists.
Qed.

Lemma remove_close_points_returns
    (query_pairs : float -> list (list float) -> list (nat * nat))
    (points : list (list float)) (radius : float) (resolution : list float)
    (ndim : Z) :
  Forall (fun p => 3 <= length p)%nat points ->
  (3 <= length resolution)%nat ->
  exists out,
    remove_close_points (C := unit) query_pairs FloatArray points radius
      resolution None ndim = Ok (Points out, points) /\
    forall p, p ∈ out -> p ∈ points.
Proof.
  intros Hrows Hres. unfold remove_close_points.
  destruct (mapM_Ok_intro (scale_point ndim resolution) points)
    as [point_list Escale].
  { eapply Forall_impl; [exact Hrows|]. intros p Hp.
    by apply scale_point_Ok. }
  rewrite Escale. cbn [mbind result_bind].
  destruct (Nat.eqb_spec (length point_list) 0) as [H0|H0].
  { exists []. split; [done|]. intros p Hp. by apply elem_of_nil in Hp. }
  set (neighbors := build_neighbors (query_pairs radius point_list)).
  destruct (keep_loop_inv neighbors
              (fun i j => build_neighbors_sym _ i j)
              (length point_list)) as [_ Hlt].
  set (keep := (keep_loop neighbors (seq 0 (length point_list))).1) in *.
  apply mapM_Ok in Escale. apply Forall2_length in Escale.
  destruct (mapM_Ok_intro (fun i => or_raise IndexError (points !! i)) keep)
    as [out Eout].
  { apply Forall_forall. intros i Hi. apply Hlt in Hi.
    destruct (lookup_lt_is_Some_2 points i ltac:(lia)) as [x ->].
    by eexists. }
  rewrite Eout. cbn [mbind result_bind]. exists out. split; [done|].
  intros p Hp. apply mapM_Ok in Eout.
  apply list_elem_of_lookup in Hp as [k Hk].
  destruct (Forall2_lookup_r _ _ _ _ _ Eout Hk) as (i & _ & Hi).
  destruct (points !! i) as [x|] eqn:Ex; [|done].
  injection Hi as ->. by eapply list_elem_of_lookup_2.
Qed.

End ClosePointsProofs.

(** ** The loop over the calibration samples *)

Module CalibrationSamplesProofs.
Import NdArray Calibration CalibrationSamples.

Section SkippedSamples.
Variable predict : ndarray Q -> result (ndarray Q).
Variable apply_binary_mask : ndarray Q -> result (ndarray Q).
Variable jaccard_index_numpy : ndarray Z -> ndarray Z -> Q.
Variable label : ndarray Z -> ndarray Z.
Variable mode_ : mode.
Variable thres_small : Z.
Variable with_bin_mask : bool.
Variable ths_dis : list Q.

#[local] Abbreviation step :=
  (sample_step predict apply_binary_mask jaccard_index_numpy label mode_
               thres_small with_bin_mask ths_dis).

Lemma sample_step_single_label s img mask :
  length (np_unique (ravel mask)) = 1%nat ->
  step s (img, mask) = Ok (store_number_obj 1 s).
Proof. intros H. unfold sample_step. rewrite H. reflexivity. Qed.

(** A run over background-only patches leaves every threshold list as it
    was and appends one count per patch. *)
Lemma for_each_single_label samples : forall s,
  Forall (fun sample => length (np_unique (ravel sample.2)) = 1%nat) samples ->
  exists s',
    for_each step samples s = Ok s' /\
    ideal_number_obj s'
      = ideal_number_obj s ++ replicate (length samples) 1 /\
    (g_l_th1 s', l_th1_min s', l_th1_opt s')
      = (g_l_th1 s, l_th1_min s, l_th1_opt s) /\
    (g_l_th2 s', l_th2_min s', l_th2_opt s')
      = (g_l_th2 s, l_th2_min s, l_th2_opt s) /\
    (g_l_th3 s', l_th3_max s') = (g_l_th3 s, l_th3_max s) /\
    (g_l_th4 s', l_th4_min s', l_th4_opt s')
      = (g_l_th4 s, l_th4_min s, l_th4_opt s) /\
    (g_l_th5 s', l_th5_max s') = (g_l_th5 s, l_th5_max s).
Proof.
  induction samples as [|[img mask] samples IH]; intros s Hall.
  - exists s. simpl. rewrite app_nil_r. done.
  - apply Forall_cons in Hall as [H1 Hall]. simpl in H1.
    cbn [for_each]. rewrite (sample_step_single_label s img mask H1).
    cbn [mbind result_bind].
    destruct (IH (store_number_obj 1 s) Hall)
      as (s' & -> & Hn & H1' & H2' & H3' & H4' & H5').
    exists s'. split; [done|].
    rewrite Hn, H1', H2', H3', H4', H5'. simpl.
    by rewrite <- app_assoc.
Qed.

End SkippedSamples.

(** C8.  A patch whose ground-truth mask has a single unique label takes
    the "Skip this sample" branch of [calculate_optimal_mw_thresholds]:
    whatever the model and the other library functions do, the iteration
    raises nothing, the fourteen threshold lists keep their contents, and
    [len(labels)], which is 1, is appended to [ideal_number_obj]. *)
Theorem single_label_sample_only_counts_towards_ideal_number_obj
    (predict apply_binary_mask : ndarray Q -> result (ndarray Q))
    (jaccard_index_numpy : ndarray Z -> ndarray Z -> Q)
    (label : ndarray Z -> ndarray Z)
    (mode_ : mode) (thres_small : Z) (with_bin_mask : bool)
    (ths_dis : list Q) (s : mw_lists) (img : ndarray Q) (mask : ndarray Z) :
  length (np_unique (ravel mask)) = 1%nat ->
  exists s',
    sample_step predict apply_binary_mask jaccard_index_numpy label mode_
      thres_small with_bin_mask ths_dis s (img, mask) = Ok s' /\
    ideal_number_obj s' = ideal_number_obj s ++ [1] /\
    g_l_th1 s' = g_l_th1 s /\ l_th1_min s' = l_th1_min s /\
    l_th1_opt s' = l_th1_opt s /\
    g_l_th2 s' = g_l_th2 s /\ l_th2_min s' = l_th2_min s /\
    l_th2_opt s' = l_th2_opt s /\
    g_l_th3 s' = g_l_th3 s /\ l_th3_max s' = l_th3_max s /\
    g_l_th4 s' = g_l_th4 s /\ l_th4_min s' = l_th4_min s /\
    l_th4_opt s' = l_th4_opt s /\
    g_l_th5 s' = g_l_th5 s /\ l_th5_max s' = l_th5_max s.
Proof.
  intros H. exists (store_number_obj 1 s).
  split; [by apply sample_step_single_label|].
  repeat split.
Qed.

(** The background-only patch, with a model that would fail if it were
    called. *)
Lemma single_label_sample_only_counts_towards_ideal_number_obj_witness :
  length (np_unique (ravel background_patch.2)) = 1%nat /\
  exists s',
    sample_step failing_model failing_model (fun _ _ => 0%Q) id BCD 5 true
      [] mw_lists_init background_patch = Ok s' /\
    ideal_number_obj s' = [1] /\ l_th1_min s' = [] /\ l_th2_min s' = [] /\
    l_th3_max s' = [].
Proof.
  assert (H : length (np_unique (ravel background_patch.2)) = 1%nat)
    by reflexivity.
  split; [exact H|].
  destruct (single_label_sample_only_counts_towards_ideal_number_obj
              failing_model failing_model (fun _ _ => 0%Q) id BCD 5 true []
              mw_lists_init background_patch.1 background_patch.2 H)
    as (s' & Hrun & Hn & _ & H1 & _ & _ & H2 & _ & _ & H3 & _).
  exists s'. split; [exact Hrun|]. by rewrite Hn, H1, H2, H3.
Defined.

(** With the same failing model a patch with two labels does raise: the
    searches run only for those. *)
Example two_label_sample_is_searched :
  sample_step failing_model failing_model (fun _ _ => 0%Q) id BC 5 false []
    mw_lists_init object_patch = Raise ValueError.
Proof. reflexivity. Qed.

(** After one skipped and one searched patch [ideal_number_obj] has two
    entries and every per-sample threshold list has one: the entry count
    that the aggregation tests with [len(ideal_number_obj) > 1] includes the
    skipped patches. *)
Example skipped_sample_is_counted :
  exists s',
    sample_loop constant_model failing_model (fun _ _ => 0%Q) id BC 5 false
      [] [background_patch; object_patch] = Ok s' /\
    ideal_number_obj s' = [1; 2] /\
    length (l_th1_min s') = 1%nat /\ length (l_th2_min s') = 1%nat /\
    length (l_th3_max s') = 1%nat.
Proof.
  destruct (sample_loop constant_model failing_model (fun _ _ => 0%Q) id BC
              5 false [] [background_patch; object_patch]) as [s'|e] eqn:E;
    [|vm_compute in E; discriminate].
  exists s'. split; [done|].
  assert (H : (fun s => (ideal_number_obj s, length (l_th1_min s),
                         length (l_th2_min s), length (l_th3_max s))) <$>
              sample_loop constant_model failing_model (fun _ _ => 0%Q) id
                BC 5 false [] [background_patch; object_patch]
              = Ok ([1; 2], 1%nat, 1%nat, 1%nat))
    by (vm_compute; reflexivity).
  rewrite E in H. cbn in H. clear E.
  injection H as H1 H2 H3 H4. rewrite H1, H2, H3, H4. repeat split.
Qed.

End CalibrationSamplesProofs.

(** ** Filling the unlabelled foreground *)

Module VoronoiProofs.
Import NdArray Voronoi.

#[local] Set Warnings "-clear-no-such-hyp".

(** *** The writes of one image *)

Lemma fold_set_at (f : list nat -> Z) positions : forall (d : ndarray Z),
  shape (fold_left (fun d pos => set_at pos (f pos) d) positions d) = shape d /\
  forall idx,
    get (fold_left (fun d pos => set_at pos (f pos) d) positions d) idx
    = if decide (idx ∈ positions) then f idx else get d idx.
Proof.
  induction positions as [|pos positions IH]; intros d; cbn [fold_left].
  - split; [done|]. intros idx. rewrite decide_False; [done|].
    apply not_elem_of_nil.
  - destruct (IH (set_at pos (f pos) d)) as [Hsh Hget].
    split; [by rewrite Hsh|].
    intros idx. rewrite Hget. cbn [get set_at].
    destruct (decide (idx ∈ positions)) as [Hin|Hin].
    + rewrite decide_True; [done|]. by right.
    + destruct (decide (idx = pos)) as [->|Hne].
      * rewrite decide_True; [done|]. by left.
      * rewrite decide_False; [done|].
        intros H. apply elem_of_cons in H as [?|?]; done.
Qed.

Lemma elem_of_argwhere (a : ndarray bool) idx :
  idx ∈ argwhere a <-> in_range idx (shape a) /\ get a idx = true.
Proof.
  unfold argwhere. rewrite list_elem_of_In, filter_In.
  by rewrite NdArrayFacts.in_indices.
Qed.

Section Images.
Variable label : ndarray Z -> ndarray Z.
Variable binary_dilation_2 binary_erosion_2 : ndarray bool -> ndarray bool.
Variable query : list (list Q) -> list Q -> nat.
Variable th : Q.
Variable thres_small : Z.

#[local] Abbreviation image_of data_i mask_i0 :=
  (voronoi_image label binary_dilation_2 binary_erosion_2 query th
                 thres_small data_i mask_i0).
#[local] Abbreviation selected data_i mask_i0 :=
  (not_labelled data_i
     (cleaned_mask label binary_dilation_2 binary_erosion_2 th thres_small
                   mask_i0)).

Lemma voronoi_image_Ok data_i mask_i0 image :
  image_of data_i mask_i0 = Ok image ->
  (group_by_mean data_i).2 <> [] /\
  shape image = shape data_i /\
  forall pos, in_range pos (shape data_i) ->
    get image pos
    = if get (selected data_i mask_i0) pos
      then Z.of_nat (query (group_by_mean data_i).2 (coords pos))
      else get data_i pos.
Proof.
  unfold voronoi_image.
  destruct (group_by_mean data_i) as [labels points] eqn:Eg.
  destruct (Nat.eqb_spec (length points) 0) as [|Hne]; [done|].
  destruct (shape_eqb _ _); [|done]. cbn [negb].
  intros H. injection H as <-.
  destruct (fold_set_at (fun pos => Z.of_nat (query points (coords pos)))
              (argwhere (selected data_i mask_i0)) data_i) as [Hsh Hget].
  split; [by destruct points|]. split; [exact Hsh|].
  intros pos Hpos. rewrite Hget. cbn [snd].
  destruct (get (selected data_i mask_i0) pos) eqn:Hsel.
  - rewrite decide_True; [done|]. by apply elem_of_argwhere.
  - rewrite decide_False; [done|].
    intros H. apply elem_of_argwhere in H as [_ H]. congruence.
Qed.

(** *** The loop over the images *)

Variable data : ndarray Z.
Variable mask : ndarray Q.

#[local] Abbreviation body :=
  (fun _data i =>
     if negb (i <? hd 0%nat (shape mask))%nat then Raise IndexError
     else
       image ← image_of (sub0 i _data) (take_last 0 (sub0 i mask));
       Ok (set_sub0 i image _data)).

Lemma image_loop_rows m : forall k d out,
  shape d = shape data ->
  (forall i r, (k <= i)%nat -> get d (i :: r) = get data (i :: r)) ->
  for_each body (seq k m) d = Ok out ->
  (forall i r, (i < k)%nat -> get out (i :: r) = get d (i :: r)) /\
  (forall i, (k <= i < k + m)%nat ->
     exists image,
       image_of (sub0 i data) (take_last 0 (sub0 i mask)) = Ok image /\
       forall r, get out (i :: r) = get image r).
Proof.
  induction m as [|m IH]; intros k d out Hsh Hrest Hrun.
  - simpl in Hrun. injection Hrun as <-. split; [done|]. intros i Hi. lia.
  - cbn [seq for_each] in Hrun.
    destruct (k <? hd 0%nat (shape mask))%nat; [|done]. cbn [negb] in Hrun.
    assert (Hrow : sub0 k d = sub0 k data).
    { unfold sub0. rewrite Hsh. f_equal.
      apply functional_extensionality. intros r. by apply Hrest. }
    rewrite Hrow in Hrun.
    destruct (image_of (sub0 k data) (take_last 0 (sub0 k mask)))
      as [image|e] eqn:Eimage; [|done].
    cbn [mbind result_bind] in Hrun.
    destruct (IH (S k) (set_sub0 k image d) out) as [Hbefore Hafter].
    + done.
    + intros i r Hi. cbn [get set_sub0].
      destruct (Nat.eqb_spec i k); [lia|]. apply Hrest. lia.
    + exact Hrun.
    + split.
      * intros i r Hi. rewrite Hbefore by lia. cbn [get set_sub0].
        destruct (Nat.eqb_spec i k); [lia|done].
      * intros i Hi. destruct (decide (i = k)) as [->|Hne].
        -- exists image. split; [done|]. intros r.
           rewrite Hbefore by lia. cbn [get set_sub0].
           by rewrite Nat.eqb_refl.
        -- apply Hafter. lia.
Qed.

Lemma voronoi_on_mask_rows filenames out i :
  voronoi_on_mask label binary_dilation_2 binary_erosion_2 query data mask
    filenames th thres_small = Ok out ->
  (i < hd 0%nat (shape data))%nat ->
  exists image,
    image_of (sub0 i data) (take_last 0 (sub0 i mask)) = Ok image /\
    forall r, get out (i :: r) = get image r.
Proof.
  unfold voronoi_on_mask. intros Hrun Hi.
  destruct (negb (ndim data =? 4)%nat); [done|].
  destruct (negb (ndim mask =? 5)%nat); [done|].
  destruct (List.last (shape mask) 0 <? 2)%nat; [done|].
  destruct (match filenames with
            | Some fs => negb (length fs =? hd 0 (shape data))%nat
            | None => false
            end); [done|].
  apply image_loop_rows in Hrun as [_ Hrows]; [|done..].
  apply Hrows. lia.
Qed.

End Images.

(** *** The first nearest row is a nearest row *)

Lemma nearest_from_spec pos r : forall pre best,
  (best < length pre)%nat ->
  (forall k c, pre !! k = Some c ->
     (ClosePoints.dist2 ((pre ++ r) !!! best) pos
      <= ClosePoints.dist2 c pos)%Q) ->
  let res := nearest_from pos best
               (ClosePoints.dist2 ((pre ++ r) !!! best) pos) (length pre) r in
  (res < length (pre ++ r))%nat /\
  forall k c, (pre ++ r) !! k = Some c ->
    (ClosePoints.dist2 ((pre ++ r) !!! res) pos <= ClosePoints.dist2 c pos)%Q.
Proof.
  induction r as [|c r IH]; intros pre best Hbest Hpre; cbn [nearest_from].
  - rewrite app_nil_r in *. split; [done|]. exact Hpre.
  - assert (Hc : (pre ++ c :: r) !!! length pre = c).
    { apply list_lookup_total_correct. by apply list_lookup_middle. }
    assert (Hlen : length (pre ++ [c]) = S (length pre)).
    { rewrite length_app. simpl. lia. }
    destruct (Qle_bool (ClosePoints.dist2 ((pre ++ c :: r) !!! best) pos)
                       (ClosePoints.dist2 c pos)) eqn:Hle; cbn [negb].
    + apply Qle_bool_iff in Hle.
      specialize (IH (pre ++ [c]) best).
      rewrite <- app_assoc, Hlen in IH. cbn [app] in IH.
      apply IH; [lia|].
      intros k c' Hk. apply lookup_app_Some in Hk as [Hk|[_ Hk]].
      * by eapply Hpre.
      * apply list_lookup_singleton_Some in Hk as [_ <-]. done.
    + assert (Hlt : (ClosePoints.dist2 c pos
                     < ClosePoints.dist2 ((pre ++ c :: r) !!! best) pos)%Q).
      { apply Qnot_le_lt. intros H. apply Qle_bool_iff in H. congruence. }
      specialize (IH (pre ++ [c]) (length pre)).
      rewrite <- app_assoc, Hlen in IH. cbn [app] in IH.
      rewrite Hc in IH. apply IH; [lia|].
      intros k c' Hk. apply lookup_app_Some in Hk as [Hk|[_ Hk]].
      * eapply Qle_trans; [apply Qlt_le_weak; exact Hlt|]. by eapply Hpre.
      * apply list_lookup_singleton_Some in Hk as [_ <-]. apply Qle_refl.
Qed.

Lemma nearest_index_spec : query_spec nearest_index.
Proof.
  intros [|c r] pos Hne; [done|]. unfold nearest_index.
  apply (nearest_from_spec pos r [c] 0%nat); [simpl; lia|].
  intros k c' Hk. apply list_lookup_singleton_Some in Hk as [_ <-].
  apply Qle_refl.
Qed.

Lemma group_by_mean_length (a : ndarray Z) :
  length (group_by_mean a).2 = length (group_by_mean a).1.
Proof. unfold group_by_mean. cbn [fst snd]. apply length_map. Qed.

(** C7.  In the array returned by [voronoi_on_mask] every voxel of image
    [i] that the XOR of [_data[i] > 0] with the cleaned mask selects holds
    the position, in the list of centroids built by grouping the voxels of
    the image by value, of a centroid nearest to the voxel: a rank below the
    number of distinct values, not one of the values themselves. *)
Theorem voronoi_writes_the_rank_of_the_nearest_centroid
    (label : ndarray Z -> ndarray Z)
    (binary_dilation_2 binary_erosion_2 : ndarray bool -> ndarray bool)
    (query : list (list Q) -> list Q -> nat)
    (data : ndarray Z) (mask : ndarray Q) (filenames : option (list string))
    (th : Q) (thres_small : Z) (out : ndarray Z) (i : nat) (pos : list nat) :
  query_spec query ->
  voronoi_on_mask label binary_dilation_2 binary_erosion_2 query data mask
    filenames th thres_small = Ok out ->
  (i < hd 0%nat (shape data))%nat ->
  in_range pos (shape (sub0 i data)) ->
  get (not_labelled (sub0 i data)
         (cleaned_mask label binary_dilation_2 binary_erosion_2 th
            thres_small (take_last 0 (sub0 i mask)))) pos = true ->
  let labels := (group_by_mean (sub0 i data)).1 in
  let points := (group_by_mean (sub0 i data)).2 in
  let rank := query points (coords pos) in
  get out (i :: pos) = Z.of_nat rank /\
  (rank < length labels)%nat /\
  forall k c, points !! k = Some c ->
    (ClosePoints.dist2 (points !!! rank) (coords pos)
     <= ClosePoints.dist2 c (coords pos))%Q.
Proof.
  intros Hq Hrun Hi Hpos Hsel labels points rank.
  destruct (voronoi_on_mask_rows _ _ _ _ _ _ _ _ _ _ i Hrun Hi)
    as (image & Himage & Hrow).
  apply voronoi_image_Ok in Himage as (Hne & _ & Hget).
  destruct (Hq points (coords pos) Hne) as [Hlt Hnear].
  split; [|split].
  - rewrite Hrow, Hget by done. by rewrite Hsel.
  - unfold labels. rewrite <- group_by_mean_length. exact Hlt.
  - exact Hnear.
Qed.

(** In the example the third voxel, next to the instance with label 5, is
    selected and receives 1, the rank of that instance's centroid. *)
Lemma voronoi_writes_the_rank_of_the_nearest_centroid_witness :
  exists out,
    voronoi_on_mask id id id nearest_index example_row example_row_mask None
      (3 # 10) 1 = Ok out /\
    get out [0; 0; 0; 2]%nat = 1 /\
    (group_by_mean (sub0 0 example_row)).1 = [0; 5] /\
    get example_row [0; 0; 0; 1]%nat = 5.
Proof.
  destruct (voronoi_on_mask id id id nearest_index example_row example_row_mask
              None (3 # 10) 1) as [out|e] eqn:E;
    [|vm_compute in E; discriminate].
  exists out. split; [reflexivity|].
  split; [|split; reflexivity].
  destruct (voronoi_writes_the_rank_of_the_nearest_centroid
              id id id nearest_index example_row example_row_mask None (3 # 10)
              1 out 0%nat [0; 0; 2]%nat nearest_index_spec E)
    as [Hget _].
  - simpl. lia.
  - repeat constructor.
  - reflexivity.
  - rewrite Hget. vm_compute. reflexivity.
Defined.

(** The voxels that are not selected keep their value. *)
Lemma voronoi_keeps_the_other_voxels
    (label : ndarray Z -> ndarray Z)
    (binary_dilation_2 binary_erosion_2 : ndarray bool -> ndarray bool)
    (query : list (list Q) -> list Q -> nat)
    (data : ndarray Z) (mask : ndarray Q) (filenames : option (list string))
    (th : Q) (thres_small : Z) (out : ndarray Z) (i : nat) (pos : list nat) :
  voronoi_on_mask label binary_dilation_2 binary_erosion_2 query data mask
    filenames th thres_small = Ok out ->
  (i < hd 0%nat (shape data))%nat ->
  in_range pos (shape (sub0 i data)) ->
  get (not_labelled (sub0 i data)
         (cleaned_mask label binary_dilation_2 binary_erosion_2 th
            thres_small (take_last 0 (sub0 i mask)))) pos = false ->
  get out (i :: pos) = get data (i :: pos).
Proof.
  intros Hrun Hi Hpos Hsel.
  destruct (voronoi_on_mask_rows _ _ _ _ _ _ _ _ _ _ i Hrun Hi)
    as (image & Himage & Hrow).
  apply voronoi_image_Ok in Himage as (_ & _ & Hget).
  rewrite Hrow, Hget by done. by rewrite Hsel.
Qed.

(** The background is a group like any other: a selected voxel that is
    nearest to the centroid of the zero voxels receives rank 0. *)
Example voxel_nearest_to_the_background_centroid :
  ravel <$> voronoi_on_mask id id id nearest_index
              (of_list 0 [1; 1; 1; 4]%nat [5; 5; 0; 0])
              (of_list 0%Q [1; 1; 1; 4; 2]%nat [1; 0; 1; 0; 1; 0; 0; 0]%Q)
              None (3 # 10) 1
  = Ok [5; 5; 0; 0].
Proof. vm_compute. reflexivity. Qed.

End VoronoiProofs.

(** ** Threshold calibration: edge behaviour of the sweeps *)

Module CalibrationEdges.
Import Calibration CalibrationProofs.

Ltac zcases :=
  repeat match goal with
         | |- context [?a <=? ?b] => destruct (Z.leb_spec a b)
         | |- context [?a <? ?b] => destruct (Z.ltb_spec a b)
         | |- context [?a =? ?b] => destruct (Z.eqb_spec a b)
         end.

(** *** The look-ups [ths[th2_opt_pos]], [ths[th1_opt_pos]],
        [ths_dis[th4_opt_pos]] *)

Lemma th2_fold_bounds n g : forall s,
  -1 <= th2_op_pos s -> 0 <= th2_repeat_count s ->
  -1 <= th2_op_pos (fold_left (th2_step n) g s) /\
  0 <= th2_repeat_count (fold_left (th2_step n) g s).
Proof.
  induction g as [|tc g IH]; intros s Hop Hrep; [done|].
  cbn [fold_left]. apply IH; unfold th2_step; cbn.
  - zcases; lia.
  - zcases; lia.
Qed.

Lemma py_index_in_range {A} (l : list A) (i : Z) :
  -1 <= i < Z.of_nat (length l) -> l <> [] ->
  exists x, py_index l i = Some x /\ x ∈ l.
Proof.
  intros Hi Hne. unfold py_index.
  assert (0 < Z.of_nat (length l)) by (destruct l; [done|simpl; lia]).
  destruct (Z.leb_spec 0 i) as [H0|H0].
  - destruct (Z.ltb_spec i (Z.of_nat (length l))); [|lia]. cbn [andb].
    destruct (lookup_lt_is_Some_2 l (Z.to_nat i) ltac:(lia)) as [x Hx].
    exists x. split; [done|]. by eapply list_elem_of_lookup_2.
  - cbn [andb].
    destruct (Z.leb_spec (- Z.of_nat (length l)) i); [|lia].
    destruct (Z.ltb_spec i 0); [|lia]. cbn [andb].
    destruct (lookup_lt_is_Some_2 l (Z.to_nat (Z.of_nat (length l) + i))
                ltac:(lia)) as [x Hx].
    exists x. split; [done|]. by eapply list_elem_of_lookup_2.
Qed.

Lemma th2_choice_bounds n g :
  g <> [] -> -1 <= th2_choice n g < Z.of_nat (length g).
Proof.
  intros Hne. unfold th2_choice, th2_opt_pos.
  destruct (th2_fold_bounds n g th2_init) as [Hop Hrep]; [simpl; lia..|].
  fold (th2_sweep n g) in Hop, Hrep.
  assert (0 < Z.of_nat (length g)) by (destruct g; [done|simpl; lia]).
  pose proof (int_half_bounds (th2_repeat_count (th2_sweep n g)) Hrep).
  cbv zeta. rewrite Z.geb_leb. zcases; lia.
Qed.

Lemma th1_choice_bounds b n g :
  g <> [] -> -1 <= th1_choice b n g < Z.of_nat (length g).
Proof.
  intros Hne. unfold th1_choice, th1_opt_pos.
  assert (0 < Z.of_nat (length g)) by (destruct g; [done|simpl; lia]).
  destruct (th1_inv_sweep b n g) as (_ & _ & [(-> & -> & _)|Hrun]).
  - cbv zeta. rewrite Z.geb_leb. zcases; lia.
  - destruct Hrun as (i & r & -> & -> & Hlt & _).
    cbv zeta. rewrite Z.geb_leb. zcases; lia.
Qed.

(** X1.  The threshold look-ups that end the TH2 and the TH1/TH4 searches
    raise [IndexError] exactly when the candidate grid is empty (which only
    the distance grid [ths_dis] can be); on a non-empty grid they always
    return one of the grid's thresholds, whatever the object counts. *)
Theorem threshold_lookup_fails_only_on_an_empty_grid b n g :
  (th2_opt n g = None <-> g = []) /\
  (th1_opt b n g = None <-> g = []) /\
  (forall t, th2_opt n g = Some t -> t ∈ map fst g) /\
  (forall t, th1_opt b n g = Some t -> t ∈ map fst g).
Proof.
  assert (Hmap : g <> [] -> map fst g <> []) by (by destruct g).
  assert (Hlen : length (map fst g) = length g) by apply length_map.
  destruct g as [|tc g'] eqn:Eg.
  { repeat split; try done; intros t H; vm_compute in H; discriminate. }
  rewrite <- Eg in *. assert (Hne : g <> []) by (by rewrite Eg).
  destruct (py_index_in_range (map fst g) (th2_choice n g))
    as (t2 & H2 & Hin2); [rewrite Hlen; by apply th2_choice_bounds|auto|].
  destruct (py_index_in_range (map fst g) (th1_choice b n g))
    as (t1 & H1 & Hin1); [rewrite Hlen; by apply th1_choice_bounds|auto|].
  unfold th2_opt, th1_opt. fold (th2_choice n g).
  rewrite H1, H2. repeat split; try done.
  - intros t [= <-]. done.
  - intros t [= <-]. done.
Qed.

(** *** Every candidate matches the number of labels *)

Lemma th1_fold_all_match n g : forall s,
  th1_op_pos s = -1 -> th1_last s = 0 -> th1_repeat_count s = 0 ->
  th1_obj_min_diff s = maxsize ->
  Forall (fun tc => snd tc = n) g ->
  let s' := fold_left (th1_step n) g s in
  th1_op_pos s' = -1 /\ th1_last s' = 0 /\ th1_repeat_count s' = 0 /\
  th1_obj_min_diff s' = maxsize /\ th1_min s' = th1_min s.
Proof.
  induction g as [|tc g IH]; intros s Hop Hlast Hrep Hmin Hall; [done|].
  apply Forall_cons in Hall as [Htc Hall]. cbn [fold_left].
  assert (Hacc : th1_accepts s (Z.abs (tc.2 - n)) = false).
  { unfold th1_accepts. rewrite Htc, Z.sub_diag, Hlast. simpl.
    by rewrite andb_false_r. }
  destruct (IH (th1_step n s tc)) as (H1 & H2 & H3 & H4 & H5); try done.
  - unfold th1_step. cbn. by rewrite Hacc.
  - unfold th1_step. cbn. by rewrite Htc, Z.sub_diag.
  - unfold th1_step. cbn. rewrite Hacc, Hmin, Htc, Z.sub_diag, Hlast, Hrep.
    reflexivity.
  - unfold th1_step. cbn. by rewrite Hacc.
  - repeat split; try done. rewrite H5. unfold th1_step. cbn.
    by rewrite Hacc.
Qed.

Lemma py_index_last {A} (l : list A) : l <> [] -> py_index l (-1) = last l.
Proof.
  intros Hne. unfold py_index.
  assert (0 < Z.of_nat (length l)) by (destruct l; [done|simpl; lia]).
  cbn [Z.leb andb Z.compare].
  destruct (Z.leb_spec (- Z.of_nat (length l)) (-1)); [|lia].
  cbn [andb Z.ltb Z.compare]. rewrite list.last_lookup. f_equal. lia.
Qed.

(** X2.  When every candidate of the grid gives exactly the true number of
    labels, the TH1 (and TH4) search accepts none of them: the first
    difference, 0, equals the initial [th1_last].  The best position stays
    -1 and [th1_min] stays 0, and the threshold recorded as the optimum is
    [ths[-1]], the last one of the grid. *)
Theorem th1_accepts_nothing_when_every_count_matches b n g :
  g <> [] -> Forall (fun tc => snd tc = n) g ->
  let s := th1_sweep b n g in
  th1_op_pos s = -1 /\ th1_min s = 0%Q /\ th1_choice b n g = -1 /\
  th1_opt b n g = last (map fst g).
Proof.
  intros Hne Hall s.
  destruct (th1_fold_all_match n g (th1_init b)) as (Hop & _ & Hrep & _ & Hm);
    try done.
  fold (th1_sweep b n g) in Hop, Hrep, Hm. fold s in Hop, Hrep, Hm.
  assert (Hc : th1_choice b n g = -1).
  { unfold th1_choice, th1_opt_pos. fold s. rewrite Hop, Hrep.
    cbv zeta. rewrite Z.geb_leb. zcases; [|done].
    destruct g; [done|simpl in *; lia]. }
  split; [done|]. split; [by rewrite Hm|]. split; [done|].
  unfold th1_opt. rewrite Hc. apply py_index_last. by destruct g.
Qed.

(** Three candidates that all give the three true labels: the recorded
    optimum is the third threshold. *)
Lemma th1_accepts_nothing_when_every_count_matches_witness :
  th1_op_pos (th1_sweep false 3 (observed [3; 3; 3])) = -1 /\
  th1_opt false 3 (observed [3; 3; 3]) = Some (1 # 100000)%Q.
Proof.
  destruct (th1_accepts_nothing_when_every_count_matches false 3
              (observed [3; 3; 3])) as (Hop & _ & _ & Hopt).
  - discriminate.
  - repeat constructor.
  - split; [exact Hop|]. rewrite Hopt. reflexivity.
Defined.

End CalibrationEdges.

(** ** Threshold calibration: the Jaccard searches and the bookkeeping of
       the sample loop *)

Module CalibrationSamplesMore.
Import NdArray Calibration CalibrationSamples CalibrationAggregate.

#[local] Set Warnings "-clear-no-such-hyp".

(** *** TH3 and TH5 *)

Lemma jaccard_fold jac_at rest : forall done best mx l,
  (done = [] /\ mx = (-1)%Q \/
   exists pre post, done = pre ++ best :: post /\ mx = jac_at best /\
     Forall (fun th => (jac_at th < mx)%Q) pre /\
     Forall (fun th => (jac_at th <= mx)%Q) post) ->
  Forall (fun th => (-1 < jac_at th)%Q) rest ->
  l = map jac_at done ->
  exists best' mx' l',
    fold_left (jaccard_step jac_at) rest (best, mx, l) = (best', mx', l') /\
    l' = map jac_at (done ++ rest) /\
    (done ++ rest = [] \/
     exists pre post, done ++ rest = pre ++ best' :: post /\
       Forall (fun th => (jac_at th < jac_at best')%Q) pre /\
       Forall (fun th => (jac_at th <= jac_at best')%Q) post).
Proof.
  induction rest as [|th rest IH]; intros done best mx l Hinv Hpos Hl.
  - exists best, mx, l. rewrite app_nil_r. split; [done|]. split; [done|].
    destruct Hinv as [[-> _]|(pre & post & -> & -> & Hpre & Hpost)];
      [by left|right]. by exists pre, post.
  - apply Forall_cons in Hpos as [Hth Hpos]. cbn [fold_left jaccard_step].
    replace (done ++ th :: rest) with ((done ++ [th]) ++ rest)
      by (by rewrite <- app_assoc).
    destruct (Qle_bool (jac_at th) mx) eqn:Hle; cbn [negb].
    + apply Qle_bool_iff in Hle.
      apply IH; [|done|by rewrite Hl, map_app].
      destruct Hinv as [[-> ->]|(pre & post & -> & -> & Hpre & Hpost)].
      * exfalso. eapply Qlt_not_le; [exact Hth|exact Hle].
      * right. exists pre, (post ++ [th]).
        rewrite <- app_assoc. split; [done|]. split; [done|].
        split; [done|]. apply Forall_app. split; [done|].
        by apply Forall_singleton.
    + assert (Hlt : (mx < jac_at th)%Q).
      { apply Qnot_le_lt. intros H. apply Qle_bool_iff in H. congruence. }
      apply IH; [|done|by rewrite Hl, map_app].
      right. exists done, []. split; [done|]. split; [done|].
      split; [|constructor].
      destruct Hinv as [[-> _]|(pre & post & -> & -> & Hpre & Hpost)];
        [constructor|].
      apply Forall_app. split.
      * eapply Forall_impl; [exact Hpre|]. intros x Hx. simpl in Hx.
        by eapply Qlt_trans.
      * apply Forall_cons. split; [done|].
        eapply Forall_impl; [exact Hpost|]. intros x Hx. simpl in Hx.
        by eapply Qle_lt_trans.
Qed.

(** X3.  The TH3 and TH5 searches return the first candidate threshold at
    which the Jaccard index is largest (every earlier candidate scores
    strictly less, every later one at most as much), together with the
    indices of all candidates in order, provided the candidate list is not
    empty and every index is above the initial -1, as a Jaccard index is. *)
Theorem jaccard_search_returns_the_first_maximum
    (candidates : list Q) (jac_at : Q -> Q) :
  candidates <> [] ->
  Forall (fun th => (-1 < jac_at th)%Q) candidates ->
  exists pre best post,
    jaccard_search candidates jac_at = (best, map jac_at candidates) /\
    candidates = pre ++ best :: post /\
    Forall (fun th => (jac_at th < jac_at best)%Q) pre /\
    Forall (fun th => (jac_at th <= jac_at best)%Q) post.
Proof.
  intros Hne Hpos. unfold jaccard_search.
  destruct (jaccard_fold jac_at candidates [] (-1)%Q (-1)%Q [])
    as (best & mx & l & -> & -> & [Hnil|(pre & post & Heq & Hpre & Hpost)]);
    [by left|done|done|done|].
  exists pre, best, post. done.
Qed.

(** Four candidates scoring 0.2, 0.5, 0.5, 0.1: the second one is
    returned. *)
Lemma jaccard_search_returns_the_first_maximum_witness :
  let jac_at (th : Q) :=
    if Qeq_bool th 1 then (2 # 10)%Q
    else if Qeq_bool th 4 then (1 # 10)%Q else (5 # 10)%Q in
  exists pre post,
    jaccard_search [1; 2; 3; 4]%Q jac_at
      = (2%Q, [2 # 10; 5 # 10; 5 # 10; 1 # 10]%Q) /\
    [1; 2; 3; 4]%Q = pre ++ 2%Q :: post.
Proof.
  intros jac_at.
  destruct (jaccard_search_returns_the_first_maximum [1; 2; 3; 4]%Q jac_at)
    as (pre & best & post & Hrun & Heq & _).
  - discriminate.
  - repeat constructor.
  - assert (Hbest : best = 2%Q).
    { change best with (best, map jac_at [1; 2; 3; 4]%Q).1.
      rewrite <- Hrun. reflexivity. }
    subst best. exists pre, post. split; [reflexivity|exact Heq].
Defined.

(** *** What one patch adds to the lists *)

Lemma result_bind_Ok {A B} (m : result A) (f : A -> result B) b :
  m ≫= f = Ok b -> exists a, m = Ok a /\ f a = Ok b.
Proof. destruct m as [a|e]; [|done]. intros H. by exists a. Qed.

Lemma Ok_inj {A} (a b : A) : Ok a = Ok b -> a = b.
Proof. intros H. by injection H. Qed.

Ltac bind_Ok H :=
  let a := fresh "a" in
  let E := fresh "E" in
  apply result_bind_Ok in H as (a & E & H).

Section Bookkeeping.
Variable predict : ndarray Q -> result (ndarray Q).
Variable apply_binary_mask : ndarray Q -> result (ndarray Q).
Variable jaccard_index_numpy : ndarray Z -> ndarray Z -> Q.
Variable label : ndarray Z -> ndarray Z.
Variable mode_ : mode.
Variable thres_small : Z.
Variable with_bin_mask : bool.
Variable ths_dis : list Q.

#[local] Abbreviation search :=
  (search_thresholds predict apply_binary_mask jaccard_index_numpy label
                     mode_ thres_small with_bin_mask ths_dis).
#[local] Abbreviation step :=
  (sample_step predict apply_binary_mask jaccard_index_numpy label mode_
               thres_small with_bin_mask ths_dis).

Lemma search_thresholds_appends img mask n s s' :
  search img mask n s = Ok s' ->
  let d := match mode_ with BCD => 1%nat | BC => 0%nat end in
  ideal_number_obj s' = ideal_number_obj s /\
  length (l_th1_min s') = S (length (l_th1_min s)) /\
  length (l_th1_opt s') = S (length (l_th1_opt s)) /\
  length (l_th2_min s') = S (length (l_th2_min s)) /\
  length (l_th2_opt s') = S (length (l_th2_opt s)) /\
  length (l_th3_max s') = S (length (l_th3_max s)) /\
  length (l_th4_min s') = (length (l_th4_min s) + d)%nat /\
  length (l_th4_opt s') = (length (l_th4_opt s) + d)%nat /\
  length (l_th5_max s') = (length (l_th5_max s) + d)%nat.
Proof.
  unfold search_thresholds. intros H.
  bind_Ok H. bind_Ok H. bind_Ok H. bind_Ok H.
  destruct (jaccard_search ths _) as [th3_best l_th3].
  bind_Ok H. bind_Ok H. bind_Ok H. bind_Ok H. bind_Ok H.
  clear E E0 E1 E2 E4 E5 E6.
  apply Ok_inj in H. subst s'.
  cbn [g_l_th1 l_th1_min l_th1_opt g_l_th2 l_th2_min l_th2_opt
       ideal_number_obj g_l_th3 l_th3_max g_l_th4 l_th4_min l_th4_opt
       g_l_th5 l_th5_max].
  rewrite !length_app. cbn [length].
  destruct mode_.
  - apply Ok_inj in E3. apply Ok_inj in E7. subst a3 a7.
    cbn [from_option length]. repeat split; lia.
  - bind_Ok E3. apply Ok_inj in E3.
    bind_Ok E7. bind_Ok E7. apply Ok_inj in E7. subst a3 a7.
    cbn [from_option length]. repeat split; lia.
Qed.

(** The number of patches on which the searches run. *)
#[local] Abbreviation searched samples :=
  (length (List.filter has_objects samples)).

Lemma sample_step_appends s sample s' :
  step s sample = Ok s' ->
  let c := if has_objects sample then 1%nat else 0%nat in
  let d := match mode_ with BCD => c | BC => 0%nat end in
  length (ideal_number_obj s') = S (length (ideal_number_obj s)) /\
  length (l_th1_min s') = (length (l_th1_min s) + c)%nat /\
  length (l_th1_opt s') = (length (l_th1_opt s) + c)%nat /\
  length (l_th2_min s') = (length (l_th2_min s) + c)%nat /\
  length (l_th2_opt s') = (length (l_th2_opt s) + c)%nat /\
  length (l_th3_max s') = (length (l_th3_max s) + c)%nat /\
  length (l_th4_min s') = (length (l_th4_min s) + d)%nat /\
  length (l_th4_opt s') = (length (l_th4_opt s) + d)%nat /\
  length (l_th5_max s') = (length (l_th5_max s) + d)%nat.
Proof.
  destruct sample as [img mask]. unfold sample_step, has_objects.
  cbn [snd]. intros H.
  destruct (length (np_unique (ravel mask)) =? 1)%nat; cbn [negb] in *.
  - cbn in H. injection H as <-. cbn. rewrite length_app. cbn.
    destruct mode_; repeat split; lia.
  - bind_Ok H. injection H as <-.
    apply search_thresholds_appends in E
      as (Hi & H1 & H2 & H3 & H4 & H5 & H6 & H7 & H8).
    cbn. rewrite length_app, Hi. cbn.
    destruct mode_; repeat split; lia.
Qed.

Lemma for_each_step_appends samples : forall s s',
  for_each step samples s = Ok s' ->
  let c := searched samples in
  let d := match mode_ with BCD => c | BC => 0%nat end in
  length (ideal_number_obj s')
    = (length (ideal_number_obj s) + length samples)%nat /\
  length (l_th1_min s') = (length (l_th1_min s) + c)%nat /\
  length (l_th1_opt s') = (length (l_th1_opt s) + c)%nat /\
  length (l_th2_min s') = (length (l_th2_min s) + c)%nat /\
  length (l_th2_opt s') = (length (l_th2_opt s) + c)%nat /\
  length (l_th3_max s') = (length (l_th3_max s) + c)%nat /\
  length (l_th4_min s') = (length (l_th4_min s) + d)%nat /\
  length (l_th4_opt s') = (length (l_th4_opt s) + d)%nat /\
  length (l_th5_max s') = (length (l_th5_max s) + d)%nat.
Proof.
  induction samples as [|sample samples IH]; intros s s' H.
  - cbn in H. injection H as <-. cbn. destruct mode_; repeat split; lia.
  - cbn [for_each] in H. bind_Ok H.
    apply sample_step_appends in E
      as (Hi & H1 & H2 & H3 & H4 & H5 & H6 & H7 & H8).
    apply IH in H as (Hi' & H1' & H2' & H3' & H4' & H5' & H6' & H7' & H8').
    cbn [List.filter length].
    destruct (has_objects sample); cbn [length];
      destruct mode_; repeat split; lia.
Qed.

End Bookkeeping.

Lemma sample_loop_lengths_aux
    (predict apply_binary_mask : ndarray Q -> result (ndarray Q))
    (jaccard_index_numpy : ndarray Z -> ndarray Z -> Q)
    (label : ndarray Z -> ndarray Z)
    (mode_ : mode) (thres_small : Z) (with_bin_mask : bool)
    (ths_dis : list Q) (samples : list (ndarray Q * ndarray Z))
    (s : mw_lists) :
  sample_loop predict apply_binary_mask jaccard_index_numpy label mode_
    thres_small with_bin_mask ths_dis samples = Ok s ->
  length (ideal_number_obj s) = length samples /\
  length (l_th1_min s) = length (List.filter has_objects samples).
Proof.
  unfold sample_loop. intros H.
  apply for_each_step_appends in H as (Hi & H1 & _). cbn in Hi, H1. done.
Qed.

(** X4.  When the loop over the patches ends without an exception,
    [ideal_number_obj] holds one entry per patch, the TH1, TH2 and TH3 lists
    one entry per patch whose mask has more than one label, and the TH4 and
    TH5 lists as many in mode BCD and none in mode BC. *)
Theorem sample_loop_list_lengths
    (predict apply_binary_mask : ndarray Q -> result (ndarray Q))
    (jaccard_index_numpy : ndarray Z -> ndarray Z -> Q)
    (label : ndarray Z -> ndarray Z)
    (mode_ : mode) (thres_small : Z) (with_bin_mask : bool)
    (ths_dis : list Q) (samples : list (ndarray Q * ndarray Z))
    (s : mw_lists) :
  sample_loop predict apply_binary_mask jaccard_index_numpy label mode_
    thres_small with_bin_mask ths_dis samples = Ok s ->
  let c := length (List.filter has_objects samples) in
  let d := match mode_ with BCD => c | BC => 0%nat end in
  length (ideal_number_obj s) = length samples /\
  length (l_th1_min s) = c /\ length (l_th1_opt s) = c /\
  length (l_th2_min s) = c /\ length (l_th2_opt s) = c /\
  length (l_th3_max s) = c /\
  length (l_th4_min s) = d /\ length (l_th4_opt s) = d /\
  length (l_th5_max s) = d.
Proof.
  unfold sample_loop. intros H.
  apply for_each_step_appends in H. cbn in H. exact H.
Qed.

(** A background-only patch followed by one with an object, in mode BCD. *)
Lemma sample_loop_list_lengths_witness :
  exists s,
    sample_loop constant_model failing_model (fun _ _ => 0%Q) id BCD 5 false
      [1 # 10; 3 # 20]%Q [background_patch; object_patch] = Ok s /\
    length (ideal_number_obj s) = 2%nat /\
    length (l_th1_min s) = 1%nat /\ length (l_th4_min s) = 1%nat.
Proof.
  destruct (sample_loop constant_model failing_model (fun _ _ => 0%Q) id BCD
              5 false [1 # 10; 3 # 20]%Q [background_patch; object_patch])
    as [s|e] eqn:E; [|vm_compute in E; discriminate].
  exists s. split; [reflexivity|].
  destruct (sample_loop_list_lengths _ _ _ _ _ _ _ _ _ _ E)
    as (Hi & H1 & _ & _ & _ & _ & H4 & _).
  split; [exact Hi|]. split; [exact H1|exact H4].
Defined.

(** *** The statistics after the loop *)

Lemma statistics_mean_Ok data m :
  statistics_mean data = Ok m -> (1 <= length data)%nat.
Proof.
  unfold statistics_mean. destruct (Nat.eqb_spec (length data) 0); [done|].
  lia.
Qed.

Lemma statistics_stdev_Ok sqrt data sd :
  statistics_stdev sqrt data = Ok sd -> (2 <= length data)%nat.
Proof.
  unfold statistics_stdev. destruct (Nat.ltb_spec (length data) 2); [done|].
  lia.
Qed.

(** X5.  [calculate_optimal_mw_thresholds] returns only when at least two
    patches have a mask with more than one label, or when there is a single
    patch and it has: the branch of the final statistics is chosen by the
    number of all patches, while the lists it averages hold the searched
    patches only.  In particular one patch with objects beside any number
    of background-only patches ends in an exception
    ([statistics.stdev] of one value), as does a run without any patch with
    objects. *)
Theorem calibration_returns_only_with_enough_searched_patches
    (sqrt : Q -> Q) (create_th_plots : mw_lists -> Q -> result unit)
    (predict apply_binary_mask : ndarray Q -> result (ndarray Q))
    (jaccard_index_numpy : ndarray Z -> ndarray Z -> Q)
    (label : ndarray Z -> ndarray Z)
    (mode_ : mode) (thres_small : Z) (with_bin_mask : bool)
    (ths_dis : list Q) (use_minimum : bool)
    (samples : list (ndarray Q * ndarray Z)) (r : list Q) :
  calculate_optimal_mw_thresholds sqrt create_th_plots predict
    apply_binary_mask jaccard_index_numpy label mode_ thres_small
    with_bin_mask ths_dis use_minimum samples = Ok r ->
  let c := length (List.filter has_objects samples) in
  (length samples = 1%nat /\ c = 1%nat) \/ (2 <= c)%nat.
Proof.
  intros H. cbv zeta.
  set (c := length (List.filter has_objects samples)).
  unfold calculate_optimal_mw_thresholds in H.
  bind_Ok H. rename a into s.
  apply sample_loop_lengths_aux in E as (Hi & H1).
  fold c in H1.
  assert (Hc : (c <= length samples)%nat) by apply List.filter_length_le.
  unfold aggregate in H. bind_Ok H. bind_Ok H. bind_Ok H.
  destruct (Nat.ltb_spec 1 (length (ideal_number_obj s))) as [Hlt|Hge].
  - right. unfold mean_and_std in E1. bind_Ok E1. bind_Ok E1.
    apply statistics_stdev_Ok in E3. lia.
  - left. apply statistics_mean_Ok in E. rewrite length_map in E.
    unfold first_and_zero in E1. bind_Ok E1.
    destruct (l_th1_min s) as [|x l]; [done|]. simpl in H1. lia.
Qed.

(** A single patch with an object: the three thresholds are returned. *)
Lemma calibration_returns_only_with_enough_searched_patches_witness :
  exists r,
    calculate_optimal_mw_thresholds id (fun _ _ => Ok tt) constant_model
      failing_model (fun _ _ => 0%Q) id BC 5 false [] false [object_patch]
    = Ok r /\
    length r = 3%nat /\ length (List.filter has_objects [object_patch]) = 1%nat.
Proof.
  destruct (calculate_optimal_mw_thresholds id (fun _ _ => Ok tt)
              constant_model failing_model (fun _ _ => 0%Q) id BC 5 false []
              false [object_patch]) as [r|e] eqn:E;
    [|vm_compute in E; discriminate].
  exists r. split; [reflexivity|].
  destruct (calibration_returns_only_with_enough_searched_patches
              _ _ _ _ _ _ _ _ _ _ _ _ _ E) as [[_ Hc]|Hc].
  - split; [|exact Hc].
    assert (H : length <$> calculate_optimal_mw_thresholds id
                  (fun _ _ => Ok tt) constant_model failing_model
                  (fun _ _ => 0%Q) id BC 5 false [] false [object_patch]
                = Ok 3%nat) by (vm_compute; reflexivity).
    rewrite E in H. cbn in H. by injection H.
  - exfalso. vm_compute in Hc. lia.
Defined.

(** The same patch beside a background-only one: an exception. *)
Example one_searched_patch_among_two_raises :
  calculate_optimal_mw_thresholds id (fun _ _ => Ok tt) constant_model
    failing_model (fun _ _ => 0%Q) id BC 5 false [] false
    [background_patch; object_patch] = Raise ValueError.
Proof. vm_compute. reflexivity. Qed.

End CalibrationSamplesMore.

(** ** Thinning of detected points: what is kept and what is dropped *)

Module ClosePointsMore.
Import ClosePoints ClosePointsKept ClosePointsProofs.

#[local] Set Warnings "-clear-no-such-hyp".

(** *** The greedy pass over [range(len(point_list))] *)

Lemma keep_fold_seq (nb : gmap nat (gset nat)) m : forall k keep discard,
  keep `sublist_of` seq 0 k ->
  (forall j, j ∈ discard -> exists i, i ∈ keep /\ j ∈ neighbors_get nb i) ->
  (forall j, (j < k)%nat ->
     j ∈ keep \/ exists i, i ∈ keep /\ (i < j)%nat /\ j ∈ neighbors_get nb i) ->
  let st := foldl (keep_step nb) (keep, discard) (seq k m) in
  st.1 `sublist_of` seq 0 (k + m) /\ keep `prefix_of` st.1 /\
  (forall j, j ∈ st.2 -> exists i, i ∈ st.1 /\ j ∈ neighbors_get nb i) /\
  (forall j, (j < k + m)%nat ->
     j ∈ st.1 \/ exists i, i ∈ st.1 /\ (i < j)%nat /\ j ∈ neighbors_get nb i).
Proof.
  induction m as [|m IH]; intros k keep discard Hsub Hdis Hdom.
  - cbn. rewrite Nat.add_0_r. done.
  - cbn [seq foldl].
    assert (Hlt : forall i, i ∈ keep -> (i < k)%nat).
    { intros i Hi. eapply elem_of_sublist in Hi; [|exact Hsub].
      apply elem_of_seq in Hi. lia. }
    replace (k + S m)%nat with (S k + m)%nat by lia.
    assert (E : keep_step nb (keep, discard) k
                = if decide (k ∈ discard) then (keep, discard)
                  else (keep ++ [k], discard ∪ neighbors_get nb k))
      by reflexivity.
    rewrite E. clear E.
    destruct (decide (k ∈ discard)) as [Hd|Hd].
    + apply IH.
      * rewrite seq_S. by apply sublist_inserts_r.
      * done.
      * intros j Hj. destruct (decide (j = k)) as [->|]; [|apply Hdom; lia].
        right. destruct (Hdis k Hd) as (i & Hi & Hn). exists i. auto.
    + destruct (IH (S k) (keep ++ [k]) (discard ∪ neighbors_get nb k))
        as (H1 & H2 & H3 & H4).
      * rewrite seq_S. by apply sublist_app.
      * intros j Hj. apply elem_of_union in Hj as [Hj|Hj].
        -- destruct (Hdis j Hj) as (i & Hi & Hn). exists i.
           split; [|done]. apply elem_of_app. by left.
        -- exists k. split; [|done]. apply elem_of_app. right. by left.
      * intros j Hj. destruct (decide (j = k)) as [->|].
        -- left. apply elem_of_app. right. by left.
        -- destruct (Hdom j ltac:(lia)) as [Hin|(i & Hi & Hij & Hn)].
           ++ left. apply elem_of_app. by left.
           ++ right. exists i. split; [|done]. apply elem_of_app. by left.
      * split; [done|]. split; [|done].
        etrans; [|exact H2]. by apply prefix_app_r.
Qed.

Lemma keep_loop_seq (nb : gmap nat (gset nat)) n :
  let keep := (keep_loop nb (seq 0 n)).1 in
  keep `sublist_of` seq 0 n /\
  ((1 <= n)%nat -> [0%nat] `prefix_of` keep) /\
  (forall j, (j < n)%nat ->
     j ∈ keep \/ exists i, i ∈ keep /\ (i < j)%nat /\ j ∈ neighbors_get nb i).
Proof.
  destruct n as [|n].
  - cbn. split; [done|]. split; [lia|]. intros j Hj. lia.
  - unfold keep_loop. cbn [seq foldl].
    assert (E : keep_step nb ([], ∅) 0
                = ([] ++ [0%nat], ∅ ∪ neighbors_get nb 0)).
    { unfold keep_step. rewrite decide_False; [done|].
      apply not_elem_of_empty. }
    rewrite E. clear E. cbn [app].
    destruct (keep_fold_seq nb n 1 [0%nat] (∅ ∪ neighbors_get nb 0))
      as (H1 & H2 & _ & H4).
    + done.
    + intros j Hj. exists 0%nat. split; [by left|].
      apply elem_of_union in Hj as [Hj|Hj]; [|done].
      by apply not_elem_of_empty in Hj.
    + intros j Hj. left. replace j with 0%nat by lia. by left.
    + done.
Qed.

(** *** Rows and positions *)

Lemma lookup_total_seq {A} `{Inhabited A} (l : list A) :
  (fun i => l !!! i) <$> seq 0 (length l) = l.
Proof.
  apply list_eq. intros i. rewrite list_lookup_fmap.
  destruct (l !! i) as [x|] eqn:E.
  - rewrite lookup_seq_lt by (by eapply lookup_lt_Some). cbn.
    f_equal. by apply list_lookup_total_correct.
  - rewrite lookup_seq_ge; [done|]. by apply lookup_ge_None.
Qed.

Lemma kept_rows {A} `{Inhabited A} (l : list A) keep out :
  Forall2 (fun i p => l !! i = Some p) keep out ->
  out = (fun i => l !!! i) <$> keep.
Proof.
  induction 1 as [|i p keep out Hi _ IH]; [done|].
  cbn. rewrite <- IH. f_equal. symmetry. by apply list_lookup_total_correct.
Qed.

Lemma kept_indices_sublist query_pairs radius scaled :
  kept_indices query_pairs radius scaled `sublist_of` seq 0 (length scaled).
Proof.
  unfold kept_indices. destruct (length scaled =? 0)%nat.
  - apply sublist_nil_l.
  - apply keep_loop_seq.
Qed.

Lemma rows_length (kind : container) (points scaled : list (list float)) :
  length scaled = length points ->
  length (match kind with FloatArray => points | RowList => scaled end)
  = length scaled.
Proof. by destruct kind. Qed.

(** X6.  The list returned by [remove_close_points] is the list of the
    rows of [points] with some rows deleted: the rows that remain keep
    their order, and the first row always remains.  The rows are those of
    the input when [points] is a float array. *)
Theorem remove_close_points_keeps_order_and_first_point
    (query_pairs : float -> list (list float) -> list (nat * nat)) {C}
    (kind : container) (points : list (list float)) (radius : float)
    (resolution : list float) (classes : option (list C)) (ndim : Z)
    (r : close_output C) (rows : list (list float)) :
  remove_close_points query_pairs kind points radius resolution classes ndim
    = Ok (r, rows) ->
  output_points r `sublist_of` rows /\
  head (output_points r) = head rows /\
  (kind = FloatArray -> rows = points).
Proof.
  intros Hrun.
  destruct (run_Ok query_pairs kind points radius resolution ndim classes
              r rows Hrun) as (scaled & _ & Hlen & Hrows & Hkeep & _).
  assert (Hlen' : length rows = length scaled)
    by (rewrite Hrows; by apply rows_length).
  split; [|split; [|by intros ->]].
  - apply kept_rows in Hkeep. rewrite Hkeep.
    pose proof (fmap_sublist (fun i => rows !!! i) _ _
                  (kept_indices_sublist query_pairs radius scaled)) as Hs.
    rewrite <- Hlen', lookup_total_seq in Hs. exact Hs.
  - apply kept_rows in Hkeep. rewrite Hkeep. unfold kept_indices.
    destruct (Nat.eqb_spec (length scaled) 0) as [H0|H0].
    + destruct rows; [done|simpl in *; lia].
    + destruct (keep_loop_seq (build_neighbors (query_pairs radius scaled))
                  (length scaled)) as (_ & [k ->] & _); [lia|].
      cbn. destruct rows as [|p rows']; [simpl in *; lia|done].
Qed.

Lemma remove_close_points_keeps_order_and_first_point_witness :
  exists out,
    remove_close_points (C := unit) all_pairs FloatArray example_points 2
      [1; 1; 1]%float None 3 = Ok (Points out, example_points) /\
    out `sublist_of` example_points /\
    head out = Some [0; 0; 0]%float /\
    (FloatArray = FloatArray -> example_points = example_points).
Proof.
  destruct (remove_close_points (C := unit) all_pairs FloatArray
              example_points 2 [1; 1; 1]%float None 3)
    as [[[out|out cls] rows]|e] eqn:E;
    [|vm_compute in E; discriminate..].
  assert (Hrows : rows = example_points).
  { assert (H : snd <$> remove_close_points (C := unit) all_pairs FloatArray
                          example_points 2 [1; 1; 1]%float None 3
                = Ok example_points) by (vm_compute; reflexivity).
    rewrite E in H. cbn in H. by injection H. }
  subst rows. exists out. split; [reflexivity|].
  apply (remove_close_points_keeps_order_and_first_point all_pairs
           FloatArray example_points 2 [1; 1; 1]%float None 3 (Points out)
           example_points E).
Defined.

(** X7.  Every row that [remove_close_points] drops forms, among the rows
    scaled by [resolution], a pair reported by [query_pairs] for [radius]
    with a row that is kept and that comes earlier in the input. *)
Theorem dropped_points_are_reported_close_to_an_earlier_kept_point
    (query_pairs : float -> list (list float) -> list (nat * nat)) {C}
    (kind : container) (points : list (list float)) (radius : float)
    (resolution : list float) (classes : option (list C)) (ndim : Z)
    (r : close_output C) (rows : list (list float)) :
  remove_close_points query_pairs kind points radius resolution classes ndim
    = Ok (r, rows) ->
  exists scaled keep,
    Forall2 (scaled_by ndim resolution) points scaled /\
    Forall2 (fun i p => rows !! i = Some p) keep (output_points r) /\
    forall j, (j < length points)%nat ->
      j ∈ keep \/
      exists i, i ∈ keep /\ (i < j)%nat /\
                ((i, j) ∈ query_pairs radius scaled \/
                 (j, i) ∈ query_pairs radius scaled).
Proof.
  intros Hrun.
  destruct (run_Ok query_pairs kind points radius resolution ndim classes
              r rows Hrun) as (scaled & Hscale & Hlen & Hrows & Hkeep & _).
  exists scaled, (kept_indices query_pairs radius scaled).
  split; [by apply scale_points_scaled_by|]. split; [done|].
  intros j Hj. unfold kept_indices.
  destruct (Nat.eqb_spec (length scaled) 0) as [H0|H0]; [lia|].
  destruct (keep_loop_seq (build_neighbors (query_pairs radius scaled))
              (length scaled)) as (Hsub & _ & Hdom).
  destruct (Hdom j ltac:(lia)) as [Hin|(i & Hi & Hij & Hn)]; [by left|right].
  exists i. do 2 (split; [done|]). by apply neighbors_get_build.
Qed.

(** Two points three steps apart with the first column in units of one
    half: the second is 1.5 from the first, within the radius 2, and is
    dropped. *)
Lemma dropped_points_are_reported_close_to_an_earlier_kept_point_witness :
  remove_close_points (C := unit) all_pairs FloatArray
    [[0; 0; 0]; [3; 0; 0]]%float 2 [0.5; 1; 1]%float None 3
  = Ok (Points [[0; 0; 0]%float], [[0; 0; 0]; [3; 0; 0]]%float) /\
  exists scaled keep,
    Forall2 (scaled_by 3 [0.5; 1; 1]%float)
            [[0; 0; 0]; [3; 0; 0]]%float scaled /\
    Forall2 (fun i p => [[0; 0; 0]; [3; 0; 0]]%float !! i = Some p) keep
            [[0; 0; 0]%float] /\
    forall j, (j < 2)%nat ->
      j ∈ keep \/
      exists i, i ∈ keep /\ (i < j)%nat /\
                ((i, j) ∈ all_pairs 2 scaled \/ (j, i) ∈ all_pairs 2 scaled).
Proof.
  assert (Hrun : remove_close_points (C := unit) all_pairs FloatArray
                   [[0; 0; 0]; [3; 0; 0]]%float 2 [0.5; 1; 1]%float None 3
                 = Ok (Points [[0; 0; 0]%float],
                       [[0; 0; 0]; [3; 0; 0]]%float))
    by (vm_compute; reflexivity).
  split; [exact Hrun|].
  apply (dropped_points_are_reported_close_to_an_earlier_kept_point
           all_pairs FloatArray [[0; 0; 0]; [3; 0; 0]]%float 2
           [0.5; 1; 1]%float None 3 _ _ Hrun).
Defined.

(** X8.  Called on a float array the function leaves the array as it was
    and returns rows of it as they were given.  Called on a Python list of
    rows it scales the rows of the caller's list by [resolution] and
    returns rows of the scaled list. *)
Theorem remove_close_points_scales_the_rows_of_a_list
    (query_pairs : float -> list (list float) -> list (nat * nat)) {C}
    (kind : container) (points : list (list float)) (radius : float)
    (resolution : list float) (classes : option (list C)) (ndim : Z)
    (r : close_output C) (rows : list (list float)) :
  remove_close_points query_pairs kind points radius resolution classes ndim
    = Ok (r, rows) ->
  match kind with
  | FloatArray => rows = points
  | RowList => Forall2 (scaled_by ndim resolution) points rows
  end /\
  forall p, p ∈ output_points r -> p ∈ rows.
Proof.
  intros Hrun.
  destruct (run_Ok query_pairs kind points radius resolution ndim classes
              r rows Hrun) as (scaled & Hscale & Hlen & Hrows & Hkeep & _).
  split.
  - destruct kind; [done|]. subst rows. by apply scale_points_scaled_by.
  - intros p Hp. apply list_elem_of_lookup in Hp as [a Ha].
    destruct (Forall2_lookup_r _ _ _ _ _ Hkeep Ha) as (i & _ & Hi).
    by eapply list_elem_of_lookup_2.
Qed.

(** The example points as a list, with all columns in units of 2: what is
    returned, and what the list holds afterwards, are the doubled rows. *)
Lemma remove_close_points_scales_the_rows_of_a_list_witness :
  remove_close_points (C := unit) all_pairs RowList example_points 2
    [2; 2; 2]%float None 3
  = Ok (Points [[0; 0; 0]; [20; 0; 0]; [0; 6; 0]]%float,
        [[0; 0; 0]; [2; 0; 0]; [20; 0; 0]; [0; 6; 0]]%float) /\
  Forall2 (scaled_by 3 [2; 2; 2]%float) example_points
          [[0; 0; 0]; [2; 0; 0]; [20; 0; 0]; [0; 6; 0]]%float /\
  forall p, p ∈ [[0; 0; 0]; [20; 0; 0]; [0; 6; 0]]%float ->
            p ∈ [[0; 0; 0]; [2; 0; 0]; [20; 0; 0]; [0; 6; 0]]%float.
Proof.
  assert (Hrun : remove_close_points (C := unit) all_pairs RowList
                   example_points 2 [2; 2; 2]%float None 3
                 = Ok (Points [[0; 0; 0]; [20; 0; 0]; [0; 6; 0]]%float,
                       [[0; 0; 0]; [2; 0; 0]; [20; 0; 0]; [0; 6; 0]]%float))
    by (vm_compute; reflexivity).
  split; [exact Hrun|].
  apply (remove_close_points_scales_the_rows_of_a_list all_pairs RowList
           example_points 2 [2; 2; 2]%float None 3 _ _ Hrun).
Defined.

(** X9.  With [classes] given and at least one point, the function returns
    the pair of the kept points and their classes: the same points as
    without [classes], and at every place of the returned lists the class
    is the one given for the point returned there. *)
Theorem remove_close_points_keeps_classes_aligned
    (query_pairs : float -> list (list float) -> list (nat * nat)) {C}
    (kind : container) (points : list (list float)) (radius : float)
    (resolution : list float) (classes : list C) (ndim : Z)
    (r : close_output C) (rows : list (list float)) :
  points <> [] ->
  remove_close_points query_pairs kind points radius resolution
    (Some classes) ndim = Ok (r, rows) ->
  exists out cls keep,
    r = PointsAndClasses out cls /\
    remove_close_points (C := C) query_pairs kind points radius resolution
      None ndim = Ok (Points out, rows) /\
    Forall2 (fun i p => rows !! i = Some p) keep out /\
    Forall2 (fun i c => classes !! i = Some c) keep cls.
Proof.
  intros Hne Hrun.
  destruct (run_Ok query_pairs kind points radius resolution ndim _ r rows
              Hrun) as (scaled & Hscale & Hlen & Hrows & Hkeep & Hcl).
  destruct (Hcl Hne) as (cls & Hr & Hcls).
  exists (output_points r), cls, (kept_indices query_pairs radius scaled).
  split; [exact Hr|]. split; [|done].
  unfold remove_close_points. rewrite Hscale. cbn [mbind result_bind].
  unfold kept_indices in Hkeep. rewrite <- Hrows.
  destruct (Nat.eqb_spec (length scaled) 0) as [H0|H0].
  { destruct points; [done|simpl in *; lia]. }
  rewrite (mapM_Ok_of_Forall2 _ _ (output_points r)); [done|].
  eapply Forall2_impl; [exact Hkeep|].
  intros i p Hi. cbn in Hi. by rewrite Hi.
Qed.

Lemma remove_close_points_keeps_classes_aligned_witness :
  exists out cls,
    remove_close_points all_pairs FloatArray example_points 2
      [1; 1; 1]%float (Some example_classes) 3
    = Ok (PointsAndClasses out cls, example_points) /\
    length out = length cls /\ cls = [7; 9; 10].
Proof.
  destruct (remove_close_points all_pairs FloatArray example_points 2
              [1; 1; 1]%float (Some example_classes) 3)
    as [[r rows]|e] eqn:E; [|vm_compute in E; discriminate].
  assert (Hrows : rows = example_points).
  { assert (H : snd <$> remove_close_points all_pairs FloatArray
                          example_points 2 [1; 1; 1]%float
                          (Some example_classes) 3
                = Ok example_points) by (vm_compute; reflexivity).
    rewrite E in H. cbn in H. by injection H. }
  subst rows.
  destruct (remove_close_points_keeps_classes_aligned all_pairs FloatArray
              example_points 2 [1; 1; 1]%float example_classes 3 r
              example_points)
    as (out & cls & keep & -> & _ & Hp & Hc); [discriminate|exact E|].
  exists out, cls. split; [reflexivity|].
  split; [by rewrite <- (Forall2_length _ _ _ Hp), (Forall2_length _ _ _ Hc)|].
  assert (H : (fun r => match r.1 with
                        | PointsAndClasses _ c => c
                        | Points _ => []
                        end) <$>
              remove_close_points all_pairs FloatArray example_points 2
                [1; 1; 1]%float (Some example_classes) 3 = Ok [7; 9; 10])
    by (vm_compute; reflexivity).
  rewrite E in H. cbn in H. by injection H.
Defined.

End ClosePointsMore.

(** ** Watershed: thresholds, masks and the dtype of the result *)

Module WatershedMore.
Import NdArray Watershed WatershedKeys WatershedProofs.

#[local] Set Warnings "-clear-no-such-hyp".

Ltac split_binds H :=
  repeat match type of H with
    | (?m ≫= _) = Some _ =>
        let E := fresh "E" in
        destruct m as [?|] eqn:E; cbn [mbind option_bind] in H; [|done]
    | (let '(_, _) := ?p in _) = Some _ => destruct p
    | match ?x with _ => _ end = Some _ => destruct x eqn:?; [|done..]
    end.

(** X10.  [watershed_by_channels] returns only if [ths] holds every
    threshold its mode reads: TH1, TH2, TH3 for BC and BCM; TH_POINTS, TH3
    for BP; TH1 to TH5 for BCD; TH1, TH2, TH4 for BCDv2; TH1, TH4 for BDv2;
    TH4 for Dv2.  With a key missing (as with the default [ths={}]) the
    call ends in an exception. *)
Theorem watershed_needs_the_thresholds_of_its_mode
    (binary_dilation_disk binary_erosion_disk : Z -> ndarray bool -> ndarray bool)
    (binary_dilation_2 : ndarray bool -> ndarray bool)
    (distance_transform_edt : ndarray bool -> ndarray Q)
    (label : ndarray Z -> ndarray Z)
    (centroids : ndarray Z -> list (list Q))
    (watershed : ndarray Q -> ndarray Z -> option (ndarray bool) -> ndarray Z)
    (data : ndarray Q) (o : ws_options) (r : dtype * ndarray Z) :
  watershed_by_channels binary_dilation_disk binary_erosion_disk
    binary_dilation_2 distance_transform_edt label centroids watershed data o
    = Some r ->
  Forall (fun name => is_Some (ths o !! name)) (required_ths (channels o)).
Proof.
  unfold watershed_by_channels. intros H.
  destruct (seeds_and_foreground _ _ _ _ _ _ data o) as [[[sem sm] fg]|]
    eqn:Hseeds; [|done].
  clear H. unfold seeds_and_foreground in Hseeds.
  destruct (channels o); split_binds Hseeds; cbn [required_ths];
    repeat (apply Forall_cons; split); try apply Forall_nil;
    eexists; eassumption.
Qed.

(** Mode BC on the four-voxel example with its three thresholds. *)
Lemma watershed_needs_the_thresholds_of_its_mode_witness :
  exists r,
    watershed_by_channels no_morph no_morph id unit_edt id (fun _ => [])
      masked_markers example_data example_options = Some r /\
    Forall (fun name => is_Some (ths example_options !! name))
           ["TH1"; "TH2"; "TH3"].
Proof.
  destruct (watershed_by_channels no_morph no_morph id unit_edt id
              (fun _ => []) masked_markers example_data example_options)
    as [r|] eqn:E; [|vm_compute in E; discriminate].
  exists r. split; [reflexivity|].
  apply (watershed_needs_the_thresholds_of_its_mode _ _ _ _ _ _ _ _ _ _ E).
Defined.

(** *** The maximum label and the chosen dtype *)

Lemma fold_left_max_ge r : forall x,
  x <= fold_left Z.max r x /\ Forall (fun y => y <= fold_left Z.max r x) r.
Proof.
  induction r as [|y r IH]; intros x; cbn [fold_left].
  - split; [lia|constructor].
  - destruct (IH (Z.max x y)) as [H1 H2]. split; [lia|].
    constructor; [lia|done].
Qed.

Lemma nd_max_ge (a : ndarray Z) m idx :
  nd_max a = Some m -> in_range idx (shape a) -> get a idx <= m.
Proof.
  unfold nd_max, ravel. intros H Hin.
  apply NdArrayFacts.in_indices in Hin.
  apply (in_map (get a)) in Hin.
  destruct (map (get a) (indices (shape a))) as [|x r]; [done|].
  injection H as <-.
  destruct (fold_left_max_ge r x) as [Hx Hr].
  destruct Hin as [<-|Hin]; [done|].
  rewrite Forall_forall in Hr. apply Hr. by apply list_elem_of_In.
Qed.

Lemma nd_max_le (a : ndarray Z) m bound :
  nd_max a = Some m ->
  (forall idx, in_range idx (shape a) -> get a idx <= bound) ->
  m <= bound.
Proof.
  unfold nd_max, ravel. intros H Hb.
  destruct (map (get a) (indices (shape a))) as [|x r] eqn:E; [done|].
  injection H as <-.
  assert (Hall : Forall (fun v => v <= bound) (x :: r)).
  { rewrite <- E. apply Forall_forall. intros v Hv.
    apply list_elem_of_In, in_map_iff in Hv as (i & <- & Hi).
    apply NdArrayFacts.in_indices in Hi. by apply Hb. }
  apply Forall_cons in Hall as [Hx Hr]. clear E.
  revert x Hx. induction Hr as [|y r Hy _ IH]; intros x Hx; [done|].
  cbn [fold_left]. apply IH. lia.
Qed.

(** X11.  The conversion to the chosen dtype loses nothing: when the labels
    of the segmentation are non-negative and fit [uint32], every voxel of
    the returned array holds the label the watershed (and the small-object
    removal) gave it, and that label fits the returned dtype. *)
Theorem watershed_dtype_conversion_keeps_the_labels
    (binary_dilation_disk binary_erosion_disk : Z -> ndarray bool -> ndarray bool)
    (binary_dilation_2 : ndarray bool -> ndarray bool)
    (distance_transform_edt : ndarray bool -> ndarray Q)
    (label : ndarray Z -> ndarray Z)
    (centroids : ndarray Z -> list (list Q))
    (watershed : ndarray Q -> ndarray Z -> option (ndarray bool) -> ndarray Z)
    (data : ndarray Q) (o : ws_options)
    (semantic : ndarray Q) (seed_map : ndarray Z)
    (foreground : option (ndarray bool)) (d : dtype) (segm : ndarray Z) :
  seeds_and_foreground binary_dilation_disk binary_erosion_disk
    binary_dilation_2 distance_transform_edt label centroids data o
    = Some (semantic, seed_map, foreground) ->
  watershed_by_channels binary_dilation_disk binary_erosion_disk
    binary_dilation_2 distance_transform_edt label centroids watershed data o
    = Some (d, segm) ->
  let grown := grow watershed o semantic seed_map foreground in
  (forall idx, in_range idx (shape grown) ->
               0 <= get grown idx <= dtype_max uint32) ->
  shape segm = shape grown /\
  forall idx, in_range idx (shape grown) ->
    get segm idx = get grown idx /\ 0 <= get segm idx <= dtype_max d.
Proof.
  intros Hseeds Hrun grown Hrange.
  unfold watershed_by_channels in Hrun. rewrite Hseeds in Hrun.
  cbn [mbind option_bind] in Hrun. fold grown in Hrun.
  destruct (nd_max grown) as [max_value|] eqn:Hmax; [|done].
  cbn [mbind option_bind] in Hrun. injection Hrun as <- <-.
  split; [done|]. intros idx Hin. cbn [get nd_map].
  pose proof (nd_max_ge grown max_value idx Hmax Hin) as Hle.
  destruct (Hrange idx Hin) as [H0 H32].
  assert (Hm : 0 <= max_value <= dtype_max uint32).
  { split; [lia|]. apply (nd_max_le grown); [done|].
    intros i Hi. by apply Hrange. }
  pose proof (choose_dtype_represents max_value Hm) as Hd.
  assert (Hmod : astype (choose_dtype max_value) (get grown idx)
                 = get grown idx).
  { unfold astype. apply Z.mod_small. unfold dtype_max in Hd. lia. }
  rewrite Hmod. split; [done|lia].
Qed.

Lemma watershed_dtype_conversion_keeps_the_labels_witness :
  exists semantic seed_map foreground d segm,
    seeds_and_foreground no_morph no_morph id unit_edt id (fun _ => [])
      example_data example_options = Some (semantic, seed_map, foreground) /\
    watershed_by_channels no_morph no_morph id unit_edt id (fun _ => [])
      masked_markers example_data example_options = Some (d, segm) /\
    get segm [0%nat]
      = get (grow masked_markers example_options semantic seed_map foreground)
            [0%nat].
Proof.
  destruct (seeds_and_foreground no_morph no_morph id unit_edt id
              (fun _ => []) example_data example_options)
    as [[[semantic seed_map] foreground]|] eqn:E1;
    [|vm_compute in E1; discriminate].
  destruct (watershed_by_channels no_morph no_morph id unit_edt id
              (fun _ => []) masked_markers example_data example_options)
    as [[d segm]|] eqn:E2; [|vm_compute in E2; discriminate].
  exists semantic, seed_map, foreground, d, segm.
  split; [reflexivity|]. split; [reflexivity|].
  assert (Hsh : shape (grow masked_markers example_options semantic seed_map
                         foreground) = [4%nat]).
  { apply (option_fmap_Some
             (fun r : ndarray Q * ndarray Z * option (ndarray bool) =>
                shape (grow masked_markers example_options r.1.1 r.1.2 r.2))
             _ _ _ E1).
    vm_compute. reflexivity. }
  assert (Hval : forall i, (i < 4)%nat ->
            0 <= get (grow masked_markers example_options semantic seed_map
                        foreground) [i] <= dtype_max uint32).
  { intros i Hi.
    assert (H : (fun r : ndarray Q * ndarray Z * option (ndarray bool) =>
               forallb (fun i =>
                 let v := get (grow masked_markers example_options r.1.1
                                 r.1.2 r.2) [i] in
                 (0 <=? v) && (v <=? dtype_max uint32)) (seq 0 4)) <$>
             seeds_and_foreground no_morph no_morph id unit_edt id
               (fun _ => []) example_data example_options = Some true)
      by (vm_compute; reflexivity).
    rewrite E1 in H. cbn [fmap option_fmap option_map] in H.
    injection H as H. cbv beta in H. cbn [fst snd] in H.
    rewrite !andb_true_iff, !Z.leb_le in H.
    destruct i as [|[|[|[|i]]]]; [..|lia]; tauto. }
  destruct (watershed_dtype_conversion_keeps_the_labels
              _ _ _ _ _ _ _ _ _ _ _ _ _ _ E1 E2) as [_ Hget].
  - intros idx Hin. rewrite Hsh in Hin.
    inversion Hin as [|i n l l' Hi Hl]; subst. inversion Hl; subst.
    by apply Hval.
  - apply Hget. rewrite Hsh. repeat constructor.
Defined.

(** X12.  Only the modes BC, BCM, BCD and BP hand a foreground mask to the
    watershed; in the modes BCDv2, BDv2 and Dv2 it is always run with
    [mask=None], whatever the options. *)
Theorem watershed_mask_exists_only_in_the_first_modes
    (binary_dilation_disk binary_erosion_disk : Z -> ndarray bool -> ndarray bool)
    (binary_dilation_2 : ndarray bool -> ndarray bool)
    (distance_transform_edt : ndarray bool -> ndarray Q)
    (label : ndarray Z -> ndarray Z)
    (centroids : ndarray Z -> list (list Q))
    (data : ndarray Q) (o : ws_options)
    (semantic : ndarray Q) (seed_map : ndarray Z)
    (foreground : option (ndarray bool)) :
  seeds_and_foreground binary_dilation_disk binary_erosion_disk
    binary_dilation_2 distance_transform_edt label centroids data o
    = Some (semantic, seed_map, foreground) ->
  (is_Some foreground <-> channels o ∈ [BC; BCM; BCD; BP]) /\
  (foreground = None <-> channels o ∈ [BCDv2; BDv2; Dv2]).
Proof.
  intros H. apply foreground_mask_modes in H.
  rewrite !elem_of_cons, !elem_of_nil.
  destruct (channels o).
  1-3,7: destruct H as [fg ->]; (split; split; intros Hx);
    [naive_solver|by eexists|done|naive_solver].
  all: subst foreground; (split; split; intros Hx);
    [by destruct Hx|naive_solver|naive_solver|done].
Qed.

Lemma watershed_mask_exists_only_in_the_first_modes_witness :
  exists semantic seed_map foreground,
    seeds_and_foreground no_morph no_morph id unit_edt id (fun _ => [])
      example_data example_options = Some (semantic, seed_map, foreground) /\
    is_Some foreground.
Proof.
  destruct (seeds_and_foreground no_morph no_morph id unit_edt id
              (fun _ => []) example_data example_options)
    as [[[semantic seed_map] foreground]|] eqn:E1;
    [|vm_compute in E1; discriminate].
  exists semantic, seed_map, foreground. split; [reflexivity|].
  apply (watershed_mask_exists_only_in_the_first_modes _ _ _ _ _ _ _ _ _ _ _ E1).
  by left.
Defined.

End WatershedMore.

(** ** Circularity filtering: the paths that cannot finish *)

Module CircularityMore.
Import NdArray Circularity CircularityProofs.

(** *** Images that are not volumes *)

(** On the single slice of an image every measured region raises:
    [circularities[j]] is reached with [j] never assigned (or, before it,
    a bounding-box column is missing). *)
Lemma measure_region_image diam_calc labels st p :
  exists e, measure_region false diam_calc labels 0 st p = Raise e.
Proof.
  unfold measure_region. destruct diam_calc; cbn.
  - by eexists.
  - destruct (diam2 (sp_bbox p)) as [d|e]; cbn; by eexists.
Qed.

Lemma for_each_Ok_nil {S X} (body : S -> X -> result S) l s s' :
  (forall s x, exists e, body s x = Raise e) ->
  for_each body l s = Ok s' -> l = [].
Proof.
  intros Hbody Hrun. destruct l as [|x l]; [done|].
  destruct (Hbody s x) as [e He]. cbn in Hrun. rewrite He in Hrun. done.
Qed.

(** X13.  On an image that is not three-dimensional the function returns
    only when [regionprops_table] finds no region at all: as soon as the
    image holds one region the call ends in an exception, so no instance of
    a 2D image is ever measured or removed. *)
Theorem circularity_filter_fails_on_images_with_regions
    (regionprops_slice : ndarray Z -> list slice_prop)
    (regionprops_bbox : ndarray Z -> list bbox_prop) (nep50 : bool)
    (img : ndarray Z) (resolution : list Q) (coords : option (list (list Z)))
    (circularity_th : Q) (out : circ_output) :
  ndim img <> 3%nat ->
  remove_instance_by_circularity_central_slice
    regionprops_slice regionprops_bbox nep50 img resolution coords
    circularity_th
    = Ok out ->
  regionprops_slice (sub0 0 (expand_first img)) = [] /\
  (coords = None -> regionprops_bbox img = []).
Proof.
  intros Hdim Hrun.
  unfold remove_instance_by_circularity_central_slice in Hrun.
  apply Nat.eqb_neq in Hdim. rewrite Hdim in Hrun.
  apply bind_Ok in Hrun as ([[labels areas] st0] & Hinit & Hrun).
  apply bind_Ok in Hrun as (st & Hloop & _).
  split.
  - unfold main_loop, as_volume in Hloop.
    cbn [expand_first shape hd seq for_each] in Hloop.
    apply bind_Ok in Hloop as (st1 & Hslice & _).
    eapply for_each_Ok_nil; [|exact Hslice].
    intros s p. apply measure_region_image.
  - intros ->. unfold init_central_slices in Hinit.
    apply bind_Ok in Hinit as ([[a c] d] & Hbb & _).
    eapply for_each_Ok_nil; [|exact Hbb].
    intros [[a0 c0] d0] p.
    destruct (or_raise ValueError
                (list_index (bp_label p) (tl (np_unique (ravel img)))))
      as [label_index|e] eqn:E1; cbn; [|by eexists].
    destruct (or_raise IndexError _) as [pixels|e]; cbn; [|by eexists].
    destruct (sum_resolution false resolution) as [res|e]; cbn;
      [|by eexists].
    destruct (diam2 (bp_bbox p)) as [diam|e]; cbn; by eexists.
Qed.

(** An empty 2x2 image: nothing is found, and the empty lists are
    returned. *)
Lemma circularity_filter_fails_on_images_with_regions_witness :
  exists out,
    remove_instance_by_circularity_central_slice
      (fun _ => []) (fun _ => []) false (full [2; 2]%nat 0) [1; 1]%Q None
      (7 # 10)
    = Ok out /\
    out_labels out = [].
Proof.
  destruct (remove_instance_by_circularity_central_slice
              (fun _ => []) (fun _ => []) false (full [2; 2]%nat 0) [1; 1]%Q
              None
              (7 # 10)) as [out|e] eqn:E; [|vm_compute in E; discriminate].
  exists out. split; [reflexivity|].
  destruct (circularity_filter_fails_on_images_with_regions
              (fun _ => []) (fun _ => []) false (full [2; 2]%nat 0) [1; 1]%Q
              None
              (7 # 10) out) as [_ _]; [discriminate|exact E|].
  eapply result_fmap_Ok; [exact E|]. vm_compute. reflexivity.
Defined.

(** The 2x2 image with one labelled pixel, measured as one region: the
    call raises. *)
Example image_with_a_region_raises :
  remove_instance_by_circularity_central_slice
    (fun _ => [circle_prop 1 5]) (fun _ => [mk_bbox_prop 1 [0; 0; 1; 1]])
    false (of_list 0 [2; 2]%nat [1; 0; 0; 0]) [1; 1]%Q None (7 # 10)
  = Raise UnboundLocalError.
Proof. vm_compute. reflexivity. Qed.

(** *** Volumes with [coords_list] *)

(** With [coords_list] given, the diameter of every region of a slice is
    read from the columns [bbox-0] to [bbox-5] of the table of that slice,
    which has four. *)
Lemma measure_region_with_coords labels i st p :
  length (sp_bbox p) = 4%nat ->
  exists e, measure_region true false labels i st p = Raise e.
Proof.
  intros Hlen. unfold measure_region. cbn [negb].
  destruct (or_raise ValueError (list_index (sp_label p) labels))
    as [j|e]; cbn; [|by eexists].
  destruct (or_raise IndexError (coords_list st !! j)) as [coord_j|e]; cbn;
    [|by eexists].
  assert (Hd : exists e, diam3 (sp_bbox p) = Raise e).
  { destruct (sp_bbox p) as [|b0 [|b1 [|b2 [|b3 [|b4 l]]]]]; try done.
    cbn. by eexists. }
  destruct Hd as [e ->]. cbn. by eexists.
Qed.

Lemma slices_Ok_no_region {S} (props : nat -> list slice_prop)
    (body : nat -> S -> slice_prop -> result S) l : forall s s',
  (forall i s p, p ∈ props i -> exists e, body i s p = Raise e) ->
  for_each (fun s i => for_each (body i) (props i) s) l s = Ok s' ->
  forall i, i ∈ l -> props i = [].
Proof.
  induction l as [|k l IH]; intros s s' Hbody Hrun i Hi.
  - by apply elem_of_nil in Hi.
  - cbn [for_each] in Hrun. apply bind_Ok in Hrun as (s1 & Hk & Hrun).
    apply elem_of_cons in Hi as [->|Hi]; [|by eapply IH].
    destruct (props k) as [|p ps] eqn:E; [done|].
    destruct (Hbody k s p) as [e He]; [rewrite E; by left|].
    cbn in Hk. rewrite He in Hk. done.
Qed.

(** X14.  On a volume with [coords_list] given the function returns only
    when no slice holds a region: the first region met in the main loop
    raises [KeyError] for the column [bbox-4] of a 2D table (or, before
    it, the error of a label that is at none of the coordinates). *)
Theorem circularity_filter_with_coords_fails_on_volumes_with_regions
    (regionprops_slice : ndarray Z -> list slice_prop)
    (regionprops_bbox : ndarray Z -> list bbox_prop) (nep50 : bool)
    (img : ndarray Z) (resolution : list Q) (coords : list (list Z))
    (circularity_th : Q) (out : circ_output) :
  ndim img = 3%nat ->
  (forall i p, p ∈ regionprops_slice (sub0 i img) ->
               length (sp_bbox p) = 4%nat) ->
  remove_instance_by_circularity_central_slice
    regionprops_slice regionprops_bbox nep50 img resolution (Some coords)
    circularity_th = Ok out ->
  forall i, (i < hd 0%nat (shape img))%nat ->
            regionprops_slice (sub0 i img) = [].
Proof.
  intros Hdim Hbbox Hrun i Hi.
  unfold remove_instance_by_circularity_central_slice in Hrun.
  apply Nat.eqb_eq in Hdim. rewrite Hdim in Hrun.
  apply bind_Ok in Hrun as ([[labels areas] st0] & Hinit & Hrun).
  apply bind_Ok in Hrun as (st & Hloop & _).
  unfold main_loop, as_volume in Hloop.
  eapply (slices_Ok_no_region
            (fun i => regionprops_slice (sub0 i img))
            (fun i => measure_region true false labels i));
    [|exact Hloop|apply elem_of_seq; lia].
  intros k s p Hp. apply measure_region_with_coords. by eapply Hbbox.
Qed.

(** An empty 2x1x1 volume with an empty list of coordinates. *)
Lemma circularity_filter_with_coords_fails_on_volumes_with_regions_witness :
  exists out,
    remove_instance_by_circularity_central_slice
      (fun _ => []) (fun _ => []) false (full [2; 1; 1]%nat 0) [1; 1; 1]%Q
      (Some []) (7 # 10) = Ok out /\
    out_labels out = [].
Proof.
  destruct (remove_instance_by_circularity_central_slice
              (fun _ => []) (fun _ => []) false (full [2; 1; 1]%nat 0)
              [1; 1; 1]%Q
              (Some []) (7 # 10)) as [out|e] eqn:E;
    [|vm_compute in E; discriminate].
  exists out. split; [reflexivity|].
  pose proof (circularity_filter_with_coords_fails_on_volumes_with_regions
                (fun _ => []) (fun _ => []) false (full [2; 1; 1]%nat 0)
                [1; 1; 1]%Q [] (7 # 10) out eq_refl
                (fun i p (H : p ∈ []) => False_ind _ (not_elem_of_nil p H))
                E 0%nat ltac:(simpl; lia)) as _.
  eapply result_fmap_Ok; [exact E|]. vm_compute. reflexivity.
Defined.

(** The example stack with the coordinate of its instance: the call
    raises. *)
Example volume_with_coords_raises :
  remove_instance_by_circularity_central_slice
    example_slice_props example_bbox_props false example_stack [1; 1; 1]%Q
    (Some [[2; 0; 0]]) (7 # 10) = Raise KeyError.
Proof. vm_compute. reflexivity. Qed.

End CircularityMore.

(** ** Filling the unlabelled foreground: what is left alone *)

Module VoronoiMore.
Import NdArray Voronoi VoronoiProofs.

Lemma voronoi_on_mask_shape
    (label : ndarray Z -> ndarray Z)
    (binary_dilation_2 binary_erosion_2 : ndarray bool -> ndarray bool)
    (query : list (list Q) -> list Q -> nat)
    (data : ndarray Z) (mask : ndarray Q) (filenames : option (list string))
    (th : Q) (thres_small : Z) (out : ndarray Z) :
  voronoi_on_mask label binary_dilation_2 binary_erosion_2 query data mask
    filenames th thres_small = Ok out ->
  shape out = shape data.
Proof.
  unfold voronoi_on_mask. intros Hrun.
  destruct (negb (ndim data =? 4)%nat); [done|].
  destruct (negb (ndim mask =? 5)%nat); [done|].
  destruct (List.last (shape mask) 0 <? 2)%nat; [done|].
  destruct (match filenames with
            | Some fs => negb (length fs =? hd 0 (shape data))%nat
            | None => false
            end); [done|].
  revert Hrun.
  apply (CircularityProofs.for_each_inv (fun d => shape d = shape data));
    [|done].
  intros d i d' _ Hd Hstep.
  destruct (negb (i <? hd 0 (shape mask))%nat); [done|].
  destruct (voronoi_image _ _ _ _ _ _ _ _) as [image|e]; [|done].
  cbn in Hstep. injection Hstep as <-. exact Hd.
Qed.

(** X15.  [voronoi_on_mask] returns an array of the shape of [data] in
    which every voxel that the XOR of [_data[i] > 0] with the cleaned mask
    does not select has the value it has in [data]: labelled voxels inside
    the mask and background voxels outside it are never touched. *)
Theorem voronoi_changes_only_the_selected_voxels
    (label : ndarray Z -> ndarray Z)
    (binary_dilation_2 binary_erosion_2 : ndarray bool -> ndarray bool)
    (query : list (list Q) -> list Q -> nat)
    (data : ndarray Z) (mask : ndarray Q) (filenames : option (list string))
    (th : Q) (thres_small : Z) (out : ndarray Z) :
  voronoi_on_mask label binary_dilation_2 binary_erosion_2 query data mask
    filenames th thres_small = Ok out ->
  shape out = shape data /\
  forall i pos,
    (i < hd 0%nat (shape data))%nat ->
    in_range pos (shape (sub0 i data)) ->
    get (not_labelled (sub0 i data)
           (cleaned_mask label binary_dilation_2 binary_erosion_2 th
              thres_small (take_last 0 (sub0 i mask)))) pos = false ->
    get out (i :: pos) = get data (i :: pos).
Proof.
  intros Hrun. split; [by eapply voronoi_on_mask_shape|].
  intros i pos Hi Hpos Hsel.
  by eapply voronoi_keeps_the_other_voxels.
Qed.

(** In the example the first voxel, labelled 5 and inside the mask, keeps
    its label. *)
Lemma voronoi_changes_only_the_selected_voxels_witness :
  exists out,
    voronoi_on_mask id id id nearest_index example_row example_row_mask None
      (3 # 10) 1 = Ok out /\
    shape out = [1; 1; 1; 8]%nat /\ get out [0; 0; 0; 0]%nat = 5.
Proof.
  destruct (voronoi_on_mask id id id nearest_index example_row
              example_row_mask None (3 # 10) 1) as [out|e] eqn:E;
    [|vm_compute in E; discriminate].
  exists out. split; [reflexivity|].
  destruct (voronoi_changes_only_the_selected_voxels
              id id id nearest_index example_row example_row_mask None
              (3 # 10) 1 out E) as [Hsh Hget].
  split; [exact Hsh|].
  apply (Hget 0%nat [0; 0; 0]%nat).
  - simpl. lia.
  - repeat constructor.
  - reflexivity.
Defined.

End VoronoiMore.

(** ** [apply_binary_mask] *)

Module BinaryMaskProofs.
Import NdArray BinaryMask.

Lemma mask_factor_idem mask pos :
  (mask_factor mask pos * mask_factor mask pos == mask_factor mask pos)%Q.
Proof. unfold mask_factor. destruct (0 <? _); ring. Qed.

(** A loop of masked assignments multiplies once the positions that one of
    its steps selects. *)
Lemma for_each_masked {X} (sh : list nat) (f : list nat -> Q)
    (sel : X -> list nat -> bool)
    (step : ndarray Q -> X -> result (ndarray Q)) l :
  (forall idx, f idx * f idx == f idx)%Q ->
  (forall A x A', shape A = sh -> step A x = Ok A' ->
     shape A' = sh /\
     forall idx, (get A' idx == if sel x idx then get A idx * f idx
                                else get A idx)%Q) ->
  forall A A', shape A = sh -> for_each step l A = Ok A' ->
    shape A' = sh /\
    forall idx, (get A' idx == if existsb (fun x => sel x idx) l
                               then get A idx * f idx else get A idx)%Q.
Proof.
  intros Hf Hstep. induction l as [|x l IH]; intros A A' Hsh Hrun.
  - cbn in Hrun. injection Hrun as <-. split; [done|]. intros idx.
    reflexivity.
  - cbn [for_each] in Hrun.
    apply CircularityProofs.bind_Ok in Hrun as (A1 & H1 & Hrun).
    destruct (Hstep A x A1 Hsh H1) as [Hsh1 Hget1].
    destruct (IH A1 A' Hsh1 Hrun) as [Hsh' Hget'].
    split; [done|]. intros idx. cbn [existsb].
    rewrite Hget'. pose proof (Hget1 idx) as H1i.
    destruct (sel x idx), (existsb _ l); cbn [orb]; rewrite H1i;
      try reflexivity.
    rewrite <- Qmult_assoc, Hf. reflexivity.
Qed.

Lemma in_range_last idx sh :
  in_range idx sh -> sh <> [] ->
  (List.last idx 0 < List.last sh 0)%nat /\ (hd 0 idx < hd 0 sh)%nat.
Proof.
  unfold in_range. intros H Hne. split.
  - induction H as [|i n idx sh Hi H IH]; [done|].
    destruct H as [|j m idx sh Hj H]; [done|].
    apply IH. done.
  - destruct H; [done|done].
Qed.

Lemma existsb_seq_eqb (c C : nat) :
  (c < C)%nat -> existsb (fun x => (c =? x)%nat) (seq 0 C) = true.
Proof.
  intros H. apply existsb_exists. exists c.
  split; [apply in_seq; lia|apply Nat.eqb_refl].
Qed.

(** One mask file multiplies every position of [X] by the factor of the
    mask position that meets it. *)
Lemma apply_mask_file_Ok X m X' :
  (3 <= ndim X)%nat ->
  apply_mask_file X m = Ok X' ->
  shape X' = shape X /\
  forall idx, in_range idx (shape X) ->
    (get X' idx
     == get X idx * mask_factor (squeeze m) (mask_position X m idx))%Q.
Proof.
  intros Hdim. unfold apply_mask_file, mask_position.
  set (mask := squeeze m).
  destruct (negb _ && negb _); [done|].
  assert (Hne : shape X <> []).
  { intros E. unfold ndim in Hdim. rewrite E in Hdim. cbn in Hdim. lia. }
  destruct (ndim mask =? ndim X - 1)%nat.
  - intros Hrun.
    destruct (for_each_masked (shape X)
                (fun idx => mask_factor mask (removelast idx))
                (fun c idx => (List.last idx 0 =? c)%nat)
                (mask_channel mask) (seq 0 (List.last (shape X) 0%nat)))
      with (A := X) (A' := X') as [Hsh Hget]; try done.
    + intros idx. apply mask_factor_idem.
    + intros A c A' HA Hstep. unfold mask_channel in Hstep.
      destruct (shape_eqb _ _); [|done]. injection Hstep as <-.
      split; [done|]. intros idx. reflexivity.
    + split; [done|]. intros idx Hin. rewrite Hget.
      destruct (in_range_last idx (shape X) Hin Hne) as [Hl _].
      rewrite existsb_seq_eqb by done. reflexivity.
  - intros Hrun.
    destruct (for_each_masked (shape X)
                (fun idx => mask_factor mask (removelast (tl idx)))
                (fun k idx =>
                   existsb (fun c => (hd 0 idx =? k)%nat
                                     && (List.last idx 0 =? c)%nat)
                           (seq 0 (List.last (shape X) 0%nat)))
                (fun X k => for_each (mask_channel_of mask k)
                                     (seq 0 (List.last (shape X) 0%nat)) X)
                (seq 0 (hd 0%nat (shape X))))
      with (A := X) (A' := X') as [Hsh Hget]; try done.
    + intros idx. apply mask_factor_idem.
    + intros A k A' HA Hstep. rewrite HA in Hstep.
      eapply (for_each_masked (shape X)
                (fun idx => mask_factor mask (removelast (tl idx)))
                (fun c idx => (hd 0 idx =? k)%nat
                              && (List.last idx 0 =? c)%nat)
                (mask_channel_of mask k)); [| |exact HA|exact Hstep].
      * intros idx. apply mask_factor_idem.
      * intros B c B' HB Hc. unfold mask_channel_of in Hc.
        destruct (shape_eqb _ _); [|done]. injection Hc as <-.
        split; [done|]. intros idx. reflexivity.
    + split; [done|]. intros idx Hin. rewrite Hget.
      destruct (in_range_last idx (shape X) Hin Hne) as [Hl Hh].
      assert (E : existsb
                    (fun k => existsb
                       (fun c => (hd 0 idx =? k)%nat
                                 && (List.last idx 0 =? c)%nat)
                       (seq 0 (List.last (shape X) 0%nat)))
                    (seq 0 (hd 0%nat (shape X))) = true).
      { apply existsb_exists. exists (hd 0%nat idx).
        split; [apply in_seq; lia|].
        apply existsb_exists. exists (List.last idx 0%nat).
        split; [apply in_seq; lia|]. by rewrite !Nat.eqb_refl. }
      rewrite E. reflexivity.
Qed.

Lemma mask_position_shape X X' m idx :
  shape X' = shape X -> mask_position X' m idx = mask_position X m idx.
Proof. unfold mask_position, ndim. by intros ->. Qed.

Lemma for_each_mask_files masks : forall X X',
  (3 <= ndim X)%nat ->
  for_each apply_mask_file masks X = Ok X' ->
  shape X' = shape X /\
  forall idx, in_range idx (shape X) ->
    (get X' idx == if inside_all X masks idx then get X idx else 0)%Q.
Proof.
  induction masks as [|m masks IH]; intros X X' Hdim Hrun.
  - cbn in Hrun. injection Hrun as <-. split; [done|]. intros idx _.
    reflexivity.
  - cbn [for_each] in Hrun.
    apply CircularityProofs.bind_Ok in Hrun as (X1 & H1 & Hrun).
    destruct (apply_mask_file_Ok X m X1 Hdim H1) as [Hsh1 Hget1].
    destruct (IH X1 X') as [Hsh' Hget']; [|done|].
    { unfold ndim in *. by rewrite Hsh1. }
    split; [by rewrite Hsh', Hsh1|]. intros idx Hin.
    rewrite Hget' by (by rewrite Hsh1).
    pose proof (Hget1 idx Hin) as H1i.
    unfold inside_all. cbn [forallb].
    assert (E : forallb (fun m0 => 0 <? get (squeeze m0)
                                       (mask_position X1 m0 idx)) masks
                = forallb (fun m0 => 0 <? get (squeeze m0)
                                       (mask_position X m0 idx)) masks).
    { clear - Hsh1. induction masks as [|m0 masks IHm]; [done|].
      cbn [forallb]. by rewrite IHm, (mask_position_shape X X1). }
    rewrite E. clear E. unfold mask_factor in H1i.
    destruct (0 <? get (squeeze m) (mask_position X m idx));
      destruct (forallb _ masks); cbn [andb]; try rewrite H1i; ring.
Qed.

Lemma apply_binary_mask_shape_and_values
    (X X' : ndarray Q) (masks : list (ndarray Z)) :
  apply_binary_mask X masks = Ok X' ->
  shape X' = shape X /\
  forall idx, in_range idx (shape X) ->
    (get X' idx == if inside_all X masks idx then get X idx else 0)%Q.
Proof.
  unfold apply_binary_mask. intros Hrun.
  destruct (Nat.eqb_spec (ndim X) 4) as [H4|H4];
    [|destruct (Nat.eqb_spec (ndim X) 3) as [H3|H3]; [|done]];
    cbn [negb andb] in Hrun;
    (apply for_each_mask_files; [lia|done]).
Qed.



(** Whether a loop of shape-checked assignments finishes depends on the
    shape of the array only. *)
Lemma for_each_by_shape {X} (sh : list nat)
    (step : ndarray Q -> X -> result (ndarray Q)) l :
  (forall A B x A', shape A = sh -> shape B = sh -> step A x = Ok A' ->
     shape A' = sh /\ exists B', step B x = Ok B' /\ shape B' = sh) ->
  forall A B A', shape A = sh -> shape B = sh ->
    for_each step l A = Ok A' ->
    shape A' = sh /\ exists B', for_each step l B = Ok B' /\ shape B' = sh.
Proof.
  intros Hstep. induction l as [|x l IH]; intros A B A' HA HB Hrun.
  - cbn in Hrun. injection Hrun as <-. split; [done|]. by exists B.
  - cbn [for_each] in Hrun.
    apply CircularityProofs.bind_Ok in Hrun as (A1 & H1 & Hrun).
    destruct (Hstep A B x A1 HA HB H1) as (HA1 & B1 & HB1 & HshB1).
    destruct (IH A1 B1 A' HA1 HshB1 Hrun) as (HA' & B' & HB' & HshB').
    split; [done|]. exists B'. split; [|done].
    cbn [for_each]. rewrite HB1. exact HB'.
Qed.

Lemma apply_mask_file_by_shape (m : ndarray Z) (A B A' : ndarray Q) :
  shape B = shape A -> apply_mask_file A m = Ok A' ->
  shape A' = shape A /\
  exists B', apply_mask_file B m = Ok B' /\ shape B' = shape A.
Proof.
  intros HB. unfold apply_mask_file, ndim. rewrite HB.
  set (mask := squeeze m).
  destruct (negb _ && negb _); [done|].
  destruct (length (shape mask) =? length (shape A) - 1)%nat.
  - apply (for_each_by_shape (shape A)); [|done|done].
    intros A0 B0 c A0' HA0 HB0. unfold mask_channel. rewrite HA0, HB0.
    destruct (shape_eqb _ _); [|done]. injection 1 as <-.
    split; [done|]. eexists. by split.
  - apply (for_each_by_shape (shape A)
             (fun X k => for_each (mask_channel_of mask k)
                                  (seq 0 (List.last (shape X) 0%nat)) X));
      [|done|done].
    intros A0 B0 k A0' HA0 HB0. rewrite HA0, HB0.
    apply (for_each_by_shape (shape A)); [|done|done].
    intros A1 B1 c A1' HA1 HB1. unfold mask_channel_of. rewrite HA1, HB1.
    destruct (shape_eqb _ _); [|done]. injection 1 as <-.
    split; [done|]. eexists. by split.
Qed.

(** X17.  Applying the masks of the directory a second time finishes too
    and changes no value: the function is idempotent. *)
Theorem apply_binary_mask_twice_changes_nothing
    (X X' : ndarray Q) (masks : list (ndarray Z)) :
  apply_binary_mask X masks = Ok X' ->
  exists X'',
    apply_binary_mask X' masks = Ok X'' /\
    shape X'' = shape X' /\
    forall idx, in_range idx (shape X') -> (get X'' idx == get X' idx)%Q.
Proof.
  intros Hrun.
  destruct (apply_binary_mask_shape_and_values X X' masks Hrun)
    as [Hsh Hget].
  assert (Hagain : exists X'', apply_binary_mask X' masks = Ok X'').
  { unfold apply_binary_mask, ndim in *. rewrite Hsh.
    destruct (negb _ && negb _); [done|].
    destruct (for_each_by_shape (shape X) apply_mask_file masks)
      with (A := X) (B := X') (A' := X') as (_ & B' & HB' & _); try done.
    - intros A B m A' HA HB HAm. rewrite <- HA in HB.
      destruct (apply_mask_file_by_shape m A B A' HB HAm)
        as (HA' & B' & HB' & HshB').
      rewrite <- HA. split; [done|]. by exists B'.
    - by exists B'. }
  destruct Hagain as [X'' Hrun'']. exists X''. split; [done|].
  destruct (apply_binary_mask_shape_and_values X' X'' masks Hrun'')
    as [Hsh'' Hget''].
  split; [done|]. intros idx Hin.
  rewrite Hget'' by done. rewrite Hsh in Hin.
  assert (E : inside_all X' masks idx = inside_all X masks idx).
  { unfold inside_all. clear - Hsh.
    induction masks as [|m0 masks IHm]; [done|].
    cbn [forallb]. by rewrite IHm, (mask_position_shape X X'). }
  rewrite E. pose proof (Hget idx Hin) as Hi.
  destruct (inside_all X masks idx); [reflexivity|].
  rewrite Hi. reflexivity.
Qed.

(** The 2x2 example: the second application returns the values of the
    first. *)
Lemma apply_binary_mask_twice_changes_nothing_witness :
  exists X' X'',
    apply_binary_mask example_X example_masks = Ok X' /\
    apply_binary_mask X' example_masks = Ok X'' /\
    (get X'' [1; 1; 1]%nat == get X' [1; 1; 1]%nat)%Q.
Proof.
  destruct (apply_binary_mask example_X example_masks) as [X'|e] eqn:E;
    [|vm_compute in E; discriminate].
  destruct (apply_binary_mask_twice_changes_nothing
              example_X X' example_masks E) as (X'' & Hrun & Hsh & Hget).
  exists X', X''. split; [reflexivity|]. split; [exact Hrun|].
  apply Hget.
  assert (Hs : shape <$> apply_binary_mask example_X example_masks
               = Ok [2; 2; 2]%nat) by (vm_compute; reflexivity).
  rewrite E in Hs. injection Hs as ->. repeat constructor.
Defined.

End BinaryMaskProofs.

(** ** Boundary refinement *)

Module BoundaryRefinementProofs.
Import NdArray Watershed BoundaryRefinement.

Lemma outcome_bind_Returns {A B} (m : outcome A) (f : A -> outcome B) b :
  m ≫= f = Returns b -> exists a, m = Returns a /\ f a = Returns b.
Proof. destruct m as [a|e]; [by exists a|done]. Qed.

Lemma set_row_Returns {A} i (x a a' : ndarray A) :
  set_row i x a = Returns a' ->
  shape a' = shape a /\
  (forall r, get a' (i :: r) = get x (broadcast_index (shape x) r)) /\
  (forall j r, j <> i -> get a' (j :: r) = get a (j :: r)).
Proof.
  unfold set_row. destruct (shape a) as [|n sh] eqn:E; [done|].
  destruct (negb (i <? n)%nat); [done|].
  destruct (negb (broadcastable (shape x) sh)); [done|].
  injection 1 as <-. cbn [shape get]. split; [done|]. split.
  - intros r. by rewrite Nat.eqb_refl.
  - intros j r Hj. apply Nat.eqb_neq in Hj. by rewrite Hj.
Qed.

(** A loop that assigns row [i] from [row i] for every [i] of a list
    without repetition: every row of the list holds its value, the other
    rows are as before. *)
Lemma for_range_rows {A} (row : nat -> outcome (ndarray A)) l :
  forall wp wp' : ndarray A,
    NoDup l ->
    for_range (fun wp i => x ← row i; set_row i x wp) l wp = Returns wp' ->
    shape wp' = shape wp /\
    (forall i, i ∈ l ->
       exists x, row i = Returns x /\
         forall r, get wp' (i :: r) = get x (broadcast_index (shape x) r)) /\
    (forall j r, j ∉ l -> get wp' (j :: r) = get wp (j :: r)).
Proof.
  induction l as [|k l IH]; intros wp wp' Hnd Hrun.
  - cbn in Hrun. injection Hrun as <-. split; [done|]. split; [|done].
    intros i Hi. by apply elem_of_nil in Hi.
  - cbn [for_range] in Hrun.
    apply outcome_bind_Returns in Hrun as (wp1 & Hstep & Hrun).
    apply outcome_bind_Returns in Hstep as (x & Hrow & Hset).
    apply NoDup_cons in Hnd as [Hk Hnd].
    destruct (set_row_Returns k x wp wp1 Hset) as (Hsh1 & Hk1 & Hother1).
    destruct (IH wp1 wp' Hnd Hrun) as (Hsh' & Hrows & Hothers).
    split; [by rewrite Hsh'|]. split.
    + intros i Hi. apply elem_of_cons in Hi as [->|Hi]; [|by apply Hrows].
      exists x. split; [done|]. intros r. by rewrite Hothers, Hk1.
    + intros j r Hj. apply not_elem_of_cons in Hj as [Hjk Hj].
      by rewrite Hothers, Hother1.
Qed.

Lemma for_range_ext {S} (f g : S -> nat -> outcome S) l :
  (forall s i, f s i = g s i) ->
  forall s, for_range f l s = for_range g l s.
Proof.
  intros Hfg. induction l as [|k l IH]; intros s; [done|].
  cbn [for_range]. rewrite Hfg. destruct (g s k) as [s1|e]; [|done].
  cbn. apply IH.
Qed.

Lemma shape0_Returns {A} (X : ndarray A) n :
  shape0 X = Returns n -> n = hd 0%nat (shape X).
Proof. unfold shape0. destruct (shape X); [done|]. by injection 1 as <-. Qed.

Lemma relabel2_wrapped v :
  relabel2 (astype uint8 v) = if 1 <? v mod 256 then 1 else 0.
Proof.
  unfold relabel2, astype. change (2 ^ dtype_bits uint8) with 256.
  pose proof (Z.mod_pos_bound v 256 ltac:(lia)) as Hb.
  destruct (Z.eqb_spec (v mod 256) 1) as [->|H1]; [done|].
  destruct (Z.ltb_spec 1 (v mod 256)); [done|]. lia.
Qed.

Lemma relabel_label (v : Z) :
  -1 <= v -> relabel (inject_Z v) = if 1 <? v then 1%Q else 0%Q.
Proof.
  intros Hv. unfold relabel.
  destruct (Qeq_bool (inject_Z v) 1) eqn:E1.
  - apply Qeq_bool_eq in E1. change 1%Q with (inject_Z 1) in E1.
    rewrite inject_Z_injective in E1. subst v. reflexivity.
  - destruct (Qle_bool (inject_Z v) 1) eqn:E2; cbn [negb].
    + apply Qle_bool_iff in E2. change 1%Q with (inject_Z 1) in E2.
      rewrite <- Zle_Qle in E2.
      assert (v <> 1).
      { intros ->. by rewrite Qeq_bool_refl in E1. }
      destruct (Z.ltb_spec 1 v); [lia|].
      assert (Hc : v = -1 \/ v = 0) by lia. destruct Hc as [->| ->]; done.
    + destruct (Z.ltb_spec 1 v) as [|Hle]; [done|].
      assert (Qle_bool (inject_Z v) 1 = true); [|congruence].
      apply Qle_bool_iff. change 1%Q with (inject_Z 1).
      by rewrite <- Zle_Qle.
Qed.

Section OpenCVProofs.

Variable float_to_uint8 : Q -> Z.
Variable cvtColor cv_dilate cv_erode : ndarray Q -> ndarray Q.
Variable cv_subtract : ndarray Z -> ndarray Z -> ndarray Z.
Variable connectedComponents : ndarray Z -> ndarray Z.
Variable cv_watershed : ndarray Z -> ndarray Z -> ndarray Z.

#[local] Abbreviation run :=
  (boundary_refinement_watershed float_to_uint8 cvtColor cv_dilate cv_erode
     cv_subtract connectedComponents cv_watershed).
#[local] Abbreviation labels_of :=
  (watershed_markers float_to_uint8 cvtColor cv_dilate cv_erode cv_subtract
     connectedComponents cv_watershed).

Lemma watershed_markers_without_erode X Y_pred i :
  exists e, labels_of false X Y_pred i = Raises e.
Proof.
  unfold watershed_markers.
  destruct (item_first_last i Y_pred) as [pred|e]; cbn; by eexists.
Qed.

Lemma refinement_without_erode_aux X Y_pred out :
  run X Y_pred false = Returns out -> hd 0%nat (shape X) = 0%nat.
Proof.
  unfold boundary_refinement_watershed. intros Hrun.
  apply outcome_bind_Returns in Hrun as (n & Hn & Hrun).
  apply shape0_Returns in Hn as <-.
  apply outcome_bind_Returns in Hrun as (wp & Hloop & _).
  destruct n as [|n]; [done|]. exfalso.
  cbn [seq for_range] in Hloop.
  apply outcome_bind_Returns in Hloop as (wp1 & Hstep & _).
  unfold refine_step in Hstep.
  destruct (watershed_markers_without_erode X Y_pred 0%nat) as [e He].
  rewrite He in Hstep. done.
Qed.

Lemma refinement_values_aux X Y_pred out :
  (forall image markers idx, -1 <= get (cv_watershed image markers) idx) ->
  run X Y_pred true = Returns out ->
  shape out = take 3 (shape Y_pred) ++ [1%nat] /\
  forall i, (i < hd 0 (shape X))%nat ->
    exists markers,
      labels_of true X Y_pred i = Returns markers /\
      forall r c,
        get out (i :: r ++ [c])
        = if 1 <? get markers (broadcast_index (shape markers) r)
          then 1%Q else 0%Q.
Proof.
  intros Hws. unfold boundary_refinement_watershed. intros Hrun.
  apply outcome_bind_Returns in Hrun as (n & Hn & Hrun).
  apply shape0_Returns in Hn as <-.
  apply outcome_bind_Returns in Hrun as (wp & Hloop & Hout).
  injection Hout as <-.
  destruct (for_range_rows
              (fun i => nd_map inject_Z <$> labels_of true X Y_pred i)
              (seq 0 n) (full (take 3 (shape Y_pred)) 0%Q) wp)
    as (Hsh & Hrows & _).
  { apply NoDup_seq. }
  { rewrite <- Hloop. apply for_range_ext. intros wp0 k.
    unfold refine_step. by destruct (labels_of true X Y_pred k). }
  split; [cbn [expand_last shape nd_map]; by rewrite Hsh|].
  intros i Hi. destruct (Hrows i) as (x & Hx & Hget).
  { apply elem_of_seq. lia. }
  destruct (labels_of true X Y_pred i) as [markers|e] eqn:E; [|done].
  cbn in Hx. injection Hx as <-. exists markers. split; [done|].
  intros r c. cbn [expand_last get nd_map].
  replace (removelast (i :: r ++ [c])) with (i :: r).
  2:{ change (i :: r ++ [c]) with ((i :: r) ++ [c]).
      by rewrite removelast_last. }
  rewrite Hget. cbn [nd_map get shape]. apply relabel_label.
  unfold watershed_markers in E.
  apply outcome_bind_Returns in E as (pred & _ & E).
  apply outcome_bind_Returns in E as (m0 & _ & E).
  injection E as <-. apply Hws.
Qed.

End OpenCVProofs.

(** X18.  Without [erode] the function returns only for an [X] with no
    image: the first iteration of its loop ends in an exception (the
    [NameError] of the unbound name [a], unless the prediction cannot be
    indexed before it), so the branch of the distance transform never
    yields a refinement. *)
Theorem boundary_refinement_without_erode_never_refines
    (float_to_uint8 : Q -> Z)
    (cvtColor cv_dilate cv_erode : ndarray Q -> ndarray Q)
    (cv_subtract : ndarray Z -> ndarray Z -> ndarray Z)
    (connectedComponents : ndarray Z -> ndarray Z)
    (cv_watershed : ndarray Z -> ndarray Z -> ndarray Z)
    (X Y_pred out : ndarray Q) :
  boundary_refinement_watershed float_to_uint8 cvtColor cv_dilate cv_erode
    cv_subtract connectedComponents cv_watershed X Y_pred false
  = Returns out ->
  hd 0%nat (shape X) = 0%nat.
Proof. apply refinement_without_erode_aux. Qed.

(** With no image the function returns the zeros it starts from. *)
Lemma boundary_refinement_without_erode_never_refines_witness :
  exists out,
    boundary_refinement_watershed truncate_uint8 same_image same_image
      same_image difference one_component clamped_markers
      (full [0; 1; 2; 1]%nat 0%Q) example_prediction false = Returns out /\
    hd 0%nat (shape (full [0; 1; 2; 1]%nat 0%Q)) = 0%nat.
Proof.
  destruct (boundary_refinement_watershed truncate_uint8 same_image
              same_image same_image difference one_component clamped_markers
              (full [0; 1; 2; 1]%nat 0%Q) example_prediction false)
    as [out|e] eqn:E; [|vm_compute in E; discriminate].
  exists out. split; [reflexivity|].
  exact (boundary_refinement_without_erode_never_refines _ _ _ _ _ _ _ _ _ _
           E).
Defined.

(** The example image without [erode]. *)
Example refinement_without_erode_raises :
  boundary_refinement_watershed truncate_uint8 same_image same_image
    same_image difference one_component clamped_markers example_input
    example_prediction false = Raises NameError.
Proof. vm_compute. reflexivity. Qed.

(** X19.  With [erode], and a watershed whose labels are -1 (boundary) or
    more, the returned array has the first three axes of [Y_pred] and one
    channel, and for every image of [X] it is a binary mask: 1 where the
    watershed label is greater than 1, and 0 on the background (label 1),
    the boundaries (label -1) and the unlabelled pixels. *)
Theorem boundary_refinement_returns_a_binary_mask
    (float_to_uint8 : Q -> Z)
    (cvtColor cv_dilate cv_erode : ndarray Q -> ndarray Q)
    (cv_subtract : ndarray Z -> ndarray Z -> ndarray Z)
    (connectedComponents : ndarray Z -> ndarray Z)
    (cv_watershed : ndarray Z -> ndarray Z -> ndarray Z)
    (X Y_pred out : ndarray Q) :
  (forall image markers idx, -1 <= get (cv_watershed image markers) idx) ->
  boundary_refinement_watershed float_to_uint8 cvtColor cv_dilate cv_erode
    cv_subtract connectedComponents cv_watershed X Y_pred true
  = Returns out ->
  shape out = take 3 (shape Y_pred) ++ [1%nat] /\
  forall i, (i < hd 0 (shape X))%nat ->
    exists markers,
      watershed_markers float_to_uint8 cvtColor cv_dilate cv_erode
        cv_subtract connectedComponents cv_watershed true X Y_pred i
      = Returns markers /\
      forall r c,
        get out (i :: r ++ [c])
        = if 1 <? get markers (broadcast_index (shape markers) r)
          then 1%Q else 0%Q.
Proof. apply refinement_values_aux. Qed.

(** The example image: the pixel of the prediction is kept, the other is
    background. *)
Lemma boundary_refinement_returns_a_binary_mask_witness :
  exists out,
    boundary_refinement_watershed truncate_uint8 same_image same_image
      same_image difference one_component clamped_markers example_input
      example_prediction true = Returns out /\
    shape out = [1; 1; 2; 1]%nat /\
    get out [0; 0; 1; 0]%nat = 1%Q /\ get out [0; 0; 0; 0]%nat = 0%Q.
Proof.
  destruct (boundary_refinement_watershed truncate_uint8 same_image
              same_image same_image difference one_component
              clamped_markers example_input example_prediction true)
    as [out|e] eqn:E; [|vm_compute in E; discriminate].
  destruct (boundary_refinement_returns_a_binary_mask
              truncate_uint8 same_image same_image same_image difference
              one_component clamped_markers example_input
              example_prediction out)
    as [Hsh Hval]; [intros image m idx; cbn; lia|exact E|].
  destruct (Hval 0%nat ltac:(cbn; lia)) as (m & Hm & Hget).
  vm_compute in Hm. injection Hm as <-.
  exists out. split; [reflexivity|]. split; [exact Hsh|]. split.
  - etrans; [exact (Hget [0; 1]%nat 0%nat)|]. vm_compute. reflexivity.
  - etrans; [exact (Hget [0; 0]%nat 0%nat)|]. vm_compute. reflexivity.
Defined.

Section SkimageProofs.

Variable float_to_uint8 : Q -> Z.
Variable rank_gradient : ndarray Z -> nat -> ndarray Z.
Variable ndi_label : ndarray bool -> ndarray Z.
Variable sk_watershed : ndarray Z -> ndarray Z -> ndarray Z.

Lemma refinement2_values_aux X Y_pred out :
  boundary_refinement_watershed2 float_to_uint8 rank_gradient ndi_label
    sk_watershed X Y_pred = Returns out ->
  shape out = take 3 (shape Y_pred) ++ [1%nat] /\
  forall i, (i < hd 0 (shape X))%nat ->
    exists labels,
      watershed_labels float_to_uint8 rank_gradient ndi_label sk_watershed
        X Y_pred i = Returns labels /\
      forall r c,
        get out (i :: r ++ [c])
        = if 1 <? get labels (broadcast_index (shape labels) r) mod 256
          then 1 else 0.
Proof.
  unfold boundary_refinement_watershed2. intros Hrun.
  apply outcome_bind_Returns in Hrun as (n & Hn & Hrun).
  apply shape0_Returns in Hn as <-.
  apply outcome_bind_Returns in Hrun as (wp & Hloop & Hout).
  injection Hout as <-.
  destruct (for_range_rows
              (fun i => nd_map (astype uint8)
                        <$> watershed_labels float_to_uint8 rank_gradient
                              ndi_label sk_watershed X Y_pred i)
              (seq 0 n) (full (take 3 (shape Y_pred)) 0) wp)
    as (Hsh & Hrows & _).
  { apply NoDup_seq. }
  { rewrite <- Hloop. apply for_range_ext. intros wp0 k.
    unfold refine_step2. by destruct (watershed_labels _ _ _ _ X Y_pred k). }
  split; [cbn [expand_last shape nd_map]; by rewrite Hsh|].
  intros i Hi. destruct (Hrows i) as (x & Hx & Hget).
  { apply elem_of_seq. lia. }
  destruct (watershed_labels _ _ _ _ X Y_pred i) as [labels|e]; [|done].
  cbn in Hx. injection Hx as <-. exists labels. split; [done|].
  intros r c. cbn [expand_last get nd_map].
  replace (removelast (i :: r ++ [c])) with (i :: r).
  2:{ change (i :: r ++ [c]) with ((i :: r) ++ [c]).
      by rewrite removelast_last. }
  rewrite Hget. cbn [nd_map get shape]. apply relabel2_wrapped.
Qed.

End SkimageProofs.

(** X20.  [boundary_refinement_watershed2] returns an array with the first
    three axes of [Y_pred] and one channel, and for every image of [X] the
    watershed labels pass through an array of [uint8] before they are made
    binary: a pixel is 1 where its label modulo 256 is greater than 1 and 0
    elsewhere, so that a region labelled 256 or 257 is erased like the
    background. *)
Theorem boundary_refinement2_labels_wrap_at_256
    (float_to_uint8 : Q -> Z) (rank_gradient : ndarray Z -> nat -> ndarray Z)
    (ndi_label : ndarray bool -> ndarray Z)
    (sk_watershed : ndarray Z -> ndarray Z -> ndarray Z)
    (X Y_pred : ndarray Q) (out : ndarray Z) :
  boundary_refinement_watershed2 float_to_uint8 rank_gradient ndi_label
    sk_watershed X Y_pred = Returns out ->
  shape out = take 3 (shape Y_pred) ++ [1%nat] /\
  forall i, (i < hd 0 (shape X))%nat ->
    exists labels,
      watershed_labels float_to_uint8 rank_gradient ndi_label sk_watershed
        X Y_pred i = Returns labels /\
      forall r c,
        get out (i :: r ++ [c])
        = if 1 <? get labels (broadcast_index (shape labels) r) mod 256
          then 1 else 0.
Proof. apply refinement2_values_aux. Qed.

(** The example image with a labelling that gives the label 257 to the
    region of the first pixel: the region is erased. *)
Lemma boundary_refinement2_labels_wrap_at_256_witness :
  exists out,
    boundary_refinement_watershed2 truncate_uint8 same_gradient
      (label_as 257) markers_only example_input example_prediction
    = Returns out /\
    shape out = [1; 1; 2; 1]%nat /\
    get out [0; 0; 0; 0]%nat = 0.
Proof.
  destruct (boundary_refinement_watershed2 truncate_uint8 same_gradient
              (label_as 257) markers_only example_input example_prediction)
    as [out|e] eqn:E; [|vm_compute in E; discriminate].
  destruct (boundary_refinement2_labels_wrap_at_256
              truncate_uint8 same_gradient (label_as 257) markers_only
              example_input example_prediction out E) as [Hsh Hval].
  destruct (Hval 0%nat ltac:(cbn; lia)) as (m & Hm & Hget).
  vm_compute in Hm. injection Hm as <-.
  exists out. split; [reflexivity|]. split; [exact Hsh|].
  etrans; [exact (Hget [0; 0]%nat 0%nat)|]. vm_compute. reflexivity.
Defined.

(** With the label 2 the same region is kept. *)
Example region_with_a_small_label_is_kept :
  ravel <$> boundary_refinement_watershed2 truncate_uint8 same_gradient
              (label_as 2) markers_only example_input example_prediction
  = Returns [1; 0].
Proof. vm_compute. reflexivity. Qed.

End BoundaryRefinementProofs.

(** ** Touching instances *)

Module LargeBlobsProofs.
Import NdArray LargeBlobs.

Lemma in_offsets n i : In i (offsets n) <-> - n <= i <= n.
Proof.
  unfold offsets. rewrite in_map_iff. split.
  - intros (k & <- & Hk). apply in_seq in Hk. lia.
  - intros Hi. exists (Z.to_nat (i + n)). split; [lia|].
    apply in_seq. lia.
Qed.

Lemma clamp_to_near c i s n :
  (c < s)%nat -> - n <= i <= n ->
  (clamp_to c i s < s)%nat /\
  Z.abs (Z.of_nat c - Z.of_nat (clamp_to c i s)) <= n.
Proof. unfold clamp_to. lia. Qed.

Lemma clamp_to_reaches c b s n :
  (c < s)%nat -> (b < s)%nat -> Z.abs (Z.of_nat c - Z.of_nat b) <= n ->
  exists i, - n <= i <= n /\ clamp_to c i s = b.
Proof.
  intros Hc Hb Hn. exists (Z.of_nat b - Z.of_nat c).
  unfold clamp_to. lia.
Qed.

(** The window of a position of the image: the positions of the image at
    most [neighbors] away on every axis. *)
Lemma in_window2 s0 s1 n p q :
  in_range p [s0; s1] ->
  In q (window2 [s0; s1] n p) <-> in_range q [s0; s1] /\ near n p q.
Proof.
  unfold in_range, near. intros Hp.
  apply Forall2_cons_inv_r in Hp as (c0 & p1 & Hc0 & Hp & ->).
  apply Forall2_cons_inv_r in Hp as (c1 & p2 & Hc1 & Hp & ->).
  apply Forall2_nil_inv_r in Hp as ->.
  unfold window2. cbn [nth]. rewrite in_flat_map. split.
  - intros (i & Hi & Hq). apply in_map_iff in Hq as (j & <- & Hj).
    apply in_offsets in Hi, Hj.
    destruct (clamp_to_near c0 i s0 n Hc0 Hi).
    destruct (clamp_to_near c1 j s1 n Hc1 Hj).
    split; repeat constructor; done.
  - intros [Hq Hn].
    apply Forall2_cons_inv_r in Hq as (b0 & q1 & Hb0 & Hq & ->).
    apply Forall2_cons_inv_r in Hq as (b1 & q2 & Hb1 & Hq & ->).
    apply Forall2_nil_inv_r in Hq as ->.
    apply Forall2_cons_1 in Hn as [Hn0 Hn].
    apply Forall2_cons_1 in Hn as [Hn1 _].
    destruct (clamp_to_reaches c0 b0 s0 n Hc0 Hb0 Hn0) as (i & Hi & <-).
    destruct (clamp_to_reaches c1 b1 s1 n Hc1 Hb1 Hn1) as (j & Hj & <-).
    exists i. split; [by apply in_offsets|].
    apply in_map_iff. exists j. split; [done|by apply in_offsets].
Qed.

Lemma in_window3 s0 s1 s2 n p q :
  in_range p [s0; s1; s2] ->
  In q (window3 [s0; s1; s2] n p) <-> in_range q [s0; s1; s2] /\ near n p q.
Proof.
  unfold in_range, near. intros Hp.
  apply Forall2_cons_inv_r in Hp as (c0 & p1 & Hc0 & Hp & ->).
  apply Forall2_cons_inv_r in Hp as (c1 & p2 & Hc1 & Hp & ->).
  apply Forall2_cons_inv_r in Hp as (c2 & p3 & Hc2 & Hp & ->).
  apply Forall2_nil_inv_r in Hp as ->.
  unfold window3. cbn [nth]. rewrite in_flat_map. split.
  - intros (i & Hi & Hq). apply in_flat_map in Hq as (j & Hj & Hq).
    apply in_map_iff in Hq as (k & <- & Hk).
    apply in_offsets in Hi, Hj, Hk.
    destruct (clamp_to_near c0 i s0 n Hc0 Hi).
    destruct (clamp_to_near c1 j s1 n Hc1 Hj).
    destruct (clamp_to_near c2 k s2 n Hc2 Hk).
    split; repeat constructor; done.
  - intros [Hq Hn].
    apply Forall2_cons_inv_r in Hq as (b0 & q1 & Hb0 & Hq & ->).
    apply Forall2_cons_inv_r in Hq as (b1 & q2 & Hb1 & Hq & ->).
    apply Forall2_cons_inv_r in Hq as (b2 & q3 & Hb2 & Hq & ->).
    apply Forall2_nil_inv_r in Hq as ->.
    apply Forall2_cons_1 in Hn as [Hn0 Hn].
    apply Forall2_cons_1 in Hn as [Hn1 Hn].
    apply Forall2_cons_1 in Hn as [Hn2 _].
    destruct (clamp_to_reaches c0 b0 s0 n Hc0 Hb0 Hn0) as (i & Hi & <-).
    destruct (clamp_to_reaches c1 b1 s1 n Hc1 Hb1 Hn1) as (j & Hj & <-).
    destruct (clamp_to_reaches c2 b2 s2 n Hc2 Hb2 Hn2) as (k & Hk & <-).
    exists i. split; [by apply in_offsets|].
    apply in_flat_map. exists j. split; [by apply in_offsets|].
    apply in_map_iff. exists k. split; [done|by apply in_offsets].
Qed.

Lemma visit_step img label seen l q :
  neighbour_list img label seen l ->
  neighbour_list img label (seen ++ [q]) (visit img label l q).
Proof.
  intros [Hnd Hin]. unfold visit.
  destruct (existsb (Z.eqb (get img q)) l) eqn:Hex; cbn [negb andb].
  - apply existsb_exists in Hex as (v & Hv & Heq).
    apply Z.eqb_eq in Heq. subst v.
    split; [done|]. intros v. rewrite Hin. split.
    + intros (H0 & Hl & q' & Hq' & Hg). split; [done|]. split; [done|].
      exists q'. split; [|done]. apply in_or_app. by left.
    + intros (H0 & Hl & q' & Hq' & Hg). split; [done|]. split; [done|].
      apply in_app_or in Hq' as [Hq'|[<-|[]]]; [by exists q'|].
      subst v. apply Hin in Hv as (_ & _ & q'' & Hq'' & Hg'').
      by exists q''.
  - assert (Hnot : ~ In (get img q) l).
    { intros Hv. assert (existsb (Z.eqb (get img q)) l = true);
        [|congruence].
      apply existsb_exists. exists (get img q).
      split; [done|apply Z.eqb_refl]. }
    destruct (Z.eqb_spec (get img q) label) as [Hl|Hl]; cbn [negb andb].
    { split; [done|]. intros v. rewrite Hin. split.
      - intros (H0 & Hl' & q' & Hq' & Hg). split; [done|]. split; [done|].
        exists q'. split; [|done]. apply in_or_app. by left.
      - intros (H0 & Hl' & q' & Hq' & Hg). split; [done|]. split; [done|].
        apply in_app_or in Hq' as [Hq'|[<-|[]]]; [by exists q'|].
        congruence. }
    destruct (Z.eqb_spec (get img q) 0) as [H0|H0]; cbn [negb].
    { split; [done|]. intros v. rewrite Hin. split.
      - intros (H0' & Hl' & q' & Hq' & Hg). split; [done|]. split; [done|].
        exists q'. split; [|done]. apply in_or_app. by left.
      - intros (H0' & Hl' & q' & Hq' & Hg). split; [done|]. split; [done|].
        apply in_app_or in Hq' as [Hq'|[<-|[]]]; [by exists q'|].
        congruence. }
    split.
    + apply NoDup_app. split; [done|]. split; [|apply NoDup_singleton].
      intros v Hv Hv'. apply list_elem_of_In in Hv.
      apply list_elem_of_singleton in Hv'. by subst v.
    + intros v. rewrite in_app_iff, Hin. split.
      * intros [(H0' & Hl' & q' & Hq' & Hg)|[<-|[]]].
        -- split; [done|]. split; [done|]. exists q'.
           split; [|done]. apply in_or_app. by left.
        -- split; [done|]. split; [done|]. exists q.
           split; [|done]. apply in_or_app. right. by left.
      * intros (H0' & Hl' & q' & Hq' & Hg).
        apply in_app_or in Hq' as [Hq'|[<-|[]]].
        -- left. split; [done|]. split; [done|]. by exists q'.
        -- right. by left.
Qed.

Lemma visit_fold img label qs : forall seen l,
  neighbour_list img label seen l ->
  neighbour_list img label (seen ++ qs) (fold_left (visit img label) qs l).
Proof.
  induction qs as [|q qs IH]; intros seen l H.
  - by rewrite app_nil_r.
  - cbn [fold_left].
    replace (seen ++ q :: qs) with ((seen ++ [q]) ++ qs)
      by (by rewrite <- app_assoc).
    apply IH. by apply visit_step.
Qed.

Lemma points_fold img label (window : list nat -> list (list nat)) ps :
  forall seen l,
    neighbour_list img label seen l ->
    neighbour_list img label (seen ++ flat_map window ps)
      (fold_left (fun neigbors coord =>
                    fold_left (visit img label) (window coord) neigbors)
                 ps l).
Proof.
  induction ps as [|p ps IH]; intros seen l H.
  - cbn. by rewrite app_nil_r.
  - cbn [fold_left flat_map]. rewrite app_assoc. apply IH.
    by apply visit_fold.
Qed.

Lemma find_neigbors_aux img label n l :
  find_neigbors img label n = Some l ->
  NoDup l /\
  forall v, In v l <->
    v <> 0 /\ v <> label /\
    exists p q, in_range p (shape img) /\ get img p = label /\
                in_range q (shape img) /\ near n p q /\ get img q = v.
Proof.
  unfold find_neigbors, ndim. intros Hrun.
  assert (Hw : exists window,
             l = fold_left (fun neigbors coord =>
                              fold_left (visit img label) (window coord)
                                        neigbors)
                           (label_points img label) [] /\
             forall p q, in_range p (shape img) ->
               In q (window p) <-> in_range q (shape img) /\ near n p q).
  { destruct (Nat.eqb_spec (length (shape img)) 3) as [H3|H3].
    - cbn in Hrun. injection Hrun as <-. eexists. split; [reflexivity|].
      destruct (shape img) as [|s0 [|s1 [|s2 [|s3 sh]]]]; try done.
      intros p q. apply in_window3.
    - destruct (Nat.eqb_spec (length (shape img)) 2) as [H2|H2]; [|done].
      cbn in Hrun. injection Hrun as <-. eexists. split; [reflexivity|].
      destruct (shape img) as [|s0 [|s1 [|s2 sh]]]; try done.
      intros p q. apply in_window2. }
  destruct Hw as (window & -> & Hwin). clear Hrun.
  destruct (points_fold img label window (label_points img label) [] [])
    as [Hnd Hin].
  { split; [apply NoDup_nil_2|]. intros v. split; [done|].
    by intros (_ & _ & q & [] & _). }
  split; [done|]. intros v. rewrite Hin. cbn [app].
  split; intros (H0 & Hl & H); (split; [done|]); (split; [done|]).
  - destruct H as (q & Hq & Hg). apply in_flat_map in Hq as (p & Hp & Hq).
    unfold label_points in Hp. apply filter_In in Hp as [Hp Hlab].
    apply NdArrayFacts.in_indices in Hp. apply Z.eqb_eq in Hlab.
    apply Hwin in Hq as [Hq Hn]; [|done]. by exists p, q.
  - destruct H as (p & q & Hp & Hlab & Hq & Hn & Hg). exists q.
    split; [|done]. apply in_flat_map. exists p. split.
    + unfold label_points. apply filter_In.
      split; [by apply NdArrayFacts.in_indices|by apply Z.eqb_eq].
    + by apply Hwin.
Qed.

(** X21.  On an image of two or three axes [find_neigbors] returns, each
    once, exactly the values other than 0 and [label] that the image has at
    a position at most [neighbors] away, on every axis, from a position of
    [label]. *)
Theorem find_neigbors_lists_the_touching_labels_once
    (img : ndarray Z) (label neighbors : Z) (l : list Z) :
  find_neigbors img label neighbors = Some l ->
  NoDup l /\
  forall v, In v l <->
    v <> 0 /\ v <> label /\
    exists p q, in_range p (shape img) /\ get img p = label /\
                in_range q (shape img) /\ near neighbors p q /\
                get img q = v.
Proof. apply find_neigbors_aux. Qed.

(** The 3x3 example: the instances 2 and 3 touch the instance 1, the
    instance 4 does not. *)
Lemma find_neigbors_lists_the_touching_labels_once_witness :
  exists l,
    find_neigbors example_instances 1 1 = Some l /\
    In 2 l /\ In 3 l /\ ~ In 4 l.
Proof.
  destruct (find_neigbors example_instances 1 1) as [l|] eqn:E;
    [|vm_compute in E; discriminate].
  exists l. split; [reflexivity|].
  destruct (find_neigbors_lists_the_touching_labels_once
              example_instances 1 1 l E) as [_ Hin].
  split; [|split].
  - apply Hin. split; [lia|]. split; [lia|].
    exists [0; 0]%nat, [0; 1]%nat.
    repeat split; try (repeat constructor; cbn; lia); reflexivity.
  - apply Hin. split; [lia|]. split; [lia|].
    exists [0; 0]%nat, [1; 0]%nat.
    repeat split; try (repeat constructor; cbn; lia); reflexivity.
  - assert (Hl : find_neigbors example_instances 1 1 = Some [2; 3])
      by (vm_compute; reflexivity).
    rewrite E in Hl. injection Hl as ->.
    intros [H|[H|[]]]; discriminate.
Defined.

End LargeBlobsProofs.

(** ** [voronoi_on_mask_2] *)

Module Voronoi2Proofs.
Import NdArray Watershed Voronoi Voronoi2.

(** *** C order *)

Lemma length_indices sh : length (indices sh) = fold_right Nat.mul 1%nat sh.
Proof.
  induction sh as [|n sh IH]; [done|]. cbn [indices fold_right].
  rewrite <- IH. generalize 0%nat.
  induction n as [|n IHn]; intros k; [done|].
  cbn [seq flat_map]. rewrite length_app, length_map, IHn. lia.
Qed.

Lemma ravel_index_lt sh : forall p,
  in_range p sh -> (ravel_index sh p < fold_right Nat.mul 1 sh)%nat.
Proof.
  unfold in_range. induction sh as [|n sh IH]; intros p Hp.
  - apply Forall2_nil_inv_r in Hp as ->. cbn. lia.
  - apply Forall2_cons_inv_r in Hp as (i & p' & Hi & Hp & ->).
    cbn [ravel_index fold_right]. specialize (IH p' Hp). nia.
Qed.

Lemma nth_flat_map_rows {A B} (g : A -> list B) (d : B) (L : nat) l :
  (forall x, length (g x) = L) ->
  forall i k x0, (i < length l)%nat -> (k < L)%nat ->
    nth (i * L + k) (flat_map g l) d = nth k (g (nth i l x0)) d.
Proof.
  intros HL. induction l as [|x l IH]; intros i k x0 Hi Hk.
  - cbn in Hi. lia.
  - cbn [flat_map]. destruct i as [|i].
    + cbn [Nat.mul Nat.add nth]. rewrite app_nth1; [done|].
      by rewrite HL.
    + rewrite app_nth2; rewrite HL; [|lia].
      replace (S i * L + k - L)%nat with (i * L + k)%nat by lia.
      cbn [nth]. apply IH; [cbn in Hi; lia|done].
Qed.

Lemma map_flat_map {A B C} (f : B -> C) (g : A -> list B) l :
  map f (flat_map g l) = flat_map (fun x => map f (g x)) l.
Proof.
  induction l as [|x l IH]; [done|]. cbn [flat_map].
  by rewrite map_app, IH.
Qed.

(** The value at the C-order offset of a position is the value at that
    position. *)
Lemma nth_ravel_index {B} (d : B) sh : forall (f : list nat -> B) p,
  in_range p sh ->
  nth (ravel_index sh p) (map f (indices sh)) d = f p.
Proof.
  unfold in_range. induction sh as [|n sh IH]; intros f p Hp.
  - apply Forall2_nil_inv_r in Hp as ->. done.
  - apply Forall2_cons_inv_r in Hp as (i & p' & Hi & Hp & ->).
    cbn [ravel_index indices]. rewrite <- length_indices.
    rewrite map_flat_map.
    rewrite (nth_flat_map_rows
               (fun i0 => map f (map (cons i0) (indices sh))) d
               (length (indices sh)) (seq 0 n))
      with (x0 := 0%nat).
    + rewrite seq_nth by done. cbn [Nat.add]. rewrite map_map.
      apply (IH (fun x => f (i :: x))). done.
    + intros x. by rewrite !length_map.
    + by rewrite length_seq.
    + rewrite length_indices. by apply ravel_index_lt.
Qed.

Lemma reshape_first {A} (d : A) sh (a r : ndarray A) :
  shape a = sh -> reshape d (1%nat :: sh) a = Ok r ->
  shape r = 1%nat :: sh /\
  forall p, in_range p sh -> get r (0%nat :: p) = get a p.
Proof.
  intros Hsh. unfold reshape. destruct (_ =? _)%nat; [|done].
  injection 1 as <-. split; [done|]. intros p Hp.
  unfold of_list, ravel. cbn [get ravel_index]. rewrite Hsh.
  cbn [Nat.mul Nat.add]. by apply nth_ravel_index.
Qed.

Lemma NoDup_rows (l : list nat) (r : list (list nat)) :
  NoDup l -> NoDup r -> NoDup (flat_map (fun i => map (cons i) r) l).
Proof.
  intros Hl Hr. induction Hl as [|i l Hi Hl IH]; [constructor|].
  cbn [flat_map]. apply NoDup_app. split; [|split; [|done]].
  - by apply (NoDup_fmap_2 (cons i)).
  - intros x Hx Hx'. apply list_elem_of_In in Hx, Hx'.
    apply in_map_iff in Hx as (x1 & <- & _).
    apply in_flat_map in Hx' as (j & Hj & Hx').
    apply in_map_iff in Hx' as (x2 & [= <- _] & _).
    apply Hi. by apply list_elem_of_In.
Qed.

Lemma NoDup_indices sh : NoDup (indices sh).
Proof.
  induction sh as [|n sh IH]; cbn [indices].
  - apply NoDup_singleton.
  - apply NoDup_rows; [apply NoDup_seq|done].
Qed.

Lemma NoDup_list_filter {A} (f : A -> bool) l :
  NoDup l -> NoDup (List.filter f l).
Proof.
  induction 1 as [|x l Hx Hl IH]; cbn [List.filter]; [constructor|].
  destruct (f x); [|done]. constructor; [|done].
  intros H. apply Hx. apply list_elem_of_In in H. apply filter_In in H.
  apply list_elem_of_In. tauto.
Qed.

Lemma NoDup_argwhere a : NoDup (argwhere a).
Proof. apply NoDup_list_filter, NoDup_indices. Qed.

Lemma in_argwhere a p :
  In p (argwhere a) <-> in_range p (shape a) /\ get a p = true.
Proof.
  unfold argwhere. rewrite filter_In, NdArrayFacts.in_indices. done.
Qed.

(** *** The loop *)

Lemma fill_loop idsPerim labelsPerimIds ps : forall v v',
  for_each (fill_step idsPerim labelsPerimIds) ps v = Ok v' ->
  shape v' = shape v /\
  (ps <> [] -> idsPerim <> []) /\
  (forall p, In p ps ->
     labelsPerimIds
       !! nearest_index (map coords idsPerim) (coords p)
     = Some (get v' p)) /\
  (forall p, ~ In p ps -> get v' p = get v p).
Proof.
  induction ps as [|q ps IH]; intros v v' Hrun.
  - cbn in Hrun. injection Hrun as <-. done.
  - cbn [for_each] in Hrun.
    apply CircularityProofs.bind_Ok in Hrun as (v1 & Hstep & Hrun).
    unfold fill_step in Hstep.
    destruct (Nat.eqb_spec (length idsPerim) 0) as [|Hlen]; [done|].
    destruct (labelsPerimIds
                !! nearest_index (map coords idsPerim) (coords q))
      as [lab|] eqn:Hlab; [|done].
    cbn in Hstep. injection Hstep as <-.
    destruct (IH _ _ Hrun) as (Hsh & _ & Hin & Hout).
    split; [done|]. split; [by intros _ ->|]. split.
    + intros p [<-|Hp]; [|by apply Hin].
      destruct (decide (q ∈ ps)) as [Hp|Hp];
        rewrite list_elem_of_In in Hp; [by apply Hin|].
      rewrite Hout by done. unfold set_at. cbn [get].
      by rewrite decide_True.
    + intros p Hp. rewrite Hout by (intros H; apply Hp; by right).
      unfold set_at. cbn [get]. rewrite decide_False; [done|].
      intros ->. apply Hp. by left.
Qed.

(** *** The function *)

Section Runs.

Variable threshold_otsu : ndarray Q -> Q.
Variable closing_5 : ndarray bool -> ndarray bool.
Variable binary_erosion_2 : ndarray Z -> ndarray bool.

#[local] Abbreviation run :=
  (voronoi_on_mask_2 threshold_otsu closing_5 binary_erosion_2).
#[local] Abbreviation closed := (closed_binary_mask threshold_otsu closing_5).
#[local] Abbreviation masked := (masked_labels threshold_otsu closing_5).
#[local] Abbreviation to_fill := (ids_to_fill threshold_otsu closing_5).
#[local] Abbreviation perim :=
  (ids_perim threshold_otsu closing_5 binary_erosion_2).

Lemma voronoi2_loop data mask filenames th out :
  run data mask filenames th = Ok out ->
  shape (closed th mask) = tl (shape data) /\
  shape (binary_erosion_2 (binary_labels threshold_otsu closing_5 th data
                                         mask)) = tl (shape data) /\
  exists v',
    for_each (fill_step (perim th data mask)
                        (map (get (masked th data mask))
                             (perim th data mask)))
             (tl (to_fill th data mask)) (masked th data mask) = Ok v' /\
    reshape 0 (1%nat :: tl (shape (prediction_mask mask))) v' = Ok out.
Proof.
  unfold voronoi_on_mask_2. intros Hrun.
  destruct (negb (ndim data =? 4)%nat); [discriminate Hrun|].
  destruct (negb (ndim mask =? 5)%nat); [discriminate Hrun|].
  destruct (List.last (shape mask) 0 <? 2)%nat; [discriminate Hrun|].
  destruct (negb (length filenames =? hd 0 (shape data))%nat);
    [discriminate Hrun|].
  cbv zeta in Hrun.
  destruct (hd 0 (shape (prediction_mask mask)) =? 0)%nat;
    [discriminate Hrun|].
  destruct (hd 0 (shape data) =? 0)%nat; [discriminate Hrun|].
  destruct (shape_eqb (shape (sub0 0 data)) (shape (closed th mask)))
    eqn:Hs1; cbn [negb] in Hrun; [|discriminate Hrun].
  destruct (shape_eqb
              (shape (binary_labels threshold_otsu closing_5 th data mask))
              (shape (binary_erosion_2
                        (binary_labels threshold_otsu closing_5 th data
                                       mask))))
    eqn:Hs2; cbn [negb] in Hrun; [|discriminate Hrun].
  apply bool_decide_eq_true in Hs1, Hs2.
  apply CircularityProofs.bind_Ok in Hrun as (v' & Hloop & Hre).
  split; [by rewrite <- Hs1|]. split; [by rewrite <- Hs2|].
  exists v'. split; [exact Hloop|exact Hre].
Qed.

Hypothesis closing_shape : forall x, shape (closing_5 x) = shape x.

Lemma voronoi2_values data mask filenames th out :
  run data mask filenames th = Ok out ->
  shape out = 1%nat :: tl (shape data) /\
  exists v',
    for_each (fill_step (perim th data mask)
                        (map (get (masked th data mask))
                             (perim th data mask)))
             (tl (to_fill th data mask)) (masked th data mask) = Ok v' /\
    forall p, in_range p (tl (shape data)) ->
      get out (0%nat :: p) = get v' p.
Proof.
  intros Hrun.
  destruct (voronoi2_loop _ _ _ _ _ Hrun) as (Hc & _ & v' & Hloop & Hre).
  assert (Hm : tl (shape (prediction_mask mask)) = tl (shape data)).
  { rewrite <- Hc. unfold closed_binary_mask, to_int, gt_th.
    cbn [nd_map shape]. by rewrite closing_shape. }
  rewrite Hm in Hre.
  destruct (fill_loop _ _ _ _ _ Hloop) as (Hsh & _).
  apply reshape_first in Hre as [Hout Hget]; [|done].
  split; [done|]. by exists v'.
Qed.

Lemma in_to_fill data mask th p :
  shape (closed th mask) = tl (shape data) ->
  In p (to_fill th data mask) <->
  in_range p (tl (shape data)) /\
  get (closed th mask) p = 1 /\ get data (0%nat :: p) = 0.
Proof.
  intros Hc. unfold ids_to_fill. rewrite in_argwhere.
  cbn [nd_zip nd_map shape get sub0]. rewrite Hc, andb_true_iff.
  rewrite !Z.eqb_eq. done.
Qed.

Lemma first_voxel_aux data mask filenames th out p rest :
  run data mask filenames th = Ok out ->
  to_fill th data mask = p :: rest ->
  in_range p (tl (shape data)) /\ get (closed th mask) p = 1 /\
  get data (0%nat :: p) = 0 /\ get out (0%nat :: p) = 0.
Proof.
  intros Hrun Hids.
  destruct (voronoi2_loop _ _ _ _ _ Hrun) as (Hc & _).
  destruct (voronoi2_values _ _ _ _ _ Hrun) as (_ & v' & Hloop & Hget).
  assert (Hp : In p (to_fill th data mask)) by (rewrite Hids; by left).
  apply in_to_fill in Hp as (Hr & Hp1 & Hp0); [|done].
  split; [done|]. split; [done|]. split; [done|].
  rewrite Hget by done.
  destruct (fill_loop _ _ _ _ _ Hloop) as (_ & _ & _ & Hout).
  rewrite Hout.
  - unfold masked_labels. cbn [nd_zip get sub0]. rewrite Hp0. lia.
  - rewrite Hids. cbn [tl]. intros Hin.
    pose proof (NoDup_argwhere
                  (nd_zip andb
                     (nd_map (fun v => v =? 1) (closed th mask))
                     (nd_map (fun v => v =? 0) (sub0 0 data)))) as Hnd.
    fold (to_fill th data mask) in Hnd. rewrite Hids in Hnd.
    apply NoDup_cons in Hnd as [Hnd _]. apply Hnd.
    by apply list_elem_of_In.
Qed.

Lemma perimeter_is_labelled data mask th q :
  shape (binary_erosion_2 (binary_labels threshold_otsu closing_5 th data
                                         mask)) = tl (shape data) ->
  In q (perim th data mask) -> 0 < get (masked th data mask) q.
Proof.
  intros Hs Hq. unfold ids_perim in Hq. apply in_argwhere in Hq as [_ Hq].
  unfold is_perimeter, binary_labels in Hq. cbn [nd_zip nd_map get] in Hq.
  apply Z.eqb_eq in Hq.
  destruct (Z.ltb_spec 0 (get (masked th data mask) q)) as [|Hle]; [done|].
  exfalso. cbn [Z.b2z] in Hq. unfold astype in Hq.
  change (2 ^ dtype_bits uint8) with 256 in Hq.
  change (0 * 1 mod 256) with 0 in Hq.
  destruct (get (binary_erosion_2 _) q); cbn [Z.b2z] in Hq;
    vm_compute in Hq; discriminate.
Qed.

Lemma filled_voxel_aux data mask filenames th out p :
  run data mask filenames th = Ok out ->
  In p (tl (to_fill th data mask)) ->
  exists q,
    In q (perim th data mask) /\
    (forall q', In q' (perim th data mask) ->
       (ClosePoints.dist2 (coords q) (coords p)
        <= ClosePoints.dist2 (coords q') (coords p))%Q) /\
    get out (0%nat :: p) = get (masked th data mask) q /\
    0 < get out (0%nat :: p).
Proof.
  intros Hrun Hp.
  destruct (voronoi2_loop _ _ _ _ _ Hrun) as (Hc & Hs & _).
  destruct (voronoi2_values _ _ _ _ _ Hrun) as (_ & v' & Hloop & Hget).
  destruct (fill_loop _ _ _ _ _ Hloop) as (_ & Hne & Hin & _).
  assert (Hr : in_range p (tl (shape data))).
  { assert (Hp' : In p (to_fill th data mask)).
    { destruct (to_fill th data mask); [done|]. by right. }
    by apply in_to_fill in Hp' as (Hr & _). }
  specialize (Hin p Hp). rewrite list_lookup_fmap in Hin.
  destruct (perim th data mask
              !! nearest_index (map coords (perim th data mask)) (coords p))
    as [q|] eqn:Hq; [|done].
  cbn in Hin. injection Hin as Hin. exists q.
  assert (Hqin : In q (perim th data mask)).
  { apply list_elem_of_In. by eapply list_elem_of_lookup_2. }
  split; [done|].
  assert (Hpts : map coords (perim th data mask) <> []).
  { intros H. apply map_eq_nil in H. apply Hne; [|done].
    intros H'. by rewrite H' in Hp. }
  destruct (VoronoiProofs.nearest_index_spec _ (coords p) Hpts)
    as [_ Hmin].
  assert (Hcq : map coords (perim th data mask)
                  !!! nearest_index (map coords (perim th data mask))
                        (coords p) = coords q).
  { apply list_lookup_total_correct. rewrite list_lookup_fmap, Hq. done. }
  rewrite Hcq in Hmin. split; [|split].
  - intros q' Hq'. apply list_elem_of_In in Hq'.
    apply list_elem_of_lookup_1 in Hq' as [k Hk].
    apply (Hmin k). rewrite list_lookup_fmap, Hk. done.
  - by rewrite Hget.
  - rewrite Hget by done. rewrite <- Hin.
    by apply perimeter_is_labelled.
Qed.

Lemma other_voxel_aux data mask filenames th out p :
  run data mask filenames th = Ok out ->
  in_range p (tl (shape data)) ->
  ~ In p (tl (to_fill th data mask)) ->
  get out (0%nat :: p)
  = if get (closed th mask) p =? 1 then get data (0%nat :: p) else 0.
Proof.
  intros Hrun Hr Hp.
  destruct (voronoi2_values _ _ _ _ _ Hrun) as (_ & v' & Hloop & Hget).
  destruct (fill_loop _ _ _ _ _ Hloop) as (_ & _ & _ & Hout).
  rewrite Hget, Hout by done.
  unfold masked_labels, closed_binary_mask, to_int.
  cbn [nd_zip nd_map get sub0].
  destruct (get (closing_5 _) p); cbn [Z.b2z];
    [rewrite Z.mul_1_r|rewrite Z.mul_0_r]; reflexivity.
Qed.

End Runs.

(** X22.  With a closing that keeps the shape, the first voxel to fill (the
    first position, in C order, that the closed mask covers and that has no
    label) is never filled: the loop starts at the second one, and the
    voxel is returned as 0. *)
Theorem voronoi2_leaves_the_first_voxel_unfilled
    (threshold_otsu : ndarray Q -> Q)
    (closing_5 : ndarray bool -> ndarray bool)
    (binary_erosion_2 : ndarray Z -> ndarray bool)
    (data : ndarray Z) (mask : ndarray Q) (filenames : list string) (th : Q)
    (out : ndarray Z) (p : list nat) (rest : list (list nat)) :
  (forall x, shape (closing_5 x) = shape x) ->
  voronoi_on_mask_2 threshold_otsu closing_5 binary_erosion_2 data mask
    filenames th = Ok out ->
  ids_to_fill threshold_otsu closing_5 th data mask = p :: rest ->
  in_range p (tl (shape data)) /\
  get (closed_binary_mask threshold_otsu closing_5 th mask) p = 1 /\
  get data (0%nat :: p) = 0 /\
  get out (0%nat :: p) = 0.
Proof. intros Hc. by apply first_voxel_aux. Qed.

(** The row of six voxels: the second voxel is the first to fill and
    stays 0. *)
Lemma voronoi2_leaves_the_first_voxel_unfilled_witness :
  exists out,
    voronoi_on_mask_2 (fun _ => 0%Q) no_closing
      (erode_away [[0; 0; 0]; [0; 0; 5]]%nat) example_cells
      example_cells_mask ["a.tif"] (1 # 2) = Ok out /\
    get out [0; 0; 0; 1]%nat = 0.
Proof.
  destruct (voronoi_on_mask_2 (fun _ => 0%Q) no_closing
              (erode_away [[0; 0; 0]; [0; 0; 5]]%nat) example_cells
              example_cells_mask ["a.tif"] (1 # 2)) as [out|e] eqn:E;
    [|vm_compute in E; discriminate].
  exists out. split; [reflexivity|].
  apply (voronoi2_leaves_the_first_voxel_unfilled
           (fun _ => 0%Q) no_closing (erode_away [[0; 0; 0]; [0; 0; 5]]%nat)
           example_cells example_cells_mask ["a.tif"] (1 # 2) out
           [0; 0; 1]%nat [[0; 0; 2]; [0; 0; 3]; [0; 0; 4]]%nat);
    [done|exact E|vm_compute; reflexivity].
Defined.

(** X23.  With a closing that keeps the shape, every voxel to fill after
    the first is returned with the label of a perimeter voxel at the least
    distance from it, which is a positive label. *)
Theorem voronoi2_fills_with_the_nearest_perimeter_label
    (threshold_otsu : ndarray Q -> Q)
    (closing_5 : ndarray bool -> ndarray bool)
    (binary_erosion_2 : ndarray Z -> ndarray bool)
    (data : ndarray Z) (mask : ndarray Q) (filenames : list string) (th : Q)
    (out : ndarray Z) (p : list nat) :
  (forall x, shape (closing_5 x) = shape x) ->
  voronoi_on_mask_2 threshold_otsu closing_5 binary_erosion_2 data mask
    filenames th = Ok out ->
  In p (tl (ids_to_fill threshold_otsu closing_5 th data mask)) ->
  exists q,
    In q (ids_perim threshold_otsu closing_5 binary_erosion_2 th data mask)
    /\
    (forall q',
       In q' (ids_perim threshold_otsu closing_5 binary_erosion_2 th data
                        mask) ->
       (ClosePoints.dist2 (coords q) (coords p)
        <= ClosePoints.dist2 (coords q') (coords p))%Q) /\
    get out (0%nat :: p)
    = get (masked_labels threshold_otsu closing_5 th data mask) q /\
    0 < get out (0%nat :: p).
Proof. intros Hc. by apply filled_voxel_aux. Qed.

(** The row of six voxels: the fourth voxel is nearer to the label 7. *)
Lemma voronoi2_fills_with_the_nearest_perimeter_label_witness :
  exists out,
    voronoi_on_mask_2 (fun _ => 0%Q) no_closing
      (erode_away [[0; 0; 0]; [0; 0; 5]]%nat) example_cells
      example_cells_mask ["a.tif"] (1 # 2) = Ok out /\
    0 < get out [0; 0; 0; 3]%nat.
Proof.
  destruct (voronoi_on_mask_2 (fun _ => 0%Q) no_closing
              (erode_away [[0; 0; 0]; [0; 0; 5]]%nat) example_cells
              example_cells_mask ["a.tif"] (1 # 2)) as [out|e] eqn:E;
    [|vm_compute in E; discriminate].
  exists out. split; [reflexivity|].
  destruct (voronoi2_fills_with_the_nearest_perimeter_label
              (fun _ => 0%Q) no_closing
              (erode_away [[0; 0; 0]; [0; 0; 5]]%nat)
              example_cells example_cells_mask ["a.tif"] (1 # 2) out
              [0; 0; 3]%nat) as (q & _ & _ & _ & Hpos);
    [done|exact E|vm_compute; tauto|exact Hpos].
Defined.

(** X24.  With a closing that keeps the shape, every voxel of the first
    image that is not filled is returned with its label where the closed
    mask covers it and with 0 elsewhere: the labels outside the closed mask
    are erased. *)
Theorem voronoi2_erases_the_labels_outside_the_closed_mask
    (threshold_otsu : ndarray Q -> Q)
    (closing_5 : ndarray bool -> ndarray bool)
    (binary_erosion_2 : ndarray Z -> ndarray bool)
    (data : ndarray Z) (mask : ndarray Q) (filenames : list string) (th : Q)
    (out : ndarray Z) (p : list nat) :
  (forall x, shape (closing_5 x) = shape x) ->
  voronoi_on_mask_2 threshold_otsu closing_5 binary_erosion_2 data mask
    filenames th = Ok out ->
  in_range p (tl (shape data)) ->
  ~ In p (tl (ids_to_fill threshold_otsu closing_5 th data mask)) ->
  get out (0%nat :: p)
  = if get (closed_binary_mask threshold_otsu closing_5 th mask) p =? 1
    then get data (0%nat :: p) else 0.
Proof. intros Hc. by apply other_voxel_aux. Qed.

(** The row of six voxels: the last voxel keeps its label 7. *)
Lemma voronoi2_erases_the_labels_outside_the_closed_mask_witness :
  exists out,
    voronoi_on_mask_2 (fun _ => 0%Q) no_closing
      (erode_away [[0; 0; 0]; [0; 0; 5]]%nat) example_cells
      example_cells_mask ["a.tif"] (1 # 2) = Ok out /\
    get out [0; 0; 0; 5]%nat = 7.
Proof.
  destruct (voronoi_on_mask_2 (fun _ => 0%Q) no_closing
              (erode_away [[0; 0; 0]; [0; 0; 5]]%nat) example_cells
              example_cells_mask ["a.tif"] (1 # 2)) as [out|e] eqn:E;
    [|vm_compute in E; discriminate].
  exists out. split; [reflexivity|].
  rewrite (voronoi2_erases_the_labels_outside_the_closed_mask
             (fun _ => 0%Q) no_closing
             (erode_away [[0; 0; 0]; [0; 0; 5]]%nat)
             example_cells example_cells_mask ["a.tif"] (1 # 2) out
             [0; 0; 5]%nat);
    [vm_compute; reflexivity|done|exact E|repeat constructor|].
  vm_compute. intros [H|[H|[H|[]]]]; discriminate.
Defined.

(** X25.  The function returns with two or more voxels to fill only if
    there is a perimeter voxel: without one the first pass of the loop
    raises (the minimum of no distance). *)
Theorem voronoi2_needs_a_perimeter_to_fill
    (threshold_otsu : ndarray Q -> Q)
    (closing_5 : ndarray bool -> ndarray bool)
    (binary_erosion_2 : ndarray Z -> ndarray bool)
    (data : ndarray Z) (mask : ndarray Q) (filenames : list string) (th : Q)
    (out : ndarray Z) :
  voronoi_on_mask_2 threshold_otsu closing_5 binary_erosion_2 data mask
    filenames th = Ok out ->
  (2 <= length (ids_to_fill threshold_otsu closing_5 th data mask))%nat ->
  ids_perim threshold_otsu closing_5 binary_erosion_2 th data mask <> [].
Proof.
  intros Hrun Hlen.
  destruct (voronoi2_loop _ _ _ _ _ _ _ _ Hrun) as (_ & _ & v' & Hloop & _).
  destruct (fill_loop _ _ _ _ _ Hloop) as (_ & Hne & _).
  apply Hne. destruct (ids_to_fill _ _ th data mask) as [|p [|p' l]];
    cbn in Hlen; [lia|lia|done].
Qed.

Lemma voronoi2_needs_a_perimeter_to_fill_witness :
  exists out,
    voronoi_on_mask_2 (fun _ => 0%Q) no_closing
      (erode_away [[0; 0; 0]; [0; 0; 5]]%nat) example_cells
      example_cells_mask ["a.tif"] (1 # 2) = Ok out /\
    ids_perim (fun _ => 0%Q) no_closing
      (erode_away [[0; 0; 0]; [0; 0; 5]]%nat) (1 # 2) example_cells
      example_cells_mask <> [].
Proof.
  destruct (voronoi_on_mask_2 (fun _ => 0%Q) no_closing
              (erode_away [[0; 0; 0]; [0; 0; 5]]%nat) example_cells
              example_cells_mask ["a.tif"] (1 # 2)) as [out|e] eqn:E;
    [|vm_compute in E; discriminate].
  exists out. split; [reflexivity|].
  apply (voronoi2_needs_a_perimeter_to_fill
           (fun _ => 0%Q) no_closing (erode_away [[0; 0; 0]; [0; 0; 5]]%nat)
           example_cells example_cells_mask ["a.tif"] (1 # 2) out E).
  vm_compute. lia.
Defined.

(** The same row with an erosion that removes nothing: no perimeter, and
    the call raises. *)
Example voronoi2_without_perimeter_raises :
  voronoi_on_mask_2 (fun _ => 0%Q) no_closing (erode_away []) example_cells
    example_cells_mask ["a.tif"] (1 # 2) = Raise ValueError.
Proof. vm_compute. reflexivity. Qed.

End Voronoi2Proofs.
